(* ===== verification/_CoqProject ===== *)
-Q . S2P
Prelude.v
Exchange.v
Mem.v
Boot.v
Frames.v
Paging.v
PageTables.v
Mapper.v
AddressSpace.v
Heap.v
HeapSpec.v
HeapPages.v
Allocator.v
HeapTables.v
Sched.v
Ring.v
SchedSpec.v
Tss.v
Timer.v
IoApic.v
Lapic.v
Interrupts.v
IrqState.v
Symbols.v
SymbolHeap.v
Faults.v
Text.v
Demangle.v
Mangle.v
Arch.v
Log.v
Font.v
Dump.v
Acpi.v
State.v
Uacpi.v
Kernel.v
BootSeq.v
