(* ===== verification/Prelude.v ===== *)
(** * A verification of the SlayerOS kernel

    SlayerOS is a 64-bit x86 kernel written in C++ ([src/src/kernel], headers in
    [src/src/include]).  This library models its own logic as executable Rocq
    definitions, translated function by function, and proves what makes each
    part correct.  Paths below are relative to [src/src]; the font converter
    [src/misc/f16toc.c] is a program of its own, run when the kernel is built.

    ** The program and its model

    At boot ([kernel/kern.cc]) the kernel gathers what the boot loader left,
    sets up descriptor tables, the frame allocator, interrupt stacks and gates,
    builds its own page tables, collects its symbols, starts the interrupt
    controllers and the timer, and then runs tasks cooperatively.

    - [Boot] ([kernel/bootloader/limine.cc]): the boot context and the ordering
      of the memory map, whose first two entries become the frame pool and its
      bitmap.  The sort itself is in [Exchange], shared with the symbol table.
    - [Frames] ([kernel/mem/frames/frames.cc]): one byte per frame, a search
      cursor; [alloc], [allocs], [free], [init].
    - [Paging] ([kernel/mem/paging/paging.cc]): four-level tables in byte memory,
      [map], [unmap], [map_range], [map_mmio], with the cached translations of
      the processor; [Mapper] ([kernel/mem/map/mapper.cc]) adds the boot mappings
      and [Mem::Paging::init].
    - [Heap] ([kernel/mem/heap/heap.cc]): [kmalloc] and [kfree] on page and
      segment headers in byte memory, over [Frames].
    - [Sched] ([kernel/task/scheduler.cc]): the ring of task structures, in memory,
      over an allocator interface ([Allocator]).
    - [Tss] ([kernel/cpu/tss/tss.cc], [kernel/cpu/gdt/gdt.cc]): descriptors, the
      seven interrupt stacks, the descriptor table.
    - [Timer] ([kernel/cpu/interrupts/pit.cc], [pic.cc], [kernel/sys/timer.cc]).
    - [IoApic] ([kernel/sys/ioapic.cc]) and [Lapic] ([kernel/cpu/lapic/lapic.cc]).
    - [Interrupts] ([kernel/cpu/interrupts/idt.cc], [irq.cc], the interrupt part
      of [kernel/sys/acpi_kapi.cc]): gates, dispatch, registration; [IrqState]
      is the step relation of all operations on that state.
    - [Symbols] ([kernel/err/meta_resolver.cc]): the table of function symbols;
      [Demangle] ([kernel/err/mangle.cc]): readable names, and [Mangle] the compiler's
      mangling that made them; [Faults]
      ([kernel/cpu/interrupts/handler.cc], the helpers of [kernel/err/dump.cc]) and
      [Dump] ([dump_at_addr], [search_repr]): the report of a fault.
    - [Arch] ([kernel/arch/]): the processor queries, SSE, the serial port; [Log]
      ([kernel/dbg/logger/log.cc]) over it.
    - [Acpi] ([kernel/sys/acpi_kapi.cc]): the services the ACPI library calls.  The
      library is not part of the repository; a function of it is a program
      ([Acpi.prog]): it calls services and accesses memory, going on with each reply,
      until it returns.  [Uacpi] runs such programs on the kernel's state, each call
      answered by the service, and holds [kernel/sys/acpi.cc].
    - [Kernel] ([kernel/kern.cc]): the boot sequence over all of these, in stages
      that follow its lines, on one state, the record [State.kernel] of the static
      variables of all components.  Three more files hold no more than what its
      stages need of each other: [HeapTables] (the heap and the page tables draw on
      one frame pool), [SymbolHeap] (the objects of the symbol table, with the loop
      that makes them), [BootSeq] (the sequence as a whole).
    - [Font] ([misc/f16toc.c]); [Text] holds characters and strings for the
      components that print.

    Components share state the way the code does: the frame allocator's state is
    a field of the paging state and of the heap state and is passed on; frames,
    page tables, heap headers and task structures live in one byte memory
    ([Mem]), so that "this operation leaves that structure alone" is a theorem
    about addresses.  The static variables of a source file are the fields of one
    record.  Integers are [Z] with the wrap-around of the source's width written
    at each operation ([u8], [u32], [u64] and the operators of [word_scope]).
    [hhdm] is the offset of the direct map, a boot-time constant.

    Failure is visible in result types: [outcome] (a halt, or a loop cut off by
    its fuel), [option] for a processor fault or an overrun, status values where
    the code returns them.

    ** What is proved

    - [Frames]: the allocator invariant is established by [init] and kept by
      every operation; [alloc] returns the first free frame and changes nothing
      else; [allocs] fails only when no window fits; and two runs in a row
      overlap.
    - [PageTables], [AddressSpace]: the tables form a tree of distinct frames
      ([tables_wf]); [map] and [unmap] change exactly one translation and keep
      cached translations right; [Mem::Paging::init] refines an abstract address
      space given as a list of mapping requests ([Mapper]), in which no kernel
      page is both writable and executable.
    - [HeapSpec], [HeapPages]: the headers in memory refine a list of segments;
      [kmalloc] returns a block apart from every live block and keeps their
      contents; [kfree] frees exactly its block on the first heap page, and what
      happens on later pages and with large blocks is stated too.
    - [Allocator]: the contract the scheduler relies on as a class
      ([AllocatorLaws]), discharged by the heap.
    - [Ring], [SchedSpec]: the task structures form a doubly linked ring
      ([sched_wf]) kept by every operation; [yield] switches to the first
      runnable task after the current one; spawning, killing, cleaning up and
      starting are list operations on the ring.
    - [Tss], [Interrupts], [IoApic], [Lapic], [Timer]: what the code packs into
      descriptors, gates and redirection entries is what the processor's or the
      code's own decoder reads back; a timer interrupt ticks the clock once; a
      sleep returns after exactly its ticks; the register page is mapped before
      it is used; the timer rate chosen is the closest that fits.
    - [IrqState]: in any order of registrations, interrupts, ACPI installations and
      removals, the gate of a vector with a stub stays blank or a ring-0 gate to it; a
      vector without one stays blank until an operation names it, which can leave a
      present gate to address 0.
    - [Symbols], [Faults], [Dump]: an address resolves to the nearest function
      below it, as a reference resolver on a merge-sorted table does; reports decode
      the error code by its bits; the frame walk is bounded; a report terminates
      and marks the faulting instruction except in a stated case.
    - [Demangle], [Mangle]: the demangler inverts the compiler's mangling of names in
      which no compound type is repeated, and reads the compiler's substitutions wrong;
      it returns on names whose nested parts end, and never on those that reach a
      component without a length, the names of [const] member functions.
    - [Arch], [Log], [Font]: exact frequency, register bits, message lengths and
      the bounds of the buffers; the printed array reads back as the font.
    - [Acpi]: mapped regions and ports, and device handles, mean what they were
      opened for in whatever later state keeps their block.
    - [Uacpi]: what the kernel relies on of the ACPI library is the predicate [lawful]
      on its programs: with a budget of frames, it frees, writes and locks its own
      objects only, asks for at most a page at a time and installs no handler, for all
      replies the services may give.  A lawful program returns, and page tables, heap,
      the kernel's own blocks and every translation but those of the regions it maps
      are kept ([run_lawful]).
    - [Kernel]: the memory half of the boot ends with the specified address space
      in which the earlier allocations are still mapped; the interrupt half ends
      with a running clock exactly when enough timer interrupts arrive.
    - [BootSeq]: the whole sequence returns exactly when they do, with tables, heap,
      symbols, gates and clock ready at once: nothing a later stage does damages what
      an earlier one built, the ACPI library's functions, run in two of the stages,
      included.

    Some theorems state defects the model showed: they carry the exact condition
    under which the code does not do what it means to.

    ** Fuel

    Loops over arrays run on the array's own length.  The searches of [Frames]
    take the number of frames left in the pool, which bounds their iterations.
    Walks over linked structures (heap pages and segments, the task ring) take
    fuel; their theorems give the amount that suffices in terms of the length of
    the structure, and [Allocator] shows that more fuel never changes a result.
    The walk over the ACPI table takes one step per byte of the table, enough
    because an entry is at least one byte long.  The demangler's loops take one
    round per byte of the name, and that over a back reference 1025, one more than the
    bytes it can read; that over a nested name need not end and takes the number of
    rounds as an argument ([demangle_returns]).  The report's loops take one round per
    byte of the function.  The ACPI library's programs are well-founded trees, so only
    the heap's loops need fuel while they run.  Sleeps consume the list of interrupts that arrive.

    ** What is not modelled

    The git submodules (support library, drivers, ACPI library, disassembler,
    boot protocol headers) are arguments of the definitions that use them, or
    traces of the calls made: port writes, log lines.  The ACPI library's functions are
    arguments too, but not their effects: these are the calls of the services.  No
    interrupt arrives while the library runs.  So [vsprintf], the spinlock,
    the PCI and port drivers, the ELF and DWARF readers and the disassembler are
    parameters; splash drawing and the terminal are events.  Assembly (the entry
    stubs, the context switch) is represented by the values the C++ code sees,
    except [SSE::enable], whose instructions are translated.  Interrupts are served
    where the code waits for them; the boot sequence is otherwise sequential.
    Headers that only declare what the above define have no definition.

    ** This file

    Machine words, outcomes, the tactics and hint database of the development
    and the lemmas on bit fields. *)
From stdpp Require Import base numbers list gmap.
Local Open Scope Z_scope.

(** ** Machine words

    A [w]-bit unsigned integer of the C++ source is a [Z] in [0, 2^w); every
    arithmetic result that the source stores at a width is passed through the
    wrap-around of that width. *)
Definition u8 (z : Z) : Z := z `mod` 256.
Definition u16 (z : Z) : Z := z `mod` 65536.
Definition u32 (z : Z) : Z := z `mod` 4294967296.
Definition u64 (z : Z) : Z := z `mod` 18446744073709551616.

Definition is_u32 (z : Z) : Prop := 0 <= z < 4294967296.
Definition is_u64 (z : Z) : Prop := 0 <= z < 18446744073709551616.

(** Pointer and [u64] arithmetic of the source: wrap-around addition,
    subtraction and product at 64 bits. *)
Declare Scope word_scope.
Delimit Scope word_scope with W.
Notation "a ⊕ b" := (u64 (a + b)) (at level 50, left associativity) : word_scope.
Notation "a ⊖ b" := (u64 (a - b)) (at level 50, left associativity) : word_scope.
Notation "a ⊗ b" := (u64 (a * b)) (at level 40, left associativity) : word_scope.
Open Scope word_scope.

(** The value of a C++ [bool] read back as an integer. *)
Definition b2z (b : bool) : Z := if b then 1 else 0.

Lemma b2z_range b : 0 <= b2z b <= 1.
Proof. by destruct b. Qed.

(** ** Outcomes

    A call either returns ([Ret]), parks the processor in a [hlt] or an empty
    infinite loop on an error path ([Hlt]), or is cut off by the fuel that
    bounds a pointer-chasing loop ([NoFuel]). *)
Inductive outcome (A : Type) : Type :=
| Ret (a : A)
| Hlt
| NoFuel.
Arguments Ret {A} a.
Arguments Hlt {A}.
Arguments NoFuel {A}.

#[global] Instance outcome_ret : MRet outcome := λ A a, Ret a.
#[global] Instance outcome_bind : MBind outcome := λ A B f c,
  match c with
  | Ret a => f a
  | Hlt => Hlt
  | NoFuel => NoFuel
  end.

(** ** Tactics *)

(** Linear arithmetic with division and modulo by constants. *)
Ltac dlia := Z.div_mod_to_equations; lia.

(** Turn boolean comparisons of the code into propositions. *)
Ltac b2p :=
  repeat match goal with
  | H : (_ && _)%bool = true |- _ => apply andb_true_iff in H; destruct H
  | H : (_ && _)%bool = false |- _ => apply andb_false_iff in H; destruct H
  | H : (_ || _)%bool = false |- _ => apply orb_false_iff in H; destruct H
  | H : (_ || _)%bool = true |- _ => apply orb_true_iff in H; destruct H
  | H : negb _ = true |- _ => apply negb_true_iff in H
  | H : negb _ = false |- _ => apply negb_false_iff in H
  | H : (_ <? _) = true |- _ => apply Z.ltb_lt in H
  | H : (_ <? _) = false |- _ => apply Z.ltb_ge in H
  | H : (_ <=? _) = true |- _ => apply Z.leb_le in H
  | H : (_ <=? _) = false |- _ => apply Z.leb_gt in H
  | H : (_ =? _) = true |- _ => apply Z.eqb_eq in H
  | H : (_ =? _) = false |- _ => apply Z.eqb_neq in H
  end.

(** Case analysis on the first boolean condition of the goal. *)
Ltac case_cond :=
  match goal with
  | |- context [if ?b then _ else _] =>
      lazymatch type of b with bool => destruct b eqn:?; b2p end
  end.

(** Case analysis on the first boolean condition of hypothesis [H]. *)
Ltac case_cond_in H :=
  match type of H with
  | context [if ?b then _ else _] =>
      lazymatch type of b with bool => destruct b eqn:?; b2p end
  end.

(** Decide a boolean condition of the goal by arithmetic. *)
Ltac cond_true :=
  match goal with
  | |- context [if ?b then _ else _] => replace b with true by (symmetry; b2p; lia)
  end.
Ltac cond_false :=
  match goal with
  | |- context [if ?b then _ else _] => replace b with false by (symmetry; b2p; lia)
  end.

(** ** Word lemmas *)

Lemma u8_range z : 0 <= u8 z < 256.
Proof. unfold u8. dlia. Qed.
Lemma u16_range z : 0 <= u16 z < 65536.
Proof. unfold u16. dlia. Qed.
Lemma u32_range z : 0 <= u32 z < 4294967296.
Proof. unfold u32. dlia. Qed.
Lemma u64_range z : 0 <= u64 z < 18446744073709551616.
Proof. unfold u64. dlia. Qed.

Lemma u8_id z : 0 <= z < 256 → u8 z = z.
Proof. apply Z.mod_small. Qed.
Lemma u16_id z : 0 <= z < 65536 → u16 z = z.
Proof. apply Z.mod_small. Qed.
Lemma u32_id z : 0 <= z < 4294967296 → u32 z = z.
Proof. apply Z.mod_small. Qed.
Lemma u64_id z : 0 <= z < 18446744073709551616 → u64 z = z.
Proof. apply Z.mod_small. Qed.

Create HintDb words.
Create Rewrite HintDb words.
#[export] Hint Resolve u8_range u16_range u32_range u64_range : words.
#[export] Hint Rewrite u8_id u16_id u32_id u64_id using lia : words.

(** Remove the wrap-around of every word operation whose operands are known to
    stay in range. *)
Ltac nowrap :=
  repeat match goal with
  | |- context [u64 ?z] => rewrite (u64_id z) by lia
  | |- context [u32 ?z] => rewrite (u32_id z) by lia
  | |- context [u16 ?z] => rewrite (u16_id z) by lia
  | |- context [u8 ?z] => rewrite (u8_id z) by lia
  end.

(** ** Bit fields as division and modulo *)

Lemma land_ones_mod (x n : Z) : 0 <= n → Z.land x (Z.ones n) = x `mod` 2 ^ n.
Proof. apply Z.land_ones. Qed.

(** [(x >> k) & (2^n - 1)]. *)
Lemma shiftr_land_ones (x k n : Z) :
  0 <= k → 0 <= n → Z.land (Z.shiftr x k) (Z.ones n) = (x `div` 2 ^ k) `mod` 2 ^ n.
Proof. intros. by rewrite Z.land_ones, Z.shiftr_div_pow2. Qed.

(** Or-ing a value below [2^n] into a multiple of [2^n] is addition. *)
Lemma lor_disjoint_add (a b n : Z) :
  0 <= n → 0 <= b < 2 ^ n → Z.lor (a * 2 ^ n) b = a * 2 ^ n + b.
Proof.
  intros Hn Hb. rewrite <- Z.add_lor_land.
  replace (Z.land (a * 2 ^ n) b) with 0; [lia|].
  symmetry. apply Z.bits_inj'. intros i Hi.
  rewrite Z.land_spec, Z.bits_0, <- Z.shiftl_mul_pow2 by lia.
  destruct (decide (i < n)) as [Hlt|Hge].
  - rewrite Z.shiftl_spec_low by lia. done.
  - rewrite <- (Z.mod_small b (2 ^ n)) by lia.
    rewrite Z.mod_pow2_bits_high by lia. apply andb_false_r.
Qed.

(** [r |= x << k] on a field of [r] that is still clear. *)
Lemma lor_shiftl_add (r x k : Z) :
  0 <= k → 0 <= r < 2 ^ k → Z.lor r (Z.shiftl x k) = r + x * 2 ^ k.
Proof.
  intros. rewrite Z.lor_comm, Z.shiftl_mul_pow2, lor_disjoint_add by lia. lia.
Qed.

(** The bit field of width [n] at position [k], as the manuals number bits. *)
Definition field (x k n : Z) : Z := (x `div` 2 ^ k) `mod` 2 ^ n.

(** A field of a sum laid out below, at and above the field. *)
Lemma field_at (x k n l m h : Z) :
  0 <= k → 0 <= n → x = l + 2 ^ k * (m + 2 ^ n * h) →
  0 <= l < 2 ^ k → 0 <= m < 2 ^ n → field x k n = m.
Proof.
  intros Hk Hn -> Hl Hm. unfold field.
  rewrite (Z.mul_comm (2 ^ k)), Z.div_add, Z.div_small, Z.add_0_l by lia.
  rewrite (Z.mul_comm (2 ^ n)), Z.mod_add, Z.mod_small by lia. done.
Qed.

(** [(x >> k) & mask] for an all-ones mask. *)
Lemma land_field (x k n mask : Z) :
  0 <= k → 0 <= n → mask = 2 ^ n - 1 → Z.land (Z.shiftr x k) mask = field x k n.
Proof.
  intros Hk Hn ->. unfold field. rewrite <- shiftr_land_ones by done.
  by rewrite Z.ones_equiv, <- Z.sub_1_r.
Qed.

Lemma field_range x k n : 0 <= n → 0 <= field x k n < 2 ^ n.
Proof. intros. apply Z.mod_pos_bound. lia. Qed.

(** A word is the sum of its low part and the field above it. *)
Lemma field_split x n k : 0 <= n → 0 <= k → 0 <= x < 2 ^ (n + k) →
  x = field x 0 n + 2 ^ n * field x n k.
Proof.
  intros Hn Hk Hx. unfold field. rewrite Z.div_1_r.
  rewrite Z.pow_add_r in Hx by done.
  rewrite (Z.mod_small (x `div` 2 ^ n)).
  - rewrite Z.add_comm. apply Z.div_mod. lia.
  - split; [apply Z.div_pos; lia|apply Z.div_lt_upper_bound; lia].
Qed.

(** ** Lists *)

Lemma filter_none {A} (P : A → Prop) `{∀ x, Decision (P x)} (l : list A) :
  (∀ x, x ∈ l → ¬ P x) → filter P l = [].
Proof.
  induction l as [|x l IH]; intros Hl; [done|]. rewrite filter_cons_False by (apply Hl; left).
  apply IH. intros y Hy. apply Hl. by right.
Qed.

Lemma filter_all {A} (P : A → Prop) `{∀ x, Decision (P x)} (l : list A) :
  (∀ x, x ∈ l → P x) → filter P l = l.
Proof.
  induction l as [|x l IH]; intros Hl; [done|]. rewrite filter_cons_True by (apply Hl; left).
  f_equal. apply IH. intros y Hy. apply Hl. by right.
Qed.
