(* ===== verification/Exchange.v ===== *)
(** * Exchange: the exchange sort the kernel uses on its tables.

    [sort_memmap] of [src/kernel/bootloader/limine.cc] and [sort_symbol_table] of
    [src/kernel/err/meta_resolver.cc] are the same two nested loops over an array
    of pointers, with different tests.  The loops are defined here once, for a
    test [swap x y] ("exchange, when [x] stands before [y]"), and shown to
    permute the table and to leave no exchange to make. *)
From stdpp Require Import base numbers list sorting.
From S2P Require Import Prelude.

Section exchange.
Context {A : Type} (swap : A → A → bool).

(** The test and the exchange of positions [i < j]. *)
Definition exchange_step (l : list A) (i j : nat) : list A :=
  match l !! i, l !! j with
  | Some x, Some y => if swap x y then <[j := x]> (<[i := y]> l) else l
  | _, _ => l
  end.

(** [for (j = i + 1; j < count; j++)], [n] iterations from [j]. *)
Fixpoint exchange_inner (n : nat) (l : list A) (i j : nat) : list A :=
  match n with
  | O => l
  | S n => exchange_inner n (exchange_step l i j) i (S j)
  end.

(** [for (i = 0; i < count; i++)], [n] iterations from [i]. *)
Fixpoint exchange_outer (n : nat) (l : list A) (i : nat) : list A :=
  match n with
  | O => l
  | S n => exchange_outer n (exchange_inner (length l - S i) l i (S i)) (S i)
  end.

Definition exchange_sort (l : list A) : list A := exchange_outer (length l) l 0.
End exchange.

(** What a test must satisfy for the loops to sort: an exchange is not undone,
    and what the replaced element was in order with, its replacement is too. *)
Class ExchangeTest {A} (swap : A → A → bool) : Prop := {
  swap_asym : ∀ x y, swap x y = true → swap y x = false;
  swap_keeps : ∀ x y z, swap x y = true → swap x z = false → swap y z = false;
}.

(** Exchanging two positions permutes a list. *)
Lemma swap_Permutation {A} (l : list A) i j x y :
  l !! i = Some x → l !! j = Some y → <[j := x]> (<[i := y]> l) ≡ₚ l.
Proof.
  intros Hi Hj. destruct (decide (i = j)) as [->|Hij].
  - by rewrite list_insert_insert_eq, list_insert_id.
  - pose proof (lookup_lt_Some _ _ _ Hi). pose proof (lookup_lt_Some _ _ _ Hj).
    apply Permutation_inj. split; [by rewrite !length_insert|].
    exists (λ k, if decide (k = i) then j else if decide (k = j) then i else k).
    split.
    + intros k k'. repeat case_decide; congruence.
    + intros k. repeat case_decide; subst.
      * rewrite list_lookup_insert_ne, list_lookup_insert_eq by done. done.
      * rewrite list_lookup_insert_eq by (by rewrite length_insert). done.
      * by rewrite !list_lookup_insert_ne by done.
Qed.

Section sorted.
Context {A : Type} (swap : A → A → bool).

Lemma exchange_step_Permutation l i j : exchange_step swap l i j ≡ₚ l.
Proof.
  unfold exchange_step. destruct (l !! i) eqn:Hi; [|done].
  destruct (l !! j) eqn:Hj; [|done]. case_cond; [|done]. by apply swap_Permutation.
Qed.

Lemma exchange_inner_Permutation n l i j : exchange_inner swap n l i j ≡ₚ l.
Proof.
  revert l j; induction n as [|n IH]; intros l j; [done|].
  simpl. by rewrite IH, exchange_step_Permutation.
Qed.

Lemma exchange_outer_Permutation n l i : exchange_outer swap n l i ≡ₚ l.
Proof.
  revert l i; induction n as [|n IH]; intros l i; [done|].
  simpl. by rewrite IH, exchange_inner_Permutation.
Qed.

Lemma exchange_sort_Permutation l : exchange_sort swap l ≡ₚ l.
Proof. apply exchange_outer_Permutation. Qed.

(** Position [i] is settled: it needs no exchange with any later position. *)
Definition settled (l : list A) (i : nat) : Prop :=
  ∀ x, l !! i = Some x → Forall (λ y, swap x y = false) (drop (S i) l).

Lemma exchange_step_before l i j k :
  (k < i)%nat → (i < j)%nat → exchange_step swap l i j !! k = l !! k.
Proof.
  intros. unfold exchange_step. destruct (l !! i); [|done]. destruct (l !! j); [|done].
  case_cond; [|done]. by rewrite !list_lookup_insert_ne by lia.
Qed.

Lemma exchange_inner_before n l i j k :
  (k < i)%nat → (i < j)%nat → exchange_inner swap n l i j !! k = l !! k.
Proof.
  revert l j; induction n as [|n IH]; intros l j Hk Hj; [done|].
  simpl. rewrite IH by lia. by apply exchange_step_before.
Qed.

Context {Htest : ExchangeTest swap}.

(** One step settles position [i] with respect to [j] and keeps it settled with
    respect to the positions between them. *)
Lemma exchange_step_settles l i j :
  (i < j)%nat →
  (∀ k x y, (i < k < j)%nat → l !! i = Some x → l !! k = Some y → swap x y = false) →
  ∀ k x y, (i < k < S j)%nat → exchange_step swap l i j !! i = Some x →
    exchange_step swap l i j !! k = Some y → swap x y = false.
Proof.
  intros Hij Hl k x y Hk. unfold exchange_step.
  destruct (l !! i) as [xi|] eqn:Hi; [|congruence].
  destruct (l !! j) as [xj|] eqn:Hj.
  - pose proof (lookup_lt_Some _ _ _ Hi). pose proof (lookup_lt_Some _ _ _ Hj).
    destruct (swap xi xj) eqn:Hc.
    + rewrite list_lookup_insert_ne, list_lookup_insert_eq by lia. intros [= <-].
      destruct (decide (k = j)) as [->|].
      * rewrite list_lookup_insert_eq by (rewrite length_insert; lia).
        intros [= <-]. by apply swap_asym.
      * rewrite !list_lookup_insert_ne by lia. intros Hk'.
        eapply swap_keeps; [exact Hc|]. apply (Hl k); [lia|done|done].
    + rewrite Hi. intros [= <-]. destruct (decide (k = j)) as [->|]; [congruence|].
      intros. apply (Hl k); [lia|done|done].
  - rewrite Hi. intros [= <-]. intros Hk'. apply (Hl k); [|done|done].
    assert (k ≠ j) by congruence. lia.
Qed.

Lemma exchange_inner_settles n l i j :
  (i < j)%nat →
  (∀ k x y, (i < k < j)%nat → l !! i = Some x → l !! k = Some y → swap x y = false) →
  ∀ k x y, (i < k < n + j)%nat → exchange_inner swap n l i j !! i = Some x →
    exchange_inner swap n l i j !! k = Some y → swap x y = false.
Proof.
  revert l j; induction n as [|n IH]; intros l j Hij Hl k x y Hk; simpl; [by apply Hl|].
  apply IH; [lia| |lia]. by apply exchange_step_settles.
Qed.

Lemma exchange_inner_settled l i :
  settled (exchange_inner swap (length l - S i) l i (S i)) i.
Proof.
  intros x Hx. apply Forall_lookup. intros k y Hk. rewrite lookup_drop in Hk.
  pose proof (lookup_lt_Some _ _ _ Hk) as Hlt.
  rewrite (Permutation_length (exchange_inner_Permutation _ _ _ _)) in Hlt.
  eapply (exchange_inner_settles (length l - S i)); [| |..|exact Hx|exact Hk]; lia.
Qed.

(** Positions settled earlier stay settled while later ones are permuted. *)
Lemma settled_stable l l' k :
  l' ≡ₚ l → (∀ i, (i <= k)%nat → l' !! i = l !! i) → settled l k → settled l' k.
Proof.
  intros Hp Hk Hs x Hx. rewrite Hk in Hx by lia. specialize (Hs x Hx).
  assert (drop (S k) l' ≡ₚ drop (S k) l) as Hd; [|by rewrite Hd].
  assert (take (S k) l' = take (S k) l) as Ht.
  { apply list_eq. intros i. rewrite !lookup_take. case_decide; [apply Hk; lia|done]. }
  apply (Permutation_app_inv_l (take (S k) l)).
  rewrite <- Ht at 1. by rewrite !take_drop.
Qed.

Lemma exchange_outer_settled n l i :
  (i + n = length l)%nat → (∀ k, (k < i)%nat → settled l k) →
  ∀ k, (k < length l)%nat → settled (exchange_outer swap n l i) k.
Proof.
  revert l i; induction n as [|n IH]; intros l i Hn Hl k Hk; simpl; [apply Hl; lia|].
  assert (exchange_inner swap (length l - S i) l i (S i) ≡ₚ l) as Hp
    by apply exchange_inner_Permutation.
  pose proof (Permutation_length Hp) as Hlen.
  apply IH; [lia| |lia]. intros k' Hk'. destruct (decide (k' = i)) as [->|].
  - apply exchange_inner_settled.
  - apply (settled_stable l); [done| |apply Hl; lia].
    intros i' Hi'. apply exchange_inner_before; lia.
Qed.

(** No exchange is left to make in the sorted table. *)
Lemma exchange_sort_ordered l i j x y :
  (i < j)%nat → exchange_sort swap l !! i = Some x → exchange_sort swap l !! j = Some y →
  swap x y = false.
Proof.
  intros Hij Hi Hj. pose proof (Permutation_length (exchange_sort_Permutation l)) as Hlen.
  pose proof (lookup_lt_Some _ _ _ Hi).
  assert (settled (exchange_sort swap l) i) as Hs
    by (apply exchange_outer_settled; [lia|intros; lia|lia]).
  specialize (Hs x Hi). rewrite Forall_lookup in Hs.
  apply (Hs (j - S i)%nat y). rewrite lookup_drop, <- Hj. f_equal. lia.
Qed.
End sorted.
