(* ===== verification/Mem.v ===== *)
(** * Mem: the byte-addressed memory the kernel runs on.

    Every kernel data structure whose layout the source fixes (the frame
    bitmap, the page tables, the heap's page and segment headers, the task
    control blocks) lives in one memory of bytes, as it does on the machine.
    A C++ object access is a little-endian load or store of its width, and
    [memset] is the C library's. *)
From stdpp Require Import base numbers list.
From S2P Require Import Prelude.
Local Open Scope Z_scope.

(** A memory maps every address to the byte it holds; what the boot loader left
    in it is arbitrary. *)
Definition mem := Z → Z.

Fixpoint load (n : nat) (m : mem) (a : Z) : Z :=
  match n with
  | O => 0
  | S n => u8 (m a) + 256 * load n m (a + 1)
  end.

(** The byte of [v] with weight [256^i]. *)
Definition byte_of (v i : Z) : Z := (v `div` 256 ^ i) `mod` 256.

Definition store (n : nat) (m : mem) (a v : Z) : mem := λ i,
  if (a <=? i) && (i <? a + Z.of_nat n) then byte_of v (i - a) else m i.

Definition memset (m : mem) (a c n : Z) : mem := λ i,
  if (a <=? i) && (i <? a + n) then u8 c else m i.

(** [memcpy] of [n] bytes; source and destination do not overlap in the calls
    of the kernel. *)
Definition memcpy (m : mem) (dst src n : Z) : mem := λ i,
  if (dst <=? i) && (i <? dst + n) then m (src + (i - dst)) else m i.

Definition load8 : mem → Z → Z := load 1.
Definition load32 : mem → Z → Z := load 4.
Definition load64 : mem → Z → Z := load 8.
Definition store8 : mem → Z → Z → mem := store 1.
Definition store32 : mem → Z → Z → mem := store 4.
Definition store64 : mem → Z → Z → mem := store 8.

(** Two memories hold the same bytes on [[lo, hi)]. *)
Definition same_on (lo hi : Z) (m m' : mem) : Prop :=
  ∀ i, lo <= i < hi → m' i = m i.

(** The ranges [[a, a + n)] and [[b, b + k)] share no address. *)
Definition apart (a n b k : Z) : Prop := a + n <= b ∨ b + k <= a.

(** ** Loads *)

Lemma load_range n m a : 0 <= load n m a < 256 ^ Z.of_nat n.
Proof.
  revert a; induction n as [|n IH]; intros a; [simpl; lia|].
  simpl load. specialize (IH (a + 1)). pose proof (u8_range (m a)).
  rewrite Nat2Z.inj_succ, Z.pow_succ_r by lia. lia.
Qed.

Lemma load8_range m a : 0 <= load8 m a < 256.
Proof. apply (load_range 1). Qed.
Lemma load32_range m a : 0 <= load32 m a < 4294967296.
Proof. apply (load_range 4). Qed.
Lemma load64_range m a : 0 <= load64 m a < 18446744073709551616.
Proof. apply (load_range 8). Qed.

Lemma load8_eq m a : load8 m a = u8 (m a).
Proof. unfold load8. simpl. lia. Qed.

Lemma load_ext n m m' a :
  same_on a (a + Z.of_nat n) m m' → load n m' a = load n m a.
Proof.
  revert a; induction n as [|n IH]; intros a Hs; [done|].
  simpl. f_equal; [rewrite Hs by lia; done|].
  rewrite IH; [done|]. intros i Hi. apply Hs. lia.
Qed.

(** ** Stores *)

Lemma store_out n m a v i :
  i < a ∨ a + Z.of_nat n <= i → store n m a v i = m i.
Proof. intros H. unfold store. case_cond; first [lia|done]. Qed.

Lemma store_in n m a v i :
  a <= i < a + Z.of_nat n → store n m a v i = byte_of v (i - a).
Proof. intros H. unfold store. case_cond; first [done|lia]. Qed.

Lemma load_bytes n v (f : mem) a k :
  0 <= k →
  (∀ i, a <= i < a + Z.of_nat n → f i = byte_of v (i - a + k)) →
  load n f a = (v `div` 256 ^ k) `mod` 256 ^ Z.of_nat n.
Proof.
  revert a k; induction n as [|n IH]; intros a k Hk Hf.
  - simpl. rewrite Z.mod_1_r. done.
  - simpl. rewrite Hf by lia.
    rewrite (IH (a + 1) (k + 1)); [|lia|intros i Hi; rewrite Hf by lia; f_equal; lia].
    replace (a - a + k) with k by lia. unfold byte_of.
    rewrite u8_id by (apply Z.mod_pos_bound; lia).
    rewrite Nat2Z.inj_succ, Z.pow_succ_r, Z.rem_mul_r by lia.
    rewrite Z.pow_add_r, <- Z.div_div by lia. done.
Qed.

Lemma load_store_eq n m a v :
  load n (store n m a v) a = v `mod` 256 ^ Z.of_nat n.
Proof.
  rewrite (load_bytes n v _ a 0); [by rewrite Z.div_1_r|lia|].
  intros i Hi. rewrite store_in by lia. f_equal; lia.
Qed.

Lemma load_store_ne n k m a b v :
  apart a (Z.of_nat n) b (Z.of_nat k) → load n (store k m b v) a = load n m a.
Proof.
  intros H. apply load_ext. intros i Hi. apply store_out.
  unfold apart in H. lia.
Qed.

Lemma load8_store8 m a v : 0 <= v < 256 → load8 (store8 m a v) a = v.
Proof. intros. unfold load8, store8. rewrite load_store_eq. by apply Z.mod_small. Qed.
Lemma load32_store32 m a v : is_u32 v → load32 (store32 m a v) a = v.
Proof. intros. unfold load32, store32. rewrite load_store_eq. by apply Z.mod_small. Qed.
Lemma load64_store64 m a v : is_u64 v → load64 (store64 m a v) a = v.
Proof. intros. unfold load64, store64. rewrite load_store_eq. by apply Z.mod_small. Qed.

(** ** memset *)

Lemma memset_out m a c n i : i < a ∨ a + n <= i → memset m a c n i = m i.
Proof. intros H. unfold memset. case_cond; first [lia|done]. Qed.

Lemma memset_in m a c n i : a <= i < a + n → memset m a c n i = u8 c.
Proof. intros H. unfold memset. case_cond; first [done|lia]. Qed.

Lemma load_memset_ne k m a c n b :
  apart b (Z.of_nat k) a n → load k (memset m a c n) b = load k m b.
Proof.
  intros H. apply load_ext. intros i Hi. apply memset_out. unfold apart in H. lia.
Qed.

Lemma load_zero k m b :
  (∀ i, b <= i < b + Z.of_nat k → u8 (m i) = 0) → load k m b = 0.
Proof.
  revert b; induction k as [|k IH]; intros b H; [done|].
  simpl. rewrite H, IH by (try lia; intros; apply H; lia). done.
Qed.

Lemma load_memset_zero k m a n b :
  a <= b → b + Z.of_nat k <= a + n → load k (memset m a 0 n) b = 0.
Proof. intros. apply load_zero. intros i Hi. rewrite memset_in by lia. done. Qed.

(** ** The same facts at the widths the kernel uses *)

Lemma same_on_refl lo hi m : same_on lo hi m m.
Proof. done. Qed.

Lemma same_on_trans lo hi m1 m2 m3 :
  same_on lo hi m1 m2 → same_on lo hi m2 m3 → same_on lo hi m1 m3.
Proof. intros H1 H2 i Hi. rewrite H2, H1 by done. done. Qed.

Lemma same_on_weaken lo hi lo' hi' m m' :
  lo <= lo' → hi' <= hi → same_on lo hi m m' → same_on lo' hi' m m'.
Proof. intros ? ? H i Hi. apply H. lia. Qed.

Lemma same_on_store n lo hi m a v :
  hi <= a ∨ a + Z.of_nat n <= lo → same_on lo hi m (store n m a v).
Proof. intros H i Hi. apply store_out. lia. Qed.

Lemma same_on_memset lo hi m a c n :
  hi <= a ∨ a + n <= lo → same_on lo hi m (memset m a c n).
Proof. intros H i Hi. apply memset_out. lia. Qed.

Section Widths.

Lemma load8_ne_store8 m a b v : a ≠ b → load8 (store8 m b v) a = load8 m a.
Proof. intros. apply (load_store_ne 1 1). unfold apart. lia. Qed.

Lemma load8_ne_store32 m a b v :
  apart a 1 b 4 → load8 (store32 m b v) a = load8 m a.
Proof. apply (load_store_ne 1 4). Qed.
Lemma load8_ne_store64 m a b v :
  apart a 1 b 8 → load8 (store64 m b v) a = load8 m a.
Proof. apply (load_store_ne 1 8). Qed.
Lemma load32_ne_store8 m a b v :
  apart a 4 b 1 → load32 (store8 m b v) a = load32 m a.
Proof. apply (load_store_ne 4 1). Qed.
Lemma load32_ne_store32 m a b v :
  apart a 4 b 4 → load32 (store32 m b v) a = load32 m a.
Proof. apply (load_store_ne 4 4). Qed.
Lemma load32_ne_store64 m a b v :
  apart a 4 b 8 → load32 (store64 m b v) a = load32 m a.
Proof. apply (load_store_ne 4 8). Qed.
Lemma load64_ne_store8 m a b v :
  apart a 8 b 1 → load64 (store8 m b v) a = load64 m a.
Proof. apply (load_store_ne 8 1). Qed.
Lemma load64_ne_store32 m a b v :
  apart a 8 b 4 → load64 (store32 m b v) a = load64 m a.
Proof. apply (load_store_ne 8 4). Qed.
Lemma load64_ne_store64 m a b v :
  apart a 8 b 8 → load64 (store64 m b v) a = load64 m a.
Proof. apply (load_store_ne 8 8). Qed.
Lemma load8_ne_memset m a b c n :
  apart a 1 b n → load8 (memset m b c n) a = load8 m a.
Proof. apply (load_memset_ne 1). Qed.
Lemma load32_ne_memset m a b c n :
  apart a 4 b n → load32 (memset m b c n) a = load32 m a.
Proof. apply (load_memset_ne 4). Qed.
Lemma load64_ne_memset m a b c n :
  apart a 8 b n → load64 (memset m b c n) a = load64 m a.
Proof. apply (load_memset_ne 8). Qed.

Lemma load8_same_on m m' a : same_on a (a + 1) m m' → load8 m' a = load8 m a.
Proof. apply (load_ext 1). Qed.
Lemma load32_same_on m m' a : same_on a (a + 4) m m' → load32 m' a = load32 m a.
Proof. apply (load_ext 4). Qed.
Lemma load64_same_on m m' a : same_on a (a + 8) m m' → load64 m' a = load64 m a.
Proof. apply (load_ext 8). Qed.

End Widths.

(** [simpl_mem] rewrites a load through the stores below it whenever arithmetic
    shows that the access is the stored object itself or lies apart from it. *)
Ltac solve_apart := solve [unfold apart; lia].
Ltac solve_fits := solve [done | unfold is_u32, is_u64 in *; lia].
Ltac simpl_mem := repeat match goal with
  | |- context [load8 (store8 ?m ?b ?v) ?a] => first
      [ constr_eq a b; rewrite (load8_store8 m a v) by lia
      | rewrite (load8_ne_store8 m a b v) by lia ]
  | |- context [load32 (store32 ?m ?b ?v) ?a] => first
      [ constr_eq a b; rewrite (load32_store32 m a v) by solve_fits
      | rewrite (load32_ne_store32 m a b v) by solve_apart
      | replace (load32 (store32 m b v) a) with v
          by (replace a with b by lia; symmetry; apply load32_store32; solve_fits) ]
  | |- context [load64 (store64 ?m ?b ?v) ?a] => first
      [ constr_eq a b; rewrite (load64_store64 m a v) by solve_fits
      | rewrite (load64_ne_store64 m a b v) by solve_apart
      | replace (load64 (store64 m b v) a) with v
          by (replace a with b by lia; symmetry; apply load64_store64; solve_fits) ]
  | |- context [load8 (store32 ?m ?b ?v) ?a] => rewrite (load8_ne_store32 m a b v) by solve_apart
  | |- context [load8 (store64 ?m ?b ?v) ?a] => rewrite (load8_ne_store64 m a b v) by solve_apart
  | |- context [load32 (store8 ?m ?b ?v) ?a] => rewrite (load32_ne_store8 m a b v) by solve_apart
  | |- context [load32 (store64 ?m ?b ?v) ?a] => rewrite (load32_ne_store64 m a b v) by solve_apart
  | |- context [load64 (store8 ?m ?b ?v) ?a] => rewrite (load64_ne_store8 m a b v) by solve_apart
  | |- context [load64 (store32 ?m ?b ?v) ?a] => rewrite (load64_ne_store32 m a b v) by solve_apart
  | |- context [load8 (memset ?m ?b ?c ?n) ?a] => rewrite (load8_ne_memset m a b c n) by solve_apart
  | |- context [load32 (memset ?m ?b ?c ?n) ?a] => rewrite (load32_ne_memset m a b c n) by solve_apart
  | |- context [load64 (memset ?m ?b ?c ?n) ?a] => rewrite (load64_ne_memset m a b c n) by solve_apart
  end.

(** A byte outside the objects stored is the byte below the stores. *)
Ltac frame_store :=
  unfold store8, store32, store64; rewrite ?store_out by (simpl; lia); try done.

#[global] Arguments load : simpl never.
#[global] Arguments store : simpl never.
#[global] Arguments load8 : simpl never.
#[global] Arguments load32 : simpl never.
#[global] Arguments load64 : simpl never.
#[global] Arguments store8 : simpl never.
#[global] Arguments store32 : simpl never.
#[global] Arguments store64 : simpl never.
#[global] Arguments memset : simpl never.
