(* ===== verification/Boot.v ===== *)
(** * Boot: the boot context gathered from Limine.

    [src/include/bootloader/limine.h], [src/kernel/bootloader/limine.cc] and the
    address macros of [src/include/mem/frames.h].  The responses of the boot
    loader are an input ([limine]); [gather] copies them into the boot context
    and orders the memory map with [sort_memmap]. *)
From stdpp Require Import base numbers list sorting.
From S2P Require Import Prelude Exchange.
Local Open Scope Z_scope.

(** The kinds of memory-map entries the kernel tells apart; every other kind of
    the protocol behaves alike. *)
Inductive memmap_type :=
| LIMINE_MEMMAP_USABLE
| LIMINE_MEMMAP_BOOTLOADER_RECLAIMABLE
| LIMINE_MEMMAP_FRAMEBUFFER
| LIMINE_MEMMAP_OTHER (kind : Z).

#[global] Instance memmap_type_eq_dec : EqDecision memmap_type.
Proof. solve_decision. Defined.

(** [struct limine_memmap_entry]. *)
Record memmap_entry := mk_entry {
  e_base : Z;
  e_length : Z;
  e_type : memmap_type;
}.

#[global] Instance memmap_entry_eq_dec : EqDecision memmap_entry.
Proof. solve_decision. Defined.

Definition usable (e : memmap_entry) : bool :=
  bool_decide (e_type e = LIMINE_MEMMAP_USABLE).

(** What the boot loader answered. *)
Record limine := mk_limine {
  info_name : Z;
  info_version : Z;
  memmap_response : list memmap_entry;
  hhdm_offset : Z;
  virtual_base : Z;
  physical_base : Z;
  fb_response : Z;
  kernel_file_ptr : Z;
  rsdp_address : Z;
}.

(** [class BootloaderCtx]; [memmap_entries_count] is the length of the list. *)
Record BootloaderCtx := mk_ctx {
  name : Z;
  version : Z;
  memmap_entries : list memmap_entry;
  hhdm_addr : Z;
  kern_address_virt : Z;
  kern_address_phys : Z;
  fb_info : Z;
  kernel_file : Z;
  rsdp_addr : Z;
}.

(** The address macros of [mem/frames.h]. *)
Definition FRAME_SIZE : Z := 4096.
Definition PHYS2VIRT (hhdm addr : Z) : Z := hhdm ⊕ addr.
Definition VIRT2PHYS (hhdm addr : Z) : Z := addr ⊖ hhdm.

(** The test of [sort_memmap]'s inner body, for the entries at [i < j]. *)
Definition swap_entries (ei ej : memmap_entry) : bool :=
  negb (usable ei) && (e_length ei <? e_length ej).

Definition sort_memmap (l : list memmap_entry) : list memmap_entry :=
  exchange_sort swap_entries l.

Definition gather (r : limine) : BootloaderCtx :=
  {| name := info_name r;
     version := info_version r;
     memmap_entries := sort_memmap (memmap_response r);
     hhdm_addr := hhdm_offset r;
     kern_address_virt := virtual_base r;
     kern_address_phys := physical_base r;
     fb_info := fb_response r;
     kernel_file := kernel_file_ptr r;
     rsdp_addr := rsdp_address r ⊖ hhdm_offset r |}.

(** ** The translation macros invert each other *)

Lemma PHYS2VIRT_VIRT2PHYS hhdm a : is_u64 a → PHYS2VIRT hhdm (VIRT2PHYS hhdm a) = a.
Proof. unfold is_u64, PHYS2VIRT, VIRT2PHYS, u64. intros. dlia. Qed.

Lemma VIRT2PHYS_PHYS2VIRT hhdm a : is_u64 a → VIRT2PHYS hhdm (PHYS2VIRT hhdm a) = a.
Proof. unfold is_u64, PHYS2VIRT, VIRT2PHYS, u64. intros. dlia. Qed.

(** ** sort_memmap *)

#[global] Instance swap_entries_ok : ExchangeTest swap_entries.
Proof.
  split; unfold swap_entries; intros.
  - b2p. apply andb_false_iff. right. lia.
  - b2p; [congruence|]. apply andb_false_iff. right. lia.
Qed.

(** An entry that needs no exchange with a later one is usable or at least as
    long. *)
Lemma swap_entries_false e e' :
  swap_entries e e' = false ↔ usable e = true ∨ e_length e' <= e_length e.
Proof.
  unfold swap_entries. rewrite andb_false_iff, negb_false_iff, Z.ltb_ge. done.
Qed.

(** ** Properties *)

(** [sort_memmap] only reorders the memory map, and in the result every
    entry is usable or at least as long as each entry after it. *)
Theorem sort_memmap_correct l :
  sort_memmap l ≡ₚ l ∧
  ∀ i j ei ej, (i < j)%nat → sort_memmap l !! i = Some ei → sort_memmap l !! j = Some ej →
    usable ei = true ∨ e_length ej <= e_length ei.
Proof.
  split; [apply exchange_sort_Permutation|]. intros i j ei ej Hij Hi Hj.
  apply swap_entries_false. by eapply (exchange_sort_ordered swap_entries).
Qed.

(** If some usable entry is longer than every entry of another kind, the
    entry that becomes the frame pool (the first one) is usable. *)
Theorem sort_memmap_pool_usable l e :
  e ∈ l → usable e = true → (∀ e', e' ∈ l → usable e' = false → e_length e' < e_length e) →
  ∃ e0, sort_memmap l !! 0%nat = Some e0 ∧ usable e0 = true.
Proof.
  intros He Hu Hlong. pose proof (exchange_sort_Permutation swap_entries l : sort_memmap l ≡ₚ l) as Hp.
  rewrite <- Hp in He. apply list_elem_of_lookup in He as [k Hk].
  destruct (sort_memmap l) as [|e0 rest] eqn:E; [done|].
  exists e0. split; [done|]. destruct (usable e0) eqn:Hu0; [done|exfalso].
  assert (e0 ∈ l) as He0 by (rewrite <- Hp; by left). specialize (Hlong e0 He0 Hu0).
  destruct k as [|k]; [simpl in Hk; congruence|].
  pose proof (exchange_sort_ordered swap_entries l 0 (S k) e0 e ltac:(lia)) as Ho.
  change (exchange_sort swap_entries l) with (sort_memmap l) in Ho. rewrite E in Ho.
  apply swap_entries_false in Ho as [?|?]; [congruence|lia|done|done].
Qed.

(** The map is not ordered by usable size: a reserved entry longer than the
    usable ones stays in front of them, and so becomes the frame pool. *)
Theorem sort_memmap_reserved_first :
  sort_memmap [mk_entry 0xfd00000000 0x300000000 (LIMINE_MEMMAP_OTHER 1);
               mk_entry 0x100000 0x7ee0000 LIMINE_MEMMAP_USABLE;
               mk_entry 0x1000 0x9e000 LIMINE_MEMMAP_USABLE] !! 0%nat =
  Some (mk_entry 0xfd00000000 0x300000000 (LIMINE_MEMMAP_OTHER 1)).
Proof. reflexivity. Qed.

Lemma sort_memmap_pool_usable_witness :
  ∃ e0, sort_memmap [mk_entry 0 0x1000 (LIMINE_MEMMAP_OTHER 1);
                     mk_entry 0x1000 0x9e000 LIMINE_MEMMAP_USABLE] !! 0%nat = Some e0 ∧
    usable e0 = true.
Proof.
  apply (sort_memmap_pool_usable _ (mk_entry 0x1000 0x9e000 LIMINE_MEMMAP_USABLE)).
  - right. left.
  - reflexivity.
  - intros e' He'. repeat (apply elem_of_cons in He' as [->|He']); [done|done|].
    by apply elem_of_nil in He'.
Defined.
