(* ===== verification/Frames.v ===== *)
(** * Frames: the physical frame allocator.

    [src/kernel/mem/frames/frames.cc].  The allocator hands out 4 KiB frames of
    the first memory-map entry and keeps one byte per frame in a bitmap placed
    in the second entry; [latest_frame] is where the next search starts.  The
    static variables of the file are the fields of [frame_state], together with
    the memory the bitmap and the frames live in. *)
From stdpp Require Import base numbers list.
From S2P Require Import Prelude Mem Boot.
Local Open Scope Z_scope.

Record frame_state := mk_frame_state {
  k_mem : mem;
  frames : Z;
  nframes : Z;
  latest_frame : Z;
  available_frames : Z;
  base_addr : Z;
}.

Definition set_mem (m : mem) (s : frame_state) : frame_state :=
  mk_frame_state m (frames s) (nframes s) (latest_frame s) (available_frames s) (base_addr s).
Definition set_latest (n : Z) (s : frame_state) : frame_state :=
  mk_frame_state (k_mem s) (frames s) (nframes s) n (available_frames s) (base_addr s).

(** [frames[i]]. *)
Definition frame_bit (s : frame_state) (i : Z) : Z := load8 (k_mem s) (frames s ⊕ i).

(** [base_addr + i * FRAME_SIZE]: the product is computed in 32 bits. *)
Definition frame_addr (s : frame_state) (i : Z) : Z := base_addr s ⊕ u32 (i * FRAME_SIZE).

(** [while (latest_frame < available_frames && frames[latest_frame]) latest_frame++]. *)
Fixpoint alloc_scan (fuel : nat) (s : frame_state) (latest : Z) : Z :=
  match fuel with
  | O => latest
  | S fuel =>
      if (latest <? available_frames s) && negb (frame_bit s latest =? 0)
      then alloc_scan fuel s (u32 (latest + 1))
      else latest
  end.

Definition alloc (s : frame_state) : Z * frame_state :=
  let latest := alloc_scan (Z.to_nat (available_frames s - latest_frame s)) s (latest_frame s) in
  if latest =? available_frames s then (0, set_latest latest s)
  else
    let m := store8 (k_mem s) (frames s ⊕ latest) 1 in
    let frame := frame_addr s latest in
    (frame, set_latest (u32 (latest + 1)) (set_mem (memset m frame 0 FRAME_SIZE) s)).

(** The search loop of [allocs]: [i], [start_frame] and [frame_count] are its
    variables, the result is the final [(start_frame, frame_count)]. *)
Fixpoint allocs_scan (fuel : nat) (s : frame_state) (count i start_frame frame_count : Z) : Z * Z :=
  match fuel with
  | O => (start_frame, frame_count)
  | S fuel =>
      if i <? available_frames s then
        let start_frame' := if frame_bit s i =? 1 then i else start_frame in
        let frame_count' := if frame_bit s i =? 1 then 1 else u32 (frame_count + 1) in
        if frame_count' =? count then (start_frame', frame_count')
        else allocs_scan fuel s count (u32 (i + 1)) start_frame' frame_count'
      else (start_frame, frame_count)
  end.

(** [for (i = start; i < start + count; i++) frames[i] = 1]. *)
Fixpoint mark (n : nat) (m : mem) (bitmap i : Z) : mem :=
  match n with
  | O => m
  | S n => mark n (store8 m (bitmap ⊕ i) 1) bitmap (u32 (i + 1))
  end.

Definition allocs (s : frame_state) (count : Z) : Z * frame_state :=
  let '(start_frame, frame_count) :=
    allocs_scan (Z.to_nat (available_frames s - latest_frame s)) s count
                (latest_frame s) (latest_frame s) 0 in
  if frame_count <? count then (0, s)
  else
    let m := mark (Z.to_nat count) (k_mem s) (frames s) start_frame in
    let frame := frame_addr s start_frame in
    (frame, set_latest (u32 (latest_frame s + 1))
              (set_mem (memset m frame 0 (count ⊗ FRAME_SIZE)) s)).

Definition free (s : frame_state) (frame : Z) : frame_state :=
  let frame_num := u32 (frame ⊖ base_addr s) `div` FRAME_SIZE in
  set_latest frame_num (set_mem (store8 (k_mem s) (frames s ⊕ frame_num) 0) s).

(** [init]; [None] when the map has fewer than the two entries it reads.
    [latest_frame] keeps its static initial value. *)
Definition init (boot : BootloaderCtx) (m : mem) : option frame_state :=
  match memmap_entries boot !! 1%nat, memmap_entries boot !! 0%nat with
  | Some bitmap_entry, Some alloc_entry =>
      let nframes := e_length bitmap_entry `div` FRAME_SIZE in
      let frames := PHYS2VIRT (hhdm_addr boot) (e_base bitmap_entry) in
      Some (mk_frame_state (memset m frames 0 nframes) frames nframes 0
              (u32 (e_length alloc_entry `div` FRAME_SIZE))
              (PHYS2VIRT (hhdm_addr boot) (e_base alloc_entry)))
  | _, _ => None
  end.

(** ** Invariant *)

(** Frame [i] is marked in the bitmap. *)
Definition used (s : frame_state) (i : Z) : bool := negb (frame_bit s i =? 0).

(** Frame [i] of the pool. *)
Definition pool_frame (s : frame_state) (i : Z) : Z := base_addr s + i * 4096.

(** The bitmap and the pool are ranges of the address space that do not
    overlap, the pool is at most 4 GiB (so that frame offsets fit the 32-bit
    product), the cursor is inside the pool and every bitmap byte is a C++
    [bool]. *)
Record frames_wf (s : frame_state) : Prop := {
  wf_latest : 0 <= latest_frame s <= available_frames s;
  wf_avail : available_frames s <= 1048576;
  wf_map : 0 <= frames s ∧ frames s + available_frames s <= 18446744073709551616;
  wf_pool : 0 < base_addr s ∧ base_addr s + available_frames s * 4096 <= 18446744073709551616;
  wf_apart : apart (frames s) (available_frames s) (base_addr s) (available_frames s * 4096);
  wf_bits : ∀ i, 0 <= i < available_frames s → frame_bit s i = 0 ∨ frame_bit s i = 1;
}.

(** The statics that no operation but [init] writes. *)
Definition same_pool (s s' : frame_state) : Prop :=
  frames s' = frames s ∧ available_frames s' = available_frames s ∧
  base_addr s' = base_addr s ∧ nframes s' = nframes s.

Lemma same_pool_refl s : same_pool s s.
Proof. done. Qed.

Lemma same_pool_trans s1 s2 s3 : same_pool s1 s2 → same_pool s2 s3 → same_pool s1 s3.
Proof. unfold same_pool. intuition congruence. Qed.

(** Number of free frames at or after the cursor. *)
Definition free_ahead (s : frame_state) : nat :=
  length (filter (λ i, used s i = false)
            (seqZ (latest_frame s) (available_frames s - latest_frame s))).

(** ** Basic facts *)

Ltac wf_destruct H :=
  let W1 := fresh "Wlat" in let W2 := fresh "Wav" in
  let W3 := fresh "Wmap" in let W4 := fresh "Wmap" in
  let W5 := fresh "Wpool" in let W6 := fresh "Wpool" in let W7 := fresh "Wapart" in
  pose proof (wf_latest _ H) as W1; pose proof (wf_avail _ H) as W2;
  pose proof (wf_map _ H) as [W3 W4]; pose proof (wf_pool _ H) as [W5 W6];
  pose proof (wf_apart _ H) as W7; unfold apart in W7.

Lemma frame_addr_eq s i :
  frames_wf s → 0 <= i < available_frames s → frame_addr s i = pool_frame s i.
Proof.
  intros Hwf Hi. wf_destruct Hwf. unfold frame_addr, pool_frame, FRAME_SIZE.
  nowrap. lia.
Qed.

Lemma frame_bit_eq s i :
  frames_wf s → 0 <= i < available_frames s →
  frame_bit s i = load8 (k_mem s) (frames s + i).
Proof. intros Hwf Hi. wf_destruct Hwf. unfold frame_bit. nowrap. done. Qed.

Lemma used_true s i :
  frames_wf s → 0 <= i < available_frames s → used s i = true ↔ frame_bit s i = 1.
Proof.
  intros Hwf Hi. unfold used. destruct (wf_bits _ Hwf i Hi) as [E|E]; rewrite E; split; done.
Qed.

Lemma used_false s i : used s i = false ↔ frame_bit s i = 0.
Proof. unfold used. split; intros; b2p; [done|]. by apply negb_false_iff, Z.eqb_eq. Qed.

(** The scan stops at the first free frame at or after its start. *)
Lemma alloc_scan_spec fuel s l :
  frames_wf s → 0 <= l <= available_frames s →
  available_frames s - l <= Z.of_nat fuel →
  let n := alloc_scan fuel s l in
  l <= n <= available_frames s ∧
  (∀ i, l <= i < n → used s i = true) ∧
  (n < available_frames s → used s n = false).
Proof.
  intros Hwf. revert l; induction fuel as [|fuel IH]; intros l Hl Hf; simpl.
  - split; [lia|]. split; [intros; lia|lia].
  - wf_destruct Hwf. case_cond.
    + rewrite u32_id by lia. destruct (IH (l + 1)) as (H1 & H2 & H3); [lia|lia|].
      split; [lia|]. split; [|done]. intros i Hi.
      destruct (decide (i = l)) as [->|]; [|apply H2; lia].
      unfold used. apply negb_true_iff. by apply Z.eqb_neq.
    + split; [lia|]. split; [intros; lia|]. lia.
    + split; [lia|]. split; [intros; lia|]. intros _. by apply used_false.
Qed.

(** The effect of taking the run of [c] frames that starts at [n]: their bitmap
    bytes are set, the frames are zeroed, and no other byte of memory changes. *)
Record takes (s : frame_state) (n c : Z) (s' : frame_state) : Prop := {
  tk_range : 0 <= n ∧ n + c <= available_frames s;
  tk_pool : same_pool s s';
  tk_used : ∀ i, 0 <= i < available_frames s →
    used s' i = used s i || ((n <=? i) && (i <? n + c));
  tk_zero : ∀ a, pool_frame s n <= a < pool_frame s (n + c) → k_mem s' a = 0;
  tk_frame : ∀ a, ¬ (pool_frame s n <= a < pool_frame s (n + c)) →
    ¬ (frames s + n <= a < frames s + n + c) → k_mem s' a = k_mem s a;
}.

Lemma mark_spec n m bitmap i a :
  0 <= bitmap → 0 <= i → i + Z.of_nat n < 4294967296 →
  bitmap + i + Z.of_nat n <= 18446744073709551616 →
  mark n m bitmap i a =
  if (bitmap + i <=? a) && (a <? bitmap + i + Z.of_nat n) then 1 else m a.
Proof.
  revert m i; induction n as [|n IH]; intros m i Hb Hi Hn Hr; simpl mark.
  - case_cond; first [lia|done].
  - rewrite IH by (nowrap; lia). nowrap. unfold store8.
    repeat case_cond; try lia; try done.
    + rewrite store_in by (simpl; lia). replace (a - (bitmap + i)) with 0 by lia. done.
    + rewrite store_out by (simpl; lia). done.
    + rewrite store_out by (simpl; lia). done.
Qed.

(** Marking and zeroing the run [n, n + c), whatever the cursor becomes. *)
Lemma take_run s n c l :
  frames_wf s → 0 <= n → 0 <= c → n + c <= available_frames s →
  (0 < c → n < available_frames s) → 0 <= l <= available_frames s →
  let s' := set_latest l (set_mem (memset (mark (Z.to_nat c) (k_mem s) (frames s) n)
                                     (frame_addr s n) 0 (c ⊗ FRAME_SIZE)) s) in
  (c = 0 → frame_addr s n = pool_frame s n) →
  takes s n c s' ∧ frames_wf s'.
Proof.
  intros Hwf Hn Hc Hnc Hlt Hl s' H0. wf_destruct Hwf.
  assert (frame_addr s n = pool_frame s n) as Ea.
  { destruct (decide (c = 0)); [auto|]. apply frame_addr_eq; [done|lia]. }
  assert (c ⊗ FRAME_SIZE = c * 4096) as Ec by (unfold FRAME_SIZE; nowrap; lia).
  assert (∀ i, 0 <= i < available_frames s →
            frame_bit s' i = if (n <=? i) && (i <? n + c) then 1 else frame_bit s i) as Hbit.
  { intros i Hi. unfold s', frame_bit. simpl. rewrite Ea, Ec. unfold pool_frame in *.
    nowrap. simpl_mem. rewrite !load8_eq, mark_spec by lia. rewrite Z2Nat.id by lia.
    repeat case_cond; try lia; done. }
  split; [split|split]; try done.
  - intros i Hi. unfold used. rewrite Hbit by done.
    by case_cond; rewrite ?orb_true_r, ?orb_false_r.
  - intros a Ha. unfold s', pool_frame in *. simpl.
    rewrite Ea, Ec, memset_in by lia. done.
  - intros a Ha Hna. unfold s', pool_frame in *. simpl.
    rewrite Ea, Ec, memset_out, mark_spec by lia. rewrite Z2Nat.id by lia.
    case_cond; first [lia|done].
  - intros i Hi. simpl in Hi. rewrite Hbit by done.
    case_cond; first [by right|by apply wf_bits].
Qed.

(** The count of free frames depends on the marks alone. *)
Lemma filter_used_ext s s' (l : list Z) :
  (∀ i, i ∈ l → used s' i = used s i) →
  filter (λ i, used s' i = false) l = filter (λ i, used s i = false) l.
Proof.
  induction l as [|i l IH]; intros H; [done|].
  rewrite !filter_cons, IH by (intros; apply H; by right).
  rewrite (H i) by left. done.
Qed.

(** ** Writes outside the bitmap and loads around a taken run *)

Section Outside.
Context (s : frame_state) (Hwf : frames_wf s).

Lemma used_set_mem m i :
  0 <= i < available_frames s →
  same_on (frames s) (frames s + available_frames s) (k_mem s) m →
  used (set_mem m s) i = used s i.
Proof.
  intros Hi Hm. unfold used. do 2 f_equal. unfold frame_bit. simpl.
  apply load8_same_on. wf_destruct Hwf. nowrap.
  apply (same_on_weaken (frames s) (frames s + available_frames s)); [lia|lia|done].
Qed.

Lemma frames_wf_set_mem m :
  same_on (frames s) (frames s + available_frames s) (k_mem s) m → frames_wf (set_mem m s).
Proof.
  intros Hm. destruct Hwf as [? ? ? ? ? Hb]. split; try done.
  intros i Hi. simpl in Hi. specialize (Hb i Hi). wf_destruct Hwf.
  replace (frame_bit (set_mem m s) i) with (frame_bit s i); [done|].
  symmetry. unfold frame_bit. simpl. apply load8_same_on. nowrap.
  apply (same_on_weaken (frames s) (frames s + available_frames s)); [lia|lia|done].
Qed.

Lemma free_ahead_set_mem m :
  same_on (frames s) (frames s + available_frames s) (k_mem s) m →
  free_ahead (set_mem m s) = free_ahead s.
Proof.
  intros Hm. unfold free_ahead. simpl. f_equal.
  apply filter_used_ext. intros i Hi. apply elem_of_seqZ in Hi. wf_destruct Hwf.
  apply used_set_mem; [lia|done].
Qed.

Lemma takes_same_on n c s' lo hi :
  takes s n c s' →
  apart lo (hi - lo) (pool_frame s n) (c * 4096) →
  apart lo (hi - lo) (frames s) (available_frames s) →
  same_on lo hi (k_mem s) (k_mem s').
Proof.
  intros Ht H1 H2 a Ha. destruct (tk_range _ _ _ _ Ht).
  unfold apart, pool_frame in *.
  apply (tk_frame _ _ _ _ Ht); unfold pool_frame; lia.
Qed.

End Outside.

(** ** alloc *)

(** Every frame at or after the cursor is marked. *)
Definition exhausted (s : frame_state) : Prop :=
  ∀ i, latest_frame s <= i < available_frames s → used s i = true.

(** [n] is the first free frame at or after the cursor. *)
Definition first_free (s : frame_state) (n : Z) : Prop :=
  latest_frame s <= n < available_frames s ∧ used s n = false ∧
  ∀ i, latest_frame s <= i < n → used s i = true.

Lemma alloc_cases s :
  frames_wf s →
  (exhausted s ∧ alloc s = (0, set_latest (available_frames s) s)) ∨
  (∃ n s', first_free s n ∧ alloc s = (pool_frame s n, s') ∧
     takes s n 1 s' ∧ frames_wf s' ∧ latest_frame s' = n + 1).
Proof.
  intros Hwf. wf_destruct Hwf. unfold alloc.
  destruct (alloc_scan_spec (Z.to_nat (available_frames s - latest_frame s)) s (latest_frame s))
    as (Hr & Hu & Hf); [done|lia|lia|].
  set (n := alloc_scan _ _ _) in *. case_cond.
  - left. rewrite Heqb in *. split; [intros i Hi; apply Hu; lia|done].
  - right. exists n. eexists. split; [split; [lia|split; [apply Hf; lia|done]]|].
    split; [by rewrite frame_addr_eq by (done || lia)|].
    rewrite (u32_id (n + 1)) by lia.
    destruct (take_run s n 1 (n + 1)) as [Ht Hw]; [done|lia..|].
    rewrite (frame_addr_eq s n) in Ht, Hw by (done || lia).
    split; [exact Ht|split; [exact Hw|done]].
Qed.

Lemma alloc_null_iff s :
  frames_wf s → (alloc s).1 = 0 ↔ exhausted s.
Proof.
  intros Hwf. wf_destruct Hwf.
  destruct (alloc_cases s Hwf) as [[He ->]|(n & s' & (Hn & Hf & _) & -> & _)]; [done|].
  simpl. split.
  - unfold pool_frame. lia.
  - intros He. rewrite He in Hf by lia. done.
Qed.

(** ** Counting free frames *)

Lemma seqZ_split (a b c : Z) : a <= b <= c → seqZ a (c - a) = seqZ a (b - a) ++ seqZ b (c - b).
Proof.
  intros. replace (c - a) with ((b - a) + (c - b)) by lia.
  rewrite seqZ_app by lia. do 2 f_equal. lia.
Qed.

Lemma filter_all_used s a b :
  (∀ i, a <= i < b → used s i = true) → filter (λ i, used s i = false) (seqZ a (b - a)) = [].
Proof.
  intros H. apply elem_of_nil_inv. intros i Hi.
  apply list_elem_of_filter in Hi as [Hu Hi]. apply elem_of_seqZ in Hi.
  rewrite H in Hu by lia. done.
Qed.

Lemma alloc_free_ahead s n s' :
  frames_wf s → first_free s n → takes s n 1 s' → latest_frame s' = n + 1 →
  free_ahead s = S (free_ahead s').
Proof.
  intros Hwf (Hn & Hf & Hu) Htk Hl. destruct (tk_pool _ _ _ _ Htk) as (_ & Ea & _).
  wf_destruct Hwf. unfold free_ahead. rewrite Ea, Hl.
  rewrite (seqZ_split (latest_frame s) n), (seqZ_split n (n + 1)) by lia.
  rewrite filter_app, filter_all_used by done. simpl.
  replace (n + 1 - n) with 1 by lia. rewrite seqZ_cons, seqZ_nil by lia. simpl.
  rewrite filter_cons_True by done. simpl. f_equal. f_equal. symmetry.
  apply filter_used_ext. intros i Hi. apply elem_of_seqZ in Hi.
  rewrite (tk_used _ _ _ _ Htk) by lia.
  replace ((n <=? i) && (i <? n + 1)) with false; [apply orb_false_r|].
  symmetry. apply andb_false_iff. right. lia.
Qed.

Lemma exhausted_free_ahead s : exhausted s ↔ free_ahead s = 0%nat.
Proof.
  unfold exhausted, free_ahead. split.
  - intros H. by rewrite filter_all_used.
  - intros H i Hi. apply nil_length_inv in H.
    destruct (used s i) eqn:E; [done|exfalso].
    apply (filter_nil_not_elem_of _ _ i H E). apply elem_of_seqZ. lia.
Qed.

(** ** allocs *)

(** Some frame of the window [w, w + count) is marked. *)
Definition blocked (s : frame_state) (count w : Z) : Prop :=
  ∃ k, w <= k < w + count ∧ used s k = true.

Lemma frame_bit_eqb s i :
  frames_wf s → 0 <= i < available_frames s → (frame_bit s i =? 1) = used s i.
Proof.
  intros Hwf Hi. unfold used. destruct (wf_bits _ Hwf i Hi) as [E|E]; by rewrite E.
Qed.

(** The search keeps [frame_count = i - start_frame] and a run of free frames
    strictly after [start_frame]; it ends with a run of [count] frames or after
    every window of [count] frames turned out to hold a marked one. *)
Lemma allocs_scan_spec fuel s count i start l0 :
  frames_wf s → 1 <= count → 0 <= l0 → l0 <= start <= i → i <= available_frames s →
  i - start < count → (∀ k, start < k < i → used s k = false) →
  (start = l0 ∨ used s start = true) →
  (∀ w, l0 <= w → w + count <= i → blocked s count w) →
  available_frames s - i <= Z.of_nat fuel →
  let '(st, c) := allocs_scan fuel s count i start (i - start) in
  (c = count ∧ l0 <= st ∧ st + count <= available_frames s ∧
   ∀ k, st < k < st + count → used s k = false) ∨
  (c < count ∧ ∀ w, l0 <= w → w + count <= available_frames s → blocked s count w).
Proof.
  intros Hwf Hc Hl0. revert i start; induction fuel as [|fuel IH];
    intros i start Hs Hi Hlt Hrun Hst Hblk Hf; simpl.
  { right. split; [lia|]. intros w Hw Hw'. apply Hblk; lia. }
  wf_destruct Hwf. destruct (i <? available_frames s) eqn:Hia; b2p.
  2: { right. split; [lia|]. intros w Hw Hw'. apply Hblk; lia. }
  rewrite frame_bit_eqb by (done || lia). rewrite !u32_id by lia.
  destruct (used s i) eqn:Hu.
  - destruct (1 =? count) eqn:E; b2p.
    + left. subst. repeat split; lia.
    + specialize (IH (i + 1) i). replace (i + 1 - i) with 1 in IH by lia.
      apply IH; try lia; [by right|].
      intros w Hw Hw'. destruct (decide (w + count <= i)); [auto|]. exists i. split; [lia|done].
  - destruct (i - start + 1 =? count) eqn:E; b2p.
    + left. subst. repeat split; try lia. intros k Hk.
      destruct (decide (k = i)) as [->|]; [done|]. apply Hrun. lia.
    + replace (i - start + 1) with ((i + 1) - start) by lia. apply IH; try lia; [|done|].
      * intros k Hk. destruct (decide (k = i)) as [->|]; [done|]. apply Hrun. lia.
      * intros w Hw Hw'. destruct (decide (w + count <= i)); [auto|].
        exists start. split; [lia|]. destruct Hst as [->|]; [lia|done].
Qed.

(** [allocs] fails exactly when no window of [count] frames was free in the
    searched range, or returns a run whose frames, the first one excepted, were
    all free. *)
Lemma allocs_cases s count :
  frames_wf s → 1 <= count →
  (allocs s count = (0, s) ∧
   ∀ w, latest_frame s <= w → w + count <= available_frames s → blocked s count w) ∨
  (∃ st s', latest_frame s <= st ∧ (∀ k, st < k < st + count → used s k = false) ∧
     allocs s count = (pool_frame s st, s') ∧
     takes s st count s' ∧ frames_wf s' ∧ latest_frame s' = latest_frame s + 1).
Proof.
  intros Hwf Hc. wf_destruct Hwf. unfold allocs.
  pose proof (allocs_scan_spec (Z.to_nat (available_frames s - latest_frame s)) s count
    (latest_frame s) (latest_frame s) (latest_frame s)) as Hscan.
  rewrite Z.sub_diag in Hscan.
  destruct (allocs_scan _ _ _ _ _ _) as [st c].
  destruct Hscan as [(-> & Hst & Hr & Hk)|[Hlt Hb]]; try done; try lia.
  - rewrite Z.ltb_irrefl. right. exists st. eexists. split; [done|]. split; [done|].
    destruct (take_run s st count (latest_frame s + 1)) as [Ht Hw]; [done|lia..|].
    rewrite (u32_id (latest_frame s + 1)) by lia.
    rewrite (frame_addr_eq s st) in * by (done || lia).
    split; [done|]. split; [exact Ht|split; [exact Hw|done]].
  - left. replace (c <? count) with true by lia. done.
Qed.

(** Every frame from the cursor on is free. *)
Definition fresh_tail (s : frame_state) : Prop :=
  ∀ i, latest_frame s <= i < available_frames s → used s i = false.

(** From a fresh tail the run starts at the cursor and is entirely free. *)
Lemma allocs_scan_fresh fuel s count i :
  frames_wf s → fresh_tail s → latest_frame s <= i → i - latest_frame s < count →
  latest_frame s + count <= available_frames s →
  count - (i - latest_frame s) <= Z.of_nat fuel →
  allocs_scan fuel s count i (latest_frame s) (i - latest_frame s) = (latest_frame s, count).
Proof.
  intros Hwf Hfresh. revert i; induction fuel as [|fuel IH]; intros i Hi Hlt Hc Hf; [lia|].
  wf_destruct Hwf. simpl. cond_true. rewrite frame_bit_eqb, Hfresh by (done || lia).
  rewrite !u32_id by lia. case_cond; [f_equal; lia|].
  replace (i - latest_frame s + 1) with (i + 1 - latest_frame s) by lia. apply IH; lia.
Qed.

Lemma allocs_fresh s count :
  frames_wf s → fresh_tail s → 1 <= count → latest_frame s + count <= available_frames s →
  ∃ s', allocs s count = (pool_frame s (latest_frame s), s') ∧
    takes s (latest_frame s) count s' ∧ frames_wf s' ∧
    latest_frame s' = latest_frame s + 1.
Proof.
  intros Hwf Hfresh Hc Hr. wf_destruct Hwf. eexists. unfold allocs.
  pose proof (allocs_scan_fresh (Z.to_nat (available_frames s - latest_frame s)) s count
    (latest_frame s)) as Hscan.
  rewrite Z.sub_diag in Hscan. rewrite Hscan by (done || lia). rewrite Z.ltb_irrefl.
  destruct (take_run s (latest_frame s) count (latest_frame s + 1)) as [Ht Hw]; [done|lia..|].
  rewrite (u32_id (latest_frame s + 1)) by lia.
  rewrite (frame_addr_eq s (latest_frame s)) in * by (done || lia).
  split; [done|]. split; [exact Ht|split; [exact Hw|done]].
Qed.

(** A request for one frame takes the frame at the cursor whether or not it is
    marked. *)
Lemma allocs_one s :
  frames_wf s → latest_frame s < available_frames s →
  ∃ s', allocs s 1 = (pool_frame s (latest_frame s), s') ∧
    takes s (latest_frame s) 1 s' ∧ frames_wf s' ∧ latest_frame s' = latest_frame s + 1.
Proof.
  intros Hwf Hr. wf_destruct Hwf. eexists. unfold allocs.
  destruct (Z.to_nat (available_frames s - latest_frame s)) as [|k] eqn:Ek; [lia|]. simpl.
  cond_true. replace (if frame_bit s _ =? 1 then latest_frame s else latest_frame s)
    with (latest_frame s) by (by case_cond).
  replace (if frame_bit s _ =? 1 then 1 else u32 (0 + 1)) with 1 by (by case_cond). simpl.
  destruct (take_run s (latest_frame s) 1 (latest_frame s + 1)) as [Ht Hw]; [done|lia..|].
  rewrite (u32_id (latest_frame s + 1)) by lia.
  rewrite (frame_addr_eq s (latest_frame s)) in * by (done || lia).
  split; [done|]. split; [exact Ht|split; [exact Hw|done]].
Qed.

(** A one-frame request keeps the tail fresh; so does [alloc]. *)
Lemma takes_fresh s n s' :
  frames_wf s → fresh_tail s → takes s n 1 s' → latest_frame s' = n + 1 →
  latest_frame s <= n → fresh_tail s'.
Proof.
  intros Hwf Hfresh Ht Hl Hn i Hi. destruct (tk_pool _ _ _ _ Ht) as (_ & Ea & _).
  wf_destruct Hwf. rewrite Ea in Hi. rewrite (tk_used _ _ _ _ Ht), Hfresh by lia.
  apply andb_false_iff. right. lia.
Qed.

(** ** free *)

Lemma free_spec s n :
  frames_wf s → 0 <= n < available_frames s →
  let s' := free s (pool_frame s n) in
  frames_wf s' ∧ same_pool s s' ∧ latest_frame s' = n ∧
  (∀ i, 0 <= i < available_frames s → used s' i = used s i && negb (i =? n)) ∧
  (∀ a, a ≠ frames s + n → k_mem s' a = k_mem s a).
Proof.
  intros Hwf Hn s'. wf_destruct Hwf.
  assert (u32 (pool_frame s n ⊖ base_addr s) `div` FRAME_SIZE = n) as En.
  { unfold pool_frame, FRAME_SIZE. replace (base_addr s + n * 4096 - base_addr s) with (n * 4096) by lia.
    nowrap. apply Z.div_mul. lia. }
  assert (∀ i, 0 <= i < available_frames s →
            frame_bit s' i = if i =? n then 0 else frame_bit s i) as Hbit.
  { intros i Hi. unfold s', free, frame_bit. rewrite En. simpl. nowrap.
    case_cond; subst; simpl_mem; done. }
  unfold s', free in *. rewrite En in *. simpl.
  split; [split; simpl; try done; try lia|].
  - intros i Hi. rewrite Hbit by done. case_cond; [by left|by apply wf_bits].
  - repeat split.
    + intros i Hi. unfold used. rewrite Hbit by done.
      case_cond; simpl; [by rewrite andb_false_r|by rewrite andb_true_r].
    + intros a Ha. apply store_out. simpl. nowrap. lia.
Qed.

(** ** init *)

Lemma init_spec boot m eb ea s :
  memmap_entries boot !! 0%nat = Some ea → memmap_entries boot !! 1%nat = Some eb →
  init boot m = Some s →
  frames s = PHYS2VIRT (hhdm_addr boot) (e_base eb) ∧
  nframes s = e_length eb `div` 4096 ∧ latest_frame s = 0 ∧
  available_frames s = u32 (e_length ea `div` 4096) ∧
  base_addr s = PHYS2VIRT (hhdm_addr boot) (e_base ea) ∧
  ∀ a, k_mem s a = if (frames s <=? a) && (a <? frames s + nframes s) then 0 else m a.
Proof.
  intros Ha Hb. unfold init. rewrite Ha, Hb. intros [= <-]. repeat split.
Qed.

(** The bitmap entry covers the pool, the two entries do not overlap in the
    higher-half map, and the pool holds at most 4 GiB. *)
Record map_fits (boot : BootloaderCtx) (ea eb : memmap_entry) : Prop := {
  mf_pool : memmap_entries boot !! 0%nat = Some ea;
  mf_bitmap : memmap_entries boot !! 1%nat = Some eb;
  mf_lengths : 0 <= e_length ea <= 4294967296 ∧ 0 <= e_length eb;
  mf_covers : e_length ea `div` 4096 <= e_length eb `div` 4096;
  mf_bases : 0 <= e_base ea ∧ 0 <= e_base eb ∧ 0 < hhdm_addr boot;
  mf_top : hhdm_addr boot + e_base ea + e_length ea < 18446744073709551616 ∧
           hhdm_addr boot + e_base eb + e_length eb < 18446744073709551616;
  mf_apart : apart (e_base eb) (e_length eb) (e_base ea) (e_length ea);
}.

Lemma init_wf boot m ea eb :
  map_fits boot ea eb →
  ∃ s, init boot m = Some s ∧ frames_wf s ∧ fresh_tail s ∧
    base_addr s = hhdm_addr boot + e_base ea ∧
    available_frames s = e_length ea `div` 4096 ∧ latest_frame s = 0.
Proof.
  intros [Ha Hb [Hla Hlb] Hcov (Hba & Hbb & Hh) [Hta Htb] Hap]. unfold apart in Hap.
  assert (∃ s, init boot m = Some s) as [s Hs] by (unfold init; rewrite Ha, Hb; eauto).
  destruct (init_spec boot m eb ea s Ha Hb Hs) as (Ef & En & El & Eav & Ebase & Em).
  unfold PHYS2VIRT in *.
  assert (e_length ea `div` 4096 * 4096 <= e_length ea) by dlia.
  assert (0 <= e_length ea `div` 4096 <= 1048576) by dlia.
  assert (e_length eb `div` 4096 <= e_length eb) by dlia.
  rewrite u64_id in Ef, Ebase by lia. rewrite u32_id in Eav by lia.
  assert (∀ i, 0 <= i < available_frames s → frame_bit s i = 0) as Hz.
  { intros i Hi. unfold frame_bit. rewrite Ef. nowrap.
    rewrite load8_eq, Em, Ef. cond_true. done. }
  exists s. split; [done|]. split; [|split; [|done]].
  - split; rewrite ?El, ?Eav, ?Ef, ?Ebase; unfold apart; try lia.
    intros i Hi. left. apply Hz. lia.
  - intros i Hi. apply used_false, Hz. lia.
Qed.

(** ** Overlap of consecutive runs *)

(** Over marked frames the search only moves its start. *)
Lemma allocs_scan_used fuel s count i j st c :
  frames_wf s → 2 <= count → 0 <= i < j → j <= available_frames s →
  (∀ k, i <= k < j → used s k = true) → j - i <= Z.of_nat fuel →
  allocs_scan fuel s count i st c =
  allocs_scan (fuel - Z.to_nat (j - i)) s count j (j - 1) 1.
Proof.
  intros Hwf Hc. revert i st c; induction fuel as [|fuel IH]; intros i st c Hi Hj Hu Hf; [lia|].
  wf_destruct Hwf. simpl allocs_scan at 1. cond_true.
  rewrite !frame_bit_eqb, Hu by (done || lia).
  replace (1 =? count) with false by lia. rewrite u32_id by lia.
  destruct (decide (i + 1 = j)) as [<-|].
  - replace (S fuel - Z.to_nat (i + 1 - i))%nat with fuel by lia. f_equal. lia.
  - rewrite IH by (try lia; intros; apply Hu; lia). f_equal. lia.
Qed.

(** Over free frames the count grows until the request is met. *)
Lemma allocs_scan_free fuel s count i st :
  frames_wf s → 0 <= st < i → i - st < count → st + count <= available_frames s →
  (∀ k, i <= k < st + count → used s k = false) → st + count - i <= Z.of_nat fuel →
  allocs_scan fuel s count i st (i - st) = (st, count).
Proof.
  intros Hwf. revert i; induction fuel as [|fuel IH]; intros i Hs Hlt Hr Hu Hf; [lia|].
  wf_destruct Hwf. simpl. cond_true. rewrite !frame_bit_eqb, Hu by (done || lia).
  rewrite !u32_id by lia. case_cond; [f_equal; lia|].
  replace (i - st + 1) with (i + 1 - st) by lia. apply IH; try lia. intros. apply Hu. lia.
Qed.

(** From the cursor on exactly the frames below [e] are marked, the state in
    which a run that ends at [e] leaves the allocator. *)
Definition marked_to (s : frame_state) (e : Z) : Prop :=
  ∀ i, latest_frame s <= i < available_frames s → used s i = (i <? e).

(** The next request for [d >= 2] frames starts at the last marked frame. *)
Lemma allocs_marked_to s e d :
  frames_wf s → marked_to s e → latest_frame s < e → 2 <= d →
  e - 1 + d <= available_frames s →
  ∃ s', allocs s d = (pool_frame s (e - 1), s') ∧ takes s (e - 1) d s' ∧
    frames_wf s' ∧ latest_frame s' = latest_frame s + 1 ∧ marked_to s' (e - 1 + d).
Proof.
  intros Hwf Hu Hlc Hd Hr. wf_destruct Hwf. eexists. unfold allocs.
  rewrite (allocs_scan_used _ s d (latest_frame s) e) by
    (done || lia || (intros k Hk; rewrite Hu by lia; lia)).
  replace 1 with (e - (e - 1)) at 2 by lia.
  rewrite allocs_scan_free by (done || lia || (intros k Hk; rewrite Hu by lia; lia)).
  rewrite Z.ltb_irrefl.
  destruct (take_run s (e - 1) d (latest_frame s + 1)) as [Ht Hw]; [done|lia..|].
  rewrite (u32_id (latest_frame s + 1)) by lia.
  rewrite (frame_addr_eq s (e - 1)) in * by (done || lia).
  split; [done|]. split; [exact Ht|split; [exact Hw|split; [done|]]].
  intros i Hi. simpl in Hi. rewrite (tk_used _ _ _ _ Ht), Hu by lia.
  destruct (i <? e) eqn:?; destruct (e - 1 <=? i) eqn:?;
    destruct (i <? e - 1 + d) eqn:?; b2p; done || lia.
Qed.

Lemma marked_to_fresh s c s' :
  frames_wf s → fresh_tail s → takes s (latest_frame s) c s' →
  latest_frame s' = latest_frame s + 1 → marked_to s' (latest_frame s + c).
Proof.
  intros Hwf Hfresh Ht Hl. destruct (tk_pool _ _ _ _ Ht) as (_ & Ea & _). wf_destruct Hwf.
  intros i Hi. rewrite Ea, Hl in Hi.
  rewrite (tk_used _ _ _ _ Ht), Hfresh by lia. simpl.
  destruct (latest_frame s <=? i) eqn:?; b2p; [done|lia].
Qed.

(** The first allocation past a marked run leaves a fresh tail. *)
Lemma marked_alloc_fresh s e n s' :
  frames_wf s → marked_to s e → first_free s n → takes s n 1 s' → latest_frame s' = n + 1 →
  fresh_tail s'.
Proof.
  intros Hwf Hm (Hn & Hu & _) Ht Hl i Hi. destruct (tk_pool _ _ _ _ Ht) as (_ & Ea & _).
  wf_destruct Hwf. rewrite Ea in Hi. rewrite (tk_used _ _ _ _ Ht) by lia.
  rewrite Hm in Hu by lia. b2p. rewrite Hm by lia. apply orb_false_iff.
  split; [apply Z.ltb_ge; lia|apply andb_false_iff; right; apply Z.ltb_ge; lia].
Qed.

Lemma fresh_free_ahead s :
  frames_wf s → fresh_tail s → Z.of_nat (free_ahead s) = available_frames s - latest_frame s.
Proof.
  intros Hwf Hf. wf_destruct Hwf. unfold free_ahead. rewrite filter_all.
  - rewrite length_seqZ. lia.
  - intros i Hi%elem_of_seqZ. apply Hf. lia.
Qed.

(** The frames a marked run leaves ahead of the cursor. *)
Lemma marked_free_ahead s e :
  marked_to s e → latest_frame s <= e <= available_frames s →
  Z.of_nat (free_ahead s) = available_frames s - e.
Proof.
  intros Hm He. unfold free_ahead.
  replace (available_frames s - latest_frame s) with ((e - latest_frame s) + (available_frames s - e)) by lia.
  rewrite seqZ_app by lia. rewrite filter_app, length_app.
  replace (latest_frame s + (e - latest_frame s)) with e by lia.
  rewrite (filter_none _ (seqZ (latest_frame s) _)).
  - rewrite (filter_all _ (seqZ e _)).
    + rewrite length_seqZ. simpl. lia.
    + intros i Hi%elem_of_seqZ. rewrite Hm by lia. apply Z.ltb_ge. lia.
  - intros i Hi%elem_of_seqZ. rewrite Hm by lia. rewrite not_false_iff_true. apply Z.ltb_lt. lia.
Qed.

(** ** Properties *)

(** C8: from a well-formed state [alloc] either reports exhaustion, exactly when
    every frame at or after the cursor is marked and without touching memory, or
    returns the first free frame there: it marks that frame alone, zeroes it,
    leaves every other byte as it was, keeps the invariant and leaves one free
    frame fewer ahead of the cursor. *)
Theorem alloc_correct s :
  frames_wf s →
  let '(p, s') := alloc s in
  frames_wf s' ∧ same_pool s s' ∧
  ((p = 0 ∧ exhausted s ∧ k_mem s' = k_mem s) ∨
   (∃ n, first_free s n ∧ p = pool_frame s n ∧ p ≠ 0 ∧ takes s n 1 s' ∧
      free_ahead s = S (free_ahead s'))).
Proof.
  intros Hwf. wf_destruct Hwf.
  destruct (alloc_cases s Hwf) as [[He ->]|(n & s' & Hff & -> & Ht & Hw & Hl)].
  - split; [|split; [done|by left]]. split; simpl; try done; try lia. apply (wf_bits _ Hwf).
  - split; [done|]. split; [apply Ht|]. right. exists n.
    pose proof (alloc_free_ahead s n s' Hwf Hff Ht Hl).
    pose proof (proj1 Hff). unfold pool_frame. split_and!; try done; lia.
Qed.

(** Freeing a frame of the pool and allocating again returns that very
    frame, marks it again and leaves every other mark as it was. *)
Theorem free_alloc_roundtrip s n :
  frames_wf s → 0 <= n < available_frames s →
  let '(p, s') := alloc (free s (pool_frame s n)) in
  p = pool_frame s n ∧ frames_wf s' ∧ latest_frame s' = n + 1 ∧
  (∀ i, 0 <= i < available_frames s → used s' i = used s i || (i =? n)).
Proof.
  intros Hwf Hn. destruct (free_spec s n Hwf Hn) as (Hw1 & (Ef & Ea & Eb & En) & Hl1 & Hu1 & _).
  set (s1 := free s (pool_frame s n)) in *.
  assert (used s1 n = false) as Hfree by (rewrite Hu1, Z.eqb_refl by done; apply andb_false_r).
  destruct (alloc_cases s1 Hw1) as [[He _]|(k & s' & (Hk & Hkf & Hku) & -> & Ht & Hw & Hl)].
  { rewrite He in Hfree by lia. done. }
  assert (k = n) as ->.
  { destruct (decide (k = n)); [done|]. rewrite Hku in Hfree by lia. done. }
  split; [unfold pool_frame; by rewrite Eb|]. split; [done|]. split; [done|].
  intros i Hi. rewrite (tk_used _ _ _ _ Ht), Hu1 by lia.
  destruct (used s i), (i =? n) eqn:E; b2p; simpl; try done.
  all: destruct (n <=? i) eqn:?, (i <? n + 1) eqn:?; b2p; done || lia.
Qed.

(** C21: [allocs] returns null, changing nothing, only when every window of
    [count] frames from the cursor on holds a marked frame; otherwise it returns
    a run inside the pool of which every frame after the first was free, and
    marks and zeroes exactly that run. *)
Theorem allocs_correct s count :
  frames_wf s → 1 <= count →
  let '(p, s') := allocs s count in
  frames_wf s' ∧ same_pool s s' ∧
  ((p = 0 ∧ s' = s ∧
    ∀ w, latest_frame s <= w → w + count <= available_frames s → blocked s count w) ∨
   (∃ st, latest_frame s <= st ∧ p = pool_frame s st ∧ p ≠ 0 ∧ takes s st count s' ∧
      ∀ k, st < k < st + count → used s k = false)).
Proof.
  intros Hwf Hc. wf_destruct Hwf.
  destruct (allocs_cases s count Hwf Hc) as [[-> Hb]|(st & s' & Hst & Hk & -> & Ht & Hw & Hl)].
  - split; [done|]. split; [done|]. by left.
  - split; [done|]. split; [apply Ht|]. right. exists st. unfold pool_frame.
    split_and!; try done; lia.
Qed.

(** When every frame from the cursor on is free, [allocs] returns [count]
    frames none of which was in use, and the frames before them keep their
    marks. *)
Theorem allocs_fresh_run s count :
  frames_wf s → fresh_tail s → 1 <= count →
  latest_frame s + count <= available_frames s →
  let '(p, s') := allocs s count in
  p = pool_frame s (latest_frame s) ∧ takes s (latest_frame s) count s' ∧ frames_wf s' ∧
  (∀ k, latest_frame s <= k < latest_frame s + count → used s k = false) ∧
  (count = 1 → fresh_tail s').
Proof.
  intros Hwf Hfresh Hc Hr.
  destruct (allocs_fresh s count Hwf Hfresh Hc Hr) as (s' & -> & Ht & Hw & Hl).
  split_and!; try done.
  - intros k Hk. apply Hfresh. lia.
  - intros ->. eapply takes_fresh; [exact Hwf|done|exact Ht|done|lia].
Qed.

(** Two requests for [c >= 2] frames in a row overlap: the second run begins
    at the last frame of the first, which is still marked, and zeroes it. *)
Theorem allocs_twice_overlap s c :
  frames_wf s → fresh_tail s → 2 <= c → latest_frame s + 2 * c <= available_frames s →
  let '(p1, s1) := allocs s c in
  let '(p2, s2) := allocs s1 c in
  p2 = p1 + (c - 1) * 4096 ∧
  used s1 (latest_frame s + c - 1) = true ∧
  (∀ a, p2 <= a < p1 + c * 4096 → k_mem s2 a = 0).
Proof.
  intros Hwf Hfresh Hc Hr. wf_destruct Hwf.
  destruct (allocs_fresh s c Hwf Hfresh) as (s1 & -> & Ht & Hw & Hl); [lia|lia|].
  destruct (tk_pool _ _ _ _ Ht) as (Ef & Ea & Eb & _).
  destruct (allocs_marked_to s1 (latest_frame s + c) c) as (s2 & -> & Ht2 & _);
    [done|by eapply marked_to_fresh|lia..|].
  unfold pool_frame. rewrite Eb. split; [lia|]. split.
  - rewrite (tk_used _ _ _ _ Ht) by lia. apply orb_true_iff. right.
    apply andb_true_iff. split; lia.
  - intros a Ha. apply (tk_zero _ _ _ _ Ht2). unfold pool_frame. rewrite Eb. lia.
Qed.

(** C36: with a memory map whose bitmap entry covers the pool, [init] establishes
    the invariant with every frame free. *)
Theorem init_correct boot m ea eb :
  map_fits boot ea eb →
  ∃ s, init boot m = Some s ∧ frames_wf s ∧ fresh_tail s ∧
    base_addr s = hhdm_addr boot + e_base ea ∧
    available_frames s = e_length ea `div` 4096 ∧ latest_frame s = 0.
Proof. apply init_wf. Qed.

(** [init] clears one bitmap byte per frame of the bitmap entry, not per
    frame of the pool: the mark of a frame past that count is whatever byte the
    boot loader left there. *)
Theorem init_stale_marks boot m ea eb s i :
  memmap_entries boot !! 0%nat = Some ea → memmap_entries boot !! 1%nat = Some eb →
  init boot m = Some s →
  e_length eb `div` 4096 <= i → frames s + i < 18446744073709551616 → 0 <= i →
  frame_bit s i = load8 m (frames s + i).
Proof.
  intros Ha Hb Hs Hi Hr H0.
  destruct (init_spec boot m eb ea s Ha Hb Hs) as (Ef & En & _ & _ & _ & Em).
  pose proof (u64_range (hhdm_addr boot + e_base eb)). unfold PHYS2VIRT in Ef.
  unfold frame_bit. nowrap. rewrite !load8_eq, Em, En. cond_false. done.
Qed.

(** ** Witnesses: a pool of eight frames at 0x100000, its bitmap at 0x1000. *)

Definition sample_frames (m : mem) (latest : Z) : frame_state :=
  mk_frame_state m 0x1000 8 latest 8 0x100000.

Lemma sample_wf : frames_wf (sample_frames (λ _, 0) 0).
Proof.
  split; simpl; unfold apart; try lia. intros i Hi. left. unfold frame_bit. by rewrite load8_eq.
Qed.

Lemma sample_fresh : fresh_tail (sample_frames (λ _, 0) 0).
Proof. intros i Hi. apply used_false. unfold frame_bit. by rewrite load8_eq. Qed.

Definition sample_boot (pool_len : Z) : BootloaderCtx :=
  mk_ctx 0 0 [mk_entry 0x100000 pool_len LIMINE_MEMMAP_USABLE;
              mk_entry 0x10000 0x8000 LIMINE_MEMMAP_USABLE]
         0xffff800000000000 0xffffffff80000000 0x200000 0 0 0.

Lemma alloc_correct_witness :
  let s := sample_frames (λ _, 0) 0 in
  (alloc s).1 = 0x100000 ∧ frames_wf (alloc s).2.
Proof.
  split; [reflexivity|].
  pose proof (alloc_correct (sample_frames (λ _, 0) 0) sample_wf) as H.
  destruct (alloc _) as [p s']. exact (proj1 H).
Defined.

Lemma free_alloc_roundtrip_witness :
  (alloc (free (sample_frames (λ _, 0) 0) (pool_frame (sample_frames (λ _, 0) 0) 3))).1 = 0x103000.
Proof.
  pose proof (free_alloc_roundtrip (sample_frames (λ _, 0) 0) 3 sample_wf ltac:(simpl; lia)) as H.
  destruct (alloc _) as [p s']. destruct H as [-> _]. reflexivity.
Defined.

Lemma allocs_correct_witness :
  let s := sample_frames (λ _, 0) 0 in
  (allocs s 3).1 = 0x100000 ∧ frames_wf (allocs s 3).2.
Proof.
  split; [reflexivity|].
  pose proof (allocs_correct (sample_frames (λ _, 0) 0) 3 sample_wf ltac:(lia)) as H.
  destruct (allocs _ _) as [p s']. exact (proj1 H).
Defined.

Lemma allocs_fresh_run_witness : (allocs (sample_frames (λ _, 0) 0) 3).1 = 0x100000.
Proof.
  pose proof (allocs_fresh_run (sample_frames (λ _, 0) 0) 3 sample_wf sample_fresh
                ltac:(lia) ltac:(simpl; lia)) as H.
  destruct (allocs _ _) as [p s']. destruct H as [-> _]. reflexivity.
Defined.

Lemma allocs_twice_overlap_witness :
  let s := sample_frames (λ _, 0) 0 in
  (allocs (allocs s 4).2 4).1 = (allocs s 4).1 + 3 * 4096.
Proof.
  pose proof (allocs_twice_overlap (sample_frames (λ _, 0) 0) 4 sample_wf sample_fresh
                ltac:(lia) ltac:(simpl; lia)) as H.
  cbv zeta. destruct (allocs (sample_frames _ _) 4) as [p s']. cbn [fst snd].
  destruct (allocs s' 4) as [p2 s2]. exact (proj1 H).
Defined.

Lemma init_correct_witness :
  ∃ s, init (sample_boot 0x8000) (λ _, 0xCC) = Some s ∧ frames_wf s.
Proof.
  destruct (init_correct (sample_boot 0x8000) (λ _, 0xCC)
              (mk_entry 0x100000 0x8000 LIMINE_MEMMAP_USABLE)
              (mk_entry 0x10000 0x8000 LIMINE_MEMMAP_USABLE)) as (s & Hs & Hw & _).
  { split; simpl; unfold apart; try done; try lia. }
  exists s. split; done.
Defined.

Lemma init_stale_marks_witness :
  ∃ s, init (sample_boot 0x100000) (λ _, 0xCC) = Some s ∧
    9 < available_frames s ∧ frame_bit s 9 = 0xCC.
Proof.
  eexists. split; [reflexivity|]. split; [done|].
  rewrite (init_stale_marks (sample_boot 0x100000) (λ _, 0xCC)
    (mk_entry 0x100000 0x100000 LIMINE_MEMMAP_USABLE)
    (mk_entry 0x10000 0x8000 LIMINE_MEMMAP_USABLE) _ 9); try reflexivity; done.
Defined.
