(* ===== verification/Paging.v ===== *)
(** * Paging: the four-level page tables.

    [src/kernel/mem/paging/paging.cc] and [src/include/mem/paging.h].  The
    tables are frames of the pool, reached through the higher-half direct map;
    an entry is a little-endian [u64] of the byte memory.  [Mem::Paging::init]
    is in [Mapper.v], after the mapper it calls. *)
From stdpp Require Import base numbers list gmap.
From S2P Require Import Prelude Mem Boot Frames.
Local Open Scope Z_scope.

Definition PAGE_PRESENT : Z := Z.shiftl 1 0.
Definition PAGE_WRITE : Z := Z.shiftl 1 1.
Definition PAGE_USER : Z := Z.shiftl 1 2.
Definition PAGE_UNCACHE : Z := Z.shiftl 1 4.
Definition PAGE_NX : Z := Z.shiftl 1 63.
Definition PTE_MASK : Z := 0x0000FFFFFFFFF000.

(** The rounding macros, on [u64] operands. *)
Definition ROUND_DOWN (x : Z) : Z := Z.land x (u64 (Z.lnot (0x1000 - 1))).
Definition ROUND_UP (x y : Z) : Z := (x ⊕ (y - 1)) `div` y.
Definition ALIGN_UP (x y : Z) : Z := ROUND_UP x y ⊗ y.
Definition ALIGN_DOWN (x y : Z) : Z := (x `div` y) ⊗ y.

(** The state the unit works on: the frame allocator with memory, the static
    [pml4], the control registers it writes, and the translations cached by the
    processor, by virtual page number. *)
Record paging_state := mk_paging {
  p_fr : frame_state;
  pml4 : Z;
  tlb : gmap Z Z;
  cr0 : Z;
  cr3 : Z;
  cr4 : Z;
}.

Definition set_fr (f : frame_state) (s : paging_state) : paging_state :=
  mk_paging f (pml4 s) (tlb s) (cr0 s) (cr3 s) (cr4 s).

(** Reloading [cr3] drops the cached translations. *)
Definition flush_tlb (s : paging_state) : paging_state :=
  mk_paging (p_fr s) (pml4 s) ∅ (cr0 s) (cr3 s) (cr4 s).

Definition load_cr3 (hhdm table : Z) (s : paging_state) : paging_state :=
  mk_paging (p_fr s) (pml4 s) ∅ (cr0 s) (VIRT2PHYS hhdm table) (cr4 s).

Definition enable_paging (s : paging_state) : paging_state :=
  mk_paging (p_fr s) (pml4 s) (tlb s)
            (Z.lor (cr0 s) 0x80000000) (cr3 s) (Z.lor (cr4 s) 0x20).

(** [(virt >> shift) & 0x1ff]. *)
Definition table_index (virt shift : Z) : Z := Z.land (Z.shiftr virt shift) 0x1ff.

(** Address of [table[idx]] for a table of [u64]. *)
Definition slot (table idx : Z) : Z := table ⊕ idx * 8.

(** [entry & PAGE_PRESENT] as a condition. *)
Definition present (e : Z) : bool := negb (Z.land e PAGE_PRESENT =? 0).

(** One level of [map]: the table an entry points to, allocated and linked when
    the entry is not present. *)
Definition descend (hhdm : Z) (s : frame_state) (table idx : Z) : Z * frame_state :=
  let e := load64 (k_mem s) (slot table idx) in
  if present e then (PHYS2VIRT hhdm (Z.land e PTE_MASK), s)
  else
    let '(t, s') := alloc s in
    (t, set_mem (store64 (k_mem s') (slot table idx)
                   (Z.lor (Z.lor (VIRT2PHYS hhdm t) PAGE_PRESENT) PAGE_WRITE)) s').

Definition map (hhdm : Z) (s : paging_state) (phys virt flags : Z) : paging_state :=
  let '(pml3, f1) := descend hhdm (p_fr s) (pml4 s) (table_index virt 39) in
  let '(pml2, f2) := descend hhdm f1 pml3 (table_index virt 30) in
  let '(pml1, f3) := descend hhdm f2 pml2 (table_index virt 21) in
  let leaf := slot pml1 (table_index virt 12) in
  let perm_mod := present (load64 (k_mem f3) leaf) in
  let s' := set_fr (set_mem (store64 (k_mem f3) leaf (Z.lor phys flags)) f3) s in
  if perm_mod then flush_tlb s' else s'.

(** [for (i = 0; i < size; i += FRAME_SIZE) map(phys + i, virt + i, flags)],
    [n] iterations from [i]. *)
Fixpoint map_range_loop (n : nat) (hhdm : Z) (s : paging_state) (phys virt i flags : Z)
    : paging_state :=
  match n with
  | O => s
  | S n => map_range_loop n hhdm (map hhdm s (phys ⊕ i) (virt ⊕ i) flags)
             phys virt (i ⊕ FRAME_SIZE) flags
  end.

(** The loop runs once per started page of [size] (its 64-bit counter does not
    wrap for a size below [2^64 - 4096]); the result is [size / FRAME_SIZE]. *)
Definition map_range (hhdm : Z) (s : paging_state) (phys virt size flags : Z)
    : Z * paging_state :=
  (u32 (size `div` FRAME_SIZE),
   map_range_loop (Z.to_nat ((size + 4095) `div` 4096)) hhdm s phys virt 0 flags).

(** One level of the read-only walk. *)
Definition follow (hhdm : Z) (m : mem) (table idx : Z) : option Z :=
  let e := load64 m (slot table idx) in
  if present e then Some (PHYS2VIRT hhdm (Z.land e PTE_MASK)) else None.

(** The address of the last-level entry of [virt], if its tables exist. *)
Definition leaf_slot (hhdm : Z) (m : mem) (root virt : Z) : option Z :=
  pml3 ← follow hhdm m root (table_index virt 39);
  pml2 ← follow hhdm m pml3 (table_index virt 30);
  pml1 ← follow hhdm m pml2 (table_index virt 21);
  Some (slot pml1 (table_index virt 12)).

Definition unmap (hhdm : Z) (s : paging_state) (virt : Z) : paging_state :=
  match leaf_slot hhdm (k_mem (p_fr s)) (pml4 s) virt with
  | None => s
  | Some leaf =>
      flush_tlb (set_fr (set_mem (store64 (k_mem (p_fr s)) leaf 0) (p_fr s)) s)
  end.

Definition map_mmio (hhdm : Z) (s : paging_state) (phys_addr size : Z) : Z * paging_state :=
  let aligned_phys := ROUND_DOWN phys_addr in
  let offset := phys_addr ⊖ aligned_phys in
  let aligned_size := ALIGN_UP (size ⊕ offset) 0x1000 in
  let virt_addr := PHYS2VIRT hhdm aligned_phys in
  let flags := Z.lor (Z.lor PAGE_PRESENT PAGE_WRITE) PAGE_UNCACHE in
  let '(_, s') := map_range hhdm s aligned_phys virt_addr aligned_size flags in
  (virt_addr ⊕ offset, s').

(** ** Specification: what the processor's walk yields *)

(** The present last-level entry of a virtual address. *)
Definition translate (hhdm : Z) (s : paging_state) (virt : Z) : option Z :=
  leaf ← leaf_slot hhdm (k_mem (p_fr s)) (pml4 s) virt;
  let e := load64 (k_mem (p_fr s)) leaf in
  if present e then Some e else None.

(** The virtual page number, on the 48 translated bits. *)
Definition vpn (virt : Z) : Z := (virt `div` 4096) `mod` 68719476736.

(** Every cached translation is the one the tables give. *)
Definition tlb_coherent (hhdm : Z) (s : paging_state) : Prop :=
  ∀ pg e, tlb s !! pg = Some e → vpn (pg * 4096) = pg ∧ translate hhdm s (pg * 4096) = Some e.

(** ** Bit-level facts *)

Lemma table_index_eq virt k : 0 <= k → table_index virt k = (virt `div` 2 ^ k) `mod` 512.
Proof.
  intros. unfold table_index. change 0x1ff with (Z.ones 9).
  by rewrite shiftr_land_ones by lia.
Qed.

Lemma table_index_range virt k : 0 <= k → 0 <= table_index virt k < 512.
Proof. intros. rewrite table_index_eq by done. apply Z.mod_pos_bound. lia. Qed.

Lemma present_odd e : present e = Z.odd e.
Proof.
  unfold present, PAGE_PRESENT. change (Z.shiftl 1 0) with (Z.ones 1).
  rewrite Z.land_ones by lia. change (2 ^ 1) with 2. rewrite Zmod_odd. by destruct (Z.odd e).
Qed.

Lemma land_PTE_MASK y : Z.land y PTE_MASK = (y `div` 4096) `mod` 68719476736 * 4096.
Proof.
  change PTE_MASK with (Z.shiftl (Z.ones 36) 12).
  change 68719476736 with (2 ^ 36). change 4096 with (2 ^ 12).
  rewrite <- (Z.shiftl_mul_pow2 _ 12), <- Z.land_ones, <- Z.shiftr_div_pow2 by lia.
  apply Z.bits_inj'. intros i Hi. rewrite Z.land_spec, !Z.shiftl_spec, Z.land_spec by done.
  destruct (decide (12 <= i)).
  - rewrite Z.shiftr_spec by lia. do 2 f_equal. lia.
  - rewrite (Z.testbit_neg_r (Z.ones 36)) by lia. by rewrite !andb_false_r.
Qed.

(** The entry [descend] writes for a table at physical address [x]. *)
Definition table_entry (x : Z) : Z := Z.lor (Z.lor x PAGE_PRESENT) PAGE_WRITE.

Lemma table_entry_eq x : x `mod` 4096 = 0 → table_entry x = x + 3.
Proof.
  intros Hx. unfold table_entry. rewrite <- Z.lor_assoc.
  change (Z.lor PAGE_PRESENT PAGE_WRITE) with 3.
  replace x with (x `div` 4096 * 2 ^ 12) by (change (2 ^ 12) with 4096; dlia).
  rewrite lor_disjoint_add by lia. done.
Qed.

Lemma table_entry_present x : x `mod` 4096 = 0 → present (table_entry x) = true.
Proof.
  intros Hx. rewrite present_odd, table_entry_eq by done.
  rewrite Z.odd_add. replace (Z.odd x) with false; [done|].
  symmetry. rewrite <- Z.negb_even. apply negb_false_iff, Z.even_spec.
  exists (x `div` 4096 * 2048). dlia.
Qed.

Lemma table_entry_mask x :
  x `mod` 4096 = 0 → 0 <= x < 281474976710656 → Z.land (table_entry x) PTE_MASK = x.
Proof.
  intros Hx Hr. rewrite table_entry_eq, land_PTE_MASK by done. dlia.
Qed.

(** The four indices of an address determine its page number. *)
Lemma vpn_indices v v' :
  table_index v 39 = table_index v' 39 → table_index v 30 = table_index v' 30 →
  table_index v 21 = table_index v' 21 → table_index v 12 = table_index v' 12 →
  vpn v = vpn v'.
Proof.
  rewrite !table_index_eq by lia. unfold vpn.
  change (2 ^ 39) with (4096 * 512 * 512 * 512). change (2 ^ 30) with (4096 * 512 * 512).
  change (2 ^ 21) with (4096 * 512). change (2 ^ 12) with 4096.
  change 68719476736 with (512 * (512 * (512 * 512))).
  rewrite <- !Z.div_div by lia. rewrite !Z.rem_mul_r by lia. congruence.
Qed.

Lemma indices_vpn v v' :
  vpn v = vpn v' →
  table_index v 39 = table_index v' 39 ∧ table_index v 30 = table_index v' 30 ∧
  table_index v 21 = table_index v' 21 ∧ table_index v 12 = table_index v' 12.
Proof.
  intros H.
  assert (∀ w, table_index w 12 = vpn w `mod` 512 ∧
               table_index w 21 = (vpn w `div` 512) `mod` 512 ∧
               table_index w 30 = (vpn w `div` 262144) `mod` 512 ∧
               table_index w 39 = vpn w `div` 134217728) as E.
  { intros w. rewrite !table_index_eq by lia. unfold vpn.
    change (2 ^ 39) with (4096 * 134217728). change (2 ^ 30) with (4096 * 262144).
    change (2 ^ 21) with (4096 * 512). change (2 ^ 12) with 4096.
    rewrite <- !Z.div_div by lia. generalize (w `div` 4096) as q. intros q.
    repeat split; dlia. }
  destruct (E v) as (-> & -> & -> & ->). destruct (E v') as (-> & -> & -> & ->).
  by rewrite H.
Qed.
