(* ===== verification/PageTables.v ===== *)
(** * PageTables: the tree of page tables, and the correctness of map and unmap.

    The tables [Paging.map] builds form a tree: [T] maps the list of indices
    followed from the root to the table reached.  The invariant [tables_wf]
    says that the memory represents [T] with one marked frame per table; under
    it the processor's walk is a lookup in [T], and [map] and [unmap] change
    the translation of exactly one page. *)
From stdpp Require Import base numbers list gmap.
From S2P Require Import Prelude Mem Boot Frames Paging.
Local Open Scope Z_scope.

(** Table pages keyed by path; the path of a last-level table has length 3. *)
Abbreviation tree := (gmap (list Z) Z).

(** The direct map places the pool at a page-aligned physical address that fits
    the address field of an entry. *)
Record hhdm_ok (hhdm : Z) (s : frame_state) : Prop := {
  hh_base : 0 <= hhdm <= base_addr s;
  hh_align : (base_addr s - hhdm) `mod` 4096 = 0;
  hh_top : base_addr s - hhdm + available_frames s * 4096 <= 281474976710656;
}.

Record tables_wf (hhdm : Z) (s : frame_state) (root : Z) (T : tree) : Prop := {
  tw_frames : frames_wf s;
  tw_hhdm : hhdm_ok hhdm s;
  tw_root : T !! [] = Some root;
  tw_pool : ∀ p t, T !! p = Some t →
    ∃ n, 0 <= n < available_frames s ∧ t = pool_frame s n ∧ used s n = true;
  tw_inj : ∀ p q t, T !! p = Some t → T !! q = Some t → p = q;
  tw_prefix : ∀ p i c, T !! (p ++ [i]) = Some c → is_Some (T !! p);
  tw_child : ∀ p t i, T !! p = Some t → (length p < 3)%nat → 0 <= i < 512 →
    match T !! (p ++ [i]) with
    | Some c => load64 (k_mem s) (t + i * 8) = table_entry (c - hhdm)
    | None => present (load64 (k_mem s) (t + i * 8)) = false
    end;
}.

(** The path of a virtual address. *)
Definition path (virt : Z) : list Z :=
  [table_index virt 39; table_index virt 30; table_index virt 21].

(** The tables below the root on the way to a virtual address. *)
Definition tables_of (virt : Z) : gset (list Z) :=
  {[ [table_index virt 39] ]} ∪ {[ [table_index virt 39; table_index virt 30] ]} ∪
  {[ path virt ]}.

(** The free frames suffice for the tables [P] that are not in the tree yet. *)
Definition enough (s : frame_state) (T : tree) (P : gset (list Z)) : Prop :=
  (size (P ∪ dom T) <= free_ahead s + size T)%nat.

(** The entry of a page in the tree. *)
Definition tree_entry (m : mem) (T : tree) (virt : Z) : option Z :=
  t ← T !! path virt;
  let e := load64 m (t + table_index virt 12 * 8) in
  if present e then Some e else None.

(** ** Geometry of the tables *)

Section Tree.
Context (hhdm : Z) (s : frame_state) (root : Z) (T : tree).
Context (Hwf : tables_wf hhdm s root T).

Lemma table_bounds p t :
  T !! p = Some t →
  0 <= hhdm <= t ∧ (t - hhdm) `mod` 4096 = 0 ∧ 0 <= t - hhdm ∧
  t - hhdm + 4096 <= 281474976710656 ∧ 0 < t ∧ t + 4096 <= 18446744073709551616 ∧
  (t + 4096 <= frames s ∨ frames s + available_frames s <= t).
Proof.
  intros Ht. destruct (tw_pool _ _ _ _ Hwf p t Ht) as (n & Hn & -> & _).
  pose proof (tw_frames _ _ _ _ Hwf) as Hf. wf_destruct Hf.
  destruct (tw_hhdm _ _ _ _ Hwf) as [? Ha ?]. unfold pool_frame.
  replace (base_addr s + n * 4096 - hhdm) with (base_addr s - hhdm + n * 4096) by lia.
  rewrite Z.mod_add by lia. repeat split; lia.
Qed.

Lemma slot_eq p t i : T !! p = Some t → 0 <= i < 512 → slot t i = t + i * 8.
Proof.
  intros Ht Hi. destruct (table_bounds p t Ht) as (?&?&?&?&?&?&?). unfold slot. nowrap. lia.
Qed.

(** Distinct tables occupy distinct frames. *)
Lemma tables_apart p q t u :
  T !! p = Some t → T !! q = Some u → p ≠ q → t + 4096 <= u ∨ u + 4096 <= t.
Proof.
  intros Ht Hu Hne. destruct (tw_pool _ _ _ _ Hwf p t Ht) as (n & Hn & En & _).
  destruct (tw_pool _ _ _ _ Hwf q u Hu) as (k & Hk & Ek & _).
  assert (t ≠ u) by (intros ->; apply Hne; by eapply tw_inj).
  unfold pool_frame in *. lia.
Qed.

(** ** The walk is a lookup in the tree *)

Lemma follow_tree p t i :
  T !! p = Some t → (length p < 3)%nat → 0 <= i < 512 →
  follow hhdm (k_mem s) t i = T !! (p ++ [i]).
Proof.
  intros Ht Hp Hi. unfold follow. rewrite (slot_eq p) by done.
  pose proof (tw_child _ _ _ _ Hwf p t i Ht Hp Hi) as Hc.
  destruct (T !! (p ++ [i])) as [c|] eqn:Ec; [|by rewrite Hc].
  destruct (table_bounds _ c Ec) as (?&?&?&?&?&?&?).
  rewrite Hc, table_entry_present, table_entry_mask by (done || lia).
  unfold PHYS2VIRT. nowrap. f_equal. lia.
Qed.

Lemma prefix_none p i : T !! p = None → T !! (p ++ [i]) = None.
Proof.
  intros Hp. destruct (T !! (p ++ [i])) eqn:E; [|done].
  apply (tw_prefix _ _ _ _ Hwf) in E as [? E]. congruence.
Qed.

Lemma leaf_slot_tree virt :
  leaf_slot hhdm (k_mem s) root virt =
  t ← T !! path virt; Some (t + table_index virt 12 * 8).
Proof.
  unfold leaf_slot, path.
  pose proof (table_index_range virt 39 ltac:(lia)). pose proof (table_index_range virt 30 ltac:(lia)).
  pose proof (table_index_range virt 21 ltac:(lia)). pose proof (table_index_range virt 12 ltac:(lia)).
  set (i4 := table_index virt 39) in *. set (i3 := table_index virt 30) in *.
  set (i2 := table_index virt 21) in *.
  rewrite (follow_tree [] root i4) by first [apply (tw_root _ _ _ _ Hwf)|done|simpl; lia].
  simpl. destruct (T !! [i4]) as [t3|] eqn:E3; simpl.
  2: { change [i4; i3; i2] with (([i4] ++ [i3]) ++ [i2]).
       by rewrite (prefix_none ([i4] ++ [i3])) by (by apply prefix_none). }
  rewrite (follow_tree [i4] t3 i3) by first [done|simpl; lia].
  simpl. destruct (T !! [i4; i3]) as [t2|] eqn:E2; simpl.
  2: { change [i4; i3; i2] with ([i4; i3] ++ [i2]). by rewrite prefix_none. }
  rewrite (follow_tree [i4; i3] t2 i2) by first [done|simpl; lia].
  simpl. destruct (T !! [i4; i3; i2]) as [t1|] eqn:E1; simpl; [|done].
  by rewrite (slot_eq _ _ _ E1).
Qed.

End Tree.

Lemma translate_tree hhdm s T virt :
  tables_wf hhdm (p_fr s) (pml4 s) T →
  translate hhdm s virt = tree_entry (k_mem (p_fr s)) T virt.
Proof.
  intros Hwf. unfold translate, tree_entry.
  rewrite (leaf_slot_tree _ _ _ _ Hwf). by destruct (T !! path virt).
Qed.

Lemma snoc_neq {A} (q : list A) x : q ++ [x] ≠ q.
Proof. intros E. apply (f_equal length) in E. rewrite length_app in E. simpl in E. lia. Qed.

(** ** Growing the tree *)

(** What [descend] may change: it adds at most one table, taken from a free
    frame; entries of the last-level tables are kept, a new last-level table has
    no present entry, and memory outside the tables and the bitmap is kept. *)
Record grows (s : frame_state) (T : tree) (s' : frame_state) (T' : tree) : Prop := {
  gr_pool : same_pool s s';
  gr_sub : T ⊆ T';
  gr_leaf : ∀ q u j, T !! q = Some u → length q = 3%nat → 0 <= j < 512 →
    load64 (k_mem s') (u + j * 8) = load64 (k_mem s) (u + j * 8);
  gr_new : ∀ q u j, T' !! q = Some u → T !! q = None → length q = 3%nat → 0 <= j < 512 →
    present (load64 (k_mem s') (u + j * 8)) = false;
  gr_fresh : ∀ q u, T' !! q = Some u → T !! q = None →
    ∃ n, 0 <= n < available_frames s ∧ u = pool_frame s n ∧ used s n = false;
  gr_used : ∀ n, 0 <= n < available_frames s → used s n = true → used s' n = true;
  gr_mem : ∀ a, ¬ (frames s <= a < frames s + available_frames s) →
    (∀ q u, T' !! q = Some u → ¬ (u <= a < u + 4096)) → k_mem s' a = k_mem s a;
  gr_tail : fresh_tail s → fresh_tail s';
}.

Lemma grows_refl s T : grows s T s T.
Proof. split; try done; congruence. Qed.

Lemma grows_trans s1 T1 s2 T2 s3 T3 :
  grows s1 T1 s2 T2 → grows s2 T2 s3 T3 → grows s1 T1 s3 T3.
Proof.
  intros G1 G2. pose proof (gr_pool _ _ _ _ G1) as Hp.
  assert (available_frames s2 = available_frames s1) as Ea by apply Hp.
  assert (frames s2 = frames s1) as Ef by apply Hp.
  assert (∀ n, pool_frame s2 n = pool_frame s1 n) as Epf
    by (intros; unfold pool_frame; f_equal; apply Hp).
  split.
  - eapply same_pool_trans; [exact Hp|apply G2].
  - etrans; [apply G1|apply G2].
  - intros q u j Hq Hl Hj. rewrite (gr_leaf _ _ _ _ G2 q), (gr_leaf _ _ _ _ G1 q); try done.
    by apply (lookup_weaken _ _ _ _ Hq), G1.
  - intros q u j Hq Hn Hl Hj. destruct (T2 !! q) as [u2|] eqn:E2.
    + assert (u = u2) as -> by (apply (lookup_weaken _ T3) in E2; [congruence|apply G2]).
      rewrite (gr_leaf _ _ _ _ G2 q) by done. by eapply gr_new.
    + by eapply (gr_new _ _ _ _ G2).
  - intros q u Hq Hn. destruct (T2 !! q) as [u2|] eqn:E2.
    + assert (u = u2) as -> by (apply (lookup_weaken _ T3) in E2; [congruence|apply G2]).
      by eapply (gr_fresh _ _ _ _ G1).
    + destruct (gr_fresh _ _ _ _ G2 q u Hq E2) as (n & Hr & -> & Hu).
      rewrite Ea in Hr. exists n. split; [done|]. split; [apply Epf|].
      destruct (used s1 n) eqn:E; [|done]. by rewrite (gr_used _ _ _ _ G1 n) in Hu.
  - intros n Hn Hu. apply (gr_used _ _ _ _ G2); [lia|]. by apply (gr_used _ _ _ _ G1).
  - intros a Hb Ht. rewrite (gr_mem _ _ _ _ G2); [|by rewrite Ef, Ea|done].
    apply (gr_mem _ _ _ _ G1); [done|]. intros q u Hq. apply (Ht q).
    apply (lookup_weaken _ _ _ _ Hq), G2.
  - intros Hf. apply (gr_tail _ _ _ _ G2). by apply (gr_tail _ _ _ _ G1).
Qed.

Section Link.
Context (hhdm : Z) (s s1 : frame_state) (root : Z) (T : tree) (p : list Z) (t i n : Z).
Context (Hwf : tables_wf hhdm s root T) (Hp : T !! p = Some t) (Hlen : (length p < 3)%nat).
Context (Hi : 0 <= i < 512) (Hnone : T !! (p ++ [i]) = None).
Context (Htk : takes s n 1 s1) (Hwf1 : frames_wf s1) (Hfree : used s n = false).

Let c := pool_frame s n.
Let s' := set_mem (store64 (k_mem s1) (t + i * 8) (table_entry (c - hhdm))) s1.
Let T' : tree := <[p ++ [i] := c]> T.

(** The taken frame lies apart from every table. *)
Lemma taken_apart q u : T !! q = Some u → u + 4096 <= c ∨ c + 4096 <= u.
Proof.
  intros Hq. destruct (tw_pool _ _ _ _ Hwf q u Hq) as (k & Hk & -> & Hu).
  assert (k ≠ n) by congruence. unfold c, pool_frame. lia.
Qed.

Lemma taken_bounds :
  0 <= n < available_frames s ∧ 0 < c ∧ c + 4096 <= 18446744073709551616 ∧
  0 <= c - hhdm ∧ c - hhdm + 4096 <= 281474976710656 ∧ (c - hhdm) `mod` 4096 = 0 ∧
  (c + 4096 <= frames s ∨ frames s + available_frames s <= c).
Proof.
  destruct (tk_range _ _ _ _ Htk). pose proof (tw_frames _ _ _ _ Hwf) as Hf. wf_destruct Hf.
  destruct (tw_hhdm _ _ _ _ Hwf). unfold c, pool_frame.
  replace (base_addr s + n * 4096 - hhdm) with (base_addr s - hhdm + n * 4096) by lia.
  rewrite Z.mod_add by lia. split_and!; lia.
Qed.

Lemma link_bitmap : same_on (frames s) (frames s + available_frames s) (k_mem s1) (k_mem s').
Proof.
  destruct (table_bounds _ _ _ _ Hwf p t Hp) as (?&?&?&?&?&?&?).
  apply same_on_store. simpl. lia.
Qed.

Lemma link_used k : 0 <= k < available_frames s → used s' k = used s k || (k =? n).
Proof.
  intros Hk. destruct (tk_pool _ _ _ _ Htk) as (Ef & Ea & _).
  unfold s'. rewrite used_set_mem; [|done|lia|].
  - rewrite (tk_used _ _ _ _ Htk) by done. f_equal.
    destruct (n <=? k) eqn:?, (k <? n + 1) eqn:?, (k =? n) eqn:?; b2p; done || lia.
  - rewrite Ef, Ea. apply link_bitmap.
Qed.

Lemma link_load_old q u j :
  T !! q = Some u → 0 <= j < 512 → (q ≠ p ∨ j ≠ i) →
  load64 (k_mem s') (u + j * 8) = load64 (k_mem s) (u + j * 8).
Proof.
  intros Hq Hj Hne. destruct (table_bounds _ _ _ _ Hwf q u Hq) as (?&?&?&?&?&?&?).
  pose proof (taken_apart q u Hq).
  unfold s'. simpl. rewrite load64_ne_store64.
  - apply load64_same_on, (takes_same_on s n 1); try done; unfold apart; fold c; lia.
  - unfold apart. destruct (decide (q = p)) as [->|Hqp].
    + assert (u = t) as -> by congruence. destruct Hne; [done|lia].
    + destruct (tables_apart _ _ _ _ Hwf q p u t Hq Hp Hqp); lia.
Qed.

Lemma link_load_slot : load64 (k_mem s') (t + i * 8) = table_entry (c - hhdm).
Proof.
  destruct taken_bounds as (?&?&?&?&?&?&?). unfold s'. simpl. apply load64_store64.
  rewrite table_entry_eq by done. unfold is_u64. lia.
Qed.

Lemma link_load_new j : 0 <= j < 512 → load64 (k_mem s') (c + j * 8) = 0.
Proof.
  intros Hj. pose proof (taken_apart p t Hp). unfold s'. simpl.
  rewrite load64_ne_store64 by (unfold apart; lia).
  apply (load_zero 8). intros a Ha. rewrite (tk_zero _ _ _ _ Htk); [done|].
  unfold c, pool_frame in *. lia.
Qed.

Lemma link_lookup q u : T' !! q = Some u → (q = p ++ [i] ∧ u = c) ∨ T !! q = Some u.
Proof.
  unfold T'. rewrite lookup_insert. case_decide; [|by right]. intros [= <-]. by left.
Qed.

Lemma link_wf : tables_wf hhdm s' root T'.
Proof.
  destruct (tk_pool _ _ _ _ Htk) as (Ef & Ea & Eb & _). destruct taken_bounds as (Hn&?&?&?&?&?&?).
  assert (∀ k, pool_frame s' k = pool_frame s k) as Epf by (intros; unfold pool_frame; simpl; lia).
  split.
  - apply frames_wf_set_mem; [done|]. rewrite Ef, Ea. apply link_bitmap.
  - destruct (tw_hhdm _ _ _ _ Hwf). split; simpl; rewrite ?Ea, ?Eb; done.
  - unfold T'. rewrite lookup_insert_ne by (by destruct p). apply (tw_root _ _ _ _ Hwf).
  - intros q u [[-> ->]|Hq]%link_lookup.
    + exists n. simpl. rewrite Ea, Epf, link_used, Z.eqb_refl, orb_true_r by lia. done.
    + destruct (tw_pool _ _ _ _ Hwf q u Hq) as (k & Hk & -> & Hu).
      exists k. simpl. rewrite Ea, Epf, link_used, Hu by lia. done.
  - intros q r u [[-> ->]|Hq]%link_lookup [[-> Hc]|Hr]%link_lookup; try done.
    + pose proof (taken_apart _ _ Hr). lia.
    + pose proof (taken_apart _ _ Hq). lia.
    + by eapply (tw_inj _ _ _ _ Hwf).
  - intros q j u [[Heq ->]|Hq]%link_lookup; unfold T'.
    + apply app_inj_tail in Heq as [-> ->]. rewrite lookup_insert_ne; [by rewrite Hp|].
      apply snoc_neq.
    + destruct (tw_prefix _ _ _ _ Hwf q j u Hq) as [v Hv].
      rewrite lookup_insert. case_decide; [done|by rewrite Hv].
  - intros q u j [[-> ->]|Hq]%link_lookup Hl Hj; unfold T'.
    + rewrite lookup_insert_ne by (intros E; by apply (snoc_neq (p ++ [i]) j)).
      rewrite (prefix_none _ _ _ _ Hwf) by done. by rewrite link_load_new.
    + rewrite lookup_insert. case_decide as Heq.
      * apply app_inj_tail in Heq as [<- <-]. assert (u = t) as -> by congruence.
        apply link_load_slot.
      * rewrite (link_load_old q); try done; [by apply (tw_child _ _ _ _ Hwf)|].
        destruct (decide (q = p)) as [->|]; [right; congruence|by left].
Qed.

Lemma link_grows : latest_frame s <= n → latest_frame s1 = n + 1 → grows s T s' T'.
Proof.
  intros Hl1 Hl2.
  destruct (tk_pool _ _ _ _ Htk) as (Ef & Ea & Eb & En). destruct taken_bounds as (Hn&?&?&?&?&?&?).
  split.
  - repeat split; done.
  - by apply insert_subseteq.
  - intros q u j Hq Hl Hj. apply (link_load_old q); try done.
    left. intros ->. lia.
  - intros q u j [[-> ->]|Hq]%link_lookup Hno Hl Hj; [by rewrite link_load_new|congruence].
  - intros q u [[-> ->]|Hq]%link_lookup Hno; [|congruence]. exists n. done.
  - intros k Hk Hu. rewrite link_used, Hu by done. done.
  - intros a Hb Ha. unfold s'. simpl. unfold store64. rewrite store_out.
    + apply (tk_frame _ _ _ _ Htk); [|lia].
      specialize (Ha (p ++ [i]) c). unfold T' in Ha. rewrite lookup_insert_eq in Ha.
      specialize (Ha eq_refl). unfold c, pool_frame in *. lia.
    + specialize (Ha p t). unfold T' in Ha. rewrite lookup_insert_ne in Ha.
      * specialize (Ha Hp). simpl. lia.
      * apply snoc_neq.
  - intros Hf k Hk. unfold s' in Hk. simpl in Hk. pose proof (tw_frames _ _ _ _ Hwf) as Hfr. wf_destruct Hfr.
    rewrite link_used, Hf by lia. apply Z.eqb_neq. lia.
Qed.

End Link.

(** One level of [map]: the path it follows is in the new tree, and a frame is
    used up exactly when a table is added. *)
Lemma descend_spec hhdm s root T p t i :
  tables_wf hhdm s root T → T !! p = Some t → (length p < 3)%nat → 0 <= i < 512 →
  (size ({[p ++ [i]]} ∪ dom T) <= free_ahead s + size T)%nat →
  ∃ t' s' T', descend hhdm s t i = (t', s') ∧ tables_wf hhdm s' root T' ∧
    grows s T s' T' ∧ T' !! (p ++ [i]) = Some t' ∧ dom T' = {[p ++ [i]]} ∪ dom T ∧
    (free_ahead s + size T = free_ahead s' + size T')%nat.
Proof.
  intros Hwf Hp Hlen Hi Hfree. pose proof (tw_child _ _ _ _ Hwf p t i Hp Hlen Hi) as Hc.
  pose proof (follow_tree _ _ _ _ Hwf p t i Hp Hlen Hi) as Hfol. unfold follow in Hfol.
  unfold descend. rewrite (slot_eq _ _ _ _ Hwf p) in * by done.
  destruct (present _) eqn:Epres.
  - exists (PHYS2VIRT hhdm (Z.land (load64 (k_mem s) (t + i * 8)) PTE_MASK)), s, T.
    split; [done|]. split; [done|]. split; [apply grows_refl|]. split; [done|]. split; [|lia].
    assert (p ++ [i] ∈ dom T) by (apply elem_of_dom; eauto). set_solver.
  - symmetry in Hfol. pose proof (tw_frames _ _ _ _ Hwf) as Hf.
    assert (p ++ [i] ∉ dom T) as Hnd by by apply not_elem_of_dom.
    rewrite size_union, size_singleton, size_dom in Hfree by set_solver.
    destruct (alloc_cases s Hf) as [[He _]|(n & s1 & Hff & -> & Htk & Hwf1 & Hl)].
    { apply exhausted_free_ahead in He. lia. }
    pose proof (alloc_free_ahead s n s1 Hf Hff Htk Hl) as Hcount. destruct Hff as (Hnl & Hun & _).
    destruct (taken_bounds hhdm s s1 root T p n Hwf Hlen Htk) as (?&?&?&?&?&?&?).
    exists (pool_frame s n). eexists. exists (<[p ++ [i] := pool_frame s n]> T).
    replace (VIRT2PHYS hhdm (pool_frame s n)) with (pool_frame s n - hhdm)
      by (destruct (tw_hhdm _ _ _ _ Hwf); unfold VIRT2PHYS; nowrap; lia).
    split; [reflexivity|]. split; [by apply (link_wf hhdm s s1 root T p t i n)|].
    split; [apply (link_grows hhdm s s1 root T p t i n); done || lia|]. rewrite lookup_insert_eq.
    split; [done|]. split; [by rewrite dom_insert_L|].
    destruct (tk_pool _ _ _ _ Htk) as (Ef & Ea & _).
    rewrite map_size_insert_None by done.
    rewrite Hcount, free_ahead_set_mem; [lia|done|]. rewrite Ef, Ea.
    by eapply (link_bitmap hhdm s s1 root T p t i n).
Qed.

(** ** Writing a last-level entry *)

Section Leaf.
Context (hhdm : Z) (s : frame_state) (root : Z) (T : tree) (virt t e : Z).
Context (Hwf : tables_wf hhdm s root T) (Ht : T !! path virt = Some t) (He : is_u64 e).

Let leaf := t + table_index virt 12 * 8.
Let s' := set_mem (store64 (k_mem s) leaf e) s.

Lemma leaf_bounds : t <= leaf ∧ leaf + 8 <= t + 4096.
Proof. pose proof (table_index_range virt 12 ltac:(lia)). unfold leaf. lia. Qed.

Lemma leaf_bitmap : same_on (frames s) (frames s + available_frames s) (k_mem s) (k_mem s').
Proof.
  destruct (table_bounds _ _ _ _ Hwf _ _ Ht) as (?&?&?&?&?&?&?). pose proof leaf_bounds.
  apply same_on_store. simpl. lia.
Qed.

Lemma leaf_load q u j :
  T !! q = Some u → 0 <= j < 512 → (q ≠ path virt ∨ j ≠ table_index virt 12) →
  load64 (k_mem s') (u + j * 8) = load64 (k_mem s) (u + j * 8).
Proof.
  intros Hq Hj Hne. pose proof leaf_bounds. unfold s'. simpl.
  rewrite load64_ne_store64; [done|]. unfold apart.
  destruct (decide (q = path virt)) as [->|Hqp].
  - assert (u = t) as -> by congruence. unfold leaf. destruct Hne; [done|lia].
  - destruct (tables_apart _ _ _ _ Hwf q _ u t Hq Ht Hqp); lia.
Qed.

Lemma leaf_wf : tables_wf hhdm s' root T.
Proof.
  pose proof (tw_frames _ _ _ _ Hwf) as Hf. split.
  - apply frames_wf_set_mem; [done|apply leaf_bitmap].
  - by destruct (tw_hhdm _ _ _ _ Hwf).
  - apply (tw_root _ _ _ _ Hwf).
  - intros q u Hq. destruct (tw_pool _ _ _ _ Hwf q u Hq) as (n & Hn & -> & Hu).
    exists n. split; [done|]. split; [done|].
    unfold s'. by rewrite used_set_mem by (done || apply leaf_bitmap).
  - apply (tw_inj _ _ _ _ Hwf).
  - apply (tw_prefix _ _ _ _ Hwf).
  - intros q u j Hq Hl Hj. rewrite (leaf_load q); try done; [by apply (tw_child _ _ _ _ Hwf)|].
    left. intros ->. simpl in Hl. lia.
Qed.

Lemma leaf_entry v :
  tree_entry (k_mem s') T v =
  if decide (vpn v = vpn virt) then (if present e then Some e else None)
  else tree_entry (k_mem s) T v.
Proof.
  unfold tree_entry. case_decide as Hv.
  - apply indices_vpn in Hv as (E4 & E3 & E2 & E1).
    unfold path. rewrite E4, E3, E2, E1. fold (path virt). rewrite Ht. simpl.
    unfold s'. simpl. fold leaf. by rewrite load64_store64.
  - destruct (T !! path v) as [u|] eqn:Eu; [|done]. simpl.
    rewrite (leaf_load (path v)); [done|done|apply table_index_range; lia|].
    destruct (decide (path v = path virt)) as [Hp|]; [|by left]. right. intros E1.
    injection Hp as E4 E3 E2. by apply Hv, vpn_indices.
Qed.

End Leaf.

(** A grown tree translates as the old one did. *)
Lemma grows_entry hhdm s root T s' T' v :
  tables_wf hhdm s root T → grows s T s' T' →
  tree_entry (k_mem s') T' v = tree_entry (k_mem s) T v.
Proof.
  intros Hwf G. unfold tree_entry.
  pose proof (table_index_range v 12 ltac:(lia)) as Hr.
  destruct (T !! path v) as [u|] eqn:Eu; simpl.
  - rewrite (lookup_weaken _ _ _ _ Eu (gr_sub _ _ _ _ G)). simpl.
    by rewrite (gr_leaf _ _ _ _ G (path v)).
  - destruct (T' !! path v) as [u'|] eqn:Eu'; [|done]. simpl.
    by rewrite (gr_new _ _ _ _ G (path v)).
Qed.

(** ** map and unmap *)

(** The entry [e] as the walk reports it. *)
Definition visible (e : Z) : option Z := if present e then Some e else None.

(** The effect of changing the translation of the page of [virt] to [r] while
    the tree may grow from [T] to [T']. *)
Record remaps (hhdm : Z) (s : paging_state) (T : tree) (virt : Z) (r : option Z)
    (s' : paging_state) (T' : tree) : Prop := {
  rm_wf : tables_wf hhdm (p_fr s') (pml4 s') T';
  rm_root : pml4 s' = pml4 s;
  rm_pool : same_pool (p_fr s) (p_fr s');
  rm_sub : T ⊆ T';
  rm_fresh : ∀ q u, T' !! q = Some u → T !! q = None →
    ∃ n, 0 <= n < available_frames (p_fr s) ∧ u = pool_frame (p_fr s) n ∧ used (p_fr s) n = false;
  rm_used : ∀ n, 0 <= n < available_frames (p_fr s) →
    used (p_fr s) n = true → used (p_fr s') n = true;
  rm_mem : ∀ a, ¬ (frames (p_fr s) <= a < frames (p_fr s) + available_frames (p_fr s)) →
    (∀ q u, T' !! q = Some u → ¬ (u <= a < u + 4096)) →
    k_mem (p_fr s') a = k_mem (p_fr s) a;
  rm_tail : fresh_tail (p_fr s) → fresh_tail (p_fr s');
  rm_translate : ∀ v, translate hhdm s' v =
    if decide (vpn v = vpn virt) then r else translate hhdm s v;
  rm_tlb : tlb s' = ∅ ∨ (tlb s' = tlb s ∧ translate hhdm s virt = None);
}.

Lemma same_pool_set_mem s s' m : same_pool s s' → same_pool s (set_mem m s').
Proof. done. Qed.

(** Writing the last-level entry in a grown tree. *)
Lemma remaps_leaf hhdm s T f T' virt t e (fl : bool) :
  tables_wf hhdm (p_fr s) (pml4 s) T → tables_wf hhdm f (pml4 s) T' →
  grows (p_fr s) T f T' → T' !! path virt = Some t → is_u64 e →
  (fl = false → translate hhdm s virt = None) →
  let s1 := set_fr (set_mem (store64 (k_mem f) (t + table_index virt 12 * 8) e) f) s in
  remaps hhdm s T virt (visible e) (if fl then flush_tlb s1 else s1) T'.
Proof.
  intros Hwf Hwf' G Ht He Hfl s1.
  assert (tables_wf hhdm (p_fr s1) (pml4 s) T') as Hw1 by by apply leaf_wf.
  assert (same_on (frames f) (frames f + available_frames f) (k_mem f) (k_mem (p_fr s1))) as Hbit
    by (by eapply (leaf_bitmap hhdm f (pml4 s) T')).
  destruct (gr_pool _ _ _ _ G) as (Ef & Ea & Eb & En).
  assert (p_fr (if fl then flush_tlb s1 else s1) = p_fr s1) as Efr by by destruct fl.
  assert (pml4 (if fl then flush_tlb s1 else s1) = pml4 s) as Er by by destruct fl.
  split; rewrite ?Efr, ?Er; try done.
  - apply G.
  - apply G.
  - intros n Hn Hu. unfold s1. simpl. rewrite used_set_mem; [by apply (gr_used _ _ _ _ G)| |lia|done].
    apply (tw_frames _ _ _ _ Hwf').
  - intros a Hb Ha. unfold s1. simpl. unfold store64. rewrite store_out.
    + by apply (gr_mem _ _ _ _ G).
    + specialize (Ha _ _ Ht). pose proof (leaf_bounds virt t). simpl. lia.
  - intros Hft k Hk. apply (gr_tail _ _ _ _ G) in Hft. unfold s1 in Hk. simpl in Hk.
    pose proof (tw_frames _ _ _ _ Hwf') as Hfr. wf_destruct Hfr.
    unfold s1. simpl. rewrite used_set_mem by (done || lia). by apply Hft.
  - intros v. rewrite (translate_tree hhdm s T v Hwf).
    rewrite (translate_tree hhdm _ T') by (by rewrite Efr, Er). rewrite Efr. unfold s1. simpl.
    rewrite (leaf_entry hhdm f (pml4 s) T' virt t e Hwf' Ht He).
    by rewrite (grows_entry hhdm (p_fr s) (pml4 s) T f T').
  - destruct fl; [by left|right]. split; [done|auto].
Qed.

Lemma enough_mono s T P Q : P ⊆ Q → enough s T Q → enough s T P.
Proof. unfold enough. intros HPQ HQ. etrans; [|exact HQ]. apply subseteq_size. set_solver. Qed.

(** The requirement is kept by a step that conserves frames plus tables. *)
Lemma enough_step s T s' T' P Q :
  enough s T (P ∪ Q) → dom T' = P ∪ dom T →
  (free_ahead s + size T = free_ahead s' + size T')%nat → enough s' T' Q.
Proof.
  unfold enough. intros HE Hd Hs. rewrite <- Hs, Hd. etrans; [|exact HE].
  apply subseteq_size. set_solver.
Qed.

Lemma size_union_le (X Y : gset (list Z)) : (size (X ∪ Y) <= size X + size Y)%nat.
Proof. rewrite size_union_alt. apply Nat.add_le_mono_l, subseteq_size. set_solver. Qed.

(** Three free frames suffice for any one page. *)
Lemma enough_three s T virt : (3 <= free_ahead s)%nat → enough s T (tables_of virt).
Proof.
  intros H. unfold enough, tables_of. rewrite <- (size_dom T).
  etrans; [apply size_union_le|]. apply Nat.add_le_mono_r.
  etrans; [apply size_union_le|]. rewrite size_singleton.
  etrans; [apply Nat.add_le_mono_r, size_union_le|]. rewrite !size_singleton. lia.
Qed.

Lemma map_spec hhdm s T phys virt flags :
  tables_wf hhdm (p_fr s) (pml4 s) T → enough (p_fr s) T (tables_of virt) →
  is_u64 (Z.lor phys flags) →
  let s' := map hhdm s phys virt flags in
  ∃ T', remaps hhdm s T virt (visible (Z.lor phys flags)) s' T' ∧
    dom T' = tables_of virt ∪ dom T ∧
    (free_ahead (p_fr s) + size T = free_ahead (p_fr s') + size T')%nat.
Proof.
  intros Hwf Hen He. unfold map.
  pose proof (table_index_range virt 39 ltac:(lia)) as I4.
  pose proof (table_index_range virt 30 ltac:(lia)) as I3.
  pose proof (table_index_range virt 21 ltac:(lia)) as I2.
  pose proof (table_index_range virt 12 ltac:(lia)) as I1.
  unfold tables_of in *. rewrite <- (assoc_L (∪)) in Hen.
  destruct (descend_spec hhdm (p_fr s) (pml4 s) T [] (pml4 s) (table_index virt 39))
    as (t3 & f1 & T1 & -> & W1 & G1 & L1 & D1 & N1);
    [done|apply (tw_root _ _ _ _ Hwf)|simpl; lia|done|eapply enough_mono; [|exact Hen]; set_solver|].
  pose proof (enough_step _ _ _ _ _ _ Hen D1 N1) as Hen1.
  destruct (descend_spec hhdm f1 (pml4 s) T1 [table_index virt 39] t3 (table_index virt 30))
    as (t2 & f2 & T2 & -> & W2 & G2 & L2 & D2 & N2);
    [done|done|simpl; lia|done|eapply enough_mono; [|exact Hen1]; set_solver|].
  pose proof (enough_step _ _ _ _ _ _ Hen1 D2 N2) as Hen2.
  destruct (descend_spec hhdm f2 (pml4 s) T2 [table_index virt 39; table_index virt 30] t2
    (table_index virt 21)) as (t1 & f3 & T3 & -> & W3 & G3 & L3 & D3 & N3);
    [done|done|simpl; lia|done|exact Hen2|].
  assert (grows (p_fr s) T f3 T3) as G by (do 2 (eapply grows_trans; [eassumption|]); done).
  assert (T3 !! path virt = Some t1) as Hleaf by exact L3.
  rewrite (slot_eq _ _ _ _ W3 _ _ _ Hleaf) by done. exists T3. split; [|split].
  - apply (remaps_leaf hhdm s T f3 T3); try done. intros Hnp.
    rewrite (translate_tree hhdm s T virt Hwf), <- (grows_entry hhdm (p_fr s) (pml4 s) T f3 T3 virt Hwf G).
    unfold tree_entry. rewrite Hleaf. simpl. by rewrite Hnp.
  - rewrite D3, D2, D1. unfold path. simpl. set_solver.
  - set (m := store64 _ _ _).
    assert (free_ahead (set_mem m f3) = free_ahead f3) as E.
    { apply free_ahead_set_mem; [apply W3|]. by eapply (leaf_bitmap hhdm f3 (pml4 s) T3). }
    destruct (present _); simpl; lia.
Qed.

Lemma unmap_spec hhdm s T virt :
  tables_wf hhdm (p_fr s) (pml4 s) T →
  remaps hhdm s T virt None (unmap hhdm s virt) T.
Proof.
  intros Hwf. unfold unmap. rewrite (leaf_slot_tree _ _ _ _ Hwf).
  destruct (T !! path virt) as [t|] eqn:Et; simpl.
  - apply (remaps_leaf hhdm s T (p_fr s) T virt t 0 true); try done. apply grows_refl.
  - assert (translate hhdm s virt = None) as Hnone.
    { rewrite (translate_tree hhdm s T virt Hwf). unfold tree_entry. by rewrite Et. }
    split; try done; [congruence| |by right]. intros v. case_decide as Hv; [|done].
    rewrite <- Hnone, !(translate_tree hhdm s T _ Hwf). unfold tree_entry.
    apply indices_vpn in Hv as (E4 & E3 & E2 & E1). unfold path. by rewrite E4, E3, E2, E1.
Qed.

(** Changing one page keeps the cached translations right. *)
Lemma remaps_coherent hhdm s T virt r s' T' :
  remaps hhdm s T virt r s' T' → tlb_coherent hhdm s → tlb_coherent hhdm s'.
Proof.
  intros R Hc pg e Hpg. destruct (rm_tlb _ _ _ _ _ _ _ R) as [E|[E Hn]]; rewrite E in Hpg.
  - by rewrite lookup_empty in Hpg.
  - destruct (Hc pg e Hpg) as [Hv Ht]. split; [done|].
    rewrite (rm_translate _ _ _ _ _ _ _ R). case_decide as Hd; [|done]. exfalso.
    assert (translate hhdm s (pg * 4096) = translate hhdm s virt) as Heq; [|congruence].
    apply indices_vpn in Hd as (E4 & E3 & E2 & E1).
    unfold translate, leaf_slot. by rewrite E4, E3, E2, E1.
Qed.

(** ** Reading an entry back *)

Lemma present_lor a b : present (Z.lor a b) = present a || present b.
Proof. by rewrite !present_odd, <- !Z.bit0_odd, Z.lor_spec. Qed.

Lemma aligned_not_present x : x `mod` 4096 = 0 → present x = false.
Proof.
  intros Hx. rewrite present_odd. destruct (Z.odd x) eqn:E; [|done].
  apply Z.odd_spec in E as [k Hk]. exfalso. subst. dlia.
Qed.

(** The frame address in the entry of an aligned physical page. *)
Lemma entry_frame phys flags :
  phys `mod` 4096 = 0 → 0 <= phys < 281474976710656 → Z.land flags PTE_MASK = 0 →
  Z.land (Z.lor phys flags) PTE_MASK = phys.
Proof.
  intros Ha Hr Hf. rewrite Z.land_lor_distr_l, Hf, Z.lor_0_r, land_PTE_MASK. dlia.
Qed.

Lemma land_lor_absorb a b : Z.land (Z.lor a b) b = b.
Proof.
  apply Z.bits_inj'. intros i _. rewrite Z.land_spec, Z.lor_spec.
  by destruct (Z.testbit a i), (Z.testbit b i).
Qed.

Lemma lor_u64 a b : is_u64 a → is_u64 b → is_u64 (Z.lor a b).
Proof.
  unfold is_u64. intros Ha Hb. split; [apply Z.lor_nonneg; lia|].
  change 18446744073709551616 with (2 ^ 64) in *.
  assert (Z.lor a b = Z.lor a b `mod` 2 ^ 64) as ->; [|apply Z.mod_pos_bound; lia].
  rewrite <- Z.land_ones by lia. rewrite Z.land_lor_distr_l, !Z.land_ones by lia.
  by rewrite !Z.mod_small by lia.
Qed.

(** ** Properties *)

(** C3: mapping a page-aligned frame with present flags makes every address of
    the virtual page translate to that frame with those flags, changes the
    translation of no other page, keeps the tables well-formed and keeps the
    cached translations right, whether or not the page was mapped before. *)
Theorem map_correct hhdm s T phys virt flags :
  tables_wf hhdm (p_fr s) (pml4 s) T → tlb_coherent hhdm s →
  enough (p_fr s) T (tables_of virt) →
  phys `mod` 4096 = 0 → 0 <= phys < 281474976710656 →
  is_u64 flags → Z.land flags PTE_MASK = 0 → present flags = true →
  let s' := map hhdm s phys virt flags in
  (∃ T', T ⊆ T' ∧ tables_wf hhdm (p_fr s') (pml4 s') T') ∧ tlb_coherent hhdm s' ∧
  (∀ v, vpn v = vpn virt → ∃ e, translate hhdm s' v = Some e ∧
     Z.land e PTE_MASK = phys ∧ Z.land e flags = flags) ∧
  (∀ v, vpn v ≠ vpn virt → translate hhdm s' v = translate hhdm s v).
Proof.
  intros Hwf Hcoh Hfree Ha Hr Hf Hm Hp s'.
  destruct (map_spec hhdm s T phys virt flags) as (T' & R & _);
    [done|done|apply lor_u64; [unfold is_u64; lia|done]|].
  split; [exists T'; split; apply R|]. split; [by eapply remaps_coherent|]. split.
  - intros v Hv. exists (Z.lor phys flags). rewrite (rm_translate _ _ _ _ _ _ _ R).
    rewrite decide_True by done. unfold visible. rewrite present_lor, Hp, orb_true_r.
    split; [done|]. split; [by apply entry_frame|].
    apply land_lor_absorb.
  - intros v Hv. rewrite (rm_translate _ _ _ _ _ _ _ R). by rewrite decide_False.
Qed.

(** C13: unmapping a page removes its translation, keeps every other one, keeps
    the tables well-formed and keeps the cached translations right. *)
Theorem unmap_correct hhdm s T virt :
  tables_wf hhdm (p_fr s) (pml4 s) T → tlb_coherent hhdm s →
  let s' := unmap hhdm s virt in
  tables_wf hhdm (p_fr s') (pml4 s') T ∧ tlb_coherent hhdm s' ∧
  (∀ v, translate hhdm s' v = if decide (vpn v = vpn virt) then None else translate hhdm s v).
Proof.
  intros Hwf Hcoh s'. pose proof (unmap_spec hhdm s T virt Hwf) as R.
  split; [apply R|]. split; [by eapply remaps_coherent|apply R].
Qed.

(** C35: mapping a page that was not mapped and unmapping it again leaves the
    translation of every address as it was. *)
Theorem map_unmap_roundtrip hhdm s T phys virt flags :
  tables_wf hhdm (p_fr s) (pml4 s) T → enough (p_fr s) T (tables_of virt) →
  is_u64 phys → is_u64 flags → translate hhdm s virt = None →
  ∀ v, translate hhdm (unmap hhdm (map hhdm s phys virt flags) virt) v = translate hhdm s v.
Proof.
  intros Hwf Hfree Hp Hf Hnone v.
  destruct (map_spec hhdm s T phys virt flags Hwf Hfree (lor_u64 _ _ Hp Hf)) as (T' & R & _).
  pose proof (unmap_spec hhdm _ T' virt (rm_wf _ _ _ _ _ _ _ R)) as R'.
  rewrite (rm_translate _ _ _ _ _ _ _ R'). case_decide as Hv.
  - rewrite <- Hnone. apply indices_vpn in Hv as (E4 & E3 & E2 & E1).
    unfold translate, leaf_slot. by rewrite E4, E3, E2, E1.
  - rewrite (rm_translate _ _ _ _ _ _ _ R). by rewrite decide_False.
Qed.

(** The result of the frame allocator is not checked: when it is exhausted,
    a missing table is linked at the physical address of the null pointer and
    the walk continues there. *)
Theorem descend_exhausted hhdm s table idx :
  frames_wf s → exhausted s → present (load64 (k_mem s) (slot table idx)) = false →
  let '(t, s') := descend hhdm s table idx in
  t = 0 ∧ load64 (k_mem s') (slot table idx) = Z.lor (Z.lor (u64 (- hhdm)) 1) 2.
Proof.
  intros Hwf He Hp. unfold descend. rewrite Hp.
  destruct (alloc_cases s Hwf) as [[_ ->]|(n & s' & (Hn & Hf & _) & _)].
  2: { rewrite He in Hf by lia. done. }
  split; [done|]. simpl. rewrite load64_store64; [done|].
  apply lor_u64; [apply lor_u64|]; unfold VIRT2PHYS; first [apply u64_range|split; done].
Qed.

(** ** Witnesses: sixteen frames at 0x100000 above a direct map at 0x80000, the
    root table in frame 0. *)

Definition sample_mem : mem := λ a, if a =? 0x1000 then 1 else 0.
Definition sample_paging : paging_state :=
  mk_paging (mk_frame_state sample_mem 0x1000 16 1 16 0x100000) 0x100000 ∅ 0 0 0.
Definition sample_tree : tree := {[ [] := 0x100000 ]}.

Lemma sample_bit i :
  0 <= i < 16 → frame_bit (p_fr sample_paging) i = if i =? 0 then 1 else 0.
Proof.
  intros Hi. unfold frame_bit. simpl. nowrap. rewrite load8_eq. unfold sample_mem.
  destruct (i =? 0) eqn:?, (4096 + i =? 4096) eqn:?; b2p; done || lia.
Qed.

Lemma sample_tables : tables_wf 0x80000 (p_fr sample_paging) (pml4 sample_paging) sample_tree.
Proof.
  unfold sample_tree. split.
  - split; simpl; unfold apart; try lia. intros i Hi. simpl in Hi.
    rewrite sample_bit by lia. case_cond; auto.
  - split; simpl; lia || done.
  - reflexivity.
  - intros p t Ht. apply lookup_singleton_Some in Ht as [<- <-]. exists 0. split; [simpl; lia|].
    split; [done|]. unfold used. by rewrite sample_bit.
  - intros p q t Hp Hq. apply lookup_singleton_Some in Hp as [<- _].
    by apply lookup_singleton_Some in Hq as [<- _].
  - intros p i c Hc. apply lookup_singleton_Some in Hc as [E _]. by destruct p.
  - intros p t i Ht _ Hi. apply lookup_singleton_Some in Ht as [<- <-].
    rewrite lookup_singleton_ne by done.
    replace (load64 _ _) with 0; [done|]. symmetry. apply (load_zero 8). intros a Ha.
    simpl. unfold sample_mem. cond_false. done.
Qed.

Lemma sample_free : free_ahead (p_fr sample_paging) = 15%nat.
Proof. vm_compute. reflexivity. Qed.

Lemma sample_coherent : tlb_coherent 0x80000 sample_paging.
Proof. intros pg e H. simpl in H. by rewrite lookup_empty in H. Qed.

Lemma map_correct_witness :
  ∃ e, translate 0x80000 (map 0x80000 sample_paging 0x200000 0xffff800000200000 3)
         0xffff800000200abc = Some e ∧ Z.land e PTE_MASK = 0x200000.
Proof.
  destruct (map_correct 0x80000 sample_paging sample_tree 0x200000 0xffff800000200000 3
    sample_tables sample_coherent) as (_ & _ & H & _);
    [apply enough_three; rewrite sample_free; lia|reflexivity|lia|unfold is_u64; lia|reflexivity|reflexivity|].
  destruct (H 0xffff800000200abc eq_refl) as (e & He & Hf & _). exists e. split; [exact He|exact Hf].
Defined.

Lemma unmap_correct_witness :
  translate 0x80000 (unmap 0x80000 sample_paging 0x5000) 0x5000 = None.
Proof.
  destruct (unmap_correct 0x80000 sample_paging sample_tree 0x5000 sample_tables sample_coherent)
    as (_ & _ & H). rewrite H. reflexivity.
Defined.

Lemma map_unmap_roundtrip_witness :
  translate 0x80000 (unmap 0x80000 (map 0x80000 sample_paging 0x200000 0x5000 3) 0x5000) 0x5000
  = translate 0x80000 sample_paging 0x5000.
Proof.
  apply (map_unmap_roundtrip 0x80000 sample_paging sample_tree 0x200000 0x5000 3 sample_tables);
    [apply enough_three; rewrite sample_free; lia|unfold is_u64; lia|unfold is_u64; lia|reflexivity].
Defined.

Lemma descend_exhausted_witness :
  (descend 0x80000 (mk_frame_state (λ _, 0) 0x1000 8 8 8 0x100000) 0x100000 5).1 = 0.
Proof.
  pose proof (descend_exhausted 0x80000 (mk_frame_state (λ _, 0) 0x1000 8 8 8 0x100000) 0x100000 5) as H.
  destruct (descend _ _ _ _) as [t s']. apply H.
  - split; simpl; unfold apart; try lia. intros i Hi. left. unfold frame_bit. by rewrite load8_eq.
  - intros i Hi. simpl in Hi. lia.
  - reflexivity.
Defined.
