(* ===== verification/Mapper.v ===== *)
(** * Mapper: the initial address space.

    [src/kernel/mem/map/mapper.cc] and [Mem::Paging::init].  Each loop of the
    mapper is a sequence of [Paging.map] calls; [map_all] runs a list of such
    requests, and the effect of the list on every translation is computed by
    [effect]. *)
From stdpp Require Import base numbers list gmap.
From S2P Require Import Prelude Mem Boot Frames Paging PageTables.
Local Open Scope Z_scope.

(** The section bounds the linker script defines ([_text_start_ld], ...). *)
Record linker_symbols := mk_symbols {
  text_start_ld : Z;
  text_end_ld : Z;
  rodata_start_ld : Z;
  rodata_end_ld : Z;
  data_start_ld : Z;
  data_end_ld : Z;
}.

Definition TEXT_FLAGS : Z := Z.lor PAGE_PRESENT PAGE_USER.
Definition RODATA_FLAGS : Z := Z.lor (Z.lor PAGE_PRESENT PAGE_NX) PAGE_USER.
Definition DATA_FLAGS : Z := Z.lor (Z.lor (Z.lor PAGE_PRESENT PAGE_WRITE) PAGE_NX) PAGE_USER.
Definition MEMORY_FLAGS : Z := Z.lor (Z.lor PAGE_PRESENT PAGE_WRITE) PAGE_USER.

(** [for (v = cur; v < fin; v += FRAME_SIZE) map(v - virt_base + phys_base, v, flags)]. *)
Fixpoint map_span (fuel : nat) (boot : BootloaderCtx) (s : paging_state) (cur fin flags : Z)
    : paging_state :=
  match fuel with
  | O => s
  | S fuel =>
      if cur <? fin then
        map_span fuel boot
          (map (hhdm_addr boot) s (cur ⊖ kern_address_virt boot ⊕ kern_address_phys boot) cur flags)
          (cur ⊕ FRAME_SIZE) fin flags
      else s
  end.

(** Iterations that cover a span. *)
Definition span_fuel (cur fin : Z) : nat := Z.to_nat ((fin - cur + 4095) `div` 4096).

Definition map_kernel_code (boot : BootloaderCtx) (ld : linker_symbols) (s : paging_state)
    : paging_state :=
  let text_start := ALIGN_DOWN (text_start_ld ld) FRAME_SIZE in
  let text_end := ALIGN_UP (text_end_ld ld) FRAME_SIZE in
  let rodata_start := ALIGN_DOWN (rodata_start_ld ld) FRAME_SIZE in
  let rodata_end := ALIGN_UP (rodata_end_ld ld) FRAME_SIZE in
  let data_start := ALIGN_DOWN (data_start_ld ld) FRAME_SIZE in
  let data_end := ALIGN_UP (data_end_ld ld) FRAME_SIZE in
  let s := map_span (span_fuel text_start text_end) boot s text_start text_end TEXT_FLAGS in
  let s := map_span (span_fuel rodata_start rodata_end) boot s rodata_start rodata_end RODATA_FLAGS in
  map_span (span_fuel data_start data_end) boot s data_start data_end DATA_FLAGS.

(** [for (page = 0; page < pages; page++) map(paddr + page * FRAME_SIZE, ...)],
    [n] iterations from [page]. *)
Fixpoint map_pages (n : nat) (hhdm : Z) (s : paging_state) (paddr vaddr page flags : Z)
    : paging_state :=
  match n with
  | O => s
  | S n =>
      map_pages n hhdm
        (map hhdm s (paddr ⊕ (page ⊗ FRAME_SIZE)) (vaddr ⊕ (page ⊗ FRAME_SIZE)) flags)
        paddr vaddr (page ⊕ 1) flags
  end.

(** The loop over the memory map that the four mapping functions share: entries
    of kind [ty] are mapped into the direct map, the others are skipped. *)
Fixpoint map_entries (ty : memmap_type) (hhdm : Z) (s : paging_state) (l : list memmap_entry)
    : paging_state :=
  match l with
  | [] => s
  | e :: l =>
      let vaddr := PHYS2VIRT hhdm (e_base e) in
      let pages := e_length e `div` FRAME_SIZE in
      map_entries ty hhdm
        (if decide (e_type e = ty)
         then map_pages (Z.to_nat pages) hhdm s (e_base e) vaddr 0 MEMORY_FLAGS
         else s) l
  end.

Definition map_found_memory (boot : BootloaderCtx) (s : paging_state) : paging_state :=
  map_entries LIMINE_MEMMAP_USABLE (hhdm_addr boot) s (memmap_entries boot).

Definition map_hhdm_memory (boot : BootloaderCtx) (s : paging_state) : paging_state :=
  map_entries LIMINE_MEMMAP_USABLE (hhdm_addr boot) s (memmap_entries boot).

Definition map_bootloader_memory (boot : BootloaderCtx) (s : paging_state) : paging_state :=
  map_entries LIMINE_MEMMAP_BOOTLOADER_RECLAIMABLE (hhdm_addr boot) s (memmap_entries boot).

Definition map_framebuffer_memory (boot : BootloaderCtx) (s : paging_state) : paging_state :=
  map_entries LIMINE_MEMMAP_FRAMEBUFFER (hhdm_addr boot) s (memmap_entries boot).

Definition full_map (boot : BootloaderCtx) (ld : linker_symbols) (s : paging_state) : paging_state :=
  map_kernel_code boot ld
    (map_hhdm_memory boot
       (map_found_memory boot
          (map_framebuffer_memory boot
             (map_bootloader_memory boot s)))).

(** [Mem::Paging::init]. *)
Definition init (boot : BootloaderCtx) (ld : linker_symbols) (s : paging_state) : paging_state :=
  let '(root, f) := alloc (p_fr s) in
  let f := set_mem (memset (k_mem f) root 0 FRAME_SIZE) f in
  let s := mk_paging f root (tlb s) (cr0 s) (cr3 s) (cr4 s) in
  let s := full_map boot ld s in
  enable_paging (load_cr3 (hhdm_addr boot) (pml4 s) s).

(** ** Lists of requests *)

Record request := mk_request { r_phys : Z; r_virt : Z; r_flags : Z }.

Definition map_all (hhdm : Z) (s : paging_state) (l : list request) : paging_state :=
  foldl (λ s r, map hhdm s (r_phys r) (r_virt r) (r_flags r)) s l.

Definition r_entry (r : request) : Z := Z.lor (r_phys r) (r_flags r).

(** The translation of [v] after the requests, from its translation [x]. *)
Fixpoint effect (l : list request) (v : Z) (x : option Z) : option Z :=
  match l with
  | [] => x
  | r :: l => effect l v (if decide (vpn v = vpn (r_virt r)) then visible (r_entry r) else x)
  end.

(** The tables a list of requests needs below the root. *)
Definition tables_for (l : list request) : gset (list Z) :=
  ⋃ ((λ r, tables_of (r_virt r)) <$> l).

(** What any number of [map] and [unmap] calls keep. *)
Record evolves (hhdm : Z) (s : paging_state) (T : tree) (s' : paging_state) (T' : tree) : Prop := {
  ev_wf : tables_wf hhdm (p_fr s') (pml4 s') T';
  ev_root : pml4 s' = pml4 s;
  ev_pool : same_pool (p_fr s) (p_fr s');
  ev_sub : T ⊆ T';
  ev_fresh : ∀ q u, T' !! q = Some u → T !! q = None →
    ∃ n, 0 <= n < available_frames (p_fr s) ∧ u = pool_frame (p_fr s) n ∧ used (p_fr s) n = false;
  ev_used : ∀ n, 0 <= n < available_frames (p_fr s) →
    used (p_fr s) n = true → used (p_fr s') n = true;
  ev_mem : ∀ a, ¬ (frames (p_fr s) <= a < frames (p_fr s) + available_frames (p_fr s)) →
    (∀ q u, T' !! q = Some u → ¬ (u <= a < u + 4096)) →
    k_mem (p_fr s') a = k_mem (p_fr s) a;
  ev_tail : fresh_tail (p_fr s) → fresh_tail (p_fr s');
  ev_tlb : tlb_coherent hhdm s → tlb_coherent hhdm s';
}.

Lemma evolves_refl hhdm s T :
  tables_wf hhdm (p_fr s) (pml4 s) T → evolves hhdm s T s T.
Proof. intros. split; try done. congruence. Qed.

Lemma remaps_evolves hhdm s T v r s' T' :
  remaps hhdm s T v r s' T' → evolves hhdm s T s' T'.
Proof. intros R. split; try apply R. by eapply remaps_coherent. Qed.

Lemma evolves_trans hhdm s1 T1 s2 T2 s3 T3 :
  evolves hhdm s1 T1 s2 T2 → evolves hhdm s2 T2 s3 T3 → evolves hhdm s1 T1 s3 T3.
Proof.
  intros E1 E2. pose proof (ev_pool _ _ _ _ _ E1) as Hp. destruct Hp as (Ef & Ea & Eb & En).
  split; try apply E2.
  - rewrite (ev_root _ _ _ _ _ E2). apply E1.
  - eapply same_pool_trans; [apply E1|apply E2].
  - etrans; [apply E1|apply E2].
  - intros q u Hq Hn. destruct (T2 !! q) as [u2|] eqn:Eq.
    + assert (u = u2) as -> by (apply (lookup_weaken _ T3) in Eq; [congruence|apply E2]).
      by eapply (ev_fresh _ _ _ _ _ E1).
    + destruct (ev_fresh _ _ _ _ _ E2 q u Hq Eq) as (n & Hr & -> & Hu).
      exists n. split; [lia|]. split; [unfold pool_frame; by rewrite Eb|].
      destruct (used (p_fr s1) n) eqn:E; [|done].
      rewrite (ev_used _ _ _ _ _ E1 n) in Hu by (done || lia). done.
  - intros n Hn Hu. apply (ev_used _ _ _ _ _ E2); [lia|]. by apply (ev_used _ _ _ _ _ E1).
  - intros a Hb Ht. rewrite (ev_mem _ _ _ _ _ E2); [|by rewrite Ef, Ea|done].
    apply (ev_mem _ _ _ _ _ E1); [done|]. intros q u Hq. apply (Ht q).
    apply (lookup_weaken _ _ _ _ Hq), E2.
  - intros Hf. by apply (ev_tail _ _ _ _ _ E2), (ev_tail _ _ _ _ _ E1).
  - intros Hc. by apply (ev_tlb _ _ _ _ _ E2), (ev_tlb _ _ _ _ _ E1).
Qed.

(** Running a list of requests: the new translations are [effect]'s. *)
Lemma map_all_spec hhdm s T l :
  tables_wf hhdm (p_fr s) (pml4 s) T → enough (p_fr s) T (tables_for l) →
  Forall (λ r, is_u64 (r_entry r)) l →
  let s' := map_all hhdm s l in
  ∃ T', evolves hhdm s T s' T' ∧ dom T' = tables_for l ∪ dom T ∧
    (free_ahead (p_fr s) + size T = free_ahead (p_fr s') + size T')%nat ∧
    ∀ v, translate hhdm s' v = effect l v (translate hhdm s v).
Proof.
  revert s T; induction l as [|r l IH]; intros s T Hwf Hen Hl.
  - exists T. split; [by apply evolves_refl|].
    split; [symmetry; apply (left_id_L ∅ (∪))|]. done.
  - apply Forall_cons in Hl as [Hr Hl]. simpl.
    change (tables_for (r :: l)) with (tables_of (r_virt r) ∪ tables_for l) in *.
    destruct (map_spec hhdm s T (r_phys r) (r_virt r) (r_flags r)) as (T1 & R & D1 & N1);
      [done|eapply enough_mono; [|exact Hen]; set_solver|done|].
    pose proof (enough_step _ _ _ _ _ _ Hen D1 N1) as Hen1.
    destruct (IH _ T1 (rm_wf _ _ _ _ _ _ _ R) Hen1 Hl) as (T' & E & D & N & Htr).
    exists T'. split; [eapply evolves_trans; [by eapply remaps_evolves|exact E]|].
    split; [by rewrite D, D1, (assoc_L (∪)), (comm_L (∪) (tables_for l))|]. split; [lia|].
    intros v. rewrite Htr. f_equal. apply (rm_translate _ _ _ _ _ _ _ R).
Qed.

(** ** The loops as lists of requests *)

Fixpoint page_requests (n : nat) (paddr vaddr page flags : Z) : list request :=
  match n with
  | O => []
  | S n => mk_request (paddr ⊕ (page ⊗ FRAME_SIZE)) (vaddr ⊕ (page ⊗ FRAME_SIZE)) flags
           :: page_requests n paddr vaddr (page ⊕ 1) flags
  end.

Fixpoint span_requests (fuel : nat) (boot : BootloaderCtx) (cur fin flags : Z) : list request :=
  match fuel with
  | O => []
  | S fuel =>
      if cur <? fin then
        mk_request (cur ⊖ kern_address_virt boot ⊕ kern_address_phys boot) cur flags
        :: span_requests fuel boot (cur ⊕ FRAME_SIZE) fin flags
      else []
  end.

Definition entry_requests (ty : memmap_type) (hhdm : Z) (e : memmap_entry) : list request :=
  if decide (e_type e = ty)
  then page_requests (Z.to_nat (e_length e `div` FRAME_SIZE)) (e_base e)
         (PHYS2VIRT hhdm (e_base e)) 0 MEMORY_FLAGS
  else [].

Definition map_requests (ty : memmap_type) (boot : BootloaderCtx) : list request :=
  memmap_entries boot ≫= entry_requests ty (hhdm_addr boot).

(** The requests of the direct map, in the order of [full_map]. *)
Definition direct_requests (boot : BootloaderCtx) : list request :=
  map_requests LIMINE_MEMMAP_BOOTLOADER_RECLAIMABLE boot ++
  map_requests LIMINE_MEMMAP_FRAMEBUFFER boot ++
  map_requests LIMINE_MEMMAP_USABLE boot ++ map_requests LIMINE_MEMMAP_USABLE boot.

Definition text_lo ld := ALIGN_DOWN (text_start_ld ld) FRAME_SIZE.
Definition text_hi ld := ALIGN_UP (text_end_ld ld) FRAME_SIZE.
Definition rodata_lo ld := ALIGN_DOWN (rodata_start_ld ld) FRAME_SIZE.
Definition rodata_hi ld := ALIGN_UP (rodata_end_ld ld) FRAME_SIZE.
Definition data_lo ld := ALIGN_DOWN (data_start_ld ld) FRAME_SIZE.
Definition data_hi ld := ALIGN_UP (data_end_ld ld) FRAME_SIZE.

Definition section_requests (boot : BootloaderCtx) (lo hi flags : Z) : list request :=
  span_requests (span_fuel lo hi) boot lo hi flags.

Definition full_requests (boot : BootloaderCtx) (ld : linker_symbols) : list request :=
  direct_requests boot ++
  section_requests boot (text_lo ld) (text_hi ld) TEXT_FLAGS ++
  section_requests boot (rodata_lo ld) (rodata_hi ld) RODATA_FLAGS ++
  section_requests boot (data_lo ld) (data_hi ld) DATA_FLAGS.

Lemma map_all_app hhdm s l1 l2 : map_all hhdm s (l1 ++ l2) = map_all hhdm (map_all hhdm s l1) l2.
Proof. apply foldl_app. Qed.

Lemma map_pages_all n hhdm s paddr vaddr page flags :
  map_pages n hhdm s paddr vaddr page flags =
  map_all hhdm s (page_requests n paddr vaddr page flags).
Proof. revert s page; induction n as [|n IH]; intros s page; [done|]. simpl. apply IH. Qed.

Lemma map_span_all fuel boot s cur fin flags :
  map_span fuel boot s cur fin flags =
  map_all (hhdm_addr boot) s (span_requests fuel boot cur fin flags).
Proof.
  revert s cur; induction fuel as [|fuel IH]; intros s cur; [done|]. simpl.
  case_cond; [apply IH|done].
Qed.

Lemma map_entries_all ty hhdm s l :
  map_entries ty hhdm s l = map_all hhdm s (l ≫= entry_requests ty hhdm).
Proof.
  revert s; induction l as [|e l IH]; intros s; [done|]. simpl.
  rewrite map_all_app, IH. f_equal. unfold entry_requests.
  case_decide; [apply map_pages_all|done].
Qed.

Lemma full_map_all boot ld s :
  full_map boot ld s = map_all (hhdm_addr boot) s (full_requests boot ld).
Proof.
  unfold full_map, map_kernel_code, full_requests, direct_requests.
  rewrite !map_all_app, !map_span_all.
  unfold map_hhdm_memory, map_found_memory, map_framebuffer_memory, map_bootloader_memory.
  by rewrite !map_entries_all.
Qed.

(** ** Effects *)

Lemma effect_app l1 l2 v x : effect (l1 ++ l2) v x = effect l2 v (effect l1 v x).
Proof. revert x; induction l1 as [|r l1 IH]; intros x; [done|]. simpl. apply IH. Qed.

(** Requests for other pages have no effect. *)
Lemma effect_none l v x : (∀ r, r ∈ l → vpn v ≠ vpn (r_virt r)) → effect l v x = x.
Proof.
  revert x; induction l as [|r l IH]; intros x Hl; [done|]. simpl.
  rewrite decide_False by (apply Hl; left). apply IH. intros r' Hr'. apply Hl. by right.
Qed.

(** Requests for a page that all ask for the same entry give it that entry. *)
Lemma effect_const l v x e :
  (∃ r, r ∈ l ∧ vpn v = vpn (r_virt r)) →
  (∀ r, r ∈ l → vpn v = vpn (r_virt r) → r_entry r = e) → effect l v x = visible e.
Proof.
  intros Hex Hall.
  assert (∀ l x, (∀ r, r ∈ l → vpn v = vpn (r_virt r) → r_entry r = e) →
            ((∃ r, r ∈ l ∧ vpn v = vpn (r_virt r)) ∨ x = visible e) →
            effect l v x = visible e) as H; [|by apply H; [|left]].
  clear. induction l as [|r l IH]; intros x Hall Hx; simpl.
  - destruct Hx as [(r & Hr & _)|Hx]; [by apply elem_of_nil in Hr|done].
  - apply IH; [intros; apply Hall; [by right|done]|]. case_decide as Hv.
    + right. by rewrite (Hall r) by (left || done).
    + destruct Hx as [(r' & Hr' & Hv')|Hx]; [|by right].
      apply elem_of_cons in Hr' as [->|Hr']; [done|left; eauto].
Qed.

(** ** Membership in the request lists *)

Lemma elem_of_page_requests n paddr vaddr page flags r :
  0 <= paddr → 0 <= vaddr → 0 <= page →
  paddr + (page + Z.of_nat n) * 4096 <= 18446744073709551616 →
  vaddr + (page + Z.of_nat n) * 4096 <= 18446744073709551616 →
  r ∈ page_requests n paddr vaddr page flags ↔
  ∃ k, page <= k < page + Z.of_nat n ∧ r = mk_request (paddr + k * 4096) (vaddr + k * 4096) flags.
Proof.
  intros Hp Hv. revert page; induction n as [|n IH]; intros page Hpg Hrp Hrv; simpl.
  - split; [by intros ?%elem_of_nil|intros (k & Hk & _); lia].
  - unfold FRAME_SIZE. nowrap. rewrite elem_of_cons, IH by lia. split.
    + intros [->|(k & Hk & ->)]; [exists page|exists k]; split; (lia || done).
    + intros (k & Hk & ->). destruct (decide (k = page)) as [->|]; [by left|right].
      exists k. split; [lia|done].
Qed.

Lemma elem_of_span_requests fuel boot cur fin flags r :
  0 <= cur → fin + 4096 <= 18446744073709551616 →
  0 <= kern_address_virt boot <= cur → 0 <= kern_address_phys boot →
  fin - kern_address_virt boot + kern_address_phys boot <= 18446744073709551616 →
  fin - cur <= Z.of_nat fuel * 4096 →
  r ∈ span_requests fuel boot cur fin flags ↔
  ∃ k, 0 <= k ∧ cur + k * 4096 < fin ∧
    r = mk_request (cur + k * 4096 - kern_address_virt boot + kern_address_phys boot)
                   (cur + k * 4096) flags.
Proof.
  intros Hc Hf Hkv Hkp Hr. revert cur Hc Hkv; induction fuel as [|fuel IH];
    intros cur Hc Hkv Hfuel; simpl.
  - split; [by intros ?%elem_of_nil|intros (k & Hk & ? & _); lia].
  - case_cond.
    + unfold FRAME_SIZE. nowrap. rewrite elem_of_cons, IH by lia. split.
      * intros [->|(k & Hk & Hlt & ->)].
        -- exists 0. split; [lia|]. split; [lia|]. f_equal; lia.
        -- exists (k + 1). split; [lia|]. split; [lia|]. f_equal; lia.
      * intros (k & Hk & Hlt & ->). destruct (decide (k = 0)) as [->|]; [left; f_equal; lia|right].
        exists (k - 1). split; [lia|]. split; [lia|]. f_equal; lia.
    + split; [by intros ?%elem_of_nil|intros (k & Hk & ? & _); lia].
Qed.

(** ** The address space as a specification *)

(** The kinds of memory the direct map covers. *)
Definition mapped_kind (ty : memmap_type) : bool :=
  bool_decide (ty = LIMINE_MEMMAP_USABLE) ||
  bool_decide (ty = LIMINE_MEMMAP_BOOTLOADER_RECLAIMABLE) ||
  bool_decide (ty = LIMINE_MEMMAP_FRAMEBUFFER).

(** [v] lies in the direct mapping of the whole pages of [e]. *)
Definition covers (hhdm v : Z) (e : memmap_entry) : bool :=
  mapped_kind (e_type e) && (hhdm + e_base e <=? v) &&
  (v <? hhdm + e_base e + e_length e `div` 4096 * 4096).

(** The entry that address [v] is meant to have. *)
Definition address_space (boot : BootloaderCtx) (ld : linker_symbols) (v : Z) : option Z :=
  let page := v `div` 4096 * 4096 in
  let kernel := page - kern_address_virt boot + kern_address_phys boot in
  if (text_lo ld <=? v) && (v <? text_hi ld) then Some (Z.lor kernel TEXT_FLAGS)
  else if (rodata_lo ld <=? v) && (v <? rodata_hi ld) then Some (Z.lor kernel RODATA_FLAGS)
  else if (data_lo ld <=? v) && (v <? data_hi ld) then Some (Z.lor kernel DATA_FLAGS)
  else if existsb (covers (hhdm_addr boot) v) (memmap_entries boot)
       then Some (Z.lor (page - hhdm_addr boot) MEMORY_FLAGS)
  else None.

(** Addresses of the upper half, where translated page numbers are distinct. *)
Definition upper (v : Z) : Prop := 18446462598732840960 <= v < 18446744073709551616.

(** What the boot protocol and the linker script guarantee: a page-aligned
    direct map in the upper half that ends below the kernel image, page-aligned
    mapped memory, sections in order, and an image loaded at an aligned address. *)
Record layout_ok (boot : BootloaderCtx) (ld : linker_symbols) : Prop := {
  lo_hhdm : upper (hhdm_addr boot) ∧ hhdm_addr boot `mod` 4096 = 0;
  lo_entries : ∀ e, e ∈ memmap_entries boot → mapped_kind (e_type e) = true →
    0 <= e_base e ∧ e_base e `mod` 4096 = 0 ∧ 0 <= e_length e ∧
    hhdm_addr boot + e_base e + e_length e <= text_lo ld;
  lo_order : text_lo ld <= text_hi ld <= rodata_lo ld ∧
    rodata_lo ld <= rodata_hi ld <= data_lo ld ∧
    data_lo ld <= data_hi ld < 18446744073709547521;
  lo_virt : upper (kern_address_virt boot) ∧ kern_address_virt boot `mod` 4096 = 0 ∧
    kern_address_virt boot <= text_lo ld;
  lo_phys : 0 <= kern_address_phys boot ∧ kern_address_phys boot `mod` 4096 = 0 ∧
    data_hi ld - kern_address_virt boot + kern_address_phys boot <= 281474976710656;
}.

Lemma vpn_upper v p : upper v → upper p → p `mod` 4096 = 0 →
  vpn v = vpn p ↔ v `div` 4096 * 4096 = p.
Proof. unfold upper, vpn. intros. split; dlia. Qed.

Lemma ALIGN_DOWN_mod x : ALIGN_DOWN x FRAME_SIZE `mod` 4096 = 0.
Proof. unfold ALIGN_DOWN, FRAME_SIZE, u64. dlia. Qed.
Lemma ALIGN_UP_mod x : ALIGN_UP x FRAME_SIZE `mod` 4096 = 0.
Proof. unfold ALIGN_UP, FRAME_SIZE, u64. dlia. Qed.

Section Layout.
Context (boot : BootloaderCtx) (ld : linker_symbols) (Hlo : layout_ok boot ld).

Lemma elem_of_map_requests ty r :
  mapped_kind ty = true →
  r ∈ map_requests ty boot ↔
  ∃ e k, e ∈ memmap_entries boot ∧ e_type e = ty ∧ 0 <= k < e_length e `div` 4096 ∧
    r = mk_request (e_base e + k * 4096) (hhdm_addr boot + e_base e + k * 4096) MEMORY_FLAGS.
Proof.
  intros Hty. destruct (lo_hhdm _ _ Hlo) as [Hu _].
  pose proof (lo_order _ _ Hlo) as Hord. unfold upper in Hu.
  unfold map_requests. rewrite list_elem_of_bind.
  assert (∀ e, e ∈ memmap_entries boot → e_type e = ty →
    r ∈ entry_requests ty (hhdm_addr boot) e ↔ ∃ k, 0 <= k < e_length e `div` 4096 ∧
      r = mk_request (e_base e + k * 4096) (hhdm_addr boot + e_base e + k * 4096) MEMORY_FLAGS) as He.
  { intros e Hin Et. destruct (lo_entries _ _ Hlo e Hin) as (H0 & _ & Hl & Ht); [by rewrite Et|].
    unfold entry_requests, FRAME_SIZE. rewrite decide_True by done.
    unfold PHYS2VIRT. nowrap. rewrite elem_of_page_requests by dlia.
    split; intros (k & Hk & ->); exists k; (split; [dlia|done]). }
  split.
  - intros (e & Hr & Hin). destruct (decide (e_type e = ty)) as [Et|Et].
    + apply He in Hr as (k & Hk & ->); [|done..]. by exists e, k.
    + unfold entry_requests in Hr. rewrite decide_False in Hr by done. by apply elem_of_nil in Hr.
  - intros (e & k & Hin & Et & Hk & ->). exists e. split; [|done]. apply He; [done..|]. by exists k.
Qed.

Lemma elem_of_direct_requests r :
  r ∈ direct_requests boot ↔
  ∃ e k, e ∈ memmap_entries boot ∧ mapped_kind (e_type e) = true ∧
    0 <= k < e_length e `div` 4096 ∧
    r = mk_request (e_base e + k * 4096) (hhdm_addr boot + e_base e + k * 4096) MEMORY_FLAGS.
Proof.
  unfold direct_requests. rewrite !elem_of_app, !elem_of_map_requests by done. split.
  - assert (∀ ty, mapped_kind ty = true →
      (∃ e k, e ∈ memmap_entries boot ∧ e_type e = ty ∧ 0 <= k < e_length e `div` 4096 ∧
        r = mk_request (e_base e + k * 4096) (hhdm_addr boot + e_base e + k * 4096) MEMORY_FLAGS) →
      ∃ e k, e ∈ memmap_entries boot ∧ mapped_kind (e_type e) = true ∧
        0 <= k < e_length e `div` 4096 ∧
        r = mk_request (e_base e + k * 4096) (hhdm_addr boot + e_base e + k * 4096) MEMORY_FLAGS)
      as Hk by (intros ty Hty (e & k & ? & <- & ?); exists e, k; done).
    intros [H|[H|[H|H]]]; (eapply Hk; [|exact H]); done.
  - intros (e & k & Hin & Hm & Hk & ->). pose proof Hm as Hm'.
    unfold mapped_kind in Hm. b2p; apply bool_decide_eq_true in H;
    [do 2 right; left | left | right; left]; by exists e, k.
Qed.

Lemma elem_of_section_requests lo hi flags r :
  kern_address_virt boot <= lo → lo <= hi <= data_hi ld →
  r ∈ section_requests boot lo hi flags ↔
  ∃ k, 0 <= k ∧ lo + k * 4096 < hi ∧
    r = mk_request (lo + k * 4096 - kern_address_virt boot + kern_address_phys boot)
                   (lo + k * 4096) flags.
Proof.
  intros Hv Hlh. destruct (lo_virt _ _ Hlo) as ([? ?] & _ & ?). destruct (lo_phys _ _ Hlo) as (? & _ & ?).
  pose proof (lo_order _ _ Hlo). unfold section_requests, span_fuel.
  apply elem_of_span_requests; try lia. dlia.
Qed.

(** The section bounds are page aligned, in order, and in the upper half. *)
Lemma section_bounds :
  upper (text_lo ld) ∧ upper (rodata_lo ld) ∧ upper (data_lo ld) ∧
  text_lo ld `mod` 4096 = 0 ∧ text_hi ld `mod` 4096 = 0 ∧
  rodata_lo ld `mod` 4096 = 0 ∧ rodata_hi ld `mod` 4096 = 0 ∧
  data_lo ld `mod` 4096 = 0 ∧ data_hi ld `mod` 4096 = 0.
Proof.
  destruct (lo_virt _ _ Hlo) as (Hku & Hka & Hkt). pose proof (lo_order _ _ Hlo) as (Ho1 & Ho2 & Ho3).
  unfold upper in *. do 3 (split; [lia|]).
  repeat split; apply ALIGN_DOWN_mod || apply ALIGN_UP_mod.
Qed.

(** A request for a section page concerns the addresses of that page. *)
Lemma section_page v lo hi k :
  lo + k * 4096 < hi → 0 <= k → upper v → upper lo → lo `mod` 4096 = 0 → hi `mod` 4096 = 0 →
  hi < 18446744073709551616 →
  vpn v = vpn (lo + k * 4096) ↔ v `div` 4096 * 4096 = lo + k * 4096 ∧ lo <= v < hi.
Proof.
  intros Hlt Hk Hv Hl Ha Hb Ht. unfold upper in *.
  rewrite vpn_upper by (unfold upper; dlia). split; [intros E; split; [done|dlia]|by intros [? _]].
Qed.

(** Every request asks for the entry the specification gives its page. *)
Lemma full_requests_sound v r :
  upper v → r ∈ full_requests boot ld → vpn v = vpn (r_virt r) →
  address_space boot ld v = Some (r_entry r).
Proof.
  intros Hv Hr Hp. destruct (lo_hhdm _ _ Hlo) as [Hu Hua].
  destruct section_bounds as (U1 & U2 & U3 & A1 & A2 & A3 & A4 & A5 & A6).
  destruct (lo_virt _ _ Hlo) as (_ & _ & Hkt). pose proof (lo_order _ _ Hlo) as (Ho1 & Ho2 & Ho3).
  unfold full_requests in Hr. rewrite !elem_of_app in Hr.
  rewrite elem_of_direct_requests, !elem_of_section_requests in Hr by lia.
  unfold address_space, r_entry.
  destruct Hr as [(e & k & Hin & Hm & Hk & ->)|[(k & Hk & Hlt & ->)|[(k & Hk & Hlt & ->)|(k & Hk & Hlt & ->)]]];
    simpl in *; [|eapply section_page in Hp as [-> Hin]; [|done || lia..]; repeat case_cond; done || lia..].
  destruct (lo_entries _ _ Hlo e Hin Hm) as (E0 & Ea & El & Et). unfold upper in *.
  apply vpn_upper in Hp; [|unfold upper; dlia..].
  assert (k * 4096 + 4096 <= e_length e) by dlia.
  assert (existsb (covers (hhdm_addr boot) v) (memmap_entries boot) = true) as ->.
  { apply existsb_exists. exists e. split; [by apply list_elem_of_In|].
    unfold covers. rewrite Hm. simpl. apply andb_true_iff. split; b2p; dlia. }
  assert (v < text_lo ld) by dlia. repeat case_cond; try lia. do 2 f_equal. lia.
Qed.

Lemma section_requested v lo hi flags :
  kern_address_virt boot <= lo → lo <= hi <= data_hi ld → upper lo → upper v →
  lo `mod` 4096 = 0 → hi `mod` 4096 = 0 → lo <= v < hi →
  ∃ r, r ∈ section_requests boot lo hi flags ∧ vpn v = vpn (r_virt r).
Proof.
  intros H1 H2 H3 Hv H4 H5 Hin. pose proof (lo_order _ _ Hlo) as (_ & _ & Ho3). unfold upper in *.
  exists (mk_request (lo + (v - lo) `div` 4096 * 4096 - kern_address_virt boot + kern_address_phys boot)
            (lo + (v - lo) `div` 4096 * 4096) flags). split.
  - apply elem_of_section_requests; [done|done|]. exists ((v - lo) `div` 4096). split; [dlia|].
    split; [dlia|done].
  - apply (section_page v lo hi); unfold upper; try done; dlia.
Qed.

Lemma direct_requested v :
  upper v → existsb (covers (hhdm_addr boot) v) (memmap_entries boot) = true →
  ∃ r, r ∈ direct_requests boot ∧ vpn v = vpn (r_virt r).
Proof.
  intros Hv (e & Hin%list_elem_of_In & Hc)%existsb_exists. unfold covers in Hc. b2p.
  destruct (lo_hhdm _ _ Hlo) as [Hu Hua]. destruct section_bounds as (U1 & _).
  destruct (lo_entries _ _ Hlo e Hin) as (E0 & Ea & El & Et); [done|]. unfold upper in *.
  set (k := (v - hhdm_addr boot - e_base e) `div` 4096).
  exists (mk_request (e_base e + k * 4096) (hhdm_addr boot + e_base e + k * 4096) MEMORY_FLAGS). split.
  - apply elem_of_direct_requests. exists e, k. split; [done|]. split; [done|].
    split; [subst k; dlia|done].
  - apply vpn_upper; unfold upper; subst k; simpl; dlia.
Qed.

(** A page with an entry in the specification is requested. *)
Lemma full_requests_complete v e :
  upper v → address_space boot ld v = Some e →
  ∃ r, r ∈ full_requests boot ld ∧ vpn v = vpn (r_virt r).
Proof.
  intros Hv He. unfold full_requests.
  destruct section_bounds as (U1 & U2 & U3 & A1 & A2 & A3 & A4 & A5 & A6).
  destruct (lo_virt _ _ Hlo) as (_ & _ & Hkt). pose proof (lo_order _ _ Hlo) as (Ho1 & Ho2 & Ho3).
  destruct (decide (text_lo ld <= v < text_hi ld)) as [Hin|N1];
    [|destruct (decide (rodata_lo ld <= v < rodata_hi ld)) as [Hin|N2];
      [|destruct (decide (data_lo ld <= v < data_hi ld)) as [Hin|N3]]].
  - destruct (section_requested v (text_lo ld) (text_hi ld) TEXT_FLAGS) as (r & ? & ?);
      [done || lia..|]. exists r. rewrite !elem_of_app. auto.
  - destruct (section_requested v (rodata_lo ld) (rodata_hi ld) RODATA_FLAGS) as (r & ? & ?);
      [done || lia..|]. exists r. rewrite !elem_of_app. auto.
  - destruct (section_requested v (data_lo ld) (data_hi ld) DATA_FLAGS) as (r & ? & ?);
      [done || lia..|]. exists r. rewrite !elem_of_app. auto.
  - destruct (direct_requested v Hv) as (r & ? & ?); [|exists r; rewrite !elem_of_app; auto].
    unfold address_space in He. repeat case_cond_in He; done || lia.
Qed.

(** Every requested entry is a present [u64]. *)
Lemma full_requests_entry r :
  r ∈ full_requests boot ld → is_u64 (r_entry r) ∧ present (r_entry r) = true.
Proof.
  intros Hr. unfold full_requests in Hr. rewrite !elem_of_app in Hr.
  destruct (lo_hhdm _ _ Hlo) as [Hu _]. destruct section_bounds as (U1 & _).
  destruct (lo_virt _ _ Hlo) as (_ & _ & Hkt). pose proof (lo_order _ _ Hlo) as (Ho1 & Ho2 & Ho3).
  destruct (lo_phys _ _ Hlo) as (Hp0 & _ & Hp2). unfold r_entry, upper in *.
  rewrite elem_of_direct_requests, !elem_of_section_requests in Hr by lia.
  rewrite present_lor, orb_true_iff.
  destruct Hr as [(e & k & Hin & Hm & Hk & ->)|[(k & Hk & Hlt & ->)|[(k & Hk & Hlt & ->)|(k & Hk & Hlt & ->)]]];
    simpl; (split; [|by right]); (apply lor_u64; [|by vm_compute]); unfold is_u64; try lia.
  destruct (lo_entries _ _ Hlo e Hin Hm) as (E0 & Ea & El & Et). dlia.
Qed.

(** The effect of [full_map]'s requests is the specification. *)
Lemma full_requests_effect v x :
  upper v → effect (full_requests boot ld) v x = from_option Some x (address_space boot ld v).
Proof.
  intros Hv. destruct (address_space boot ld v) as [e|] eqn:E; simpl.
  - destruct (full_requests_complete v e Hv E) as (r & Hr & Hp).
    rewrite (effect_const _ v x e); [|by exists r|].
    + unfold visible. pose proof (full_requests_sound v r Hv Hr Hp) as Hs.
      rewrite E in Hs. injection Hs as ->. by rewrite (proj2 (full_requests_entry r Hr)).
    + intros r' Hr' Hp'. pose proof (full_requests_sound v r' Hv Hr' Hp'). congruence.
  - apply effect_none. intros r Hr Hp. pose proof (full_requests_sound v r Hv Hr Hp). congruence.
Qed.

(** [full_map] from well-formed tables with enough free frames. *)
Lemma full_map_spec s T :
  tables_wf (hhdm_addr boot) (p_fr s) (pml4 s) T →
  enough (p_fr s) T (tables_for (full_requests boot ld)) →
  let s' := full_map boot ld s in
  ∃ T', evolves (hhdm_addr boot) s T s' T' ∧
    dom T' = tables_for (full_requests boot ld) ∪ dom T ∧
    (free_ahead (p_fr s) + size T = free_ahead (p_fr s') + size T')%nat ∧
    ∀ v, upper v → translate (hhdm_addr boot) s' v =
      from_option Some (translate (hhdm_addr boot) s v) (address_space boot ld v).
Proof.
  intros Hwf Hen s'. subst s'. rewrite full_map_all.
  destruct (map_all_spec (hhdm_addr boot) s T (full_requests boot ld)) as (T' & E & Hd & Hn & Ht); [done..| |].
  - apply Forall_forall. intros r Hr. by apply full_requests_entry.
  - exists T'. split; [done|]. split; [done|]. split; [done|]. intros v Hv. rewrite Ht. by apply full_requests_effect.
Qed.

End Layout.
