(* ===== verification/AddressSpace.v ===== *)
(** * AddressSpace: what the mapping operations establish.

    The theorems about [Mem::Paging::init], [full_map], [map_range] and
    [map_mmio]: each is a list of [map] requests (Mapper.v), and the resulting
    translations are compared with the address space they are meant to build. *)
From stdpp Require Import base numbers list gmap.
From S2P Require Import Prelude Mem Boot Frames Paging PageTables Mapper.
Local Open Scope Z_scope.

(** ** The empty tables init starts from *)

Lemma root_wf hhdm s n s1 :
  frames_wf s → hhdm_ok hhdm s → takes s n 1 s1 → frames_wf s1 →
  let root := pool_frame s n in
  let s2 := set_mem (memset (k_mem s1) root 0 FRAME_SIZE) s1 in
  tables_wf hhdm s2 root {[ [] := root ]} ∧
  (∀ i, 0 <= i < 512 → load64 (k_mem s2) (root + i * 8) = 0) ∧
  free_ahead s2 = free_ahead s1 ∧
  (∀ k, 0 <= k < available_frames s1 → used s2 k = used s1 k).
Proof.
  intros Hwf Hh Htk Hwf1 root s2. destruct (tk_range _ _ _ _ Htk) as [Hn0 Hn1].
  destruct (tk_pool _ _ _ _ Htk) as (Ef & Ea & Eb & En). wf_destruct Hwf.
  assert (same_on (frames s1) (frames s1 + available_frames s1) (k_mem s1) (k_mem s2)) as Hm.
  { apply same_on_memset. unfold root, pool_frame, FRAME_SIZE. lia. }
  assert (∀ i, 0 <= i < 512 → load64 (k_mem s2) (root + i * 8) = 0) as Hz.
  { intros i Hi. apply load_memset_zero; unfold FRAME_SIZE; lia. }
  split; [|split; [done|split; [by apply free_ahead_set_mem|intros k Hk; by apply used_set_mem]]]. split.
  - by apply frames_wf_set_mem.
  - destruct Hh. split; simpl; rewrite ?Ea, ?Eb; done.
  - apply lookup_singleton_eq.
  - intros p t [<- <-]%lookup_singleton_Some. exists n. simpl. split; [lia|].
    split; [unfold root, pool_frame; simpl; lia|].
    unfold s2. rewrite used_set_mem by (done || lia).
    rewrite (tk_used _ _ _ _ Htk) by lia. apply orb_true_iff. right. b2p. apply andb_true_iff; split; b2p; lia.
  - intros p q t [<- _]%lookup_singleton_Some [<- _]%lookup_singleton_Some. done.
  - intros p i c [E _]%lookup_singleton_Some. by destruct p.
  - intros p t i [<- <-]%lookup_singleton_Some _ Hi.
    rewrite lookup_singleton_ne by done. by rewrite Hz.
Qed.

(** Nothing is mapped below a root whose entries are all zero. *)
Lemma empty_translate hhdm s T v :
  tables_wf hhdm (p_fr s) (pml4 s) T → T !! path v = None → translate hhdm s v = None.
Proof. intros Hwf Hn. rewrite (translate_tree _ _ T) by done. unfold tree_entry. by rewrite Hn. Qed.

(** Translations do not depend on the registers or the cache. *)
Lemma translate_ext hhdm s s' v :
  p_fr s' = p_fr s → pml4 s' = pml4 s → translate hhdm s' v = translate hhdm s v.
Proof. unfold translate. by intros -> ->. Qed.

Lemma map_regs hhdm s p v fl :
  cr0 (map hhdm s p v fl) = cr0 s ∧ cr4 (map hhdm s p v fl) = cr4 s.
Proof. unfold map. repeat destruct (descend _ _ _ _). by case_cond. Qed.

Lemma full_map_regs boot ld s :
  cr0 (full_map boot ld s) = cr0 s ∧ cr4 (full_map boot ld s) = cr4 s.
Proof.
  rewrite full_map_all. generalize (full_requests boot ld). intros l.
  revert s; induction l as [|r l IH]; intros s; [done|]. simpl.
  destruct (IH (map (hhdm_addr boot) s (r_phys r) (r_virt r) (r_flags r))) as [-> ->]. apply map_regs.
Qed.

Lemma aligned_bit_low x : x `mod` 4096 = 0 → Z.testbit x 1 = false.
Proof.
  intros Hx. replace x with (x `div` 4096 * 2 ^ 12) by dlia. by apply Z.mul_pow2_bits_low.
Qed.

(** What building [k] tables does to the frames: those in use stay so, and after a
    marked run the tail beyond the new tables is fresh. *)
Record boot_frames (f : frame_state) (k : nat) (f' : frame_state) : Prop := {
  bf_pool : same_pool f f';
  bf_used : ∀ n, 0 <= n < available_frames f → used f n = true → used f' n = true;
  bf_tail : ∀ e, marked_to f e → latest_frame f <= e <= available_frames f →
    fresh_tail f' ∧ latest_frame f' = e + Z.of_nat k;
}.

(** [init] is [full_map] on a fresh root, followed by the register writes. *)
Lemma boot_frames_intro hhdm s n f s1 T s' T' k :
  frames_wf (p_fr s) → first_free (p_fr s) n → takes (p_fr s) n 1 f → frames_wf f →
  latest_frame f = n + 1 → same_pool f (p_fr s1) → latest_frame (p_fr s1) = latest_frame f →
  (∀ i, 0 <= i < available_frames f → used (p_fr s1) i = used f i) →
  free_ahead (p_fr s1) = free_ahead f → evolves hhdm s1 T s' T' →
  (free_ahead (p_fr s1) + 1 = free_ahead (p_fr s') + k)%nat →
  boot_frames (p_fr s) k (p_fr s').
Proof.
  intros Hwf Hff Htk Hwf1 Hl Hp Hl1 Hu Hfa E Hk.
  destruct (tk_pool _ _ _ _ Htk) as (Ef & Ea & Eb & En). pose proof Hp as (Ef1 & Ea1 & Eb1 & En1).
  pose proof (alloc_free_ahead _ _ _ Hwf Hff Htk Hl) as Hc.
  pose proof (tw_frames _ _ _ _ (ev_wf _ _ _ _ _ E)) as Hwf'.
  destruct (ev_pool _ _ _ _ _ E) as (Ef2 & Ea2 & Eb2 & En2). wf_destruct Hwf1. split.
  - split_and!; congruence.
  - intros i Hi Hi1. apply (ev_used _ _ _ _ _ E); [lia|]. rewrite Hu by lia.
    by rewrite (tk_used _ _ _ _ Htk), Hi1 by lia.
  - intros e Hm He. assert (fresh_tail (p_fr s1)) as Hf1.
    { intros i Hi. rewrite Hu by lia. eapply (marked_alloc_fresh (p_fr s)); done || lia. }
    apply (ev_tail _ _ _ _ _ E) in Hf1. split; [done|].
    pose proof (fresh_free_ahead _ Hwf' Hf1). pose proof (marked_free_ahead _ _ Hm He). lia.
Qed.

Lemma paging_init_frames boot ld s :
  layout_ok boot ld → frames_wf (p_fr s) → hhdm_ok (hhdm_addr boot) (p_fr s) →
  (size (tables_for (full_requests boot ld) ∪ {[ [] ]}) <= free_ahead (p_fr s))%nat →
  ∃ s1 T, cr0 s1 = cr0 s ∧ cr4 s1 = cr4 s ∧
    init boot ld s = enable_paging (load_cr3 (hhdm_addr boot) (pml4 s1) s1) ∧
    tables_wf (hhdm_addr boot) (p_fr s1) (pml4 s1) T ∧
    boot_frames (p_fr s) (size (tables_for (full_requests boot ld) ∪ {[ [] ]})) (p_fr s1) ∧
    ∀ v, upper v → translate (hhdm_addr boot) (init boot ld s) v = address_space boot ld v.
Proof.
  intros Hlo Hwf Hh Hen.
  destruct (alloc_cases (p_fr s) Hwf) as [[He _]|(n & f & Hfirst & Ea & Htk & Hwf1 & Hlat)].
  { apply exhausted_free_ahead in He.
    assert (size (tables_for (full_requests boot ld) ∪ {[ [] ]}) = 0%nat) as E by lia.
    apply size_empty_inv in E. set_solver. }
  pose proof (alloc_free_ahead _ _ _ Hwf Hfirst Htk Hlat) as Hfree.
  destruct (root_wf (hhdm_addr boot) (p_fr s) n f) as (Hroot & Hzero & Hfa & Hus); [done..|].
  set (root := pool_frame (p_fr s) n) in *.
  set (f2 := set_mem (memset (k_mem f) root 0 FRAME_SIZE) f) in *.
  set (s1 := mk_paging f2 root (tlb s) (cr0 s) (cr3 s) (cr4 s)).
  destruct (full_map_spec boot ld Hlo s1 {[ [] := root ]}) as (T' & E & Hd & Hsz & Ht); [done| |].
  { unfold enough. simpl. rewrite dom_singleton_L, map_size_singleton, Hfa. lia. }
  assert (init boot ld s = enable_paging (load_cr3 (hhdm_addr boot) (pml4 (full_map boot ld s1))
    (full_map boot ld s1))) as Einit by (unfold init; by rewrite Ea).
  destruct (full_map_regs boot ld s1) as [E0 E4].
  exists (full_map boot ld s1), T'. split; [done|]. split; [done|]. split; [done|].
  split; [apply E|]. split.
  { rewrite map_size_singleton, <- (size_dom T'), Hd, dom_singleton_L in Hsz.
    by apply (boot_frames_intro (hhdm_addr boot) s n f s1 {[ [] := root ]} _ T'). }
  intros v Hv. rewrite Einit, (translate_ext _ (full_map boot ld s1)) by done.
  rewrite Ht by done.
  rewrite (empty_translate _ s1 {[ [] := root ]}); [by destruct (address_space boot ld v)|done|].
  by apply lookup_singleton_ne.
Qed.

Lemma paging_init_spec boot ld s :
  layout_ok boot ld → frames_wf (p_fr s) → hhdm_ok (hhdm_addr boot) (p_fr s) →
  (size (tables_for (full_requests boot ld) ∪ {[ [] ]}) <= free_ahead (p_fr s))%nat →
  ∃ s1 T, cr0 s1 = cr0 s ∧ cr4 s1 = cr4 s ∧
    init boot ld s = enable_paging (load_cr3 (hhdm_addr boot) (pml4 s1) s1) ∧
    tables_wf (hhdm_addr boot) (p_fr s1) (pml4 s1) T ∧
    ∀ v, upper v → translate (hhdm_addr boot) (init boot ld s) v = address_space boot ld v.
Proof.
  intros Hlo Hwf Hh Hen. destruct (paging_init_frames boot ld s Hlo Hwf Hh Hen)
    as (s1 & T & E0 & E4 & Ei & HT & _ & Ht). by exists s1, T.
Qed.

(** ** Properties of the boot address space *)

(** C2: [Mem::Paging::init] builds exactly the specified address space: with
    enough free frames for the tables, every upper-half address translates as
    [address_space] says (kernel sections to the image with their own flags, the
    whole pages of usable, reclaimable and framebuffer memory through the
    direct map) and every other upper-half address is unmapped; the tables
    are well formed, the root is loaded in [cr3], and paging is enabled with
    every other bit of [cr0] and [cr4] as it was. *)
Theorem paging_init_correct boot ld s :
  layout_ok boot ld → frames_wf (p_fr s) → hhdm_ok (hhdm_addr boot) (p_fr s) →
  (size (tables_for (full_requests boot ld) ∪ {[ [] ]}) <= free_ahead (p_fr s))%nat →
  let s' := init boot ld s in
  (∃ T, tables_wf (hhdm_addr boot) (p_fr s') (pml4 s') T) ∧
  (∀ v, upper v → translate (hhdm_addr boot) s' v = address_space boot ld v) ∧
  tlb_coherent (hhdm_addr boot) s' ∧
  cr3 s' = VIRT2PHYS (hhdm_addr boot) (pml4 s') ∧
  (∀ i, 0 <= i → Z.testbit (cr0 s') i = Z.testbit (cr0 s) i || (i =? 31)) ∧
  (∀ i, 0 <= i → Z.testbit (cr4 s') i = Z.testbit (cr4 s) i || (i =? 5)).
Proof.
  intros Hlo Hwf Hh Hen s'.
  destruct (paging_init_spec boot ld s Hlo Hwf Hh Hen) as (s1 & T & E0 & E4 & Ei & HT & Ht).
  split; [exists T; subst s'; by rewrite Ei|]. split; [done|]. subst s'. rewrite Ei.
  split; [intros pg e; simpl; by rewrite lookup_empty|]. split; [done|].
  unfold enable_paging, load_cr3. cbn [cr0 cr4]. rewrite E0, E4.
  change 0x80000000 with (2 ^ 31). change 0x20 with (2 ^ 5).
  split; intros i Hi; rewrite Z.lor_spec, Z.pow2_bits_eqb, Z.eqb_sym by lia; done.
Qed.

(** C12: the kernel image is never writable and executable at once: after
    [Mem::Paging::init], a present entry of an address of the kernel image with
    the write bit has the no-execute bit. *)
Theorem kernel_w_xor_x boot ld s v e :
  layout_ok boot ld → frames_wf (p_fr s) → hhdm_ok (hhdm_addr boot) (p_fr s) →
  (size (tables_for (full_requests boot ld) ∪ {[ [] ]}) <= free_ahead (p_fr s))%nat →
  text_lo ld <= v < data_hi ld →
  translate (hhdm_addr boot) (init boot ld s) v = Some e →
  Z.testbit e 1 = true → Z.testbit e 63 = true.
Proof.
  intros Hlo Hwf Hh Hen Hv He Hw.
  destruct (paging_init_spec boot ld s Hlo Hwf Hh Hen) as (_ & _ & _ & _ & _ & _ & Ht).
  destruct (section_bounds boot ld Hlo) as (U1 & _).
  destruct (lo_virt _ _ Hlo) as (_ & Hka & _). destruct (lo_phys _ _ Hlo) as (_ & Hpa & _).
  pose proof (lo_order _ _ Hlo) as (_ & _ & Ho3). unfold upper in U1.
  rewrite Ht in He by (unfold upper; lia). unfold address_space in He.
  set (pg := v `div` 4096 * 4096 - kern_address_virt boot + kern_address_phys boot) in *.
  assert (pg `mod` 4096 = 0) as Hpg by (subst pg; dlia).
  destruct (existsb _ _) eqn:Hc.
  { apply existsb_exists in Hc as (en & Hin%list_elem_of_In & Hc). unfold covers in Hc. b2p.
    destruct (lo_entries _ _ Hlo en Hin) as (? & ? & ? & ?); [done|]. dlia. }
  repeat case_cond_in He; simplify_eq;
    rewrite Z.lor_spec in Hw |- *; apply orb_true_iff; right; try done;
    rewrite aligned_bit_low in Hw by done; done.
Qed.

(** ** map_range and map_mmio *)

Fixpoint range_requests (n : nat) (phys virt i flags : Z) : list request :=
  match n with
  | O => []
  | S n => mk_request (phys ⊕ i) (virt ⊕ i) flags :: range_requests n phys virt (i ⊕ FRAME_SIZE) flags
  end.

(** The requests of [map_range]. *)
Definition requests_of_range (phys virt size flags : Z) : list request :=
  range_requests (Z.to_nat ((size + 4095) `div` 4096)) phys virt 0 flags.

Lemma map_range_all n hhdm s phys virt i flags :
  map_range_loop n hhdm s phys virt i flags = map_all hhdm s (range_requests n phys virt i flags).
Proof. revert s i; induction n as [|n IH]; intros s i; [done|]. simpl. apply IH. Qed.

Lemma elem_of_range_requests n phys virt i flags r :
  0 <= phys → 0 <= virt → 0 <= i →
  phys + i + Z.of_nat n * 4096 <= 18446744073709551616 →
  virt + i + Z.of_nat n * 4096 <= 18446744073709551616 →
  r ∈ range_requests n phys virt i flags ↔
  ∃ k, 0 <= k < Z.of_nat n ∧ r = mk_request (phys + i + k * 4096) (virt + i + k * 4096) flags.
Proof.
  intros Hp Hv. revert i; induction n as [|n IH]; intros i Hi Hrp Hrv; simpl.
  - split; [by intros ?%elem_of_nil|intros (k & Hk & _); lia].
  - unfold FRAME_SIZE. rewrite (u64_id (phys + i)), (u64_id (virt + i)) by lia.
    rewrite elem_of_cons. destruct (decide (n = O)) as [->|Hn].
    + simpl. split.
      * intros [->|?%elem_of_nil]; [|done]. exists 0. split; [lia|f_equal; lia].
      * intros (k & Hk & ->). left. f_equal; lia.
    + rewrite (u64_id (i + 4096)), IH by lia. split.
      * intros [->|(k & Hk & ->)]; [exists 0|exists (k + 1)]; (split; [lia|f_equal; lia]).
      * intros (k & Hk & ->). destruct (decide (k = 0)) as [->|]; [left; f_equal; lia|right].
        exists (k - 1). split; [lia|f_equal; lia].
Qed.

(** The effect of a range of requests on the upper half. *)
Lemma range_effect phys virt size flags v x :
  upper v → upper virt → virt `mod` 4096 = 0 → 0 <= phys → 0 <= size →
  virt + size <= 18446744073709551616 → phys + size <= 281474976710656 →
  present flags = true →
  effect (requests_of_range phys virt size flags) v x =
  if decide (virt <= v `div` 4096 * 4096 < virt + size)
  then Some (Z.lor (phys + (v `div` 4096 * 4096 - virt)) flags) else x.
Proof.
  intros Hv Hu Ha Hp Hs Hvt Hpt Hf. unfold upper in *.
  assert (∀ r, r ∈ requests_of_range phys virt size flags ↔ ∃ k, 0 <= k < (size + 4095) `div` 4096 ∧
    r = mk_request (phys + k * 4096) (virt + k * 4096) flags) as Hr.
  { intros r. unfold requests_of_range. rewrite elem_of_range_requests by dlia.
    split; intros (k & Hk & ->); exists k; (split; [dlia|f_equal; lia]). }
  case_decide as Hin.
  - rewrite (effect_const _ v x (Z.lor (phys + (v `div` 4096 * 4096 - virt)) flags)).
    + unfold visible. by rewrite present_lor, Hf, orb_true_r.
    + set (k := (v `div` 4096 * 4096 - virt) `div` 4096).
      exists (mk_request (phys + k * 4096) (virt + k * 4096) flags). split.
      * apply Hr. exists k. split; [subst k; dlia|done].
      * apply vpn_upper; unfold upper; subst k; simpl; dlia.
    + intros r (k & Hk & ->)%Hr Hvp. apply vpn_upper in Hvp; [|unfold upper; simpl; dlia..].
      unfold r_entry. simpl in *. f_equal. lia.
  - apply effect_none. intros r (k & Hk & ->)%Hr Hvp. apply vpn_upper in Hvp; [|unfold upper; simpl; dlia..].
    simpl in Hvp. apply Hin. rewrite Hvp. dlia.
Qed.

(** [map_range], from well-formed tables with enough free frames. *)
Lemma map_range_spec hhdm s T phys virt size flags :
  tables_wf hhdm (p_fr s) (pml4 s) T →
  enough (p_fr s) T (tables_for (requests_of_range phys virt size flags)) →
  upper virt → virt `mod` 4096 = 0 → 0 <= phys → 0 <= size →
  virt + size <= 18446744073709551616 → phys + size <= 281474976710656 →
  is_u64 flags → present flags = true →
  let s' := (map_range hhdm s phys virt size flags).2 in
  ∃ T', evolves hhdm s T s' T' ∧
    ∀ v, upper v → translate hhdm s' v =
      if decide (virt <= v `div` 4096 * 4096 < virt + size)
      then Some (Z.lor (phys + (v `div` 4096 * 4096 - virt)) flags) else translate hhdm s v.
Proof.
  intros Hwf Hen Hu Ha Hp Hs Hvt Hpt Hfu Hf s'. subst s'. unfold map_range. simpl.
  rewrite map_range_all. fold (requests_of_range phys virt size flags).
  destruct (map_all_spec hhdm s T (requests_of_range phys virt size flags)) as (T' & E & _ & _ & Ht); [done..| |].
  - apply Forall_forall. intros r Hr. unfold requests_of_range, upper in *.
    apply elem_of_range_requests in Hr as (k & Hk & ->); [|dlia..].
    apply lor_u64; [unfold is_u64; simpl; dlia|done].
  - exists T'. split; [done|]. intros v Hv. rewrite Ht. by apply range_effect.
Qed.

Lemma ROUND_DOWN_eq x : is_u64 x → ROUND_DOWN x = x `div` 4096 * 4096.
Proof.
  intros Hx. unfold is_u64 in Hx. unfold ROUND_DOWN.
  change (u64 (Z.lnot (0x1000 - 1))) with (Z.shiftl (Z.ones 52) 12).
  apply Z.bits_inj'. intros n Hn. rewrite Z.land_spec.
  change 4096 with (2 ^ 12). rewrite <- Z.shiftl_mul_pow2, <- Z.shiftr_div_pow2 by lia.
  rewrite !Z.shiftl_spec by lia.
  destruct (decide (n < 12)) as [Hl|Hl].
  - rewrite !(Z.testbit_neg_r _ (n - 12)) by lia. apply andb_false_r.
  - rewrite Z.shiftr_spec by lia. replace (n - 12 + 12) with n by lia.
    rewrite Z.testbit_ones by lia.
    destruct (decide (n < 64)) as [Hh|Hh].
    + replace (n - 12 <? 52) with true by (symmetry; apply Z.ltb_lt; lia).
      replace (0 <=? n - 12) with true by (symmetry; apply Z.leb_le; lia). apply andb_true_r.
    + replace (Z.testbit x n) with false; [done|]. symmetry.
      destruct (decide (x = 0)) as [->|]; [apply Z.bits_0|].
      apply Z.bits_above_log2; [lia|]. apply Z.log2_lt_pow2; [lia|].
      pose proof (Z.pow_le_mono_r 2 64 n). lia.
Qed.

(** C24: [map_range] on page-aligned addresses maps every page of the range, in
    order, to the frame at the same offset, changes no other translation, keeps
    the tables well-formed and the cached translations right, and returns the
    number of whole pages. *)
Theorem map_range_correct hhdm s T phys virt size flags :
  tables_wf hhdm (p_fr s) (pml4 s) T → tlb_coherent hhdm s →
  enough (p_fr s) T (tables_for (requests_of_range phys virt size flags)) →
  upper virt → virt `mod` 4096 = 0 → 0 <= phys → 0 <= size < 17592186044416 →
  virt + size <= 18446744073709551616 → phys + size <= 281474976710656 →
  is_u64 flags → present flags = true →
  let '(n, s') := map_range hhdm s phys virt size flags in
  n = size `div` 4096 ∧ (∃ T', T ⊆ T' ∧ tables_wf hhdm (p_fr s') (pml4 s') T') ∧
  tlb_coherent hhdm s' ∧
  ∀ v, upper v → translate hhdm s' v =
    if decide (virt <= v `div` 4096 * 4096 < virt + size)
    then Some (Z.lor (phys + (v `div` 4096 * 4096 - virt)) flags) else translate hhdm s v.
Proof.
  intros Hwf Hc Hen Hu Ha Hp Hs Hvt Hpt Hfu Hf.
  destruct (map_range_spec hhdm s T phys virt size flags) as (T' & E & Ht); [done || lia..|].
  destruct (map_range hhdm s phys virt size flags) as [n s'] eqn:Er.
  split; [|split; [exists T'; split; apply E|split; [by apply (ev_tlb _ _ _ _ _ E)|done]]].
  unfold map_range in Er. injection Er as <- _. unfold FRAME_SIZE. apply u32_id. dlia.
Qed.

(** [map_mmio] gives a device region of any alignment an uncached mapping:
    the returned pointer plus [i] translates, for every [i] below the size, to
    the frame of physical address [phys_addr + i] with exactly the present, write
    and cache-disable flags, and no page outside the region changes. *)
Theorem map_mmio_correct hhdm s T phys_addr size :
  tables_wf hhdm (p_fr s) (pml4 s) T → tlb_coherent hhdm s →
  enough (p_fr s) T (tables_for (requests_of_range (ROUND_DOWN phys_addr)
    (PHYS2VIRT hhdm (ROUND_DOWN phys_addr)) (ALIGN_UP (size + phys_addr `mod` 4096) 4096) 19)) →
  upper hhdm → hhdm `mod` 4096 = 0 → 0 <= phys_addr → 0 < size →
  hhdm + phys_addr + size + 4096 <= 18446744073709551616 →
  let '(p, s') := map_mmio hhdm s phys_addr size in
  p = hhdm + phys_addr ∧ tlb_coherent hhdm s' ∧
  (∀ i, 0 <= i < size →
     translate hhdm s' (p + i) =
       Some (Z.lor ((phys_addr + i) `div` 4096 * 4096)
               (Z.lor (Z.lor PAGE_PRESENT PAGE_WRITE) PAGE_UNCACHE))) ∧
  (∀ v, upper v → v < p `div` 4096 * 4096 ∨ (p + size + 4095) `div` 4096 * 4096 <= v →
     translate hhdm s' v = translate hhdm s v).
Proof.
  intros Hwf Hc Hen Hu Ha Hp Hs Htop. unfold upper in Hu.
  assert (ROUND_DOWN phys_addr = phys_addr `div` 4096 * 4096) as Er by (apply ROUND_DOWN_eq; unfold is_u64; lia).
  assert (ALIGN_UP (size + phys_addr `mod` 4096) 4096
          = (size + phys_addr `mod` 4096 + 4095) `div` 4096 * 4096) as Es.
  { unfold ALIGN_UP, ROUND_UP. rewrite (u64_id (_ + (4096 - 1))) by dlia.
    rewrite u64_id by dlia. do 2 f_equal. }
  assert (PHYS2VIRT hhdm (ROUND_DOWN phys_addr) = hhdm + phys_addr `div` 4096 * 4096) as Ev.
  { rewrite Er. unfold PHYS2VIRT. apply u64_id. dlia. }
  unfold map_mmio.
  assert (u64 (size + u64 (phys_addr - ROUND_DOWN phys_addr)) = size + phys_addr `mod` 4096) as ->.
  { rewrite Er. rewrite (u64_id (phys_addr - _)) by dlia. rewrite u64_id by dlia. dlia. }
  change 0x1000 with 4096. rewrite Es, Ev in *. rewrite Er in *.
  set (base := phys_addr `div` 4096 * 4096) in *.
  set (len := (size + phys_addr `mod` 4096 + 4095) `div` 4096 * 4096) in *.
  destruct (map_range_spec hhdm s T base (hhdm + base) len 19) as (T' & E & Ht);
    [done|exact Hen|unfold upper; subst base len; dlia..|by vm_compute|done|].
  change (Z.lor (Z.lor PAGE_PRESENT PAGE_WRITE) PAGE_UNCACHE) with 19.
  destruct (map_range _ _ _ _ _ _) as [n s'] eqn:Erg. simpl in Ht, E.
  rewrite (u64_id (phys_addr - base)) by (subst base; dlia). rewrite u64_id by (subst base; dlia).
  split; [lia|]. split; [by apply (ev_tlb _ _ _ _ _ E)|]. split.
  - intros i Hi. rewrite Ht by (unfold upper; subst base; dlia).
    rewrite decide_True by (subst base len; dlia). do 2 f_equal. subst base. dlia.
  - intros v Hv Hout. rewrite Ht by done. rewrite decide_False; [done|].
    subst base len. dlia.
Qed.

(** ** Witnesses: sixteen frames behind the usual direct map, a three-page image *)

Definition boot_sample : BootloaderCtx :=
  mk_ctx 0 0 [mk_entry 0 0x2000 LIMINE_MEMMAP_USABLE; mk_entry 0x50000 0x1800 (LIMINE_MEMMAP_OTHER 1);
              mk_entry 0x100000 0x10000 LIMINE_MEMMAP_USABLE]
    0xffff800000000000 0xffffffff80000000 0x200000 0 0 0.
Definition ld_sample : linker_symbols :=
  mk_symbols 0xffffffff80000000 0xffffffff80000f00 0xffffffff80001000 0xffffffff80001800
             0xffffffff80002000 0xffffffff80002010.
Definition paging_sample : paging_state :=
  mk_paging (mk_frame_state (λ _, 0) 0xffff800000001000 16 0 16 0xffff800000100000) 0 ∅ 1 0 0.
Definition ready_sample : paging_state :=
  mk_paging (mk_frame_state (λ a, if a =? 0xffff800000001000 then 1 else 0)
               0xffff800000001000 16 1 16 0xffff800000100000) 0xffff800000100000 ∅ 1 0 0.

Lemma layout_sample : layout_ok boot_sample ld_sample.
Proof.
  assert (text_lo ld_sample = 0xffffffff80000000 ∧ text_hi ld_sample = 0xffffffff80001000 ∧
    rodata_lo ld_sample = 0xffffffff80001000 ∧ rodata_hi ld_sample = 0xffffffff80002000 ∧
    data_lo ld_sample = 0xffffffff80002000 ∧ data_hi ld_sample = 0xffffffff80003000)
    as (E1 & E2 & E3 & E4 & E5 & E6) by done.
  split; rewrite ?E1, ?E2, ?E3, ?E4, ?E5, ?E6; unfold upper; simpl;
    try (split_and!; done || lia).
  intros e He Hm. rewrite !elem_of_cons in He.
  destruct He as [->|[->|[->|?%elem_of_nil]]]; [|discriminate Hm| |done]; simpl; split_and!; lia || reflexivity.
Qed.

Lemma frames_sample : frames_wf (p_fr paging_sample).
Proof.
  split; simpl; unfold apart; try lia. intros i Hi. left. unfold frame_bit. by rewrite load8_eq.
Qed.

Lemma hhdm_sample : hhdm_ok 0xffff800000000000 (p_fr paging_sample).
Proof. split; simpl; lia || done. Qed.

(** The root of [ready_sample] is the frame [init] would take. *)
Lemma tables_sample :
  tables_wf 0xffff800000000000 (p_fr ready_sample) (pml4 ready_sample)
    {[ [] := 0xffff800000100000 ]}.
Proof.
  assert (∀ i, 0 <= i < 16 → frame_bit (p_fr ready_sample) i = if i =? 0 then 1 else 0) as Hb.
  { intros i Hi. unfold frame_bit. simpl. nowrap. rewrite load8_eq.
    destruct (i =? 0) eqn:?, (_ =? _) eqn:E in |- *; b2p; done || lia. }
  split.
  - split; simpl; unfold apart; try lia. intros i Hi. simpl in Hi.
    rewrite Hb by lia. case_cond; auto.
  - split; simpl; lia || done.
  - reflexivity.
  - intros p t Ht. apply lookup_singleton_Some in Ht as [<- <-]. exists 0. split; [simpl; lia|].
    split; [done|]. unfold used. by rewrite Hb.
  - intros p q t [<- _]%lookup_singleton_Some [<- _]%lookup_singleton_Some. done.
  - intros p i c [E _]%lookup_singleton_Some. by destruct p.
  - intros p t i Ht _ Hi. apply lookup_singleton_Some in Ht as [<- <-].
    rewrite lookup_singleton_ne by done.
    replace (load64 _ _) with 0; [done|]. symmetry. apply (load_zero 8). intros a Ha.
    simpl. cond_false. done.
Qed.

Lemma coherent_sample : tlb_coherent 0xffff800000000000 ready_sample.
Proof. intros pg e H. simpl in H. by rewrite lookup_empty in H. Qed.

Lemma paging_init_correct_witness :
  translate 0xffff800000000000 (init boot_sample ld_sample paging_sample) 0xffffffff80001004
  = Some (Z.lor 0x201000 RODATA_FLAGS).
Proof.
  destruct (paging_init_correct boot_sample ld_sample paging_sample layout_sample frames_sample hhdm_sample)
    as (_ & H & _); [vm_compute; lia|].
  rewrite H by (unfold upper; lia). reflexivity.
Defined.

Lemma kernel_w_xor_x_witness :
  Z.testbit (Z.lor 0x202000 DATA_FLAGS) 63 = true.
Proof.
  destruct (paging_init_spec boot_sample ld_sample paging_sample layout_sample frames_sample hhdm_sample)
    as (_ & _ & _ & _ & _ & _ & Ht); [vm_compute; lia|].
  apply (kernel_w_xor_x boot_sample ld_sample paging_sample 0xffffffff80002008 _
           layout_sample frames_sample hhdm_sample);
    [vm_compute; lia|split; [by apply Z.leb_le|by apply Z.ltb_lt]| |reflexivity].
  rewrite Ht by (unfold upper; lia). reflexivity.
Defined.

Lemma map_range_correct_witness :
  translate 0xffff800000000000
    (map_range 0xffff800000000000 ready_sample 0x300000 0xffff800000300000 0x2800 3).2
    0xffff800000302004 = Some 0x302003.
Proof.
  pose proof (map_range_correct 0xffff800000000000 ready_sample _ 0x300000 0xffff800000300000 0x2800 3
    tables_sample coherent_sample) as H.
  destruct (map_range _ _ _ _ _ _) as [n s'].
  destruct H as (_ & _ & _ & H);
    [vm_compute; lia|unfold upper; lia|reflexivity|lia..|unfold is_u64; lia|reflexivity|].
  simpl. rewrite H by (unfold upper; lia). vm_compute. reflexivity.
Defined.

Lemma map_mmio_correct_witness :
  (map_mmio 0xffff800000000000 ready_sample 0xfee00020 0x1000).1 = 0xffff8000fee00020.
Proof.
  pose proof (map_mmio_correct 0xffff800000000000 ready_sample _ 0xfee00020 0x1000
    tables_sample coherent_sample) as H.
  destruct (map_mmio _ _ _ _) as [p s'].
  destruct H as (H & _); [vm_compute; lia|unfold upper; lia|reflexivity|lia..|]. exact H.
Defined.
