(* ===== verification/Heap.v ===== *)
(** * Heap: kmalloc and kfree.

    [src/kernel/mem/heap/heap.cc] and [src/include/mem/heap.h].  Pages and
    segments are the C structures in byte memory, linked by pointers:
    [heap_page] is [addr@0 first@8 free_size@16 next@24] and [heap_segment] is
    [addr@0 size@8 free@16 next@24], 32 bytes each.  The [while] loops over the
    lists and the recursion of [kmalloc] take fuel; [HeapSpec.v] shows how much
    is enough. *)
From stdpp Require Import base numbers list.
From S2P Require Import Prelude Mem Boot Frames Paging.
Local Open Scope Z_scope.

(** The static [heap] pointer with the frame allocator. *)
Record heap_state := mk_heap { h_fr : frame_state; heap : Z }.

Definition h_mem (s : heap_state) : mem := k_mem (h_fr s).
Definition set_h_mem (m : mem) (s : heap_state) : heap_state :=
  mk_heap (set_mem m (h_fr s)) (heap s).

(** The sizes of the two structures. *)
Definition heap_page_size : Z := 32.
Definition heap_segment_size : Z := 32.

Definition page_segments_init (m : mem) (page : Z) : mem :=
  let segment := load64 m page in
  let m := store32 m (page ⊕ 16) (u32 (load32 m (page ⊕ 16) - heap_segment_size)) in
  let m := store64 m segment (segment ⊕ heap_segment_size) in
  let m := store64 m (segment ⊕ 8) (load32 m (page ⊕ 16)) in
  let m := store8 m (segment ⊕ 16) 1 in
  let m := store64 m (segment ⊕ 24) 0 in
  store64 m (page ⊕ 8) segment.

Definition create_heap_page (f : frame_state) (size : Z) : outcome (Z * frame_state) :=
  let fits := size ⊕ heap_page_size ⊕ heap_segment_size <=? FRAME_SIZE in
  let alloc_size := if fits then FRAME_SIZE else heap_page_size + heap_segment_size ⊕ size in
  let num_pages := if fits then 1 else u32 (ROUND_UP alloc_size FRAME_SIZE) in
  let '(page, f) := allocs f num_pages in
  if page =? 0 then Hlt
  else
    let m := k_mem f in
    let m := store64 m page (page ⊕ heap_page_size) in
    let m := store32 m (page ⊕ 16) (u32 (alloc_size - heap_page_size)) in
    let m := page_segments_init m page in
    let m := store64 m (page ⊕ 24) 0 in
    Ret (page, set_mem m f).

Definition alloc_segment (m : mem) (page segment size : Z) : Z * mem :=
  let seg_size := load64 m (segment ⊕ 8) in
  let m :=
    if (size ⊕ heap_segment_size) <? seg_size then
      let fragment := load64 m segment ⊕ size in
      let m := store64 m fragment (fragment ⊕ heap_segment_size) in
      let m := store64 m (fragment ⊕ 8) (load64 m (segment ⊕ 8) ⊖ size ⊖ heap_segment_size) in
      let m := store8 m (fragment ⊕ 16) 1 in
      let m := store64 m (fragment ⊕ 24) (load64 m (segment ⊕ 24)) in
      let m := store64 m (segment ⊕ 8) size in
      store64 m (segment ⊕ 24) fragment
    else m in
  let m := store32 m (page ⊕ 16) (u32 (load32 m (page ⊕ 16) - load64 m (segment ⊕ 8))) in
  let m := store8 m (segment ⊕ 16) 0 in
  (load64 m segment, m).

Definition try_segment_merge (m : mem) (page segment : Z) : mem :=
  let next := load64 m (segment ⊕ 24) in
  if negb (next =? 0) && negb (load8 m (next ⊕ 16) =? 0) then
    let m := store64 m (segment ⊕ 8)
               (load64 m (segment ⊕ 8) ⊕ (load64 m (next ⊕ 8) ⊕ heap_segment_size)) in
    let m := store64 m (segment ⊕ 24) (load64 m (next ⊕ 24)) in
    store32 m (page ⊕ 16) (u32 (load32 m (page ⊕ 16) + heap_segment_size))
  else m.

(** [kmalloc]'s inner loop: the first free segment that is large enough, or
    null at the end of the list. *)
Fixpoint first_fit (fuel : nat) (m : mem) (segment size : Z) : outcome Z :=
  match fuel with
  | O => NoFuel
  | S fuel =>
      if segment =? 0 then Ret 0
      else if negb (load8 m (segment ⊕ 16) =? 0) && (size <=? load64 m (segment ⊕ 8))
      then Ret segment
      else first_fit fuel m (load64 m (segment ⊕ 24)) size
  end.

(** [kmalloc]'s outer loop, for a non-null [page]: a page with a fitting segment
    of it, or the last page with null. *)
Fixpoint find_segment (fuel : nat) (m : mem) (page size : Z) : outcome (Z * Z) :=
  match fuel with
  | O => NoFuel
  | S fuel =>
      segment ← first_fit fuel m (load64 m (page ⊕ 8)) size;
      if negb (segment =? 0) then Ret (page, segment)
      else if load64 m (page ⊕ 24) =? 0 then Ret (page, 0)
      else find_segment fuel m (load64 m (page ⊕ 24)) size
  end.

Fixpoint kmalloc (fuel : nat) (s : heap_state) (size : Z) : outcome (Z * heap_state) :=
  match fuel with
  | O => NoFuel
  | S fuel =>
      s ← (if heap s =? 0
           then '(page, f) ← create_heap_page (h_fr s) size; Ret (mk_heap f page)
           else Ret s);
      '(page, segment) ← find_segment fuel (h_mem s) (heap s) size;
      if negb (segment =? 0) then
        let '(addr, m) := alloc_segment (h_mem s) page segment size in
        Ret (addr, set_h_mem m s)
      else
        '(fresh, f) ← create_heap_page (h_fr s) size;
        kmalloc fuel (mk_heap (set_mem (store64 (k_mem f) (page ⊕ 24) fresh) f) (heap s)) size
  end.

(** [kfree]'s inner loop: the segment whose payload is [addr], or null. *)
Fixpoint segment_of (fuel : nat) (m : mem) (segment addr : Z) : outcome Z :=
  match fuel with
  | O => NoFuel
  | S fuel =>
      if segment =? 0 then Ret 0
      else if load64 m segment =? addr then Ret segment
      else segment_of fuel m (load64 m (segment ⊕ 24)) addr
  end.

(** [kfree]'s outer loop.  [segment] is set once, before the loop, so it is null
    from the second page on. *)
Fixpoint find_block (fuel : nat) (m : mem) (page segment addr : Z) : outcome (Z * Z) :=
  match fuel with
  | O => NoFuel
  | S fuel =>
      if page =? 0 then Ret (0, 0)
      else
        found ← segment_of fuel m segment addr;
        if negb (found =? 0) then Ret (page, found)
        else find_block fuel m (load64 m (page ⊕ 24)) found addr
  end.

(** What [kfree] does to the segment it found. *)
Definition free_segment (m : mem) (page segment : Z) : mem :=
  let m := store8 m (segment ⊕ 16) 1 in
  let m := store32 m (page ⊕ 16) (u32 (load32 m (page ⊕ 16) + load64 m (segment ⊕ 8))) in
  try_segment_merge m page segment.

Definition kfree (fuel : nat) (s : heap_state) (addr : Z) : outcome (bool * heap_state) :=
  let m := h_mem s in
  '(page, segment) ← find_block fuel m (heap s) (load64 m (heap s ⊕ 8)) addr;
  if segment =? 0 then Ret (false, s)
  else Ret (true, set_h_mem (free_segment m page segment) s).
