(* ===== verification/HeapSpec.v ===== *)
(** * HeapSpec: the heap as lists of segments.

    The byte-level heap of [Heap.v] is related to an abstract heap: a list of
    pages, each a list of segments [(size, free)] that tile the page.  Each
    operation of the code is shown to perform its abstract counterpart. *)
From stdpp Require Import base numbers list.
From S2P Require Import Prelude Mem Boot Frames Paging Heap.
Local Open Scope Z_scope.

(** ** Segments in memory *)

(** The four fields of the segment header at [a]. *)
Record header (m : mem) (a sz : Z) (fr : bool) (nx : Z) : Prop := {
  hd_addr : load64 m a = a + 32;
  hd_size : load64 m (a + 8) = sz;
  hd_free : load8 m (a + 16) = b2z fr;
  hd_next : load64 m (a + 24) = nx;
}.

(** The address just after the segments [l] laid out from [a]. *)
Fixpoint seg_end (a : Z) (l : list (Z * bool)) : Z :=
  match l with
  | [] => a
  | (sz, _) :: l => seg_end (a + 32 + sz) l
  end.

(** The pointer to the first of the segments [l] laid out from [a]. *)
Definition seg_ptr (a : Z) (l : list (Z * bool)) : Z :=
  match l with [] => 0 | _ => a end.

(** The segments [l] tile memory from [a], linked in order. *)
Fixpoint segs_at (m : mem) (a : Z) (l : list (Z * bool)) : Prop :=
  match l with
  | [] => True
  | (sz, fr) :: l =>
      0 <= sz ∧ header m a sz fr (seg_ptr (a + 32 + sz) l) ∧ segs_at m (a + 32 + sz) l
  end.

(** ** Abstract operations on one page *)

(** First fit: offset and size of the chosen segment and the new list. *)
Fixpoint take (size : Z) (l : list (Z * bool)) : option (Z * Z * list (Z * bool)) :=
  match l with
  | [] => None
  | (sz, fr) :: l =>
      if fr && (size <=? sz)
      then Some (0, sz, if size + 32 <? sz then (size, false) :: (sz - size - 32, true) :: l
                        else (sz, false) :: l)
      else '(off, z, l') ← take size l; Some (off + 32 + sz, z, (sz, fr) :: l')
  end.

(** A freed segment of size [sz] before [l], merged with a free successor. *)
Definition merge (sz : Z) (l : list (Z * bool)) : list (Z * bool) :=
  match l with
  | (sz', true) :: l' => (sz + (sz' + 32), true) :: l'
  | _ => (sz, true) :: l
  end.

(** Freeing the segment with payload [addr]: its offset and the new list. *)
Fixpoint release (a addr : Z) (l : list (Z * bool)) : option (Z * list (Z * bool)) :=
  match l with
  | [] => None
  | (sz, fr) :: l =>
      if a + 32 =? addr then Some (0, merge sz l)
      else '(off, l') ← release (a + 32 + sz) addr l; Some (off + 32 + sz, (sz, fr) :: l')
  end.

(** The allocated blocks [(address, size)] of the segments from [a]. *)
Fixpoint live (a : Z) (l : list (Z * bool)) : list (Z * Z) :=
  match l with
  | [] => []
  | (sz, fr) :: l => (if fr then [] else [(a + 32, sz)]) ++ live (a + 32 + sz) l
  end.

(** ** Lists of segments *)

Lemma seg_end_ge m a l : segs_at m a l → a <= seg_end a l.
Proof.
  revert a; induction l as [|[sz fr] l IH]; intros a; simpl; [lia|].
  intros (Hsz & _ & Hl). specialize (IH _ Hl). lia.
Qed.

Lemma seg_end_cons m a sz fr l : segs_at m a ((sz, fr) :: l) → a + 32 + sz <= seg_end a ((sz, fr) :: l).
Proof. intros (Hsz & _ & Hl). simpl. by eapply seg_end_ge. Qed.

Lemma header_ext m m' a sz fr nx :
  same_on a (a + 32) m m' → header m a sz fr nx → header m' a sz fr nx.
Proof.
  intros Hs [H1 H2 H3 H4]. split.
  - rewrite <- H1. apply load64_same_on. eapply same_on_weaken; [..|exact Hs]; lia.
  - rewrite <- H2. apply load64_same_on. eapply same_on_weaken; [..|exact Hs]; lia.
  - rewrite <- H3. apply load8_same_on. eapply same_on_weaken; [..|exact Hs]; lia.
  - rewrite <- H4. apply load64_same_on. eapply same_on_weaken; [..|exact Hs]; lia.
Qed.

Lemma segs_at_ext m m' a l :
  same_on a (seg_end a l) m m' → segs_at m a l → segs_at m' a l.
Proof.
  revert a; induction l as [|[sz fr] l IH]; intros a Hs Hl; [done|].
  pose proof (seg_end_cons _ _ _ _ _ Hl) as He. destruct Hl as (Hsz & Hh & Hl).
  simpl in *. split; [done|]. split.
  - eapply header_ext; [|exact Hh]. eapply same_on_weaken; [..|exact Hs]; lia.
  - apply IH; [|done]. eapply same_on_weaken; [..|exact Hs]; lia.
Qed.

Lemma take_bounds m a size l off z l' :
  segs_at m a l → take size l = Some (off, z, l') →
  0 <= off ∧ a + off + 32 + z <= seg_end a l ∧ size <= z ∧ seg_end a l' = seg_end a l ∧ l' ≠ [].
Proof.
  revert a off l'; induction l as [|[sz fr] l IH]; intros a off l' Hl Ht; [done|].
  pose proof (seg_end_cons _ _ _ _ _ Hl) as He. destruct Hl as (Hsz & _ & Hl).
  simpl in Ht. destruct (fr && (size <=? sz)) eqn:Hc.
  - injection Ht as <- <- <-. b2p. simpl in *.
    split_and!; try lia; [|by case_cond]. case_cond; simpl; f_equal; lia.
  - destruct (take size l) as [[[off1 z1] l1]|] eqn:E; [|done]. simpl in Ht. simplify_eq.
    destruct (IH _ _ _ Hl eq_refl) as (? & ? & ? & ? & ?). simpl in *. split_and!; done || lia.
Qed.

(** Taking a segment adds one live block, at least as large as requested. *)
Lemma take_live a size l off z l' :
  take size l = Some (off, z, l') →
  live a l' ≡ₚ (a + off + 32, if size + 32 <? z then size else z) :: live a l.
Proof.
  revert a off l'; induction l as [|[sz fr] l IH]; intros a off l' Ht; [done|].
  simpl in Ht. destruct (fr && (size <=? sz)) eqn:Hc.
  - injection Ht as <- <- <-. b2p. subst fr. replace (a + 0 + 32) with (a + 32) by lia.
    case_cond; simpl; [|done]. do 2 f_equiv. lia.
  - destruct (take size l) as [[[off1 z1] l1]|] eqn:E; [|done]. simpl in Ht. simplify_eq.
    simpl. rewrite (IH (a + 32 + sz)) by done.
    replace (a + (off1 + 32 + sz) + 32) with (a + 32 + sz + off1 + 32) by lia.
    destruct fr; simpl; [done|]. apply Permutation_swap.
Qed.

(** Live blocks lie inside the segments. *)
Lemma live_bounds m a l b n :
  segs_at m a l → (b, n) ∈ live a l → a + 32 <= b ∧ b + n <= seg_end a l ∧ 0 <= n.
Proof.
  revert a; induction l as [|[sz fr] l IH]; intros a Hl Hb; [by apply elem_of_nil in Hb|].
  pose proof (seg_end_cons _ _ _ _ _ Hl) as He. destruct Hl as (Hsz & _ & Hl). simpl in *.
  apply elem_of_app in Hb as [Hb|Hb].
  - destruct fr; [by apply elem_of_nil in Hb|]. apply list_elem_of_singleton in Hb. simplify_eq. lia.
  - destruct (IH _ Hl Hb) as (? & ? & ?). lia.
Qed.

(** The chosen segment is apart from every live block. *)
Lemma take_apart m a size l off z l' b n :
  segs_at m a l → take size l = Some (off, z, l') → (b, n) ∈ live a l →
  b + n <= a + off ∨ a + off + 32 + z <= b.
Proof.
  revert a off l'; induction l as [|[sz fr] l IH]; intros a off l' Hl Ht Hb; [done|].
  pose proof Hl as (Hsz & _ & Hl'). simpl in Ht, Hb. apply elem_of_app in Hb.
  destruct (fr && (size <=? sz)) eqn:Hc.
  - injection Ht as <- <- <-. b2p. subst fr. destruct Hb as [Hb|Hb]; [by apply elem_of_nil in Hb|].
    destruct (live_bounds _ _ _ _ _ Hl' Hb). lia.
  - destruct (take size l) as [[[off1 z1] l1]|] eqn:E; [|done]. simpl in Ht. simplify_eq.
    destruct (take_bounds _ _ _ _ _ _ _ Hl' E) as (? & _).
    destruct Hb as [Hb|Hb].
    + destruct fr; [by apply elem_of_nil in Hb|]. apply list_elem_of_singleton in Hb. simplify_eq. lia.
    + destruct (IH _ _ _ Hl' eq_refl Hb); lia.
Qed.

Lemma release_bounds m a addr l off l' :
  segs_at m a l → release a addr l = Some (off, l') →
  0 <= off ∧ addr = a + off + 32 ∧ addr <= seg_end a l ∧ seg_end a l' = seg_end a l ∧ l' ≠ [].
Proof.
  revert a off l'; induction l as [|[sz fr] l IH]; intros a off l' Hl Hr; [done|].
  pose proof (seg_end_cons _ _ _ _ _ Hl) as He. destruct Hl as (Hsz & _ & Hl).
  simpl in Hr. destruct (a + 32 =? addr) eqn:Hc; b2p.
  - injection Hr as <- <-. split_and!; try lia; destruct l as [|[sz' [|]] l]; simpl in *; done || (f_equal; lia).
  - destruct (release _ addr l) as [[off1 l1]|] eqn:E; [|done]. simpl in Hr. simplify_eq.
    destruct (IH _ _ _ Hl E) as (? & ? & ? & ? & ?). simpl in *. split_and!; done || lia.
Qed.

(** Freeing a live block removes it, and only it, from the live blocks. *)
Lemma release_live m a addr n l :
  segs_at m a l → (addr, n) ∈ live a l →
  ∃ off l', release a addr l = Some (off, l') ∧ live a l ≡ₚ (addr, n) :: live a l'.
Proof.
  revert a; induction l as [|[sz fr] l IH]; intros a Hl Hb; [by apply elem_of_nil in Hb|].
  destruct Hl as (Hsz & _ & Hl). simpl in *. apply elem_of_app in Hb as [Hb|Hb].
  - destruct fr; [by apply elem_of_nil in Hb|]. apply list_elem_of_singleton in Hb.
    injection Hb as -> ->. rewrite Z.eqb_refl. eexists _, _. split; [done|].
    simpl. f_equiv. destruct l as [|[sz' [|]] l]; simpl; try done.
    by replace (a + 32 + (sz + (sz' + 32))) with (a + 32 + sz + 32 + sz') by lia.
  - destruct (live_bounds _ _ _ _ _ Hl Hb) as (? & _). replace (a + 32 =? addr) with false by lia.
    destruct (IH _ Hl Hb) as (off & l' & -> & Hp). eexists _, _. split; [done|].
    simpl. rewrite Hp. destruct fr; simpl; [done|]. apply Permutation_swap.
Qed.

(** ** alloc_segment *)

(** The bytes an allocation in the segment at [a] of size [z] may write. *)
Definition seg_frame (page a z : Z) (m m' : mem) : Prop :=
  ∀ i, ¬ (page + 16 <= i < page + 20) → ¬ (a <= i < a + 32 + z) → m' i = m i.

Lemma seg_frame_same_on page a z m m' lo hi :
  seg_frame page a z m m' → hi <= page + 16 ∨ page + 20 <= lo → hi <= a ∨ a + 32 + z <= lo →
  same_on lo hi m m'.
Proof. intros Hf H1 H2 i Hi. apply Hf; lia. Qed.

Lemma alloc_segment_split m page a size z nx :
  header m a z true nx → 0 <= size → size + 32 < z →
  0 <= page → page + 32 <= a → a + 32 + z <= 18446744073709551616 → is_u64 nx →
  let '(p, m') := alloc_segment m page a size in
  p = a + 32 ∧ header m' a size false (a + 32 + size) ∧
  header m' (a + 32 + size) (z - size - 32) true nx ∧ seg_frame page a z m m'.
Proof.
  intros [H1 H2 H3 H4] Hs Hz Hp0 Hp Ht Hnx. unfold is_u64 in Hnx. unfold alloc_segment, heap_segment_size.
  nowrap. rewrite H1, H2. cond_true. nowrap. simpl_mem. rewrite H2, H4. nowrap. simpl_mem.
  split; [done|]. split; [|split].
  - split; simpl_mem; done || lia.
  - split; simpl_mem; done || lia.
  - intros i Hi1 Hi2. frame_store.
Qed.

Lemma alloc_segment_whole m page a size z nx :
  header m a z true nx → 0 <= size <= z → z <= size + 32 →
  0 <= page → page + 32 <= a → a + 32 + z <= 18446744073709551616 →
  let '(p, m') := alloc_segment m page a size in
  p = a + 32 ∧ header m' a z false nx ∧ seg_frame page a z m m'.
Proof.
  intros [H1 H2 H3 H4] Hs Hz Hp0 Hp Ht. unfold alloc_segment, heap_segment_size.
  nowrap. rewrite H2. cond_false. simpl_mem.
  split; [done|]. split.
  - split; simpl_mem; done.
  - intros i Hi1 Hi2. frame_store.
Qed.

Lemma seg_ptr_cons a x l : seg_ptr a (x :: l) = a.
Proof. done. Qed.

Lemma seg_ptr_u64 m a l : segs_at m a l → 0 <= a → seg_end a l < 18446744073709551616 → is_u64 (seg_ptr a l).
Proof.
  intros Hl Ha He. pose proof (seg_end_ge _ _ _ Hl). unfold is_u64. destruct l; simpl; [lia|].
  simpl in *. lia.
Qed.

(** [alloc_segment] on the segment chosen by first fit performs [take]. *)
Lemma alloc_segment_take m page a size l off z l' :
  segs_at m a l → take size l = Some (off, z, l') → 0 <= size →
  0 <= page → page + 32 <= a → seg_end a l < 18446744073709551616 →
  let '(p, m') := alloc_segment m page (a + off) size in
  p = a + off + 32 ∧ segs_at m' a l' ∧ seg_frame page (a + off) z m m'.
Proof.
  intros Hl Ht Hs Hp0. revert a off l' Hl Ht; induction l as [|[sz fr] l IH];
    intros a off l' Hl Ht Hp He; [done|].
  pose proof (seg_end_cons _ _ _ _ _ Hl) as Hc. pose proof Hl as (Hsz & Hh & Hl').
  pose proof (seg_ptr_u64 _ _ _ Hl') as Hu.
  simpl in Ht. destruct (fr && (size <=? sz)) eqn:Hfit.
  - injection Ht as <- <- <-. b2p. subst fr. simpl in He, Hc. rewrite Z.add_0_r. case_cond.
    + pose proof (alloc_segment_split m page a size sz _ Hh) as Hsp.
      destruct (alloc_segment m page a size) as [p m'].
      destruct Hsp as (-> & Ha & Hb & Hf); [lia..|by apply Hu; lia|].
      split; [done|]. split; [|done]. simpl. split; [done|]. split; [done|]. split; [lia|].
      replace (a + 32 + size + 32 + (sz - size - 32)) with (a + 32 + sz) by lia. split; [done|].
      apply (segs_at_ext m); [|done]. eapply seg_frame_same_on; [exact Hf|lia..].
    + pose proof (alloc_segment_whole m page a size sz _ Hh) as Hsp.
      destruct (alloc_segment m page a size) as [p m'].
      destruct Hsp as (-> & Ha & Hf); [lia..|].
      split; [done|]. split; [|done]. simpl. split; [done|]. split; [done|].
      apply (segs_at_ext m); [|done]. eapply seg_frame_same_on; [exact Hf|lia..].
  - destruct (take size l) as [[[off1 z1] l1]|] eqn:E; [|done]. simpl in Ht.
    injection Ht as <- -> <-. simpl in He, Hc.
    destruct (take_bounds _ _ _ _ _ _ _ Hl' E) as (Hoff & Hzb & Hzs & _ & Hne).
    specialize (IH (a + 32 + sz) off1 l1 Hl' eq_refl). replace (a + (off1 + 32 + sz)) with (a + 32 + sz + off1) by lia.
    destruct (alloc_segment m page (a + 32 + sz + off1) size) as [p m'].
    destruct IH as (-> & Hl1 & Hf); [lia..|]. split; [done|]. split; [|done].
    simpl. split; [done|]. split; [|done].
    replace (seg_ptr (a + 32 + sz) l1) with (seg_ptr (a + 32 + sz) l)
      by (destruct l; [done|]; by destruct l1).
    eapply header_ext; [|exact Hh]. eapply seg_frame_same_on; [exact Hf|lia..].
Qed.

(** [first_fit] finds the segment [take] chooses. *)
Lemma first_fit_take fuel m a size l :
  segs_at m a l → 0 < a → seg_end a l < 18446744073709551616 → (length l < fuel)%nat →
  first_fit fuel m (seg_ptr a l) size =
  Ret (match take size l with Some (off, _, _) => a + off | None => 0 end).
Proof.
  revert fuel a; induction l as [|[sz fr] l IH]; intros fuel a Hl Ha He Hf;
    (destruct fuel as [|fuel]; [simpl in Hf; lia|]); [done|].
  pose proof (seg_end_cons _ _ _ _ _ Hl) as Hc. pose proof Hl as (Hsz & [H1 H2 H3 H4] & Hl').
  simpl in *. cond_false. nowrap. rewrite H2, H3, H4.
  replace (negb (b2z fr =? 0)) with fr by (by destruct fr).
  destruct (fr && (size <=? sz)) eqn:Hfit; [f_equal; lia|].
  rewrite IH by (done || lia). destruct (take size l) as [[[off z] l1]|]; simpl; [f_equal; lia|done].
Qed.

(** ** kfree on a page *)

Lemma free_segment_at m page a sz fr l :
  segs_at m a ((sz, fr) :: l) → 0 <= page → page + 32 <= a →
  seg_end a ((sz, fr) :: l) < 18446744073709551616 →
  segs_at (free_segment m page a) a (merge sz l) ∧
  seg_frame page a 0 m (free_segment m page a).
Proof.
  intros Hl Hp0 Hp He. pose proof (seg_end_cons _ _ _ _ _ Hl) as Hc.
  destruct Hl as (Hsz & [H1 H2 H3 H4] & Hl). simpl in He, Hc.
  unfold free_segment, try_segment_merge, heap_segment_size. nowrap. simpl_mem. rewrite H4.
  destruct l as [|[sz' fr'] l]; simpl seg_ptr in *; simpl merge.
  { simpl. split; [|intros i Hi1 Hi2; frame_store].
    split; [done|]. split; [|done]. split; simpl_mem; done. }
  pose proof (seg_end_cons _ _ _ _ _ Hl) as Hc'. destruct Hl as (Hsz' & [G1 G2 G3 G4] & Hl).
  simpl in He, Hc'. rewrite !(u64_id (_ + 16)), !(u64_id (_ + 24)), !(u64_id (a + 32 + sz + 8)) by lia.
  simpl_mem. rewrite G3. replace (a + 32 + sz =? 0) with false by lia.
  destruct fr'; simpl.
  - rewrite H2, G2, G4. nowrap. simpl_mem. split; [|intros i Hi1 Hi2; frame_store].
    split; [lia|]. replace (a + 32 + (sz + (sz' + 32))) with (a + 32 + sz + 32 + sz') by lia. split.
    + pose proof (seg_ptr_u64 _ _ _ Hl). split; simpl_mem; done || lia || auto with lia.
    + apply (segs_at_ext m); [|done]. intros i Hi. frame_store.
  - split; [|intros i Hi1 Hi2; frame_store].
    split; [done|]. split; [split; simpl_mem; done|]. split; [done|].
    split; [split; simpl_mem; done|]. apply (segs_at_ext m); [|done]. intros i Hi. frame_store.
Qed.

(** Freeing the segment with payload [addr] performs [release]. *)
Lemma free_segment_release m page a addr l off l' :
  segs_at m a l → release a addr l = Some (off, l') → 0 <= page → page + 32 <= a →
  seg_end a l < 18446744073709551616 →
  segs_at (free_segment m page (a + off)) a l' ∧
  seg_frame page (a + off) 0 m (free_segment m page (a + off)).
Proof.
  intros Hl Hr Hp0. revert a off l' Hl Hr; induction l as [|[sz fr] l IH];
    intros a off l' Hl Hr Hp He; [done|].
  pose proof (seg_end_cons _ _ _ _ _ Hl) as Hc. simpl in Hr.
  destruct (a + 32 =? addr) eqn:E; b2p.
  - injection Hr as <- <-. rewrite Z.add_0_r. by eapply free_segment_at.
  - destruct (release _ addr l) as [[off1 l1]|] eqn:E1; [|done]. simpl in Hr. injection Hr as <- <-.
    pose proof Hl as (Hsz & Hh & Hl'). simpl in He, Hc.
    destruct (release_bounds _ _ _ _ _ _ Hl' E1) as (Hoff & _ & _ & _ & Hne).
    replace (a + (off1 + 32 + sz)) with (a + 32 + sz + off1) by lia.
    destruct (IH (a + 32 + sz) off1 l1 Hl' E1) as [Hl1 Hf]; [lia..|]. split; [|done].
    simpl. split; [done|]. split; [|done].
    replace (seg_ptr (a + 32 + sz) l1) with (seg_ptr (a + 32 + sz) l)
      by (destruct l; [done|]; by destruct l1).
    eapply header_ext; [|exact Hh]. eapply seg_frame_same_on; [exact Hf|lia..].
Qed.

(** [segment_of] finds the segment [release] frees. *)
Lemma segment_of_release fuel m a addr l :
  segs_at m a l → 0 < a → seg_end a l < 18446744073709551616 → (length l < fuel)%nat →
  segment_of fuel m (seg_ptr a l) addr =
  Ret (match release a addr l with Some (off, _) => a + off | None => 0 end).
Proof.
  revert fuel a; induction l as [|[sz fr] l IH]; intros fuel a Hl Ha He Hf;
    (destruct fuel as [|fuel]; [simpl in Hf; lia|]); [done|].
  pose proof (seg_end_cons _ _ _ _ _ Hl) as Hc. pose proof Hl as (Hsz & [H1 H2 H3 H4] & Hl').
  simpl in *. cond_false. nowrap. rewrite H1, H4.
  destruct (a + 32 =? addr) eqn:E; [f_equal; lia|].
  rewrite IH by (done || lia). destruct (release _ addr l) as [[off l1]|]; simpl; [f_equal; lia|done].
Qed.

(** Freeing a block writes no byte of another live block. *)
Lemma release_apart m a addr l off l' b n :
  segs_at m a l → release a addr l = Some (off, l') → (b, n) ∈ live a l →
  b + n <= a + off ∨ a + off + 32 <= b.
Proof.
  revert a off l'; induction l as [|[sz fr] l IH]; intros a off l' Hl Hr Hb; [done|].
  pose proof Hl as (Hsz & _ & Hl'). simpl in Hr, Hb. apply elem_of_app in Hb.
  destruct (a + 32 =? addr) eqn:Hc.
  - injection Hr as <- <-. right. destruct Hb as [Hb|Hb].
    + destruct fr; [by apply elem_of_nil in Hb|]. apply list_elem_of_singleton in Hb. simplify_eq. lia.
    + destruct (live_bounds _ _ _ _ _ Hl' Hb). lia.
  - destruct (release _ addr l) as [[off1 l1]|] eqn:E; [|done]. simpl in Hr. simplify_eq.
    destruct (release_bounds _ _ _ _ _ _ Hl' E) as (? & _).
    destruct Hb as [Hb|Hb].
    + destruct fr; [by apply elem_of_nil in Hb|]. apply list_elem_of_singleton in Hb. simplify_eq. lia.
    + destruct (IH _ _ _ Hl' E Hb); lia.
Qed.
