(* ===== verification/HeapPages.v ===== *)
(** * HeapPages: the correctness of kmalloc and kfree.

    The heap as a list of pages over the frame pool, the invariant that ties it
    to memory, and the theorems about [kmalloc] and [kfree]. *)
From stdpp Require Import base numbers list.
From S2P Require Import Prelude Mem Boot Frames Paging Heap HeapSpec.
Local Open Scope Z_scope.

(** ** Pages *)

Record hpage := mk_hpage { hp_base : Z; hp_segs : list (Z * bool) }.

Definition hp_end (p : hpage) : Z := seg_end (hp_base p + 32) (hp_segs p).

(** The page header and the segments of [p] are in memory, [nx] is the next page. *)
Record page_at (m : mem) (p : hpage) (nx : Z) : Prop := {
  pa_first : load64 m (hp_base p + 8) = hp_base p + 32;
  pa_next : load64 m (hp_base p + 24) = nx;
  pa_some : hp_segs p ≠ [];
  pa_segs : segs_at m (hp_base p + 32) (hp_segs p);
}.

Definition base_at (H : list hpage) (i : nat) : Z := from_option hp_base 0 (H !! i).

(** [p] lies in the marked frames [n, n + c). *)
Record owns (f : frame_state) (p : hpage) (n c : Z) : Prop := {
  ow_range : 0 <= n ∧ 1 <= c ∧ n + c <= available_frames f;
  ow_base : hp_base p = pool_frame f n;
  ow_end : hp_end p <= hp_base p + c * 4096;
  ow_used : ∀ k, n <= k < n + c → used f k = true;
}.

Record heap_wf (s : heap_state) (H : list hpage) : Prop := {
  hw_frames : frames_wf (h_fr s);
  hw_top : base_addr (h_fr s) + available_frames (h_fr s) * 4096 < 18446744073709551616;
  hw_head : heap s = base_at H 0;
  hw_pages : ∀ i p, H !! i = Some p → page_at (h_mem s) p (base_at H (S i));
  hw_owned : ∀ i p, H !! i = Some p → ∃ n c, owns (h_fr s) p n c;
  hw_apart : ∀ i j p q, i ≠ j → H !! i = Some p → H !! j = Some q →
    hp_end p <= hp_base q ∨ hp_end q <= hp_base p;
}.

(** The allocated blocks of the heap. *)
Definition page_blocks (p : hpage) : list (Z * Z) := live (hp_base p + 32) (hp_segs p).
Definition blocks (H : list hpage) : list (Z * Z) := H ≫= page_blocks.

(** Fuel for the loops over the lists of [H]. *)
Definition heap_weight (H : list hpage) : nat :=
  foldr (λ p n, S (length (hp_segs p)) + n)%nat O H.

(** Memory agrees on every block of [l]. *)
Definition keeps (l : list (Z * Z)) (m m' : mem) : Prop :=
  ∀ b n, (b, n) ∈ l → same_on b (b + n) m m'.

Section Pages.
Context (s : heap_state) (H : list hpage) (Hwf : heap_wf s H).

Lemma page_bounds i p :
  H !! i = Some p →
  0 < hp_base p ∧ hp_base p + 64 <= hp_end p ∧ hp_end p < 18446744073709551616 ∧
  (hp_end p <= frames (h_fr s) ∨ frames (h_fr s) + available_frames (h_fr s) <= hp_base p).
Proof.
  intros Hi. destruct (hw_owned _ _ Hwf i p Hi) as (n & c & [Hr Hb He _]).
  pose proof (hw_frames _ _ Hwf) as Hf. pose proof (hw_top _ _ Hwf) as Ht. wf_destruct Hf.
  destruct (hw_pages _ _ Hwf i p Hi) as [_ _ Hn Hs].
  unfold pool_frame in Hb. unfold hp_end in *.
  destruct (hp_segs p) as [|[sz fr] l] eqn:El; [done|].
  pose proof (seg_end_cons _ _ _ _ _ Hs). destruct Hs as (? & _). split_and!; try lia.
Qed.

(** A page's allocated blocks lie after its headers. *)
Lemma page_block_bounds i p b n :
  H !! i = Some p → (b, n) ∈ page_blocks p → hp_base p + 64 <= b ∧ b + n <= hp_end p ∧ 0 <= n.
Proof.
  intros Hi Hb. destruct (hw_pages _ _ Hwf i p Hi) as [_ _ _ Hs].
  destruct (live_bounds _ _ _ _ _ Hs Hb). unfold hp_end. lia.
Qed.

(** Replacing a page by one at the same address. *)
Lemma base_at_insert i p q j :
  H !! i = Some p → hp_base q = hp_base p → base_at (<[i := q]> H) j = base_at H j.
Proof.
  intros Hi Hb. unfold base_at. destruct (decide (i = j)) as [<-|].
  - rewrite list_lookup_insert_eq by (by eapply lookup_lt_Some). by rewrite Hi.
  - by rewrite list_lookup_insert_ne.
Qed.

Lemma lookup_insert_page i p q j r :
  H !! i = Some p → <[i := q]> H !! j = Some r → (j = i ∧ r = q) ∨ (j ≠ i ∧ H !! j = Some r).
Proof.
  intros Hi Hj. destruct (decide (i = j)) as [<-|].
  - rewrite list_lookup_insert_eq in Hj by (by eapply lookup_lt_Some). left. split; congruence.
  - rewrite list_lookup_insert_ne in Hj by done. right. split; congruence.
Qed.

(** A page whose bytes are unchanged is still there. *)
Lemma page_at_ext i p m' nx :
  H !! i = Some p → same_on (hp_base p) (hp_end p) (h_mem s) m' →
  page_at (h_mem s) p nx → page_at m' p nx.
Proof.
  intros Hi Hs [P1 P2 P3 P4]. destruct (page_bounds i p Hi) as (_ & R1 & _).
  unfold hp_end in *. split.
  - rewrite <- P1. apply load64_same_on. eapply same_on_weaken; [..|exact Hs]; lia.
  - rewrite <- P2. apply load64_same_on. eapply same_on_weaken; [..|exact Hs]; lia.
  - done.
  - eapply segs_at_ext; [|exact P4]. eapply same_on_weaken; [..|exact Hs]; lia.
Qed.

(** Rewriting the segments of one page, with writes inside the page only. *)
Lemma heap_update i p l' m' a z :
  H !! i = Some p → l' ≠ [] → segs_at m' (hp_base p + 32) l' →
  seg_end (hp_base p + 32) l' = hp_end p → seg_frame (hp_base p) a z (h_mem s) m' →
  hp_base p + 32 <= a → a + 32 + z <= hp_end p → 0 <= z →
  heap_wf (set_h_mem m' s) (<[i := mk_hpage (hp_base p) l']> H).
Proof.
  intros Hi Hn Hl He Hf Ha Hz Hz0. pose proof (page_bounds i p Hi) as (Hb0 & Hb1 & Hb2 & Hb3).
  set (q := mk_hpage (hp_base p) l'). assert (hp_end q = hp_end p) as Eq by done.
  assert (∀ j, base_at (<[i := q]> H) j = base_at H j) as Hbase by (intros; by eapply base_at_insert).
  assert (∀ j r, <[i := q]> H !! j = Some r → (j = i ∧ r = q) ∨ (j ≠ i ∧ H !! j = Some r)) as Hlk
    by (intros; by eapply lookup_insert_page).
  pose proof (hw_frames _ _ Hwf) as Hfr.
  assert (same_on (frames (h_fr s)) (frames (h_fr s) + available_frames (h_fr s)) (h_mem s) m') as Hbm
    by (eapply seg_frame_same_on; [exact Hf|lia..]).
  split.
  - by apply frames_wf_set_mem.
  - apply (hw_top _ _ Hwf).
  - simpl. rewrite Hbase. apply (hw_head _ _ Hwf).
  - intros j r Hj. rewrite Hbase. destruct (Hlk j r Hj) as [[-> ->]|[Hne Hr]].
    + destruct (hw_pages _ _ Hwf i p Hi) as [P1 P2 _ _]. split; simpl; try done.
      * rewrite <- P1. apply load64_same_on. eapply seg_frame_same_on; [exact Hf|lia..].
      * rewrite <- P2. apply load64_same_on. eapply seg_frame_same_on; [exact Hf|lia..].
    + eapply page_at_ext; [exact Hr| |by apply (hw_pages _ _ Hwf)].
      destruct (page_bounds j r Hr) as (_ & R1 & _).
      destruct (hw_apart _ _ Hwf i j p r); try done; eapply seg_frame_same_on; try exact Hf; lia.
  - intros j r Hj.
    assert (∃ r0, H !! j = Some r0 ∧ hp_base r0 = hp_base r ∧ hp_end r0 = hp_end r) as (r0 & Hr0 & B & E).
    { destruct (Hlk j r Hj) as [[-> ->]|[Hne Hr]]; [exists p|exists r]; done. }
    destruct (hw_owned _ _ Hwf j r0 Hr0) as (n & c & [O1 O2 O3 O4]). exists n, c.
    split; rewrite <- ?E, <- ?B; try done.
    intros k Hk. simpl. rewrite used_set_mem by (done || lia). by apply O4.
  - intros j k r t Hjk Hj Hk.
    destruct (Hlk j r Hj) as [[-> ->]|[? Hr]], (Hlk k t Hk) as [[-> ->]|[? Ht]]; try done.
    + rewrite Eq. by apply (hw_apart _ _ Hwf i k p t).
    + rewrite Eq. by apply (hw_apart _ _ Hwf j i r p).
    + by apply (hw_apart _ _ Hwf j k r t).
Qed.

End Pages.

(** ** Blocks *)

Lemma blocks_insert H i p q x :
  H !! i = Some p → page_blocks q ≡ₚ x :: page_blocks p →
  blocks (<[i := q]> H) ≡ₚ x :: blocks H.
Proof.
  revert i; induction H as [|r H IH]; intros [|i] Hi Hp; simplify_eq/=.
  - by rewrite Hp.
  - unfold blocks in IH. rewrite (IH i) by done. symmetry. apply Permutation_middle.
Qed.

Lemma elem_of_blocks H b n :
  (b, n) ∈ blocks H ↔ ∃ i p, H !! i = Some p ∧ (b, n) ∈ page_blocks p.
Proof.
  unfold blocks. rewrite list_elem_of_bind. split.
  - intros (p & Hb & [i Hi]%list_elem_of_lookup). eauto.
  - intros (i & p & Hi & Hb). exists p. split; [done|]. by eapply list_elem_of_lookup_2.
Qed.

(** Writes to the header area of page [i] and to a range of it that no live
    block of the page meets keep every live block. *)
Lemma seg_frame_keeps s H i p a z m' :
  heap_wf s H → H !! i = Some p → seg_frame (hp_base p) a z (h_mem s) m' →
  hp_base p + 32 <= a → a + 32 + z <= hp_end p → 0 <= z →
  (∀ b n, (b, n) ∈ page_blocks p → b + n <= a ∨ a + 32 + z <= b) →
  keeps (blocks H) (h_mem s) m'.
Proof.
  intros Hwf Hi Hf Ha Hz Hz0 Hsep b n (j & r & Hj & Hb)%elem_of_blocks.
  destruct (page_block_bounds s H Hwf j r b n Hj Hb) as (B1 & B2 & B3).
  eapply seg_frame_same_on; [exact Hf|..].
  - destruct (decide (i = j)) as [<-|Hne]; [simplify_eq; lia|].
    destruct (hw_apart _ _ Hwf i j p r Hne Hi Hj); lia.
  - destruct (decide (i = j)) as [<-|Hne]; [simplify_eq; by apply Hsep|].
    destruct (hw_apart _ _ Hwf i j p r Hne Hi Hj); lia.
Qed.

Lemma keeps_trans l m1 m2 m3 : keeps l m1 m2 → keeps l m2 m3 → keeps l m1 m3.
Proof. intros H1 H2 b n Hb. eapply same_on_trans; [by apply H1|by apply H2]. Qed.

(** ** create_heap_page *)

(** Frames of a page made for a request, and the room of its first segment. *)
Definition page_frames (size : Z) : Z :=
  if size + 64 <=? 4096 then 1 else (size + 64 + 4095) `div` 4096.
Definition page_room (size : Z) : Z := if size + 64 <=? 4096 then 4032 else size.

Lemma page_room_frames size :
  0 <= size → size <= page_room size ∧ 0 <= page_room size ∧ 1 <= page_frames size ∧
  64 + page_room size <= page_frames size * 4096.
Proof. unfold page_room, page_frames. case_cond; dlia. Qed.

(** The writes of [create_heap_page] set up one free segment of [room] bytes. *)
Lemma page_init_spec m b room :
  0 < b → 0 <= room → room + 64 <= 4294967296 → b + 64 + room < 18446744073709551616 →
  let m' := store64 (page_segments_init
              (store32 (store64 m b (b ⊕ 32)) (b ⊕ 16) (u32 (room + 64 - 32))) b) (b ⊕ 24) 0 in
  page_at m' (mk_hpage b [(room, true)]) 0 ∧ ∀ i, ¬ (b <= i < b + 64) → m' i = m i.
Proof.
  intros Hb Hr Hr32 Ht. unfold page_segments_init, heap_segment_size.
  nowrap. simpl_mem. nowrap. simpl_mem. nowrap. simpl_mem.
  split; [|intros i Hi; frame_store].
  split; simpl; simpl_mem; try done. split; [done|]. split; [|done].
  split; simpl_mem; done || lia.
Qed.

Lemma create_heap_page_from f size n f1 :
  frames_wf f → 0 <= size → takes f n (page_frames size) f1 →
  allocs f (page_frames size) = (pool_frame f n, f1) →
  base_addr f + available_frames f * 4096 < 18446744073709551616 →
  let q := mk_hpage (pool_frame f n) [(page_room size, true)] in
  ∃ m', create_heap_page f size = Ret (hp_base q, set_mem m' f1) ∧ page_at m' q 0 ∧
    ∀ i, ¬ (hp_base q <= i < hp_base q + 64) → m' i = k_mem f1 i.
Proof.
  intros Hwf Hs Htk Ea Htop q. wf_destruct Hwf. destruct (tk_range _ _ _ _ Htk) as [Hn0 Hn1].
  destruct (page_room_frames size Hs) as (P1 & P2 & P3 & P4).
  assert (0 < hp_base q ∧ hp_base q + page_frames size * 4096 < 18446744073709551616 ∧
    page_frames size <= 1048576) as (B1 & B2 & B3) by (unfold q, pool_frame; simpl; lia).
  assert (size + 64 <= 4294967296) as Hsz by (unfold page_frames in *; case_cond_in B3; dlia).
  unfold create_heap_page, heap_page_size, heap_segment_size, FRAME_SIZE, ROUND_UP.
  rewrite (u64_id (size + 32)), (u64_id (size + 32 + 32)), (u64_id (32 + 32 + size)) by lia.
  replace (size + 32 + 32) with (size + 64) by lia.
  replace (if size + 64 <=? 4096 then 4096 else 32 + 32 + size) with (page_room size + 64)
    by (unfold page_room; case_cond; lia).
  replace (if size + 64 <=? 4096 then 1 else _) with (page_frames size).
  2: { unfold page_frames, page_room in *. case_cond; [done|].
       rewrite (u64_id (size + 64 + (4096 - 1))) by lia. rewrite u32_id by dlia. done. }
  rewrite Ea. change (pool_frame f n) with (hp_base q). cond_false.
  destruct (page_init_spec (k_mem f1) (hp_base q) (page_room size)) as [Hat Hout]; [done|done|..].
  { unfold page_room in *. case_cond; lia. }
  { lia. }
  eexists. split; [done|]. split; [exact Hat|exact Hout].
Qed.

Lemma create_heap_page_spec f size :
  frames_wf f → fresh_tail f → 0 <= size →
  latest_frame f + page_frames size <= available_frames f →
  base_addr f + available_frames f * 4096 < 18446744073709551616 →
  let q := mk_hpage (pool_frame f (latest_frame f)) [(page_room size, true)] in
  ∃ f1 m', create_heap_page f size = Ret (hp_base q, set_mem m' f1) ∧
    takes f (latest_frame f) (page_frames size) f1 ∧ frames_wf f1 ∧
    latest_frame f1 = latest_frame f + 1 ∧ page_at m' q 0 ∧
    ∀ i, ¬ (hp_base q <= i < hp_base q + 64) → m' i = k_mem f1 i.
Proof.
  intros Hwf Hfresh Hs Hr Htop q. destruct (page_room_frames size Hs) as (_ & _ & P3 & _).
  destruct (allocs_fresh f (page_frames size) Hwf Hfresh P3 Hr) as (f1 & Ea & Htk & Hwf1 & Hl).
  destruct (create_heap_page_from f size _ f1 Hwf Hs Htk Ea Htop) as (m' & ? & ? & ?).
  by exists f1, m'.
Qed.

(** ** Adding a page *)

Section Extend.
Context (s : heap_state) (H : list hpage) (Hwf : heap_wf s H).
Context (n c : Z) (f1 : frame_state) (Hc : 1 <= c).
Context (Htk : takes (h_fr s) n c f1) (Hwf1 : frames_wf f1).
Context (Hfree : ∀ k, n <= k < n + c → used (h_fr s) k = false).
Context (q : hpage) (Hbase : hp_base q = pool_frame (h_fr s) n).
Context (Hend : hp_end q <= hp_base q + c * 4096) (Hq64 : hp_base q + 64 <= hp_end q).

(** The taken frames hold no page. *)
Lemma taken_off i p :
  H !! i = Some p → hp_end p <= hp_base q ∨ hp_base q + c * 4096 <= hp_base p.
Proof.
  intros Hi. destruct (hw_owned _ _ Hwf i p Hi) as (k & d & [O1 O2 O3 O4]).
  rewrite Hbase. unfold pool_frame in *.
  destruct (decide (k + d <= n)); [left; lia|]. destruct (decide (n + c <= k)); [right; lia|].
  assert (used (h_fr s) (Z.max n k) = true) as Hu by (apply O4; lia).
  by rewrite Hfree in Hu by lia.
Qed.

Lemma taken_same i p : H !! i = Some p → same_on (hp_base p) (hp_end p) (h_mem s) (k_mem f1).
Proof.
  intros Hi. destruct (page_bounds s H Hwf i p Hi) as (_ & _ & _ & Hb).
  destruct (taken_off i p Hi); eapply (takes_same_on (h_fr s) n c);
    try done; unfold apart; rewrite <- ?Hbase; lia.
Qed.

Lemma lookup_snoc_page i p :
  (H ++ [q]) !! i = Some p → H !! i = Some p ∨ (i = length H ∧ p = q).
Proof.
  intros Hi. apply lookup_app_Some in Hi as [Hi|[Hl Hi]]; [by left|right].
  destruct (i - length H)%nat eqn:E; [|done]. simpl in Hi. split; [lia|congruence].
Qed.

Lemma heap_extend m2 :
  page_at m2 q 0 →
  (∀ i p, H !! i = Some p → page_at m2 p (base_at (H ++ [q]) (S i))) →
  same_on (frames f1) (frames f1 + available_frames f1) (k_mem f1) m2 →
  heap_wf (mk_heap (set_mem m2 f1) (base_at (H ++ [q]) 0)) (H ++ [q]).
Proof.
  intros Hq Hold Hbm. destruct (tk_pool _ _ _ _ Htk) as (Ef & Ea & Eb & _).
  destruct (tk_range _ _ _ _ Htk) as [Hn0 Hn1]. split; simpl.
  - by apply frames_wf_set_mem.
  - rewrite Ea, Eb. apply (hw_top _ _ Hwf).
  - done.
  - intros i p [Hi|[-> ->]]%lookup_snoc_page; [by apply Hold|].
    unfold base_at. rewrite (lookup_ge_None_2 (H ++ [q]) (S (length H)))
      by (rewrite length_app; simpl; lia). done.
  - intros i p [Hi|[-> ->]]%lookup_snoc_page.
    + destruct (hw_owned _ _ Hwf i p Hi) as (k & d & [O1 O2 O3 O4]). exists k, d.
      split; simpl; rewrite ?Ea; try done; [unfold pool_frame in *; simpl; by rewrite Eb|].
      intros j Hj. rewrite used_set_mem by (done || lia).
      rewrite (tk_used _ _ _ _ Htk), O4 by lia. done.
    + exists n, c. split; simpl; rewrite ?Ea; try done; [unfold pool_frame in *; simpl; by rewrite Eb|].
      intros j Hj. rewrite used_set_mem by (done || lia).
      rewrite (tk_used _ _ _ _ Htk) by lia. apply orb_true_iff. right. apply andb_true_iff. lia.
  - intros i j p r Hij [Hi|[-> ->]]%lookup_snoc_page [Hj|[-> ->]]%lookup_snoc_page; try done.
    + by apply (hw_apart _ _ Hwf i j).
    + destruct (taken_off i p Hi); lia.
    + destruct (taken_off j r Hj); lia.
Qed.

(** The pages before the new one, when the last of them is linked to it. *)
Lemma link_old m' i p :
  (∀ a, ¬ (hp_base q <= a < hp_base q + 64) → m' a = k_mem f1 a) → is_u64 (hp_base q) →
  (S i < length H)%nat → H !! i = Some p →
  page_at (store64 m' (base_at H (length H - 1) + 24) (hp_base q)) p (base_at (H ++ [q]) (S i)).
Proof.
  intros Hm Hu Hl Hi. eapply page_at_ext; [exact Hwf|exact Hi| |].
  - destruct (H !! (length H - 1)%nat) as [t|] eqn:Et;
      [|apply lookup_ge_None in Et; lia]. unfold base_at. rewrite Et. simpl.
    destruct (page_bounds s H Hwf _ t Et) as (_ & T1 & _).
    destruct (page_bounds s H Hwf i p Hi) as (_ & P1 & _).
    intros a Ha. unfold store64. rewrite store_out.
    + rewrite Hm; [by apply (taken_same i p)|]. destruct (taken_off i p Hi); lia.
    + destruct (hw_apart _ _ Hwf i (length H - 1) p t); try done; simpl; lia.
  - unfold base_at. rewrite lookup_app_l by lia. by apply (hw_pages _ _ Hwf).
Qed.

Lemma link_last m' p :
  (∀ a, ¬ (hp_base q <= a < hp_base q + 64) → m' a = k_mem f1 a) → is_u64 (hp_base q) →
  H !! (length H - 1)%nat = Some p →
  page_at (store64 m' (base_at H (length H - 1) + 24) (hp_base q)) p (hp_base q).
Proof.
  intros Hm Hu Hi. unfold base_at. rewrite Hi. simpl.
  destruct (page_bounds s H Hwf _ p Hi) as (P0 & P1 & _).
  assert (same_on (hp_base p) (hp_end p) (h_mem s) m') as Hs.
  { intros a Ha. rewrite Hm; [by apply (taken_same _ p Hi)|]. destruct (taken_off _ p Hi); lia. }
  destruct (page_at_ext s H Hwf _ p m' _ Hi Hs (hw_pages _ _ Hwf _ p Hi)) as [A1 A2 A3 A4].
  split; simpl_mem; try done. eapply segs_at_ext; [|exact A4].
  intros a Ha. frame_store.
Qed.

End Extend.

(** ** kmalloc *)

#[local] Opaque alloc_segment create_heap_page free_segment.

(** Page [j] has the first segment that fits, or none has one. *)
Definition fits (size : Z) (H : list hpage) (j : nat) (p : hpage) (off z : Z) (l' : list (Z * bool)) : Prop :=
  H !! j = Some p ∧ take size (hp_segs p) = Some (off, z, l').
Definition full (size : Z) (H : list hpage) : Prop :=
  ∀ p, p ∈ H → take size (hp_segs p) = None.

#[global] Instance full_dec size H : Decision (full size H).
Proof. refine (cast_if (decide (Forall (λ p, take size (hp_segs p) = None) H)));
  unfold full; by rewrite Forall_forall in *. Defined.

Lemma find_segment_spec fuel s H size i :
  heap_wf s H → (i < length H)%nat →
  (∀ p, p ∈ H → (length (hp_segs p) + (length H - i) + 1 <= fuel)%nat) →
  (∃ j p off z l', fits size H j p off z l' ∧
     find_segment fuel (h_mem s) (base_at H i) size = Ret (hp_base p, hp_base p + 32 + off)) ∨
  ((∀ j p, (i <= j)%nat → H !! j = Some p → take size (hp_segs p) = None) ∧
   find_segment fuel (h_mem s) (base_at H i) size = Ret (base_at H (length H - 1), 0)).
Proof.
  intros Hwf. revert i; induction fuel as [|fuel IH]; intros i Hi Hfuel.
  all: destruct (H !! i) as [p|] eqn:Ep; [|apply lookup_ge_None in Ep; lia].
  all: pose proof (Hfuel p ltac:(by eapply list_elem_of_lookup_2)) as Hfp; try lia.
  destruct (page_bounds s H Hwf i p Ep) as (B0 & B1 & B2 & _).
  destruct (hw_pages _ _ Hwf i p Ep) as [P1 P2 P3 P4].
  assert (base_at H i = hp_base p) as Eb by (unfold base_at; by rewrite Ep).
  unfold hp_end in *. simpl. rewrite Eb. nowrap. rewrite P1, P2.
  pose proof (first_fit_take fuel _ _ size _ P4) as Hff.
  replace (seg_ptr (hp_base p + 32) (hp_segs p)) with (hp_base p + 32) in Hff by (by destruct (hp_segs p)).
  rewrite Hff by lia. simpl.
  destruct (take size (hp_segs p)) as [[[off z] l']|] eqn:Et.
  - destruct (take_bounds _ _ _ _ _ _ _ P4 Et) as (? & _).
    replace (hp_base p + 32 + off =? 0) with false by lia. simpl.
    left. exists i, p, off, z, l'. done.
  - simpl. destruct (decide (S i = length H)) as [El|El].
    + unfold base_at at 1 2 3. rewrite (lookup_ge_None_2 H (S i)) by lia. simpl. right. split.
      * intros j r Hj Hr. pose proof (lookup_lt_Some _ _ _ Hr). assert (j = i) as -> by lia. congruence.
      * replace (length H - 1)%nat with i by lia. by rewrite Eb.
    + assert (S i < length H)%nat as Hlt by lia.
      destruct (H !! S i) as [r|] eqn:Er; [|apply lookup_ge_None in Er; lia].
      destruct (page_bounds s H Hwf (S i) r Er) as (R0 & _).
      assert (base_at H (S i) = hp_base r) as Ebr by (unfold base_at; by rewrite Er).
      replace (base_at H (S i) =? 0) with false by lia.
      destruct (IH (S i) Hlt) as [Hl|[Hr Hres]]; [|by left|].
      * intros p' Hp'. specialize (Hfuel p' Hp'). lia.
      * right. split; [|done]. intros j r' Hj Hr'. destruct (decide (i = j)) as [<-|]; [congruence|].
        apply (Hr j); [lia|done].
Qed.

Lemma heap_weight_elem H p : p ∈ H → (length (hp_segs p) + length H <= heap_weight H)%nat.
Proof.
  induction H as [|r H IH]; [by intros ?%elem_of_nil|].
  assert (length H <= heap_weight H)%nat by (clear; induction H; simpl; lia).
  intros [->|Hp]%elem_of_cons; simpl; [lia|]. specialize (IH Hp). lia.
Qed.

Lemma heap_weight_snoc H q : heap_weight (H ++ [q]) = (heap_weight H + 1 + length (hp_segs q))%nat.
Proof.
  induction H as [|r H IH]; simpl in *; lia.
Qed.

(** The result of a successful request for [size] bytes: a new block [b] of at
    least that size, apart from every other block, whose bytes are unchanged; a
    one-frame request keeps the frames from the cursor on free. *)
(** The frame holds nothing of the page. *)
Definition off_frame (f : frame_state) (n : Z) (p : hpage) : Prop :=
  hp_end p <= pool_frame f n ∨ pool_frame f n + 4096 <= hp_base p.

(** The byte is neither in the pool nor in the bitmap. *)
Definition outside (f : frame_state) (a : Z) : Prop :=
  ¬ (base_addr f <= a < base_addr f + available_frames f * 4096) ∧
  ¬ (frames f <= a < frames f + available_frames f).

(** The frames in use outside the heap: they stay in use, keep their contents, and
    the heap stays off them. *)
Record spares (s : heap_state) (H : list hpage) (s' : heap_state) (H' : list hpage) : Prop := {
  sp_pool : same_pool (h_fr s) (h_fr s');
  sp_used : ∀ n, 0 <= n < available_frames (h_fr s) → used (h_fr s) n = true → used (h_fr s') n = true;
  sp_off : ∀ n, 0 <= n < available_frames (h_fr s) → used (h_fr s) n = true →
    (∀ p, p ∈ H → off_frame (h_fr s) n p) →
    (∀ p, p ∈ H' → off_frame (h_fr s) n p) ∧
    same_on (pool_frame (h_fr s) n) (pool_frame (h_fr s) n + 4096) (h_mem s) (h_mem s');
}.

Lemma spares_trans s1 H1 s2 H2 s3 H3 :
  spares s1 H1 s2 H2 → spares s2 H2 s3 H3 → spares s1 H1 s3 H3.
Proof.
  intros [P1 U1 O1] [P2 U2 O2]. pose proof P1 as (_ & Ea & Eb & _).
  assert (∀ n, pool_frame (h_fr s2) n = pool_frame (h_fr s1) n) as Ep by (intros; unfold pool_frame; by rewrite Eb).
  rewrite Ea in *. split.
  - by eapply same_pool_trans.
  - intros n Hn Hu. apply U2; [done|]. by apply U1.
  - intros n Hn Hu Hoff. destruct (O1 n Hn Hu Hoff) as [Ho1 Hm1].
    destruct (O2 n Hn (U1 n Hn Hu)) as [Ho2 Hm2]; [intros p Hp; unfold off_frame; rewrite Ep; by apply Ho1|].
    rewrite Ep in Hm2. split; [|by eapply same_on_trans].
    intros p Hp. specialize (Ho2 p Hp). unfold off_frame in Ho2. by rewrite Ep in Ho2.
Qed.

Record allocated (s : heap_state) (H : list hpage) (size b : Z) (s' : heap_state) (H' : list hpage) : Prop := {
  al_wf : heap_wf s' H';
  al_nonnull : b ≠ 0;
  al_block : ∃ n, size <= n ∧ blocks H' ≡ₚ (b, n) :: blocks H ∧
    ∀ b' n', (b', n') ∈ blocks H → b + n <= b' ∨ b' + n' <= b;
  al_keeps : keeps (blocks H) (h_mem s) (h_mem s');
  al_fresh : size <= 4032 → fresh_tail (h_fr s) → fresh_tail (h_fr s');
  al_spares : spares s H s' H';
  al_latest : latest_frame (h_fr s') <= latest_frame (h_fr s) + 1;
  al_outside : ∀ a, outside (h_fr s) a → h_mem s' a = h_mem s a;
}.

(** Allocating in the page that has a fitting segment. *)
Lemma alloc_fits s H size j p off z l' :
  heap_wf s H → 0 <= size → fits size H j p off z l' →
  let '(b, m') := alloc_segment (h_mem s) (hp_base p) (hp_base p + 32 + off) size in
  b = hp_base p + 32 + off + 32 ∧
  allocated s H size b (set_h_mem m' s) (<[j := mk_hpage (hp_base p) l']> H) ∧
  ∀ k, 0 <= k < available_frames (h_fr s) → used (h_fr (set_h_mem m' s)) k = used (h_fr s) k.
Proof.
  intros Hwf Hs [Hj Ht]. destruct (page_bounds s H Hwf j p Hj) as (B0 & B1 & B2 & _).
  destruct (hw_pages _ _ Hwf j p Hj) as [_ _ P3 P4].
  destruct (take_bounds _ _ _ _ _ _ _ P4 Ht) as (T1 & T2 & T3 & T4 & T5). fold (hp_end p) in T2, T4.
  pose proof (alloc_segment_take (h_mem s) (hp_base p) (hp_base p + 32) size (hp_segs p) off z l' P4 Ht Hs) as Ha.
  destruct (alloc_segment _ _ _ _) as [b m']. destruct Ha as (-> & Hl & Hf); [lia|lia|done|].
  assert (∀ b n, (b, n) ∈ page_blocks p →
    b + n <= hp_base p + 32 + off ∨ hp_base p + 32 + off + 32 + z <= b) as Hsep
    by (intros b n Hb; exact (take_apart _ _ _ _ _ _ _ b n P4 Ht Hb)).
  assert (∀ k, 0 <= k < available_frames (h_fr s) →
    used (h_fr (set_h_mem m' s)) k = used (h_fr s) k) as Hmarks.
  { intros k Hk. destruct (page_bounds s H Hwf j p Hj) as (_ & _ & _ & Hbm).
    apply used_set_mem; [apply Hwf|done|]. eapply seg_frame_same_on; [exact Hf|lia..]. }
  split; [done|]. split; [|done]. split.
  - eapply (heap_update s H Hwf); try done; lia.
  - lia.
  - exists (if size + 32 <? z then size else z). split; [case_cond; lia|]. split.
    + eapply blocks_insert; [done|]. by apply take_live.
    + intros b' n' (i & r & Hi & Hb)%elem_of_blocks.
      assert (b' + n' <= hp_base p + 32 + off ∨ hp_base p + 32 + off + 32 + z <= b'); [|case_cond; lia].
      destruct (decide (i = j)) as [->|Hne]; [apply Hsep; congruence|].
      destruct (page_block_bounds s H Hwf i r b' n' Hi Hb) as (? & ? & _).
      destruct (hw_apart _ _ Hwf i j r p Hne Hi Hj); lia.
  - eapply seg_frame_keeps; try done; lia.
  - intros _ Hft k Hk. pose proof (hw_frames _ _ Hwf) as Hfr. wf_destruct Hfr.
    simpl in Hk. rewrite Hmarks by lia. by apply Hft.
  - split; [done|intros n Hn Hu; by rewrite Hmarks|]. intros n Hn Hu Hoff.
    pose proof (Hoff p (list_elem_of_lookup_2 _ _ _ Hj)) as Hp. split.
    + intros r [i [(_ & <- & _)|[_ Hr]]%list_lookup_insert_Some]%list_elem_of_lookup.
      * unfold off_frame, hp_end in *. simpl. by rewrite T4.
      * apply Hoff. by eapply list_elem_of_lookup_2.
    + unfold off_frame in Hp. eapply seg_frame_same_on; [exact Hf|lia..].
  - simpl. lia.
  - intros a [Ha _]. destruct (hw_owned _ _ Hwf j p Hj) as (k & c & [O1 O2 O3 _]). unfold pool_frame in O2. apply Hf; lia.
Qed.

Lemma not_full_length size H : ¬ full size H → (0 < length H)%nat.
Proof. intros Hn. destruct H; simpl; [|lia]. destruct Hn. by intros p ?%elem_of_nil. Qed.

Lemma kmalloc_hit fuel s H size :
  heap_wf s H → 0 <= size → ¬ full size H → (heap_weight H + 2 <= fuel)%nat →
  ∃ j p off z l' m' b, fits size H j p off z l' ∧ b = hp_base p + 32 + off + 32 ∧
    kmalloc fuel s size = Ret (b, set_h_mem m' s) ∧
    allocated s H size b (set_h_mem m' s) (<[j := mk_hpage (hp_base p) l']> H) ∧
    ∀ k, 0 <= k < available_frames (h_fr s) → used (h_fr (set_h_mem m' s)) k = used (h_fr s) k.
Proof.
  intros Hwf Hs Hnf Hfuel. pose proof (not_full_length _ _ Hnf) as Hlen.
  destruct fuel as [|fuel]; [lia|]. simpl.
  destruct (H !! 0%nat) as [p0|] eqn:E0; [|apply lookup_ge_None in E0; lia].
  destruct (page_bounds s H Hwf 0 p0 E0) as (B0 & _).
  rewrite (hw_head _ _ Hwf). assert (base_at H 0 = hp_base p0) as Eb by (unfold base_at; by rewrite E0).
  rewrite Eb. cond_false. simpl. rewrite (hw_head _ _ Hwf).
  destruct (find_segment_spec fuel s H size 0 Hwf Hlen) as [(j & p & off & z & l' & Hfit & ->)|[Hnone _]].
  - intros p Hp. pose proof (heap_weight_elem H p Hp). lia.
  - simpl. pose proof (alloc_fits s H size j p off z l' Hwf Hs Hfit) as Ha.
    destruct (page_bounds s H Hwf j p (proj1 Hfit)) as (P0 & _).
    destruct (take_bounds _ _ _ _ _ _ _ (pa_segs _ _ _ (hw_pages _ _ Hwf j p (proj1 Hfit))) (proj2 Hfit)) as (? & _).
    replace (hp_base p + 32 + off =? 0) with false by lia. simpl.
    destruct (alloc_segment _ _ _ _) as [b m']. destruct Ha as (Hb & Ha & Hm). by exists j, p, off, z, l', m', b.
  - destruct Hnf. intros p [j Hj]%list_elem_of_lookup. apply (Hnone j); [lia|done].
Qed.

(** The heap with the new page, linked from the last one. *)
Definition grown (s : heap_state) (H : list hpage) (base : Z) (m' : mem) (f1 : frame_state) : heap_state :=
  if decide (H = []) then mk_heap (set_mem m' f1) base
  else mk_heap (set_mem (store64 m' (base_at H (length H - 1) + 24) base) f1) (heap s).

Lemma last_page (H : list hpage) : H ≠ [] → ∃ t, H !! (length H - 1)%nat = Some t.
Proof. intros Hn. apply lookup_lt_is_Some_2. destruct H; [done|simpl; lia]. Qed.

Section Grown.
Context (s : heap_state) (H : list hpage) (Hwf : heap_wf s H).
Context (n c : Z) (f1 : frame_state) (Hc : 1 <= c).
Context (Htk : takes (h_fr s) n c f1) (Hwf1 : frames_wf f1).
Context (Hfree : ∀ k, n <= k < n + c → used (h_fr s) k = false).
Context (q : hpage) (Hbase : hp_base q = pool_frame (h_fr s) n).
Context (Hend : hp_end q <= hp_base q + c * 4096) (Hq64 : hp_base q + 64 <= hp_end q).
Context (m' : mem) (Hat : page_at m' q 0) (Hu : is_u64 (hp_base q)).
Context (Hout : ∀ a, ¬ (hp_base q <= a < hp_base q + 64) → m' a = k_mem f1 a).

Let s1 := grown s H (hp_base q) m' f1.

(** Outside the new page and the link field of the last one nothing changed. *)
Lemma grown_mem a :
  ¬ (hp_base q <= a < hp_base q + 64) →
  (∀ i p, H !! i = Some p → ¬ (hp_base p + 24 <= a < hp_base p + 32)) →
  h_mem s1 a = k_mem f1 a.
Proof.
  intros Ha Hp. unfold s1, grown. case_decide as HE; [by apply Hout|].
  destruct (last_page H HE) as [t Et]. unfold h_mem. simpl. unfold base_at. rewrite Et. simpl. specialize (Hp _ t Et).
  unfold store64. rewrite store_out by (simpl; lia). by apply Hout.
Qed.

Lemma grown_bitmap :
  same_on (frames f1) (frames f1 + available_frames f1) (k_mem f1) (h_mem s1).
Proof.
  destruct (tk_pool _ _ _ _ Htk) as (Ef & Ea & _). destruct (tk_range _ _ _ _ Htk).
  pose proof (hw_frames _ _ Hwf) as Hf. wf_destruct Hf. unfold pool_frame in Hbase.
  intros a Ha. rewrite Ef, Ea in Ha. apply grown_mem; [lia|].
  intros i p Hi. destruct (page_bounds s H Hwf i p Hi) as (? & ? & ? & ?). lia.
Qed.

Lemma grown_used k : 0 <= k < available_frames f1 → used (h_fr s1) k = used f1 k.
Proof.
  intros Hk. pose proof grown_bitmap as Hb. unfold s1, grown in *.
  case_decide; simpl; by apply used_set_mem.
Qed.

Lemma grown_spares : spares s H s1 (H ++ [q]).
Proof.
  pose proof (tk_pool _ _ _ _ Htk) as Hpool. pose proof Hpool as (Ef & Ea & Eb & _).
  destruct (tk_range _ _ _ _ Htk) as [Hn0 Hn1]. pose proof (hw_frames _ _ Hwf) as Hfr. wf_destruct Hfr.
  split.
  - unfold s1, grown. by case_decide.
  - intros k Hk Hk'. rewrite grown_used by lia. rewrite (tk_used _ _ _ _ Htk), Hk' by lia. done.
  - intros k Hk Hu' Hoff. assert (¬ n <= k < n + c) as Hkn by (intros ?; by rewrite Hfree in Hu' by done).
    unfold pool_frame in *. split.
    + intros p [Hp| ->%list_elem_of_singleton]%elem_of_app; [by apply Hoff|]. unfold off_frame, pool_frame. lia.
    + intros a Ha. rewrite grown_mem; [| lia |].
      * symmetry. symmetry. apply (tk_frame _ _ _ _ Htk); unfold pool_frame; lia.
      * intros i p Hi. specialize (Hoff p (list_elem_of_lookup_2 _ _ _ Hi)).
        destruct (page_bounds s H Hwf i p Hi) as (? & ? & _). unfold off_frame, pool_frame in Hoff. lia.
Qed.

Lemma grown_keeps : keeps (blocks H) (k_mem f1) (h_mem s1).
Proof.
  intros b k (i & p & Hi & Hb)%elem_of_blocks a Ha.
  destruct (page_block_bounds s H Hwf i p b k Hi Hb) as (? & ? & _). apply grown_mem.
  - destruct (taken_off s H Hwf n c Hc Hfree q Hbase i p Hi); lia.
  - intros j r Hj. destruct (decide (i = j)) as [<-|Hne]; [simplify_eq; lia|].
    destruct (page_bounds s H Hwf j r Hj) as (? & ? & _).
    destruct (hw_apart _ _ Hwf i j p r Hne Hi Hj); lia.
Qed.

Lemma grown_wf : heap_wf s1 (H ++ [q]).
Proof.
  pose proof grown_bitmap as Hb. unfold s1, grown in *. case_decide as HE.
  - replace (hp_base q) with (base_at (H ++ [q]) 0) at 1 by (by rewrite HE).
    eapply heap_extend; try done. rewrite HE. by intros i p ?.
  - destruct (last_page H HE) as [t Et]. pose proof (lookup_lt_Some _ _ _ Et) as Hlt.
    replace (heap s) with (base_at (H ++ [q]) 0).
    2: { rewrite (hw_head _ _ Hwf). unfold base_at. by rewrite lookup_app_l by lia. }
    eapply heap_extend; try done.
    + unfold base_at. rewrite Et. simpl. destruct (page_bounds s H Hwf _ t Et) as (? & ? & _).
      destruct Hat as [A1 A2 A3 A4]. pose proof (taken_off s H Hwf n c Hc Hfree q Hbase _ t Et).
      split; simpl_mem; try done. eapply segs_at_ext; [|exact A4].
      intros a Ha. frame_store. fold (hp_end q) in Ha. frame_store.
    + intros i p Hi. pose proof (lookup_lt_Some _ _ _ Hi). destruct (decide (S i < length H)%nat).
      * by eapply link_old.
      * assert (i = length H - 1)%nat as -> by lia. unfold base_at at 2.
        rewrite lookup_app_r by lia. replace (S (length H - 1) - length H)%nat with O by lia. simpl.
        by eapply link_last.
Qed.

End Grown.

Lemma grow_wf s H size :
  heap_wf s H → 0 <= size → fresh_tail (h_fr s) →
  latest_frame (h_fr s) + page_frames size <= available_frames (h_fr s) →
  let q := mk_hpage (pool_frame (h_fr s) (latest_frame (h_fr s))) [(page_room size, true)] in
  ∃ m' f1, create_heap_page (h_fr s) size = Ret (hp_base q, set_mem m' f1) ∧
    let s1 := grown s H (hp_base q) m' f1 in
    heap_wf s1 (H ++ [q]) ∧ keeps (blocks H) (h_mem s) (h_mem s1) ∧ 0 < hp_base q ∧
    latest_frame (h_fr s1) = latest_frame (h_fr s) + 1 ∧ same_pool (h_fr s) (h_fr s1) ∧
    (page_frames size = 1 → fresh_tail (h_fr s1)) ∧ spares s H s1 (H ++ [q]) ∧
    ∀ a, outside (h_fr s) a → h_mem s1 a = h_mem s a.
Proof.
  intros Hwf Hs Hfresh Hr q. pose proof (hw_frames _ _ Hwf) as Hf. pose proof (hw_top _ _ Hwf) as Htop.
  destruct (create_heap_page_spec (h_fr s) size Hf Hfresh Hs Hr Htop) as (f1 & m' & Ec & Htk & Hwf1 & Hl & Hat & Hout).
  fold q in Ec, Hat, Hout. exists m', f1. split; [exact Ec|].
  destruct (page_room_frames size Hs) as (R1 & R2 & R3 & R4). wf_destruct Hf.
  set (n := latest_frame (h_fr s)) in *. set (c := page_frames size) in *.
  assert (hp_base q = pool_frame (h_fr s) n) as Eb by done.
  assert (hp_end q = hp_base q + 64 + page_room size) as Ee by (unfold hp_end; simpl; lia).
  clearbody q. unfold pool_frame in Eb.
  assert (∀ k, n <= k < n + c → used (h_fr s) k = false) as Hfree by (intros; apply Hfresh; lia).
  assert (heap_wf (grown s H (hp_base q) m' f1) (H ++ [q]) ∧
          keeps (blocks H) (k_mem f1) (h_mem (grown s H (hp_base q) m' f1))) as [Hg Hk].
  { split; [eapply grown_wf|eapply grown_keeps]; try done; unfold is_u64, pool_frame; lia. }
  split; [done|]. split; [|split; [lia|split; [|split; [|split; [|split]]]]].
  - eapply keeps_trans; [|exact Hk]. intros b k (i & p & Hi & Hb)%elem_of_blocks.
    destruct (page_block_bounds s H Hwf i p b k Hi Hb) as (? & ? & _).
    eapply same_on_weaken; [..|eapply (taken_same s H Hwf n c f1 R3 Htk Hfree q); [exact Eb|exact Hi]]; lia.
  - unfold grown. by case_decide.
  - unfold grown. case_decide; apply Htk.
  - intros E1 k Hk'.
    assert (latest_frame f1 <= k < available_frames f1) as Hr'
      by (unfold grown in Hk'; case_decide; exact Hk').
    assert (used (h_fr (grown s H (hp_base q) m' f1)) k = used f1 k) as ->
      by (eapply (grown_used s H Hwf n c); try done; lia).
    rewrite E1 in Htk. by apply (takes_fresh (h_fr s) n f1).
  - eapply grown_spares; try done; unfold is_u64, pool_frame; lia.
  - intros a [Ha1 Ha2]. destruct (tk_range _ _ _ _ Htk) as [Hn0 Hn1].
    rewrite (grown_mem s H f1 q m' Hout); [apply (tk_frame _ _ _ _ Htk); unfold pool_frame; lia|lia|].
    intros i p Hi. destruct (hw_owned _ _ Hwf i p Hi) as (k & d & [O1 O2 O3 _]). destruct (page_bounds s H Hwf i p Hi).
    unfold pool_frame in O2. lia.
Qed.

Lemma kmalloc_nonnull fuel s size :
  heap s ≠ 0 →
  kmalloc (S fuel) s size =
  ('(page, segment) ← find_segment fuel (h_mem s) (heap s) size;
   if negb (segment =? 0) then
     let '(addr, m) := alloc_segment (h_mem s) page segment size in Ret (addr, set_h_mem m s)
   else
     '(fresh, f) ← create_heap_page (h_fr s) size;
     kmalloc fuel (mk_heap (set_mem (store64 (k_mem f) (page ⊕ 24) fresh) f) (heap s)) size).
Proof. intros Hn. simpl. apply Z.eqb_neq in Hn. by rewrite Hn. Qed.

(** A full heap grows by a page and the request is served from the grown heap. *)
Lemma kmalloc_full fuel s H size m' f1 base :
  heap_wf s H → full size H → (heap_weight H + 3 <= fuel)%nat →
  create_heap_page (h_fr s) size = Ret (base, set_mem m' f1) → base ≠ 0 →
  ∃ fuel', (fuel <= S fuel')%nat ∧ kmalloc fuel s size = kmalloc fuel' (grown s H base m' f1) size.
Proof.
  intros Hwf Hfull Hfuel Hc Hb. destruct fuel as [|fuel]; [lia|]. unfold grown. case_decide as HE.
  - exists (S fuel). split; [lia|]. rewrite (kmalloc_nonnull _ (mk_heap _ base)) by done.
    simpl. rewrite (hw_head _ _ Hwf), HE. simpl. by rewrite Hc.
  - exists fuel. split; [lia|]. destruct (last_page H HE) as [t Et].
    pose proof (lookup_lt_Some _ _ _ Et) as Hlt.
    destruct (H !! 0%nat) as [p0|] eqn:E0; [|apply lookup_ge_None in E0; lia].
    destruct (page_bounds s H Hwf 0 p0 E0) as (B0 & _).
    assert (heap s = base_at H 0) as Eh by apply (hw_head _ _ Hwf).
    assert (base_at H 0 = hp_base p0) as Eb by (unfold base_at; by rewrite E0).
    rewrite kmalloc_nonnull by lia. rewrite Eh.
    destruct (find_segment_spec fuel s H size 0 Hwf) as [(j & p & off & z & l' & [Hj Hfit] & _)|[_ ->]].
    + lia.
    + intros p Hp. pose proof (heap_weight_elem H p Hp). lia.
    + rewrite Hfull in Hfit; [done|]. by eapply list_elem_of_lookup_2.
    + simpl. rewrite Hc. simpl. destruct (page_bounds s H Hwf _ t Et) as (? & ? & ? & _).
      unfold base_at. rewrite Et. simpl. nowrap. done.
Qed.

(** Adding a page made for the request and allocating in it. *)
Lemma kmalloc_grow fuel s H size :
  heap_wf s H → 0 <= size → full size H → fresh_tail (h_fr s) →
  latest_frame (h_fr s) + page_frames size <= available_frames (h_fr s) →
  (heap_weight H + 5 <= fuel)%nat →
  ∃ b s' H', kmalloc fuel s size = Ret (b, s') ∧ allocated s H size b s' H'.
Proof.
  intros Hwf Hs Hfull Hfresh Hr Hfuel.
  destruct (grow_wf s H size Hwf Hs Hfresh Hr) as (m' & f1 & Hc & Hg & Hk & Hb & Hlt & Hpl & Hft & Hsp & Hos).
  set (q := mk_hpage _ _) in *. destruct (page_room_frames size Hs) as (R1 & _).
  destruct (kmalloc_full fuel s H size m' f1 (hp_base q)) as (fuel' & Hf' & ->); [done|done|lia|done|lia|].
  destruct (kmalloc_hit fuel' (grown s H (hp_base q) m' f1) (H ++ [q]) size)
    as (j & p & off & z & l' & m2 & b & _ & _ & -> & Ha & _);
    [done|done| |rewrite heap_weight_snoc; simpl; lia|].
  { intros Hn. specialize (Hn q). simpl in Hn. replace (size <=? page_room size) with true in Hn by lia.
    by discriminate Hn; apply elem_of_app; right; apply list_elem_of_singleton. }
  eexists b, _, _. split; [done|].
  assert (blocks (H ++ [q]) = blocks H) as Eb by (unfold blocks; rewrite bind_app; simpl; by rewrite app_nil_r).
  destruct Ha as [A1 A2 A3 A4 A5 A6 _ A8]. rewrite Eb in A3, A4.
  split; try done; [by eapply keeps_trans| |by eapply spares_trans|exact (Z.eq_le_incl _ _ Hlt)|].
  - intros H1 _. apply A5; [done|]. apply Hft. unfold page_frames. by cond_true.
  - intros a Ha. etransitivity; [apply A8|by apply Hos]. destruct Hpl as (Ef & Ea & Ebs & _).
    unfold outside in *. by rewrite Ef, Ea, Ebs.
Qed.

(** ** kfree *)

(** From the second page on the code compares nothing. *)
Lemma find_block_rest fuel s H addr i :
  heap_wf s H → (length H - i + 1 < fuel)%nat → (i <= length H)%nat →
  find_block fuel (h_mem s) (base_at H i) 0 addr = Ret (0, 0).
Proof.
  intros Hwf. revert i; induction fuel as [|fuel IH]; intros i Hf Hi; [lia|]. simpl.
  destruct (H !! i) as [p|] eqn:Ep.
  - destruct (page_bounds s H Hwf i p Ep) as (B0 & B1 & B2 & _).
    assert (base_at H i = hp_base p) as -> by (unfold base_at; by rewrite Ep).
    pose proof (lookup_lt_Some _ _ _ Ep). cond_false. destruct fuel; [lia|]. simpl segment_of. simpl.
    nowrap. rewrite (pa_next _ _ _ (hw_pages _ _ Hwf i p Ep)). apply IH; lia.
  - unfold base_at. by rewrite Ep.
Qed.

Lemma find_block_spec fuel s p H addr :
  heap_wf s (p :: H) → (heap_weight (p :: H) + 2 < fuel)%nat →
  find_block fuel (h_mem s) (heap s) (load64 (h_mem s) (heap s ⊕ 8)) addr =
  Ret (match release (hp_base p + 32) addr (hp_segs p) with
       | Some (off, _) => (hp_base p, hp_base p + 32 + off)
       | None => (0, 0)
       end).
Proof.
  intros Hwf Hf. destruct (page_bounds s (p :: H) Hwf 0 p eq_refl) as (B0 & B1 & B2 & _).
  destruct (hw_pages _ _ Hwf 0 p eq_refl) as [P1 P2 P3 P4].
  rewrite (hw_head _ _ Hwf). change (base_at (p :: H) 0) with (hp_base p).
  rewrite u64_id, P1 by lia. destruct fuel as [|fuel]; [lia|]. simpl. cond_false.
  pose proof (heap_weight_elem (p :: H) p ltac:(left)) as Hw. simpl in Hw, Hf.
  pose proof (segment_of_release fuel _ _ addr _ P4) as Hso. unfold hp_end in B1, B2.
  replace (seg_ptr (hp_base p + 32) (hp_segs p)) with (hp_base p + 32) in Hso by (by destruct (hp_segs p)).
  rewrite Hso by lia. simpl. clear Hso.
  destruct (release _ addr _) as [[off l']|] eqn:Er.
  - destruct (release_bounds _ _ _ _ _ _ P4 Er) as (? & _). by cond_true.
  - simpl. nowrap. rewrite P2. apply (find_block_rest fuel s (p :: H) addr 1 Hwf); simpl; lia.
Qed.

Lemma kmalloc_spec fuel s H size :
  heap_wf s H → 0 <= size →
  (¬ full size H) ∨ (fresh_tail (h_fr s) ∧
     latest_frame (h_fr s) + page_frames size <= available_frames (h_fr s)) →
  (heap_weight H + 5 <= fuel)%nat →
  ∃ b s' H', kmalloc fuel s size = Ret (b, s') ∧ allocated s H size b s' H'.
Proof.
  intros Hwf Hs Hor Hf. destruct (decide (full size H)) as [Hfull|Hn].
  - destruct Hor as [?|[Hft Hr]]; [done|]. by apply kmalloc_grow.
  - destruct (kmalloc_hit fuel s H size) as (j & p & off & z & l' & m' & b & _ & _ & ? & ? & _);
      [done|done|done|lia|]. eauto.
Qed.

(** What freeing the block at [addr] in the first page [p] leaves: only bytes of the
    page change. *)
Record released (s : heap_state) (p : hpage) (H : list hpage) (addr n : Z) (s' : heap_state) (p' : hpage) : Prop := {
  rl_wf : heap_wf s' (p' :: H);
  rl_blocks : blocks (p :: H) ≡ₚ (addr, n) :: blocks (p' :: H);
  rl_keeps : keeps (blocks (p :: H)) (h_mem s) (h_mem s');
  rl_page : hp_base p' = hp_base p ∧ hp_end p' = hp_end p;
  rl_mem : ∃ m, s' = set_h_mem m s ∧ same_on (frames (h_fr s)) (frames (h_fr s) + available_frames (h_fr s)) (h_mem s) m ∧
    ∀ a, ¬ (hp_base p <= a < hp_end p) → m a = h_mem s a;
}.

Lemma kfree_first fuel s p H addr n :
  heap_wf s (p :: H) → (addr, n) ∈ page_blocks p → (heap_weight (p :: H) + 2 < fuel)%nat →
  ∃ s' p', kfree fuel s addr = Ret (true, s') ∧ released s p H addr n s' p'.
Proof.
  intros Hwf Hb Hf. destruct (page_bounds s (p :: H) Hwf 0 p eq_refl) as (B0 & B1 & B2 & B3).
  destruct (hw_pages _ _ Hwf 0 p eq_refl) as [P1 P2 P3 P4].
  destruct (release_live _ _ _ _ _ P4 Hb) as (off & l' & Er & Hlive).
  destruct (release_bounds _ _ _ _ _ _ P4 Er) as (R1 & R2 & R3 & R4 & R5).
  fold (hp_end p) in R3, R4.
  destruct (free_segment_release _ (hp_base p) _ _ _ _ _ P4 Er) as [Hl Hfr]; [lia|lia|done|].
  unfold kfree. rewrite (find_block_spec fuel s p H addr Hwf Hf), Er. simpl. cond_false.
  eexists _, (mk_hpage (hp_base p) l'). split; [done|]. split; [| | |done|].
  - apply (heap_update s (p :: H) Hwf 0 p l' _ (hp_base p + 32 + off) 0); try done; lia.
  - unfold blocks. simpl. change (page_blocks (mk_hpage (hp_base p) l')) with (live (hp_base p + 32) l').
    unfold page_blocks at 1. by rewrite Hlive.
  - eapply (seg_frame_keeps s (p :: H) 0 p (hp_base p + 32 + off) 0); try done; [lia..|].
    intros b k Hk. rewrite Z.add_0_r. exact (release_apart _ _ _ _ _ _ b k P4 Er Hk).
  - eexists. split; [done|]. split; [eapply seg_frame_same_on; [exact Hfr|lia..]|].
    intros a Ha. apply Hfr; lia.
Qed.

(** The null pointer is no block. *)
Lemma kfree_null fuel s H :
  heap_wf s H → (heap_weight H + 2 < fuel)%nat → kfree fuel s 0 = Ret (false, s).
Proof.
  intros Hwf Hf. destruct H as [|p H].
  - unfold kfree. rewrite (hw_head _ _ Hwf). destruct fuel as [|fuel]; [simpl in Hf; lia|]. reflexivity.
  - unfold kfree. rewrite (find_block_spec fuel s p H 0 Hwf Hf).
    destruct (page_bounds s (p :: H) Hwf 0 p eq_refl) as (B0 & _).
    destruct (hw_pages _ _ Hwf 0 p eq_refl) as [_ _ _ P4].
    destruct (release _ 0 _) as [[off l']|] eqn:Er; [|done].
    destruct (release_bounds _ _ _ _ _ _ P4 Er) as (R1 & R2 & _). lia.
Qed.

Lemma kfree_rest fuel s p H addr n :
  heap_wf s (p :: H) → (addr, n) ∈ blocks H → (heap_weight (p :: H) + 2 < fuel)%nat →
  kfree fuel s addr = Ret (false, s).
Proof.
  intros Hwf (i & r & Hi & Hb)%elem_of_blocks Hf.
  destruct (page_block_bounds s (p :: H) Hwf (S i) r addr n Hi Hb) as (Q1 & Q2 & Q3).
  destruct (hw_pages _ _ Hwf 0 p eq_refl) as [_ _ _ P4].
  unfold kfree. rewrite (find_block_spec fuel s p H addr Hwf Hf).
  destruct (release _ addr _) as [[off l']|] eqn:Er; [|done].
  destruct (release_bounds _ _ _ _ _ _ P4 Er) as (R1 & R2 & R3 & _). fold (hp_end p) in R3.
  destruct (hw_apart _ _ Hwf 0 (S i) p r) as [Ha|Ha]; try done; lia.
Qed.

(** ** Properties *)

(** C4: on a well-formed heap, provided a free segment fits, or all frames from the
    allocator's cursor on are free and suffice for a new page (the first block of more
    than a frame ends that, see [kmalloc_large_clobbered]), [kmalloc] returns (no fuel
    beyond the lengths of its lists is needed, so the recursion terminates): the result
    is a non-null block of at least the requested size, apart from every live block;
    the live blocks are the old ones and the new one, none of their bytes is changed,
    frames in use outside the heap keep their contents, and the heap stays well
    formed. *)
Theorem kmalloc_correct fuel s H size :
  heap_wf s H → 0 <= size →
  (¬ full size H) ∨ (fresh_tail (h_fr s) ∧
     latest_frame (h_fr s) + page_frames size <= available_frames (h_fr s)) →
  (heap_weight H + 5 <= fuel)%nat →
  ∃ b s' H', kmalloc fuel s size = Ret (b, s') ∧ allocated s H size b s' H'.
Proof. apply kmalloc_spec. Qed.

(** C9: [kfree] of a live block of the first page succeeds: exactly that block
    leaves the set of live blocks, no other live block's bytes change, and the heap
    stays well formed. *)
Theorem kfree_correct fuel s p H addr n :
  heap_wf s (p :: H) → (addr, n) ∈ page_blocks p → (heap_weight (p :: H) + 2 < fuel)%nat →
  ∃ s' p', kfree fuel s addr = Ret (true, s') ∧ heap_wf s' (p' :: H) ∧
    blocks (p :: H) ≡ₚ (addr, n) :: blocks (p' :: H) ∧
    keeps (blocks (p :: H)) (h_mem s) (h_mem s').
Proof.
  intros Hwf Hb Hf. destruct (kfree_first fuel s p H addr n Hwf Hb Hf) as (s' & p' & E & []). by exists s', p'.
Qed.

(** A block of a later page is never freed: [kfree] sets its segment cursor
    once, before the loop over the pages, so it returns false for every address
    that is no segment of the first page, and nothing changes. *)
Theorem kfree_later_page fuel s p H addr n :
  heap_wf s (p :: H) → (addr, n) ∈ blocks H → (heap_weight (p :: H) + 2 < fuel)%nat →
  kfree fuel s addr = Ret (false, s).
Proof. apply kfree_rest. Qed.

(** A block of more than a frame is not safe from the next page: from an
    empty heap, after [kmalloc] of more than 4096 bytes the heap is full for
    every further request, and the page that a next request of up to 4032 bytes
    creates is the second frame of the first block, which is still live: its header
    and its zeroes are written over the block's bytes. *)
Theorem kmalloc_large_clobbered fuel s a b :
  heap_wf s [] → fresh_tail (h_fr s) → 4096 < a → 0 <= b <= 4032 →
  latest_frame (h_fr s) + page_frames a <= available_frames (h_fr s) → (5 <= fuel)%nat →
  ∃ p1 s1 H1 p2 f2, kmalloc fuel s a = Ret (p1, s1) ∧ heap_wf s1 H1 ∧ blocks H1 = [(p1, a)] ∧
    full b H1 ∧ create_heap_page (h_fr s1) b = Ret (p2, f2) ∧
    p1 <= p2 < p1 + a ∧ load64 (k_mem f2) (p2 + 8) = p2 + 32 ∧
    ∀ i, p2 + 64 <= i < p2 + 4096 → k_mem f2 i = 0.
Proof.
  intros Hwf Hfresh Ha Hb Hr Hfuel. pose proof (hw_frames _ _ Hwf) as Hf0. wf_destruct Hf0.
  destruct (grow_wf s [] a Hwf ltac:(lia) Hfresh Hr) as (m' & f1 & Hc & Hg & _ & Hq & Hlat & (E1 & E2 & E3 & _) & _).
  set (q := mk_hpage _ _) in *.
  assert (page_room a = a) as Er by (unfold page_room; by cond_false).
  assert (2 <= page_frames a) as Hpf by (unfold page_frames; cond_false; dlia).
  destruct (kmalloc_full fuel s [] a m' f1 (hp_base q)) as (fuel' & Hf' & ->);
    [done|by intros p ?%elem_of_nil|simpl; lia|done|lia|].
  set (s1 := grown s [] (hp_base q) m' f1) in *. clearbody s1.
  destruct (kmalloc_hit fuel' s1 ([] ++ [q]) a Hg) as (j & p & off & z & l' & m2 & p1 & [Hj Ht] & Hp1 & -> & Hal & _);
    [lia| |simpl; lia|].
  { intros Hn. specialize (Hn q). simpl in Hn. rewrite Er, Z.leb_refl in Hn. by discriminate Hn; left. }
  destruct j as [|j]; [|done]. simpl in Hj. injection Hj as <-.
  simpl in Ht. rewrite Er, Z.leb_refl in Ht. replace (a + 32 <? a) with false in Ht by lia.
  injection Ht as <- <- <-.
  change (<[0%nat := ?p]> ([] ++ [q])) with [p] in Hal. set (s2 := set_h_mem m2 s1) in *.
  assert (pool_frame (h_fr s2) (latest_frame (h_fr s2)) = hp_base q + 4096) as Ep2
    by (unfold pool_frame; simpl; rewrite Hlat; unfold q, pool_frame; simpl; lia).
  destruct (allocs_one (h_fr s2)) as (f2 & Ea & Htk & _ & _); [apply Hal|simpl; lia|].
  destruct (create_heap_page_from (h_fr s2) b (latest_frame (h_fr s2)) f2) as (m3 & Hc2 & Hat & Hout);
    [apply Hal|lia|unfold page_frames; by cond_true|unfold page_frames; by cond_true
    |apply (hw_top _ _ (al_wf _ _ _ _ _ _ Hal))|].
  rewrite Ep2 in *. set (base := hp_base q) in *. clearbody base. simpl in Hc2, Hout.
  exists p1, s2, [mk_hpage base [(a, false)]], (base + 4096), (set_mem m3 f2).
  split; [done|]. split; [apply Hal|]. 
  split; [change (blocks _) with [(base + 32 + 32, a)]; rewrite Hp1; do 2 f_equal; lia|].
  split; [by intros p ->%list_elem_of_singleton|]. split; [done|]. split; [lia|].
  split; [apply (pa_first _ _ _ Hat)|]. intros i Hi. simpl. rewrite Hout by lia.
  apply (tk_zero _ _ _ _ Htk). unfold pool_frame in *. lia.
Qed.

(** ** Witnesses: the sixteen-frame pool of [Frames.sample_frames] *)

Definition heap_sample : heap_state := mk_heap (sample_frames (λ _, 0) 0) 0.

Lemma heap_sample_wf : heap_wf heap_sample [].
Proof. split; try done. apply sample_wf. Qed.

(** A heap of two pages with a live block in each. *)
Lemma heap_sample_two : ∃ s q p b n b' n',
  heap_wf s [q; p] ∧ (b, n) ∈ page_blocks q ∧ (b', n') ∈ page_blocks p ∧
  heap_weight [q; p] = 6%nat.
Proof.
  destruct (grow_wf heap_sample [] 100 heap_sample_wf) as (m1 & f1 & _ & W1 & _ & _ & L1 & (_ & A1 & _) & F1 & _);
    [lia|apply sample_fresh|done|].
  set (s1 := grown _ _ _ _ _) in *. clearbody s1. simpl in A1, L1. specialize (F1 eq_refl).
  set (q1 := mk_hpage _ _) in *. assert (hp_segs q1 = [(4032, true)]) as S1 by done. clearbody q1.
  change ([] ++ [q1]) with [q1] in W1.
  destruct (grow_wf s1 [q1] 100 W1) as (m2 & f2 & _ & W2 & _ & _ & L2 & (_ & A2 & _) & F2 & _);
    [lia|done|unfold page_frames; simpl; lia|].
  set (s2 := grown _ _ _ _ _) in *. clearbody s2. set (q2 := mk_hpage _ _) in *.
  assert (hp_segs q2 = [(4032, true)]) as S2 by done. clearbody q2.
  change ([q1] ++ [q2]) with [q1; q2] in W2.
  pose proof (alloc_fits s2 [q1; q2] 100 0 q1 0 4032 [(100, false); (3900, true)] W2 ltac:(lia)) as H1.
  destruct (alloc_segment _ _ _ _) as [b1 m3]. destruct H1 as (_ & [W3 _ _ _ _ _ _ _] & _);
    [split; [done|by rewrite S1]|].
  set (s3 := set_h_mem m3 s2) in *. clearbody s3. simpl in W3.
  set (q1' := mk_hpage (hp_base q1) _) in W3.
  pose proof (alloc_fits s3 [q1'; q2] 100 1 q2 0 4032 [(100, false); (3900, true)] W3 ltac:(lia)) as H2.
  destruct (alloc_segment _ _ _ _) as [b2 m4]. destruct H2 as (_ & [W4 _ _ _ _ _ _ _] & _);
    [split; [done|by rewrite S2]|].
  eexists (set_h_mem m4 s3), q1', (mk_hpage (hp_base q2) [(100, false); (3900, true)]), _, _, _, _.
  split; [exact W4|]. split; [left|]. split; [left|done].
Qed.

Lemma kmalloc_correct_witness :
  ∃ b s' H', kmalloc 5 heap_sample 100 = Ret (b, s') ∧ allocated heap_sample [] 100 b s' H'.
Proof.
  apply (kmalloc_correct 5 heap_sample [] 100 heap_sample_wf); [lia| |simpl; lia].
  right. split; [apply sample_fresh|vm_compute; discriminate].
Defined.

Lemma kfree_correct_witness : ∃ s addr s', kfree 9 s addr = Ret (true, s').
Proof.
  destruct heap_sample_two as (s & q & p & b & n & b' & n' & Hwf & Hb & _ & Hw).
  destruct (kfree_correct 9 s q [p] b n Hwf Hb) as (s' & p' & H & _); [lia|].
  exists s, b, s'. exact H.
Defined.

Lemma kfree_later_page_witness : ∃ s addr, kfree 9 s addr = Ret (false, s).
Proof.
  destruct heap_sample_two as (s & q & p & b & n & b' & n' & Hwf & _ & Hb & Hw).
  exists s, b'. apply (kfree_later_page 9 s q [p] b' n' Hwf); [|lia].
  unfold blocks. simpl. apply elem_of_app. by left.
Defined.

Lemma kmalloc_large_clobbered_witness :
  ∃ p1 s1, kmalloc 5 heap_sample 5000 = Ret (p1, s1).
Proof.
  destruct (kmalloc_large_clobbered 5 heap_sample 5000 100 heap_sample_wf) as (p1 & s1 & _ & _ & _ & H & _);
    [apply sample_fresh|lia|lia|vm_compute; discriminate|lia|].
  exists p1, s1. exact H.
Defined.
