(* ===== verification/Allocator.v ===== *)
(** * Allocator: what the heap promises to its clients.

    [Allocator] is the interface of [kmalloc] and [kfree] as the other units
    use it, [AllocatorLaws] the contract their proofs rely on, and the instances
    at the end show that the heap of [Heap.v] meets it. *)
From stdpp Require Import base numbers list.
From S2P Require Import Prelude Mem Boot Frames Paging Heap HeapSpec HeapPages.
Local Open Scope Z_scope.

(** A heap with the memory it manages.  [a_set] is a client's write. *)
Class Allocator (A : Type) := {
  a_mem : A → mem;
  a_set : mem → A → A;
  a_malloc : nat → A → Z → outcome (Z * A);
  a_free : nat → A → Z → outcome (bool * A);
}.

(** [a_inv h L]: the blocks [(address, size)] of [L] are the live ones.
    [a_ready h size]: a request for [size] bytes can be served safely. *)
Class AllocatorLaws (A : Type) `{Allocator A} := {
  a_inv : A → list (Z * Z) → Prop;
  a_ready : A → Z → Prop;
  a_mem_set : ∀ m h, a_mem (a_set m h) = m;
  a_set_set : ∀ m m' h, a_set m (a_set m' h) = a_set m h;
  a_perm : ∀ h L L', L ≡ₚ L' → a_inv h L → a_inv h L';
  a_block : ∀ h L b n, a_inv h L → (b, n) ∈ L → 0 < b ∧ 0 <= n ∧ b + n < 18446744073709551616;
  a_apart : ∀ h b n b' n' L, a_inv h ((b, n) :: (b', n') :: L) → b + n <= b' ∨ b' + n' <= b;
  a_write : ∀ h L b n m, a_inv h L → (b, n) ∈ L →
    (∀ a, ¬ (b <= a < b + n) → m a = a_mem h a) → a_inv (a_set m h) L;
  a_malloc_ok : ∀ h L size, a_inv h L → 0 <= size → a_ready h size →
    ∃ k b n h', (∀ fuel, (k <= fuel)%nat → a_malloc fuel h size = Ret (b, h')) ∧
      b ≠ 0 ∧ size <= n ∧ a_inv h' ((b, n) :: L) ∧ keeps L (a_mem h) (a_mem h');
  a_free_ok : ∀ h L b n, a_inv h ((b, n) :: L) →
    ∃ k r h', (∀ fuel, (k <= fuel)%nat → a_free fuel h b = Ret (r, h')) ∧
      keeps L (a_mem h) (a_mem h') ∧ (a_inv h' L ∨ a_inv h' ((b, n) :: L));
}.

#[export] Instance heap_allocator : Allocator heap_state := {
  a_mem := h_mem;
  a_set := set_h_mem;
  a_malloc := kmalloc;
  a_free := kfree;
}.

(** ** More fuel does not change a result *)

Lemma first_fit_mono fuel fuel' m seg size r :
  (fuel <= fuel')%nat → first_fit fuel m seg size = Ret r → first_fit fuel' m seg size = Ret r.
Proof.
  revert fuel' seg; induction fuel as [|fuel IH]; intros [|fuel'] seg Hf; simpl; try done; [lia|].
  repeat case_cond; try done; apply IH; lia.
Qed.

Lemma find_segment_mono fuel fuel' m page size r :
  (fuel <= fuel')%nat → find_segment fuel m page size = Ret r → find_segment fuel' m page size = Ret r.
Proof.
  revert fuel' page; induction fuel as [|fuel IH]; intros [|fuel'] page Hf; simpl; try done; [lia|].
  destruct (first_fit fuel _ _ _) as [seg| |] eqn:E; try done.
  rewrite (first_fit_mono fuel fuel' _ _ _ _ ltac:(lia) E). simpl.
  repeat case_cond; try done; apply IH; lia.
Qed.

Lemma kmalloc_mono fuel fuel' s size r :
  (fuel <= fuel')%nat → kmalloc fuel s size = Ret r → kmalloc fuel' s size = Ret r.
Proof.
  revert fuel' s; induction fuel as [|fuel IH]; intros [|fuel'] s Hf; [done|done|lia|].
  cbn [kmalloc]. destruct (if heap s =? 0 then _ else _) as [s1| |]; try done.
  cbn [mbind outcome_bind].
  destruct (find_segment fuel _ _ _) as [[page seg]| |] eqn:E; try done.
  rewrite (find_segment_mono fuel fuel' _ _ _ _ ltac:(lia) E). cbn [mbind outcome_bind].
  destruct (negb (seg =? 0)); [done|].
  destruct (create_heap_page _ _) as [[q f]| |]; try done. cbn [mbind outcome_bind]. apply IH. lia.
Qed.

Lemma segment_of_mono fuel fuel' m seg addr r :
  (fuel <= fuel')%nat → segment_of fuel m seg addr = Ret r → segment_of fuel' m seg addr = Ret r.
Proof.
  revert fuel' seg; induction fuel as [|fuel IH]; intros [|fuel'] seg Hf; simpl; try done; [lia|].
  repeat case_cond; try done; apply IH; lia.
Qed.

Lemma find_block_mono fuel fuel' m page seg addr r :
  (fuel <= fuel')%nat → find_block fuel m page seg addr = Ret r → find_block fuel' m page seg addr = Ret r.
Proof.
  revert fuel' page seg; induction fuel as [|fuel IH]; intros [|fuel'] page seg Hf; simpl; try done; [lia|].
  case_cond; [done|]. destruct (segment_of fuel _ _ _) as [found| |] eqn:E; try done.
  rewrite (segment_of_mono fuel fuel' _ _ _ _ ltac:(lia) E). simpl. case_cond; [done|]. apply IH. lia.
Qed.

Lemma kfree_mono fuel fuel' s addr r :
  (fuel <= fuel')%nat → kfree fuel s addr = Ret r → kfree fuel' s addr = Ret r.
Proof.
  intros Hf. unfold kfree. destruct (find_block fuel _ _ _ _) as [[page seg]| |] eqn:E; try done.
  by rewrite (find_block_mono fuel fuel' _ _ _ _ _ Hf E).
Qed.

(** ** The heap meets the contract *)

Definition sep (x y : Z * Z) : Prop := x.1 + x.2 <= y.1 ∨ y.1 + y.2 <= x.1.

Fixpoint pairwise (l : list (Z * Z)) : Prop :=
  match l with
  | [] => True
  | x :: l => Forall (sep x) l ∧ pairwise l
  end.

Lemma pairwise_perm l l' : l ≡ₚ l' → pairwise l → pairwise l'.
Proof.
  induction 1 as [|x l l' Hp IH|x y l|l1 l2 l3 _ IH1 _ IH2]; simpl; [done| | |tauto].
  - intros [Hx Hl]. split; [|auto]. rewrite Forall_forall in *. intros y Hy. apply Hx. by rewrite Hp.
  - rewrite !Forall_cons. unfold sep. intros ((Hxy & Hx) & Hy & Hl). split_and!; try done; tauto.
Qed.

Lemma pairwise_app l l' :
  pairwise l → pairwise l' → (∀ x y, x ∈ l → y ∈ l' → sep x y) → pairwise (l ++ l').
Proof.
  induction l as [|x l IH]; simpl; [done|]. intros [Hx Hl] Hl' Hs. split.
  - apply Forall_app. split; [done|]. apply Forall_forall. intros y Hy. apply Hs; [left|done].
  - apply IH; try done. intros y z Hy Hz. apply Hs; [by right|done].
Qed.

Lemma pairwise_elem l x y : pairwise l → x ∈ l → y ∈ l → x ≠ y → sep x y.
Proof.
  induction l as [|w l IH]; [by intros _ ?%elem_of_nil|]. intros [Hw Hl] Hx Hy Hne. rewrite Forall_forall in Hw.
  rewrite elem_of_cons in Hx, Hy. destruct Hx as [->|Hx], Hy as [->|Hy]; [done|by apply Hw| |by apply IH].
  specialize (Hw x Hx). unfold sep in *. lia.
Qed.

Lemma pairwise_between l l' x y : pairwise (l ++ l') → x ∈ l → y ∈ l' → sep x y.
Proof.
  induction l as [|w l IH]; [by intros _ ?%elem_of_nil|]. intros [Hw Hl] Hx Hy.
  apply elem_of_cons in Hx as [->|Hx]; [|by apply IH].
  rewrite Forall_forall in Hw. apply Hw, elem_of_app. by right.
Qed.

Lemma live_pairwise m a l : segs_at m a l → pairwise (live a l).
Proof.
  revert a; induction l as [|[sz fr] l IH]; intros a Hl; simpl; [done|].
  destruct Hl as (Hsz & _ & Hl). apply pairwise_app; [by destruct fr|by apply IH|].
  intros x [b n] Hx Hb. destruct (live_bounds _ _ _ _ _ Hl Hb). destruct fr; [by apply elem_of_nil in Hx|].
  apply list_elem_of_singleton in Hx as ->. left. simpl. lia.
Qed.

Lemma blocks_pairwise s H : heap_wf s H → pairwise (blocks H).
Proof.
  intros Hwf.
  assert (∀ l i, (∀ j p, l !! j = Some p → H !! (i + j)%nat = Some p) → pairwise (blocks l)) as Hgen.
  { induction l as [|p l IH]; intros i Hl; [done|]. unfold blocks. simpl.
    pose proof (Hl 0%nat p eq_refl) as Hp. rewrite Nat.add_0_r in Hp. apply pairwise_app.
    - eapply live_pairwise, (hw_pages _ _ Hwf i p Hp).
    - apply (IH (S i)). intros j q Hj. specialize (Hl (S j) q Hj). by rewrite <- Nat.add_succ_comm in Hl.
    - intros [b n] [b' n'] Hb (j & q & Hj & Hb')%elem_of_blocks. specialize (Hl (S j) q Hj).
      destruct (page_block_bounds s H Hwf i p b n Hp Hb) as (? & ? & ?).
      destruct (page_block_bounds s H Hwf _ q b' n' Hl Hb') as (? & ? & ?).
      unfold sep. simpl. destruct (hw_apart _ _ Hwf i (i + S j)%nat p q) as [?|?]; try done; lia. }
  apply (Hgen H O). done.
Qed.

(** A write into a live block leaves every header in place. *)
Lemma segs_at_write m m' a l b n :
  segs_at m a l → (b, n) ∈ live a l → (∀ i, ¬ (b <= i < b + n) → m' i = m i) → segs_at m' a l.
Proof.
  revert a; induction l as [|[sz fr] l IH]; intros a Hl Hb Hm; [done|].
  pose proof Hl as (Hsz & Hh & Hl'). simpl in Hb. apply elem_of_app in Hb as [Hb|Hb].
  - destruct fr; [by apply elem_of_nil in Hb|]. apply list_elem_of_singleton in Hb. simplify_eq.
    simpl. split; [done|]. split.
    + eapply header_ext; [|exact Hh]. intros i Hi. apply Hm. lia.
    + eapply segs_at_ext; [|exact Hl']. intros i Hi. apply Hm. lia.
  - destruct (live_bounds _ _ _ _ _ Hl' Hb) as (? & _). simpl. split; [done|]. split; [|by apply IH].
    eapply header_ext; [|exact Hh]. intros i Hi. apply Hm. lia.
Qed.

Lemma heap_write s H b n m :
  heap_wf s H → (b, n) ∈ blocks H → (∀ a, ¬ (b <= a < b + n) → m a = h_mem s a) →
  heap_wf (set_h_mem m s) H.
Proof.
  intros Hwf (i & p & Hi & Hb)%elem_of_blocks Hm.
  destruct (page_block_bounds s H Hwf i p b n Hi Hb) as (B1 & B2 & B3).
  destruct (page_bounds s H Hwf i p Hi) as (P1 & P2 & P3 & P4).
  assert (same_on (frames (h_fr s)) (frames (h_fr s) + available_frames (h_fr s)) (h_mem s) m) as Hbm
    by (intros a Ha; apply Hm; lia).
  pose proof (hw_frames _ _ Hwf) as Hf. split; try apply Hwf.
  - by apply frames_wf_set_mem.
  - intros j q Hj. destruct (decide (i = j)) as [<-|Hne].
    + assert (q = p) as -> by congruence. destruct (hw_pages _ _ Hwf i p Hi) as [A1 A2 A3 A4]. split; simpl; try done.
      * rewrite <- A1. apply load64_same_on. intros a Ha. apply Hm. lia.
      * rewrite <- A2. apply load64_same_on. intros a Ha. apply Hm. lia.
      * by eapply segs_at_write.
    + eapply (page_at_ext s H Hwf j); [done| |by apply Hwf]. intros a Ha. apply Hm.
      destruct (hw_apart _ _ Hwf i j p q); try done; lia.
  - intros j q Hj. destruct (hw_owned _ _ Hwf j q Hj) as (k & c & [O1 O2 O3 O4]). exists k, c.
    split; try done. intros x Hx. simpl. rewrite used_set_mem by (done || lia). by apply O4.
Qed.

Definition heap_inv (h : heap_state) (L : list (Z * Z)) : Prop := ∃ H, heap_wf h H ∧ blocks H ≡ₚ L.
Definition heap_ready (h : heap_state) (size : Z) : Prop :=
  ∀ H, heap_wf h H → (¬ full size H) ∨ (fresh_tail (h_fr h) ∧
    latest_frame (h_fr h) + page_frames size <= available_frames (h_fr h)).

Lemma heap_free_ok h L b n :
  heap_inv h ((b, n) :: L) →
  ∃ k r h', (∀ fuel, (k <= fuel)%nat → kfree fuel h b = Ret (r, h')) ∧
    keeps L (h_mem h) (h_mem h') ∧ (heap_inv h' L ∨ heap_inv h' ((b, n) :: L)).
Proof.
  intros (H & Hwf & Hp). assert ((b, n) ∈ blocks H) as Hb by (rewrite Hp; left).
  destruct H as [|p H]; [by apply elem_of_nil in Hb|].
  exists (heap_weight (p :: H) + 3)%nat.
  unfold blocks in Hb. simpl in Hb. apply elem_of_app in Hb as [Hb|Hb].
  - destruct (kfree_first (heap_weight (p :: H) + 3) h p H b n Hwf Hb) as (h' & p' & E & [Hwf' Hbl Hk _ _]); [lia|].
    exists true, h'. split; [intros fuel Hf; by eapply kfree_mono|]. split.
    + intros x k Hx. apply Hk. rewrite Hp. by right.
    + left. exists (p' :: H). split; [done|]. rewrite Hp in Hbl. by apply Permutation_cons_inv in Hbl.
  - exists false, h. split.
    + intros fuel Hf. apply (kfree_rest fuel h p H b n); [done|done|lia].
    + split; [by intros x k _|]. right. by exists (p :: H).
Qed.

Lemma heap_malloc_ok h L size :
  heap_inv h L → 0 <= size → heap_ready h size →
  ∃ k b n h', (∀ fuel, (k <= fuel)%nat → kmalloc fuel h size = Ret (b, h')) ∧
    b ≠ 0 ∧ size <= n ∧ heap_inv h' ((b, n) :: L) ∧ keeps L (h_mem h) (h_mem h').
Proof.
  intros (H & Hwf & Hp) Hs Hr.
  destruct (kmalloc_spec (heap_weight H + 5) h H size Hwf Hs (Hr H Hwf)) as (b & h' & H' & E & Ha); [lia|].
  destruct (al_block _ _ _ _ _ _ Ha) as (n & Hn & Hbl & _).
  exists (heap_weight H + 5)%nat, b, n, h'. split; [intros fuel Hf; by eapply kmalloc_mono|].
  split; [apply Ha|]. split; [done|]. split; [exists H'; split; [apply Ha|by rewrite Hbl, Hp]|].
  intros x k Hx. apply (al_keeps _ _ _ _ _ _ Ha). by rewrite Hp.
Qed.

#[export] Program Instance heap_laws : AllocatorLaws heap_state := {
  a_inv := heap_inv;
  a_ready := heap_ready;
}.
Next Obligation. done. Qed.
Next Obligation. done. Qed.
Next Obligation. intros h L L' Hp (H & Hwf & HL). exists H. split; [done|]. by rewrite HL. Qed.
Next Obligation.
  intros h L b n (H & Hwf & HL) Hb. rewrite <- HL in Hb. apply elem_of_blocks in Hb as (i & p & Hi & Hb).
  destruct (page_block_bounds h H Hwf i p b n Hi Hb). destruct (page_bounds h H Hwf i p Hi). lia.
Qed.
Next Obligation.
  intros h b n b' n' L (H & Hwf & HL). pose proof (blocks_pairwise h H Hwf) as Hpw.
  apply (pairwise_perm _ _ HL) in Hpw as [Hx _]. rewrite Forall_cons in Hx. apply Hx.
Qed.
Next Obligation.
  intros h L b n m (H & Hwf & HL) Hb Hm. exists H. split; [|done].
  eapply heap_write; [done| |exact Hm]. by rewrite HL.
Qed.
Next Obligation. apply heap_malloc_ok. Qed.
Next Obligation. apply heap_free_ok. Qed.
