(* ===== verification/HeapTables.v ===== *)
(** * HeapTables: the heap and the page tables side by side.

    [kmalloc] takes frames from the allocator the page tables came from.  What it
    leaves alone ([HeapPages.spares]) includes every frame that holds a table, so
    the tables stay well formed and every translation is kept; new tables are put in
    free frames, so the heap keeps its pages.  Nothing of the source is modelled here. *)
From stdpp Require Import base numbers list gmap.
From S2P Require Import Prelude Mem Boot Frames Paging PageTables Mapper Heap HeapSpec HeapPages Allocator.
Local Open Scope Z_scope.

(** No page of the heap meets a table. *)
Definition tables_off (T : tree) (H : list hpage) : Prop :=
  ∀ q u p, T !! q = Some u → p ∈ H → hp_end p <= u ∨ u + 4096 <= hp_base p.

Lemma tables_off_nil T : tables_off T [].
Proof. by intros q u p _ ?%elem_of_nil. Qed.

Section Spared.
Context (hhdm root : Z) (T : tree) (s s' : heap_state) (H H' : list hpage).
Context (Hwf : tables_wf hhdm (h_fr s) root T) (Hoff : tables_off T H).
Context (Hsp : spares s H s' H') (Hf' : frames_wf (h_fr s')).

Lemma spared_frame q u : T !! q = Some u →
  same_on u (u + 4096) (h_mem s) (h_mem s') ∧ ∀ p, p ∈ H' → hp_end p <= u ∨ u + 4096 <= hp_base p.
Proof.
  intros Hq. destruct (tw_pool _ _ _ _ Hwf q u Hq) as (n & Hn & -> & Hu).
  destruct (sp_off _ _ _ _ Hsp n Hn Hu) as [Ho Hm]; [|by split].
  intros p Hp. by apply (Hoff q).
Qed.

Lemma spared_load q u j : T !! q = Some u → 0 <= j < 512 →
  load64 (h_mem s') (u + j * 8) = load64 (h_mem s) (u + j * 8).
Proof.
  intros Hq Hj. apply load64_same_on. destruct (spared_frame q u Hq) as [Hm _].
  eapply same_on_weaken; [..|exact Hm]; lia.
Qed.

Lemma spared_off : tables_off T H'.
Proof. intros q u p Hq Hp. by apply (spared_frame q u Hq). Qed.

Lemma spared_wf : tables_wf hhdm (h_fr s') root T.
Proof.
  destruct (sp_pool _ _ _ _ Hsp) as (Ef & Ea & Eb & _). split; try apply Hwf; [done| | |].
  - destruct (tw_hhdm _ _ _ _ Hwf). split; rewrite ?Ea, ?Eb; done.
  - intros q u Hq. destruct (tw_pool _ _ _ _ Hwf q u Hq) as (n & Hn & -> & Hu).
    exists n. rewrite Ea. split; [done|]. split; [unfold pool_frame; by rewrite Eb|].
    by apply (sp_used _ _ _ _ Hsp).
  - intros q u i Hq Hl Hi. change (k_mem (h_fr s')) with (h_mem s'). rewrite (spared_load q) by done.
    by apply (tw_child _ _ _ _ Hwf).
Qed.

Lemma spared_entry v : tree_entry (h_mem s') T v = tree_entry (h_mem s) T v.
Proof.
  unfold tree_entry. destruct (T !! path v) as [u|] eqn:E; [|done]. simpl.
  rewrite (spared_load (path v)); [done|done|]. apply table_index_range. lia.
Qed.
End Spared.

(** Building tables leaves the heap alone. *)
Section Evolved.
Context (hhdm hd : Z) (ps ps' : paging_state) (T T' : tree) (H : list hpage).
Context (Hwf : heap_wf (mk_heap (p_fr ps) hd) H) (Hoff : tables_off T H).
Context (E : evolves hhdm ps T ps' T').

Lemma evolved_page i p : H !! i = Some p →
  same_on (hp_base p) (hp_end p) (k_mem (p_fr ps)) (k_mem (p_fr ps')).
Proof.
  intros Hi a Ha. destruct (page_bounds _ H Hwf i p Hi) as (_ & _ & _ & Hb). cbn [h_fr] in Hb.
  apply (ev_mem _ _ _ _ _ E); [lia|]. intros q u Hq Hu.
  destruct (T !! q) as [u'|] eqn:Eq.
  - assert (u' = u) as -> by (pose proof (lookup_weaken _ _ _ _ Eq (ev_sub _ _ _ _ _ E)); congruence).
    destruct (Hoff q u p Eq (list_elem_of_lookup_2 _ _ _ Hi)); lia.
  - destruct (ev_fresh _ _ _ _ _ E q u Hq Eq) as (n & Hn & -> & Hf).
    destruct (hw_owned _ _ Hwf i p Hi) as (n0 & c & [_ O2 O3 O4]). cbn [h_fr] in *.
    unfold pool_frame in *. rewrite O4 in Hf; [done|lia].
Qed.

Lemma evolved_heap : heap_wf (mk_heap (p_fr ps') hd) H.
Proof.
  destruct (ev_pool _ _ _ _ _ E) as (_ & Ea & Eb & _). split; cbn [h_fr heap h_mem].
  - apply (ev_wf _ _ _ _ _ E).
  - rewrite Ea, Eb. apply (hw_top _ _ Hwf).
  - apply (hw_head _ _ Hwf).
  - intros i p Hi. eapply (page_at_ext _ H Hwf i); [done|by eapply evolved_page|by apply (hw_pages _ _ Hwf)].
  - intros i p Hi. destruct (hw_owned _ _ Hwf i p Hi) as (n & c & [O1 O2 O3 O4]). cbn [h_fr] in *.
    exists n, c. split; rewrite ?Ea; unfold pool_frame in *; rewrite ?Eb; try done.
    intros k Hk. apply (ev_used _ _ _ _ _ E); [lia|by apply O4].
  - apply (hw_apart _ _ Hwf).
Qed.

Lemma evolved_off : tables_off T' H.
Proof.
  intros q u p Hq Hp. destruct (T !! q) as [u'|] eqn:Eq.
  - assert (u' = u) as -> by (pose proof (lookup_weaken _ _ _ _ Eq (ev_sub _ _ _ _ _ E)); congruence).
    by apply (Hoff q).
  - destruct (ev_fresh _ _ _ _ _ E q u Hq Eq) as (n & Hn & -> & Hf).
    apply list_elem_of_lookup in Hp as [i Hi].
    destruct (hw_owned _ _ Hwf i p Hi) as (n0 & c & [_ O2 O3 O4]). cbn [h_fr] in *.
    unfold pool_frame in *.
    destruct (decide (n0 <= n < n0 + c)) as [Hin|]; [by rewrite O4 in Hf|lia].
Qed.

Lemma evolved_keeps : keeps (blocks H) (k_mem (p_fr ps)) (k_mem (p_fr ps')).
Proof.
  intros b n (i & p & Hi & Hb)%elem_of_blocks.
  destruct (page_block_bounds _ H Hwf i p b n Hi Hb) as (B1 & B2 & _).
  eapply same_on_weaken; [..|by eapply evolved_page]; lia.
Qed.
End Evolved.

(** Frames fresh for the next pages: [n] more one-page requests can be served. *)
Definition frames_for (s : heap_state) (n : Z) : Prop :=
  fresh_tail (h_fr s) ∧ latest_frame (h_fr s) + n <= available_frames (h_fr s).

(** Writes that leave the bitmap, and every frame outside the heap, alone. *)
Section Quiet.
Context (s : heap_state) (H H' : list hpage) (m : mem) (Hwf : heap_wf s H).
Context (Hbm : same_on (frames (h_fr s)) (frames (h_fr s) + available_frames (h_fr s)) (h_mem s) m).

Lemma quiet_spares :
  (∀ q, q ∈ H' → ∃ p, p ∈ H ∧ hp_base q = hp_base p ∧ hp_end q = hp_end p) →
  (∀ n, 0 <= n < available_frames (h_fr s) → (∀ p, p ∈ H → off_frame (h_fr s) n p) →
     same_on (pool_frame (h_fr s) n) (pool_frame (h_fr s) n + 4096) (h_mem s) m) →
  spares s H (set_h_mem m s) H'.
Proof.
  intros Hp Hm. split; [done| |].
  - intros k Hk Hu. simpl. by rewrite used_set_mem by (apply Hwf || done).
  - intros k Hk Hu Hoff. split; [|by apply Hm].
    intros q (p & Hin & Eb & Ee)%Hp. unfold off_frame. rewrite Eb, Ee. by apply Hoff.
Qed.

Lemma quiet_frames_for k : frames_for s k → frames_for (set_h_mem m s) k.
Proof.
  intros [Hf Hl]. split; [|done]. pose proof (hw_frames _ _ Hwf) as Hfr. pose proof Hfr as Hfr'. wf_destruct Hfr'.
  intros j Hj. simpl in *. rewrite used_set_mem; [by apply Hf|done|lia|done].
Qed.
End Quiet.

(** A write into a live block. *)
Section Write.
Context (s : heap_state) (H : list hpage) (b n : Z) (m : mem) (Hwf : heap_wf s H).
Context (Hb : (b, n) ∈ blocks H) (Hm : ∀ a, ¬ (b <= a < b + n) → m a = h_mem s a).

Lemma write_bitmap : same_on (frames (h_fr s)) (frames (h_fr s) + available_frames (h_fr s)) (h_mem s) m.
Proof.
  apply elem_of_blocks in Hb as (i & p & Hi & Hp).
  destruct (page_block_bounds s H Hwf i p b n Hi Hp) as (B1 & B2 & B3).
  destruct (page_bounds s H Hwf i p Hi) as (P1 & P2 & P3 & P4). intros a Ha. apply Hm. lia.
Qed.

Lemma write_spares : spares s H (set_h_mem m s) H.
Proof.
  apply quiet_spares; [done|apply write_bitmap|by eauto|]. intros k Hk Hoff a Ha. apply Hm.
  apply elem_of_blocks in Hb as (i & p & Hi & Hp).
  destruct (page_block_bounds s H Hwf i p b n Hi Hp) as (B1 & B2 & B3).
  specialize (Hoff p (list_elem_of_lookup_2 _ _ _ Hi)). unfold off_frame in Hoff. lia.
Qed.

Lemma write_frames_for k : frames_for s k → frames_for (set_h_mem m s) k.
Proof. by eapply quiet_frames_for, write_bitmap. Qed.
End Write.

(** A write outside the pool and its bitmap. *)
Definition off_pool (f : frame_state) (a n : Z) : Prop := ∀ i, a <= i < a + n → outside f i.

Section Outside.
Context (s : heap_state) (H : list hpage) (a n : Z) (m : mem) (Hwf : heap_wf s H).
Context (Ha : off_pool (h_fr s) a n) (Hm : ∀ i, ¬ (a <= i < a + n) → m i = h_mem s i).

Lemma outside_bitmap : same_on (frames (h_fr s)) (frames (h_fr s) + available_frames (h_fr s)) (h_mem s) m.
Proof. intros i Hi. apply Hm. intros Hin. by destruct (Ha i Hin). Qed.

Lemma outside_page i p : H !! i = Some p → same_on (hp_base p) (hp_end p) (h_mem s) m.
Proof.
  intros Hi. destruct (hw_owned _ _ Hwf i p Hi) as (k & c & [O1 O2 O3 _]). unfold pool_frame in O2.
  intros x Hx. apply Hm. intros Hin. destruct (Ha x Hin) as [A _]. lia.
Qed.

Lemma outside_wf : heap_wf (set_h_mem m s) H.
Proof.
  pose proof outside_bitmap as Hbm. split; try apply Hwf.
  - apply frames_wf_set_mem; [apply Hwf|done].
  - intros i p Hi. eapply (page_at_ext s H Hwf i); [done|by eapply outside_page|by apply Hwf].
  - intros i p Hi. destruct (hw_owned _ _ Hwf i p Hi) as (k & c & [O1 O2 O3 O4]). exists k, c.
    split; try done. intros x Hx. simpl. rewrite used_set_mem by (apply Hwf || done || lia). by apply O4.
Qed.

Lemma outside_spares : spares s H (set_h_mem m s) H.
Proof.
  apply quiet_spares; [done|apply outside_bitmap|by eauto|]. intros k Hk _ i Hi. apply Hm.
  intros Hin. destruct (Ha i Hin) as [A _]. unfold pool_frame in Hi. lia.
Qed.

Lemma outside_keeps : keeps (blocks H) (h_mem s) m.
Proof.
  intros b k (i & p & Hi & Hp)%elem_of_blocks.
  destruct (page_block_bounds s H Hwf i p b k Hi Hp) as (B1 & B2 & B3).
  eapply same_on_weaken; [..|by eapply outside_page]; lia.
Qed.
End Outside.

(** A freed block. *)
Section Released.
Context (s s' : heap_state) (p p' : hpage) (H : list hpage) (addr n : Z).
Context (Hwf : heap_wf s (p :: H)) (R : released s p H addr n s' p').

Lemma released_spares : spares s (p :: H) s' (p' :: H).
Proof.
  destruct (rl_mem _ _ _ _ _ _ _ R) as (m & -> & Hbm & Hm). destruct (rl_page _ _ _ _ _ _ _ R) as [Eb Ee].
  apply quiet_spares; try done.
  - intros q [->|Hq]%elem_of_cons; [exists p; by split; [left|]|exists q; by split; [right|]].
  - intros k Hk Hoff a Ha. apply Hm. specialize (Hoff p ltac:(left)). unfold off_frame in Hoff. lia.
Qed.

Lemma released_frames_for k : frames_for s k → frames_for s' k.
Proof. destruct (rl_mem _ _ _ _ _ _ _ R) as (m & -> & Hbm & _). by eapply quiet_frames_for. Qed.
End Released.

(** A request that fits one page, with a fresh frame in reserve. *)
Lemma kmalloc_small fuel s H size n :
  heap_wf s H → 0 <= size <= 4032 → 0 <= n → frames_for s (n + 1) → (heap_weight H + 5 <= fuel)%nat →
  ∃ b s' H', kmalloc fuel s size = Ret (b, s') ∧ allocated s H size b s' H' ∧ frames_for s' n.
Proof.
  intros Hwf Hs Hn [Hf Hl] Hfuel.
  destruct (kmalloc_spec fuel s H size) as (b & s' & H' & E & Ha); [done|lia| |done|].
  { right. split; [done|]. unfold page_frames. cond_true. lia. }
  exists b, s', H'. split; [done|]. split; [done|]. split; [by apply (al_fresh _ _ _ _ _ _ Ha); [lia|]|].
  pose proof (al_latest _ _ _ _ _ _ Ha).
  destruct (sp_pool _ _ _ _ (al_spares _ _ _ _ _ _ Ha)) as (_ & Ea & _). lia.
Qed.
