(* ===== verification/Sched.v ===== *)
(** * Sched: tasks and the round-robin scheduler.

    [src/kernel/task/scheduler.cc] and [src/include/task/man.h].  Tasks are the C
    structures in memory (224 bytes: the 160-byte context, then [stack@160
    pid@168 state@172 next@176 prev@184 name@192 priority@200 start_time@208
    cpu_time@216]), linked in a ring.  The unit is modelled over any allocator
    with the interface of [Allocator.v].  Calling the entry point of the chosen
    task is the last action of [yield] and [start_scheduler]: they return it. *)
From stdpp Require Import base numbers list strings.
From S2P Require Import Prelude Mem HeapPages Allocator.
Local Open Scope Z_scope.

(** [enum State], stored as a 32-bit integer. *)
Inductive State := ACTIVE | WAITING | TERMINATED | READY.

#[global] Instance State_eq_dec : EqDecision State.
Proof. solve_decision. Defined.

Definition state_code (st : State) : Z :=
  match st with ACTIVE => 0 | WAITING => 1 | TERMINATED => 2 | READY => 3 end.

(** The layout of [struct Task] and [struct Context]. *)
Definition TASK_SIZE : Z := 224.
Definition CONTEXT_SIZE : Z := 160.
Definition STACK_SIZE : Z := 32768.
Definition o_rip : Z := 120.
Definition o_cs : Z := 128.
Definition o_rflags : Z := 136.
Definition o_rsp : Z := 144.
Definition o_ss : Z := 152.
Definition o_stack : Z := 160.
Definition o_pid : Z := 168.
Definition o_state : Z := 172.
Definition o_next : Z := 176.
Definition o_prev : Z := 184.
Definition o_name : Z := 192.
Definition o_priority : Z := 200.
Definition o_start_time : Z := 208.
Definition o_cpu_time : Z := 216.

Definition t_next (m : mem) (t : Z) : Z := load64 m (t ⊕ o_next).
Definition t_prev (m : mem) (t : Z) : Z := load64 m (t ⊕ o_prev).
Definition t_pid (m : mem) (t : Z) : Z := load32 m (t ⊕ o_pid).
Definition t_state (m : mem) (t : Z) : Z := load32 m (t ⊕ o_state).
Definition t_stack (m : mem) (t : Z) : Z := load64 m (t ⊕ o_stack).
Definition t_rip (m : mem) (t : Z) : Z := load64 m (t ⊕ o_rip).

Definition set_next (m : mem) (t v : Z) : mem := store64 m (t ⊕ o_next) v.
Definition set_prev (m : mem) (t v : Z) : mem := store64 m (t ⊕ o_prev) v.
Definition set_state (m : mem) (t : Z) (st : State) : mem := store32 m (t ⊕ o_state) (state_code st).

(** [state == st] and the test for a runnable task. *)
Definition in_state (m : mem) (t : Z) (st : State) : bool := t_state m t =? state_code st.
Definition runnable (m : mem) (t : Z) : bool := in_state m t ACTIVE || in_state m t READY.

(** The link writes of [link_process] for a non-empty list with head [h] and tail
    [tl], and those of [unlink_process]. *)
Definition link_mem (m : mem) (t h tl : Z) : mem :=
  let m := set_next m t h in
  let m := set_prev m t tl in
  let m := set_next m tl t in
  set_prev m h t.

Definition unlink_mem (m : mem) (t : Z) : mem :=
  let m := set_next m (t_prev m t) (t_next m t) in
  set_prev m (t_next m t) (t_prev m t).

(** [process_list] and [scheduler_running], with the heap that holds the tasks. *)
Record sched (A : Type) := mk_sched {
  sc_heap : A;
  head : Z;
  tail : Z;
  current : Z;
  count : Z;
  next_pid : Z;
  scheduler_running : bool;
}.
Arguments mk_sched {A}.
Arguments sc_heap {A}.
Arguments head {A}.
Arguments tail {A}.
Arguments current {A}.
Arguments count {A}.
Arguments next_pid {A}.
Arguments scheduler_running {A}.

Section Sched.
Context {A : Type} `{Allocator A}.
Implicit Types s : sched A.

Definition s_mem s : mem := a_mem (sc_heap s).
Definition with_heap (h : A) s : sched A :=
  mk_sched h (head s) (tail s) (current s) (count s) (next_pid s) (scheduler_running s).
Definition with_mem (m : mem) s : sched A := with_heap (a_set m (sc_heap s)) s.
Definition with_current (t : Z) s : sched A :=
  mk_sched (sc_heap s) (head s) (tail s) t (count s) (next_pid s) (scheduler_running s).
Definition with_running (b : bool) s : sched A :=
  mk_sched (sc_heap s) (head s) (tail s) (current s) (count s) (next_pid s) b.

Definition link_process s (task : Z) : sched A :=
  let m := s_mem s in
  if head s =? 0 then
    let m := set_prev (set_next m task task) task task in
    mk_sched (a_set m (sc_heap s)) task task (current s) (u32 (count s + 1)) (next_pid s)
             (scheduler_running s)
  else
    let m := link_mem m task (head s) (tail s) in
    mk_sched (a_set m (sc_heap s)) (head s) task (current s) (u32 (count s + 1)) (next_pid s)
             (scheduler_running s).

Definition unlink_process s (task : Z) : sched A :=
  if count s =? 1 then
    mk_sched (sc_heap s) 0 0 0 (u32 (count s - 1)) (next_pid s) (scheduler_running s)
  else
    let m := unlink_mem (s_mem s) task in
    mk_sched (a_set m (sc_heap s))
             (if head s =? task then t_next m task else head s)
             (if tail s =? task then t_prev m task else tail s)
             (if current s =? task then t_next m task else current s)
             (u32 (count s - 1)) (next_pid s) (scheduler_running s).

(** The body of [cleanup_terminated]'s [do ... while], from task [cur]. *)
Fixpoint cleanup_loop (fuel : nat) s (cur : Z) : outcome (sched A) :=
  match fuel with
  | O => NoFuel
  | S fuel =>
      let next := t_next (s_mem s) cur in
      s ← (if in_state (s_mem s) cur TERMINATED then
             let s := unlink_process s cur in
             '(_, h) ← a_free fuel (sc_heap s) (t_stack (s_mem s) cur);
             '(_, h) ← a_free fuel h cur;
             Ret (with_heap h s)
           else Ret s);
      if negb (next =? head s) && (0 <? count s) then cleanup_loop fuel s next else Ret s
  end.

Definition cleanup_terminated (fuel : nat) s : outcome (sched A) :=
  if head s =? 0 then Ret s else cleanup_loop fuel s (head s).

(** The writes of [spawn_process] to a new task at [task] with stack [stack]. *)
Definition init_task (m : mem) (task stack entry pid name priority : Z) : mem :=
  let m := store64 m (task ⊕ o_stack) stack in
  let stack_top := stack ⊕ STACK_SIZE in
  let m := memset m task 0 CONTEXT_SIZE in
  let m := store64 m (task ⊕ o_rip) entry in
  let m := store64 m (task ⊕ o_cs) 0x08 in
  let m := store64 m (task ⊕ o_ss) 0x10 in
  let m := store64 m (task ⊕ o_rflags) 0x202 in
  let m := store64 m (task ⊕ o_rsp) stack_top in
  let m := store32 m (task ⊕ o_pid) pid in
  let m := set_state m task READY in
  let m := store64 m (task ⊕ o_name) name in
  let m := store32 m (task ⊕ o_priority) priority in
  let m := store64 m (task ⊕ o_start_time) 0 in
  store64 m (task ⊕ o_cpu_time) 0.

Definition spawn_process (fuel : nat) s (entry name priority : Z) : outcome (Z * sched A) :=
  '(task, h) ← a_malloc fuel (sc_heap s) TASK_SIZE;
  if task =? 0 then Ret (0, with_heap h s)
  else
    '(stack, h) ← a_malloc fuel h STACK_SIZE;
    if stack =? 0 then
      '(_, h) ← a_free fuel (a_set (store64 (a_mem h) (task ⊕ o_stack) stack) h) task;
      Ret (0, with_heap h s)
    else
      let m := init_task (a_mem h) task stack entry (next_pid s) name priority in
      let s := mk_sched (a_set m h) (head s) (tail s) (current s) (count s)
                        (u32 (next_pid s + 1)) (scheduler_running s) in
      Ret (task, link_process s task).

Definition get_current s : Z := current s.

(** The [do ... while] search of [get_by_pid]. *)
Fixpoint pid_loop (fuel : nat) (m : mem) (head_ cur pid : Z) : outcome Z :=
  match fuel with
  | O => NoFuel
  | S fuel =>
      if t_pid m cur =? pid then Ret cur
      else
        let cur := t_next m cur in
        if negb (cur =? head_) then pid_loop fuel m head_ cur pid else Ret 0
  end.

Definition get_by_pid (fuel : nat) s (pid : Z) : outcome Z :=
  if head s =? 0 then Ret 0 else pid_loop fuel (s_mem s) (head s) (head s) pid.

Definition kill_process (fuel : nat) s (pid : Z) : outcome (sched A) :=
  task ← get_by_pid fuel s pid;
  Ret (if negb (task =? 0) then with_mem (set_state (s_mem s) task TERMINATED) s else s).

(** [yield]'s search: the task reached and [checked]. *)
Fixpoint yield_loop (fuel : nat) (m : mem) (cnt next checked : Z) : outcome (Z * Z) :=
  match fuel with
  | O => NoFuel
  | S fuel =>
      if (checked <? cnt) && negb (runnable m next)
      then yield_loop fuel m cnt (t_next m next) (u32 (checked + 1))
      else Ret (next, checked)
  end.

(** The entry point [yield] calls, if it switches, with the state it leaves. *)
Definition yield (fuel : nat) s : outcome (option Z * sched A) :=
  s ← cleanup_terminated fuel s;
  if (current s =? 0) || (count s =? 0) then Ret (None, s)
  else
    '(next, checked) ← yield_loop fuel (s_mem s) (count s) (t_next (s_mem s) (current s)) 0;
    if count s <=? checked then Ret (None, s)
    else if next =? current s then Ret (None, s)
    else
      let s := with_mem (set_state (s_mem s) next ACTIVE) (with_current next s) in
      Ret (Some (t_rip (s_mem s) next), s).

Definition kill_current (fuel : nat) s : outcome (option Z * sched A) :=
  if negb (current s =? 0)
  then yield fuel (with_mem (set_state (s_mem s) (current s) TERMINATED) s)
  else Ret (None, s).

(** [sleep]: its argument is not used. *)
Definition sleep (fuel : nat) s (ticks : Z) : outcome (option Z * sched A) :=
  if negb (current s =? 0)
  then yield fuel (with_mem (set_state (s_mem s) (current s) WAITING) s)
  else Ret (None, s).

(** [start_scheduler]'s search for a runnable task. *)
Fixpoint start_loop (fuel : nat) (m : mem) (head_ cur : Z) : outcome Z :=
  match fuel with
  | O => NoFuel
  | S fuel =>
      if negb (cur =? 0) && negb (in_state m cur READY) && negb (in_state m cur ACTIVE) then
        let cur := t_next m cur in
        if cur =? head_ then Ret cur else start_loop fuel m head_ cur
      else Ret cur
  end.

Definition start_scheduler (fuel : nat) s : outcome (option Z * sched A) :=
  if count s =? 0 then Ret (None, s)
  else
    let s := with_running true s in
    cur ← start_loop fuel (s_mem s) (head s) (head s);
    if cur =? 0 then Ret (None, s)
    else
      let s := with_mem (set_state (s_mem s) cur ACTIVE) (with_current cur s) in
      Ret (Some (t_rip (s_mem s) cur), s).

Definition stop_scheduler s : sched A := with_running false s.

Definition get_process_count s : Z := count s.

Fixpoint active_loop (fuel : nat) (m : mem) (head_ cur active : Z) : outcome Z :=
  match fuel with
  | O => NoFuel
  | S fuel =>
      let active := if runnable m cur then u32 (active + 1) else active in
      let cur := t_next m cur in
      if negb (cur =? head_) then active_loop fuel m head_ cur active else Ret active
  end.

Definition get_active_count (fuel : nat) s : outcome Z :=
  if head s =? 0 then Ret 0 else active_loop fuel (s_mem s) (head s) (head s) 0.

(** [list_processes]: the lines it logs, as (pid, name, state string, priority). *)
Definition state_str (code : Z) : string :=
  if code =? state_code ACTIVE then "ACTIVE"
  else if code =? state_code READY then "READY"
  else if code =? state_code WAITING then "WAITING"
  else if code =? state_code TERMINATED then "TERMINATED"
  else "UNKNOWN".

Fixpoint list_loop (fuel : nat) (m : mem) (head_ cur : Z) : outcome (list (Z * Z * string * Z)) :=
  match fuel with
  | O => NoFuel
  | S fuel =>
      let line := (t_pid m cur, load64 m (cur ⊕ o_name), state_str (t_state m cur),
                   load32 m (cur ⊕ o_priority)) in
      let cur := t_next m cur in
      rest ← (if negb (cur =? head_) then list_loop fuel m head_ cur else Ret []);
      Ret (line :: rest)
  end.

Definition list_processes (fuel : nat) s : outcome (list (Z * Z * string * Z)) :=
  if head s =? 0 then Ret [] else list_loop fuel (s_mem s) (head s) (head s).

(** [add_task(entry)]; [legacy_task] is the address of its name string. *)
Definition add_task (fuel : nat) s (entry legacy_task : Z) : outcome (sched A) :=
  '(_, s) ← spawn_process fuel s entry legacy_task 1;
  Ret s.

End Sched.
