(* ===== verification/Ring.v ===== *)
(** * Ring: circular doubly linked lists of tasks in memory.

    The links of [Sched.v]'s tasks, related to the list of their addresses: the
    ring is unchanged by rotation, and linking, unlinking and the search loops
    act on it as on a list. *)
From stdpp Require Import base numbers list.
From S2P Require Import Prelude Mem Sched.
Local Open Scope Z_scope.

(** Consecutive elements are linked both ways. *)
Fixpoint chain (m : mem) (l : list Z) : Prop :=
  match l with
  | a :: ((b :: _) as l') => t_next m a = b ∧ t_prev m b = a ∧ chain m l'
  | _ => True
  end.

(** [l] in order, then back to its first element. *)
Definition ring (m : mem) (l : list Z) : Prop :=
  match l with
  | [] => True
  | h :: _ => chain m (l ++ [h])
  end.

(** Tasks are non-null, inside the address space, and apart from each other. *)
Record spaced (l : list Z) : Prop := {
  sp_nodup : NoDup l;
  sp_range : ∀ a, a ∈ l → 0 < a ∧ a + 224 < 18446744073709551616;
  sp_apart : ∀ a b, a ∈ l → b ∈ l → a ≠ b → a + 224 <= b ∨ b + 224 <= a;
}.

(** ** Structure *)

Lemma chain_cons m a b l : chain m (a :: b :: l) ↔ t_next m a = b ∧ t_prev m b = a ∧ chain m (b :: l).
Proof. done. Qed.

Lemma chain_app m l1 a l2 : chain m (l1 ++ a :: l2) ↔ chain m (l1 ++ [a]) ∧ chain m (a :: l2).
Proof.
  induction l1 as [|x l1 IH]; simpl app; [simpl; tauto|].
  destruct l1 as [|y l1]; simpl app in *.
  - rewrite !chain_cons. simpl. tauto.
  - rewrite !chain_cons, IH. tauto.
Qed.

Lemma ring_rotate m l1 l2 : ring m (l1 ++ l2) ↔ ring m (l2 ++ l1).
Proof.
  destruct l1 as [|a l1], l2 as [|b l2]; rewrite ?app_nil_r; try done.
  change (chain m (((a :: l1) ++ b :: l2) ++ [a]) ↔ chain m (((b :: l2) ++ a :: l1) ++ [b])).
  assert (((a :: l1) ++ b :: l2) ++ [a] = (a :: l1) ++ b :: (l2 ++ [a])) as -> by (by rewrite <- app_assoc).
  assert (((b :: l2) ++ a :: l1) ++ [b] = (b :: l2) ++ a :: (l1 ++ [b])) as -> by (by rewrite <- app_assoc).
  rewrite (chain_app m (a :: l1) b), (chain_app m (b :: l2) a). simpl app. tauto.
Qed.

Lemma spaced_perm l l' : l ≡ₚ l' → spaced l → spaced l'.
Proof.
  intros Hp [H1 H2 H3]. split.
  - by rewrite <- Hp.
  - intros a. rewrite <- Hp. apply H2.
  - intros a b. rewrite <- !Hp. apply H3.
Qed.

Lemma spaced_sub l l' : l' ⊆ l → NoDup l' → spaced l → spaced l'.
Proof. intros Hs Hn [H1 H2 H3]. split; [done|auto..]. Qed.

(** A chain only depends on the [next] of all elements but the last and the
    [prev] of all but the first. *)
Lemma chain_ext m m' l :
  (∀ l1 a b l2, l = l1 ++ a :: b :: l2 → t_next m' a = t_next m a ∧ t_prev m' b = t_prev m b) →
  chain m l → chain m' l.
Proof.
  induction l as [|a [|b l] IH]; intros Hx Hl; try done. rewrite chain_cons in Hl |- *.
  destruct Hl as (H1 & H2 & H3). destruct (Hx [] a b l eq_refl) as [-> ->].
  split_and!; try done. apply IH; [|done]. intros l1 x y l2 E. apply (Hx (a :: l1) x y l2).
  simpl. by rewrite E.
Qed.

(** ** Fields of distinct tasks *)

Section Fields.
Context (l : list Z) (Hsp : spaced l).

Lemma next_set_next m a b v :
  a ∈ l → b ∈ l → is_u64 v → t_next (set_next m b v) a = if decide (a = b) then v else t_next m a.
Proof.
  intros Ha Hb Hv. destruct (sp_range l Hsp a Ha), (sp_range l Hsp b Hb).
  unfold t_next, set_next, o_next. nowrap. case_decide as E; [subst; by apply load64_store64|].
  destruct (sp_apart l Hsp a b Ha Hb E); by simpl_mem.
Qed.

Lemma prev_set_prev m a b v :
  a ∈ l → b ∈ l → is_u64 v → t_prev (set_prev m b v) a = if decide (a = b) then v else t_prev m a.
Proof.
  intros Ha Hb Hv. destruct (sp_range l Hsp a Ha), (sp_range l Hsp b Hb).
  unfold t_prev, set_prev, o_prev. nowrap. case_decide as E; [subst; by apply load64_store64|].
  destruct (sp_apart l Hsp a b Ha Hb E); by simpl_mem.
Qed.

Lemma prev_set_next m a b v : a ∈ l → b ∈ l → t_prev (set_next m b v) a = t_prev m a.
Proof.
  intros Ha Hb. destruct (sp_range l Hsp a Ha), (sp_range l Hsp b Hb).
  unfold t_prev, set_next, o_prev, o_next. nowrap. destruct (decide (a = b)) as [->|E]; [by simpl_mem|].
  destruct (sp_apart l Hsp a b Ha Hb E); by simpl_mem.
Qed.

Lemma next_set_prev m a b v : a ∈ l → b ∈ l → t_next (set_prev m b v) a = t_next m a.
Proof.
  intros Ha Hb. destruct (sp_range l Hsp a Ha), (sp_range l Hsp b Hb).
  unfold t_next, set_prev, o_prev, o_next. nowrap. destruct (decide (a = b)) as [->|E]; [by simpl_mem|].
  destruct (sp_apart l Hsp a b Ha Hb E); by simpl_mem.
Qed.

(** Setting the state of a task changes no link. *)
Lemma links_set_state m a b st :
  a ∈ l → b ∈ l → t_next (set_state m b st) a = t_next m a ∧ t_prev (set_state m b st) a = t_prev m a.
Proof.
  intros Ha Hb. destruct (sp_range l Hsp a Ha), (sp_range l Hsp b Hb).
  unfold t_next, t_prev, set_state, o_prev, o_next, o_state. nowrap.
  destruct (decide (a = b)) as [->|E]; [split; by simpl_mem|].
  destruct (sp_apart l Hsp a b Ha Hb E); split; by simpl_mem.
Qed.

Lemma addr_u64 a : a ∈ l → is_u64 a.
Proof. intros Ha. destruct (sp_range l Hsp a Ha). unfold is_u64. lia. Qed.

End Fields.

(** In a duplicate-free list the element before another is not the last one, and
    the element after another is not the first. *)
Lemma pair_not_last (R0 : list Z) p l1 x y l2 :
  NoDup (R0 ++ [p]) → R0 ++ [p] = l1 ++ x :: y :: l2 → x ≠ p.
Proof.
  intros Hn E ->. destruct (exists_last (l := y :: l2)) as (l3 & z & E3); [done|].
  rewrite E3 in E. assert (R0 ++ [p] = (l1 ++ p :: l3) ++ [z]) as E' by (rewrite E; by rewrite <- app_assoc).
  apply app_inj_tail in E' as [-> ->].
  apply NoDup_app in Hn as (_ & Hd & _). apply (Hd z); [|left].
  apply elem_of_app. right. left.
Qed.

Lemma pair_not_first (b : Z) R' l1 x y l2 :
  NoDup (b :: R') → b :: R' = l1 ++ x :: y :: l2 → y ≠ b.
Proof.
  intros Hn E ->. apply NoDup_cons in Hn as [Hb _]. apply Hb.
  destruct l1 as [|z l1]; simplify_eq/=; [left|]. apply elem_of_app. right. right. left.
Qed.

(** Facts about the links of the first element of a ring of two or more. *)
Lemma ring_links m t b R' R0 p :
  b :: R' = R0 ++ [p] → ring m (t :: b :: R') →
  t_next m t = b ∧ t_prev m b = t ∧ t_next m p = t ∧ t_prev m t = p ∧ chain m (b :: R').
Proof.
  intros E Hr. change (chain m (t :: b :: (R' ++ [t]))) in Hr. rewrite chain_cons in Hr.
  destruct Hr as (H1 & H2 & H3). rewrite app_comm_cons, E, <- app_assoc in H3.
  simpl app in H3. apply chain_app in H3 as [H3 H4]. rewrite chain_cons in H4. rewrite E.
  split_and!; done || apply H4.
Qed.

(** Unlinking the first element leaves the ring of the others. *)
Lemma ring_remove m t b R' R0 p :
  b :: R' = R0 ++ [p] → spaced (t :: b :: R') → ring m (t :: b :: R') →
  ring (unlink_mem m t) (b :: R') ∧
  t_next (unlink_mem m t) t = b ∧ t_prev (unlink_mem m t) t = p.
Proof.
  intros E Hsp Hr. destruct (ring_links m t b R' R0 p E Hr) as (H1 & H2 & H3 & H4 & H5).
  pose proof (sp_nodup _ Hsp) as [Ht Hn]%NoDup_cons.
  assert (t ∈ t :: b :: R') as It by left. assert (b ∈ t :: b :: R') as Ib by (right; left).
  assert (p ∈ b :: R') as Ip' by (rewrite E; apply elem_of_app; right; left).
  assert (p ∈ t :: b :: R') as Ip by (by right).
  assert (t ≠ p) as Hp by congruence. assert (t ≠ b) as Hb by (intros ->; by apply Ht; left).
  pose proof (addr_u64 _ Hsp) as Hu.
  assert (unlink_mem m t = set_prev (set_next m p b) b p) as ->.
  { unfold unlink_mem. rewrite H4, H1.
    rewrite (next_set_next _ Hsp), (prev_set_next _ Hsp) by auto. by rewrite decide_False, H4, H1. }
  assert (∀ x, x ∈ t :: b :: R' → t_next (set_prev (set_next m p b) b p) x =
    if decide (x = p) then b else t_next m x) as Nx.
  { intros x Hx. rewrite (next_set_prev _ Hsp), (next_set_next _ Hsp) by auto. done. }
  assert (∀ x, x ∈ t :: b :: R' → t_prev (set_prev (set_next m p b) b p) x =
    if decide (x = b) then p else t_prev m x) as Px.
  { intros x Hx. rewrite (prev_set_prev _ Hsp), (prev_set_next _ Hsp) by auto. done. }
  split; [|rewrite Nx, Px by auto; by rewrite !decide_False].
  change (chain (set_prev (set_next m p b) b p) ((b :: R') ++ [b])).
  rewrite E, <- app_assoc. simpl app. rewrite chain_app. split.
  - rewrite <- E. eapply chain_ext; [|exact H5]. intros l1 x y l2 E'.
    assert (x ∈ b :: R' ∧ y ∈ b :: R') as [Hx Hy] 
      by (rewrite E'; split; apply elem_of_app; right; [left|right; left]).
    rewrite Nx, Px by (by right). rewrite !decide_False; [done|..].
    + by eapply pair_not_first.
    + rewrite E in Hn, E'. by eapply pair_not_last.
  - rewrite chain_cons. rewrite Nx, Px by auto. by rewrite !decide_True.
Qed.

(** Linking appends the task at the end of the ring. *)
Lemma ring_insert m t h R' R0 tl :
  h :: R' = R0 ++ [tl] → spaced (t :: h :: R') → ring m (h :: R') →
  ring (link_mem m t h tl) ((h :: R') ++ [t]).
Proof.
  intros E Hsp Hr. pose proof (sp_nodup _ Hsp) as [Ht Hn]%NoDup_cons.
  assert (t ∈ t :: h :: R') as It by left. assert (h ∈ t :: h :: R') as Ih by (right; left).
  assert (tl ∈ h :: R') as Il' by (rewrite E; apply elem_of_app; right; left).
  assert (tl ∈ t :: h :: R') as Il by (by right).
  assert (t ≠ tl) as Hp by congruence. assert (t ≠ h) as Hb by (intros ->; by apply Ht; left).
  pose proof (addr_u64 _ Hsp) as Hu.
  assert (∀ x, x ∈ t :: h :: R' → t_next (link_mem m t h tl) x =
    if decide (x = tl) then t else if decide (x = t) then h else t_next m x) as Nx.
  { intros x Hx. unfold link_mem. rewrite (next_set_prev _ Hsp), (next_set_next _ Hsp) by auto.
    case_decide; [done|]. rewrite (next_set_prev _ Hsp), (next_set_next _ Hsp) by auto. done. }
  assert (∀ x, x ∈ t :: h :: R' → t_prev (link_mem m t h tl) x =
    if decide (x = h) then t else if decide (x = t) then tl else t_prev m x) as Px.
  { intros x Hx. unfold link_mem. rewrite (prev_set_prev _ Hsp) by auto. case_decide; [done|].
    rewrite (prev_set_next _ Hsp), (prev_set_prev _ Hsp) by auto. case_decide; [done|].
    by rewrite (prev_set_next _ Hsp) by auto. }
  change (chain (link_mem m t h tl) (((h :: R') ++ [t]) ++ [h])).
  rewrite E, <- !app_assoc. simpl app. rewrite chain_app. split.
  - rewrite <- E. change (chain m ((h :: R') ++ [h])) in Hr.
    rewrite E, <- app_assoc in Hr. simpl app in Hr. apply chain_app in Hr as [Hr _]. rewrite <- E in Hr.
    eapply chain_ext; [|exact Hr]. intros l1 x y l2 E'.
    assert (x ∈ h :: R' ∧ y ∈ h :: R') as [Hx Hy]
      by (rewrite E'; split; apply elem_of_app; right; [left|right; left]).
    rewrite Nx, Px by (by right). rewrite !decide_False; [done|congruence| |congruence|].
    + by eapply pair_not_first.
    + rewrite E in Hn, E'. by eapply pair_not_last.
  - rewrite !chain_cons. rewrite !Nx, !Px by auto.
    rewrite !(decide_False (P := t = tl)), !(decide_False (P := t = h)), !decide_True by done. done.
Qed.

(** A ring of one. *)
Lemma ring_single m t : spaced [t] → ring (set_prev (set_next m t t) t t) [t].
Proof.
  intros Hsp. assert (t ∈ [t]) as It by left. pose proof (addr_u64 _ Hsp t It).
  change (chain (set_prev (set_next m t t) t t) [t; t]). rewrite chain_cons.
  rewrite (next_set_prev _ Hsp), (next_set_next _ Hsp), (prev_set_prev _ Hsp) by auto.
  by rewrite !decide_True.
Qed.

(** The ring is kept when no link changes. *)
Lemma ring_ext m m' l :
  (∀ a, a ∈ l → t_next m' a = t_next m a ∧ t_prev m' a = t_prev m a) → ring m l → ring m' l.
Proof.
  intros Hx. destruct l as [|h l]; [done|]. intros Hr. eapply chain_ext; [|exact Hr].
  intros l1 a b l2 E.
  assert (∀ x, x ∈ (h :: l) ++ [h] → x ∈ h :: l) as Hin.
  { intros x [?| ->%list_elem_of_singleton]%elem_of_app; [done|left]. }
  split; apply Hx, Hin; rewrite E; apply elem_of_app; right; [left|right; left].
Qed.

(** Successors in a ring. *)
Lemma ring_next m l1 a b l2 : ring m (l1 ++ a :: b :: l2) → t_next m a = b.
Proof.
  intros Hr. apply ring_rotate in Hr. change ((a :: b :: l2) ++ l1) with (a :: b :: (l2 ++ l1)) in Hr.
  by destruct Hr as [? _].
Qed.

Lemma ring_wrap m h l a : ring m (h :: l ++ [a]) → t_next m a = h.
Proof.
  intros Hr. change (ring m ((h :: l) ++ [a])) in Hr. apply ring_rotate in Hr.
  change ([a] ++ h :: l) with (a :: h :: l) in Hr. by destruct Hr as [? _].
Qed.

(** ** The search loops *)

Section Walk.
Context (m : mem) (h : Z).

(** The loops below start at [c], the first of the tasks [c :: l] that lead back
    to the head [h]. *)
Ltac walk_step :=
  match goal with
  | Hc : chain m ((?c :: ?l) ++ [h]), Hf : (length ?l < ?fuel)%nat |- _ =>
      destruct fuel as [|fuel]; [simpl in Hf; lia|]; simpl app in Hc; rewrite chain_cons in Hc
  end.

Lemma pid_loop_spec fuel l c pid :
  chain m ((c :: l) ++ [h]) → h ∉ l → (length l < fuel)%nat →
  pid_loop fuel m h c pid = Ret (default 0 (List.find (λ t, t_pid m t =? pid) (c :: l))).
Proof.
  revert fuel c; induction l as [|b l IH]; intros fuel c Hc Hh Hf; walk_step; cbn [pid_loop List.find];
    destruct Hc as (Hn & _ & Hc); rewrite Hn; destruct (t_pid m c =? pid); try done.
  - by rewrite Z.eqb_refl.
  - apply not_elem_of_cons in Hh as [Hb Hh]. replace (b =? h) with false by lia. simpl negb.
    apply IH; [done|done|simpl in Hf; lia].
Qed.

Lemma active_loop_spec fuel l c active :
  chain m ((c :: l) ++ [h]) → h ∉ l → (length l < fuel)%nat →
  0 <= active → active + 1 + Z.of_nat (length l) < 4294967296 →
  active_loop fuel m h c active =
  Ret (active + Z.of_nat (length (List.filter (runnable m) (c :: l)))).
Proof.
  revert fuel c active; induction l as [|b l IH]; intros fuel c active Hc Hh Hf Ha Hb; walk_step;
    cbn [active_loop List.filter]; destruct Hc as (Hn & _ & Hc); rewrite Hn.
  - rewrite Z.eqb_refl. destruct (runnable m c); simpl in *; [by rewrite u32_id by lia|by rewrite Z.add_0_r].
  - apply not_elem_of_cons in Hh as [Hbh Hh]. replace (b =? h) with false by lia. simpl negb.
    simpl length in Hb. destruct (runnable m c); rewrite ?u32_id by lia;
      (rewrite IH; [f_equal; cbn [List.filter length]; lia|done|done|simpl in Hf; lia|lia..]).
Qed.

Lemma start_loop_spec fuel l c :
  chain m ((c :: l) ++ [h]) → h ∉ l → (length l < fuel)%nat → (∀ t, t ∈ c :: l → t ≠ 0) →
  start_loop fuel m h c = Ret (default h (List.find (runnable m) (c :: l))).
Proof.
  revert fuel c; induction l as [|b l IH]; intros fuel c Hc Hh Hf Hz; walk_step;
    cbn [start_loop List.find]; destruct Hc as (Hn & _ & Hc); rewrite Hn;
    (replace (c =? 0) with false by (symmetry; apply Z.eqb_neq, Hz; left));
    rewrite <- (negb_orb (in_state m c READY)), orb_comm; fold (runnable m c); simpl andb;
    destruct (runnable m c); try done.
  - simpl. by rewrite Z.eqb_refl.
  - simpl negb. apply not_elem_of_cons in Hh as [Hb Hh]. replace (b =? h) with false by lia.
    apply IH; [done|done|simpl in Hf; lia|]. intros t Ht. apply Hz. by right.
Qed.

Lemma list_loop_spec fuel l c :
  chain m ((c :: l) ++ [h]) → h ∉ l → (length l < fuel)%nat →
  list_loop fuel m h c =
  Ret ((λ t, (t_pid m t, load64 m (t ⊕ o_name), state_str (t_state m t), load32 m (t ⊕ o_priority)))
         <$> c :: l).
Proof.
  revert fuel c; induction l as [|b l IH]; intros fuel c Hc Hh Hf; walk_step; cbn [list_loop];
    destruct Hc as (Hn & _ & Hc); rewrite Hn.
  - by rewrite Z.eqb_refl.
  - apply not_elem_of_cons in Hh as [Hb Hh]. replace (b =? h) with false by lia. simpl negb.
    rewrite IH by (done || (simpl in Hf; lia)). done.
Qed.

End Walk.

(** [yield]'s search over the [cnt - checked] tasks of [l] it has left. *)
Lemma yield_loop_spec fuel m cnt l c z checked :
  chain m ((c :: l) ++ [z]) → (length l + 1 < fuel)%nat → 0 <= checked → cnt < 4294967296 →
  cnt - checked = 1 + Z.of_nat (length l) →
  ∃ t k, yield_loop fuel m cnt c checked = Ret (t, k) ∧
    match List.find (runnable m) (c :: l) with
    | Some t' => t = t' ∧ k < cnt
    | None => k = cnt
    end.
Proof.
  revert fuel c checked; induction l as [|b l IH]; intros fuel c checked Hc Hf H0 Hcnt Hl;
    (destruct fuel as [|fuel]; [lia|]); simpl app in Hc; rewrite chain_cons in Hc;
    destruct Hc as (Hn & _ & Hc); cbn [yield_loop List.find];
    (replace (checked <? cnt) with true by (simpl length in Hl; lia)); simpl andb;
    (destruct (runnable m c) eqn:Hr; simpl negb;
      [exists c, checked; split; [done|]; split; [done|simpl length in Hl; lia]|]);
    rewrite Hn, u32_id by (simpl length in Hl; lia).
  - destruct fuel as [|fuel]; [simpl in Hf; lia|]. cbn [yield_loop].
    simpl in Hl. replace (checked + 1 <? cnt) with false by lia.
    exists z, (checked + 1). split; [done|]. simpl. lia.
  - apply IH; simpl in *; try done; lia.
Qed.
