(* ===== verification/SchedSpec.v ===== *)
(** * SchedSpec: the scheduler over any allocator that keeps its contract.

    The invariant of the process list and the theorems about spawning, cleaning
    up, looking up and switching tasks.  A process list is a list of [task]s:
    the address and size of the task's block and of its stack's block. *)
From stdpp Require Import base numbers list.
From S2P Require Import Prelude Mem Boot Frames Heap HeapPages Allocator Sched Ring.
Local Open Scope Z_scope.

Record task := mk_task { ta : Z; tn : Z; ts : Z; tsn : Z }.

#[global] Instance task_eq_dec : EqDecision task.
Proof. solve_decision. Defined.

Definition task_blocks (t : task) : list (Z * Z) := [(ta t, tn t); (ts t, tsn t)].
Definition all_blocks (L : list task) : list (Z * Z) := L ≫= task_blocks.

(** The bytes of a task other than its links. *)
Definition task_kept (m m' : mem) (a : Z) : Prop :=
  same_on a (a + 176) m m' ∧ same_on (a + 192) (a + 224) m m'.

Lemma task_kept_trans m1 m2 m3 a : task_kept m1 m2 a → task_kept m2 m3 a → task_kept m1 m3 a.
Proof. intros [H1 H2] [H3 H4]. split; eapply same_on_trans; done. Qed.

Lemma task_kept_state m m' a :
  0 < a → a + 224 < 18446744073709551616 → task_kept m m' a →
  t_state m' a = t_state m a ∧ t_pid m' a = t_pid m a ∧ t_stack m' a = t_stack m a ∧ t_rip m' a = t_rip m a.
Proof.
  intros H0 Ht [H1 _]. unfold t_state, t_pid, t_stack, t_rip, o_state, o_pid, o_stack, o_rip. nowrap.
  split_and!; (apply load32_same_on || apply load64_same_on);
    (eapply same_on_weaken; [..|exact H1]; lia).
Qed.

#[global] Instance all_blocks_perm : Proper ((≡ₚ) ==> (≡ₚ)) all_blocks.
Proof. intros L L' Hp. unfold all_blocks. by rewrite Hp. Qed.

Lemma lookup_two_perm {B} (L : list B) i j x y :
  i ≠ j → L !! i = Some x → L !! j = Some y → ∃ L', L ≡ₚ x :: y :: L'.
Proof.
  intros Hij Hi Hj. pose proof (delete_Permutation L i x Hi) as Hp.
  assert (y ∈ delete i L) as Hy.
  { apply list_elem_of_lookup. destruct (decide (j < i)%nat).
    - exists j. by rewrite list_lookup_delete_lt.
    - exists (j - 1)%nat. rewrite list_lookup_delete_ge by lia. by replace (S (j - 1)) with j by lia. }
  apply elem_of_Permutation in Hy as [L' Hy]. exists L'. by rewrite Hp, Hy.
Qed.

Section Spec.
Context {A : Type} {Al : Allocator A} {Laws : AllocatorLaws A}.
Implicit Types s : sched A.

(** The process list of [s] is [L]; [R] are the other live blocks. *)
Record sched_wf s (L : list task) (R : list (Z * Z)) : Prop := {
  sw_inv : a_inv (sc_heap s) (all_blocks L ++ R);
  sw_size : ∀ t, t ∈ L → 224 <= tn t;
  sw_stack : ∀ t, t ∈ L → t_stack (s_mem s) (ta t) = ts t;
  sw_ring : ring (s_mem s) (ta <$> L);
  sw_head : head s = hd 0 (ta <$> L);
  sw_tail : tail s = List.last (ta <$> L) 0;
  sw_current : current s = 0 ∨ current s ∈ ta <$> L;
  sw_count : count s = Z.of_nat (length L) ∧ count s < 4294967296;
}.

Lemma tasks_spaced h L R :
  a_inv h (all_blocks L ++ R) → (∀ t, t ∈ L → 224 <= tn t) → spaced (ta <$> L).
Proof.
  intros Hi Hs.
  assert (∀ i j t t', i ≠ j → L !! i = Some t → L !! j = Some t' →
    ta t + 224 <= ta t' ∨ ta t' + 224 <= ta t) as Hap.
  { intros i j t t' Hij Ht Ht'. destruct (lookup_two_perm L i j t t' Hij Ht Ht') as [L' Hp].
    assert (a_inv h ((ta t, tn t) :: (ta t', tn t') ::
      ((ts t, tsn t) :: (ts t', tsn t') :: all_blocks L' ++ R))) as Hi'.
    { eapply a_perm; [|exact Hi]. rewrite Hp. simpl.
      apply perm_skip. apply Permutation_swap. }
    pose proof (Hs t ltac:(by eapply list_elem_of_lookup_2)).
    pose proof (Hs t' ltac:(by eapply list_elem_of_lookup_2)).
    destruct (a_apart _ _ _ _ _ _ Hi'); lia. }
  split.
  - apply NoDup_alt. intros i j a Ha Hb. rewrite list_lookup_fmap in Ha, Hb.
    destruct (L !! i) as [t|] eqn:Et; [|done]. destruct (L !! j) as [t'|] eqn:Et'; [|done].
    simplify_eq/=. destruct (decide (i = j)) as [|Hij]; [done|].
    destruct (Hap i j t t' Hij Et Et'); congruence || lia.
  - intros a (t & -> & Ht)%list_elem_of_fmap. pose proof (Hs t Ht).
    destruct (a_block h _ (ta t) (tn t) Hi) as (? & ? & ?); [|lia].
    apply elem_of_app. left. unfold all_blocks. apply list_elem_of_bind. exists t. split; [left|done].
  - intros a b (t & -> & [i Ht]%list_elem_of_lookup)%list_elem_of_fmap
      (t' & -> & [j Ht']%list_elem_of_lookup)%list_elem_of_fmap Hne.
    apply (Hap i j); try done. congruence.
Qed.

Lemma sched_spaced s L R : sched_wf s L R → spaced (ta <$> L).
Proof. intros Hwf. eapply tasks_spaced; apply Hwf. Qed.

Lemma elem_of_all_blocks L t : t ∈ L → (ta t, tn t) ∈ all_blocks L.
Proof. intros Ht. apply list_elem_of_bind. exists t. split; [left|done]. Qed.

(** A block that is kept is kept as a task. *)
Lemma keeps_task L R m m' t :
  keeps (all_blocks L ++ R) m m' → t ∈ L → 224 <= tn t → same_on (ta t) (ta t + 224) m m'.
Proof.
  intros Hk Ht Hs. eapply same_on_weaken; [..|apply (Hk (ta t) (tn t))]; [lia|lia|].
  apply elem_of_app. left. by apply elem_of_all_blocks.
Qed.

Lemma links_same_on m m' a :
  0 < a → a + 224 < 18446744073709551616 → same_on a (a + 224) m m' →
  t_next m' a = t_next m a ∧ t_prev m' a = t_prev m a.
Proof.
  intros H0 Ht Hs. unfold t_next, t_prev, o_next, o_prev. nowrap.
  split; apply load64_same_on; (eapply same_on_weaken; [..|exact Hs]; lia).
Qed.

Lemma same_on_task_kept m m' a : same_on a (a + 224) m m' → task_kept m m' a.
Proof. intros Hs. split; (eapply same_on_weaken; [..|exact Hs]; lia). Qed.

(** Replacing the heap by one that keeps the tasks' bytes. *)
Lemma sched_with_heap s L R h' R' :
  sched_wf s L R → a_inv h' (all_blocks L ++ R') →
  (∀ t, t ∈ L → same_on (ta t) (ta t + 224) (s_mem s) (a_mem h')) →
  sched_wf (with_heap h' s) L R'.
Proof.
  intros Hwf Hi Hk. pose proof (sched_spaced s L R Hwf) as Hsp.
  assert (∀ t, t ∈ L → 0 < ta t ∧ ta t + 224 < 18446744073709551616) as Hr
    by (intros t Ht; apply (sp_range _ Hsp), list_elem_of_fmap_2; done).
  destruct Hwf. split; try done.
  - intros t Ht. rewrite <- sw_stack0 by done. destruct (Hr t Ht).
    eapply task_kept_state; [done|done|]. by apply same_on_task_kept, Hk.
  - eapply ring_ext; [|exact sw_ring0]. intros a (t & -> & Ht)%list_elem_of_fmap.
    destruct (Hr t Ht). by apply links_same_on, Hk.
Qed.

(** ** Writes to a task *)

(** The fields of [struct Task] other than its links, of a task apart from or
    equal to the one written. *)
Lemma set_next_kept l m a b v : spaced l → a ∈ l → b ∈ l → task_kept m (set_next m b v) a.
Proof.
  intros Hsp Ha Hb. destruct (sp_range l Hsp a Ha), (sp_range l Hsp b Hb).
  unfold set_next, o_next. nowrap.
  destruct (decide (a = b)) as [->|E]; [|destruct (sp_apart l Hsp a b Ha Hb E)];
    (split; intros i Hi; frame_store).
Qed.

Lemma set_prev_kept l m a b v : spaced l → a ∈ l → b ∈ l → task_kept m (set_prev m b v) a.
Proof.
  intros Hsp Ha Hb. destruct (sp_range l Hsp a Ha), (sp_range l Hsp b Hb).
  unfold set_prev, o_prev. nowrap.
  destruct (decide (a = b)) as [->|E]; [|destruct (sp_apart l Hsp a b Ha Hb E)];
    (split; intros i Hi; frame_store).
Qed.

Lemma set_state_out m a st i : 0 < a → a + 224 < 18446744073709551616 →
  ¬ (a + 172 <= i < a + 176) → set_state m a st i = m i.
Proof. intros H0 Ht Hi. unfold set_state, o_state. nowrap. frame_store. Qed.

(** A write inside the block of a listed task keeps the allocator's invariant. *)
Lemma task_write h L R t m :
  a_inv h (all_blocks L ++ R) → t ∈ L → 224 <= tn t →
  (∀ i, ¬ (ta t <= i < ta t + 224) → m i = a_mem h i) → a_inv (a_set m h) (all_blocks L ++ R).
Proof.
  intros Hi Ht Hs Hm. eapply a_write; [exact Hi|apply elem_of_app; left; by apply elem_of_all_blocks|].
  intros i Hn. apply Hm. lia.
Qed.

(** Setting the state of a listed task. *)
Lemma sched_set_state s L R t st :
  sched_wf s L R → t ∈ L → sched_wf (with_mem (set_state (s_mem s) (ta t) st) s) L R.
Proof.
  intros Hwf Ht. pose proof (sched_spaced s L R Hwf) as Hsp.
  assert (ta t ∈ ta <$> L) as Ita by (by apply list_elem_of_fmap_2).
  destruct (sp_range _ Hsp _ Ita) as [T0 T1]. destruct Hwf.
  split; unfold s_mem, with_mem; simpl; rewrite ?a_mem_set; try done.
  - eapply task_write; [done|done|auto|]. intros i Hi. apply set_state_out; lia.
  - intros t' Ht'. rewrite <- sw_stack0 by done. assert (ta t' ∈ ta <$> L) as It' by (by apply list_elem_of_fmap_2).
    destruct (sp_range _ Hsp _ It'). unfold t_stack, o_stack. nowrap. apply load64_same_on.
    intros i Hi. apply set_state_out; [lia..|].
    destruct (decide (ta t' = ta t)) as [E|E]; [rewrite E in Hi; lia|]. destruct (sp_apart _ Hsp _ _ It' Ita E); lia.
  - eapply ring_ext; [|exact sw_ring0]. intros a Ha. by eapply links_set_state.
Qed.

(** ** unlink_process *)

Section Unlink.
Context s (L1 L2 : list task) (t : task) (R : list (Z * Z)).
Context (Hwf : sched_wf s (L1 ++ t :: L2) R).

Let l := ta <$> L1 ++ t :: L2.

Lemma unlink_perm : L1 ++ t :: L2 ≡ₚ t :: L2 ++ L1.
Proof. rewrite (Permutation_app_comm L1). done. Qed.

Lemma unlink_inv h : a_inv h (all_blocks (L1 ++ t :: L2) ++ R) →
  a_inv h (all_blocks (L1 ++ L2) ++ task_blocks t ++ R).
Proof.
  apply a_perm. rewrite <- Permutation_middle.
  change (all_blocks (t :: L1 ++ L2)) with (task_blocks t ++ all_blocks (L1 ++ L2)).
  by rewrite (Permutation_app_comm (task_blocks t)), <- app_assoc.
Qed.

(** The ring of the others, seen from [t]. *)
Lemma unlink_ring b X X0 p :
  ta <$> L2 ++ L1 = b :: X → b :: X = X0 ++ [p] →
  let m' := unlink_mem (s_mem s) (ta t) in
  ring m' (ta <$> L1 ++ L2) ∧ t_next m' (ta t) = b ∧ t_prev m' (ta t) = p ∧
  (∀ a, a ∈ l → task_kept (s_mem s) m' a) ∧
  a_inv (a_set m' (sc_heap s)) (all_blocks (L1 ++ t :: L2) ++ R).
Proof.
  intros E1 E2 m'. pose proof (sched_spaced _ _ _ Hwf) as Hsp.
  assert (l ≡ₚ ta t :: b :: X) as Hl by (unfold l; rewrite <- E1; by rewrite unlink_perm).
  assert (ring (s_mem s) (ta t :: b :: X)) as Hr.
  { pose proof (sw_ring _ _ _ Hwf) as Hr. rewrite fmap_app in Hr. apply ring_rotate in Hr.
    rewrite <- E1, fmap_app. exact Hr. }
  pose proof (spaced_perm _ _ Hl Hsp) as Hsp'.
  destruct (ring_remove _ _ _ _ _ _ E2 Hsp' Hr) as (Hring & Hn & Hp).
  destruct (ring_links _ _ _ _ _ _ E2 Hr) as (N1 & _ & _ & P1 & _).
  split; [rewrite fmap_app; apply ring_rotate; by rewrite <- fmap_app, E1|].
  split; [exact Hn|]. split; [exact Hp|].
  assert (m' = set_prev (set_next (s_mem s) p b) b p) as Em.
  { unfold m', unlink_mem. rewrite P1, N1.
    assert (ta t ∈ ta t :: b :: X) as It by left. assert (p ∈ ta t :: b :: X) as Ip
      by (rewrite E2; right; apply elem_of_app; right; left).
    assert (b ∈ ta t :: b :: X) as Ib by (right; left).
    rewrite (next_set_next _ Hsp'), (prev_set_next _ Hsp') by (done || by apply (addr_u64 _ Hsp')).
    rewrite decide_False, P1, N1; [done|]. intros E. pose proof (sp_nodup _ Hsp') as [Hx _]%NoDup_cons.
    apply Hx. rewrite E, E2. apply elem_of_app. right. left. }
  assert (∀ x, x ∈ b :: X → ∃ u, u ∈ L1 ++ t :: L2 ∧ x = ta u) as Hin.
  { intros x Hx. rewrite <- E1 in Hx. apply list_elem_of_fmap in Hx as (u & -> & Hu). exists u.
    split; [|done]. rewrite unlink_perm. by right. }
  destruct (Hin b ltac:(left)) as (ub & Hub & ->).
  destruct (Hin p ltac:(rewrite E2; apply elem_of_app; right; left)) as (up & Hup & ->).
  assert (ta ub ∈ l ∧ ta up ∈ l) as [Ib Ip] by (split; by apply list_elem_of_fmap_2).
  rewrite Em. split.
  - intros a Ha. eapply task_kept_trans.
    + exact (set_next_kept l (s_mem s) a (ta up) (ta ub) Hsp Ha Ip).
    + exact (set_prev_kept l _ a (ta ub) (ta up) Hsp Ha Ib).
  - destruct (sp_range _ Hsp _ Ib), (sp_range _ Hsp _ Ip).
    assert (a_inv (a_set (set_next (s_mem s) (ta up) (ta ub)) (sc_heap s)) (all_blocks (L1 ++ t :: L2) ++ R)) as Hm1.
    { eapply task_write; [apply Hwf|exact Hup|by apply Hwf|]. intros i Hi.
      unfold set_next, o_next. nowrap. frame_store. }
    eapply (task_write _ _ _ ub (set_prev (set_next (s_mem s) (ta up) (ta ub)) (ta ub) (ta up))) in Hm1;
      [|exact Hub|by apply Hwf|].
    + by rewrite a_set_set in Hm1.
    + intros i Hi. rewrite a_mem_set. unfold set_prev, o_prev. nowrap. frame_store.
Qed.

Lemma unlink_head b X :
  ta t ∉ ta <$> L1 ++ L2 → ta <$> L2 ++ L1 = b :: X →
  (if head s =? ta t then b else head s) = hd 0 (ta <$> L1 ++ L2).
Proof.
  intros Hnt EX. rewrite (sw_head _ _ _ Hwf). destruct L1 as [|u L1']; simpl in *.
  - rewrite Z.eqb_refl. rewrite app_nil_r in EX. by rewrite EX.
  - apply not_elem_of_cons in Hnt as [Hnt _]. by replace (ta u =? ta t) with false by lia.
Qed.

Lemma unlink_tail b X X0 p :
  ta t ∉ ta <$> L1 ++ L2 → ta <$> L2 ++ L1 = b :: X → b :: X = X0 ++ [p] →
  (if tail s =? ta t then p else tail s) = List.last (ta <$> L1 ++ L2) 0.
Proof.
  intros Hnt EX E2. rewrite (sw_tail _ _ _ Hwf). destruct (decide (L2 = [])) as [E|E].
  - rewrite E in *. rewrite fmap_app, app_nil_r in *. simpl in *. rewrite List.last_last, Z.eqb_refl.
    by rewrite EX, E2, List.last_last.
  - destruct (exists_last E) as (L2' & u & E'). rewrite E' in *.
    assert (ta <$> L1 ++ t :: L2' ++ [u] = (ta <$> L1 ++ t :: L2') ++ [ta u]) as ->
      by (rewrite !fmap_app; simpl; by rewrite fmap_app, <- app_assoc).
    assert (ta <$> L1 ++ L2' ++ [u] = (ta <$> L1 ++ L2') ++ [ta u]) as Eq
      by (by rewrite !fmap_app, <- app_assoc).
    rewrite Eq in *. rewrite !List.last_last.
    replace (ta u =? ta t) with false; [done|]. symmetry. apply Z.eqb_neq. intros Hu. apply Hnt.
    rewrite Hu. apply elem_of_app. right. left.
Qed.

(** [unlink_process] removes the task from the list; its two blocks stay live
    until they are freed. *)
Lemma unlink_wf :
  let s' := unlink_process s (ta t) in
  sched_wf s' (L1 ++ L2) (task_blocks t ++ R) ∧
  (∀ a, a ∈ l → task_kept (s_mem s) (s_mem s') a) ∧ next_pid s' = next_pid s ∧
  scheduler_running s' = scheduler_running s.
Proof.
  pose proof (sched_spaced _ _ _ Hwf) as Hsp. destruct (sw_count _ _ _ Hwf) as [Hc Hcb].
  assert (Z.of_nat (length (L1 ++ L2)) = count s - 1) as Hlen
    by (rewrite Hc, !length_app; simpl; lia).
  unfold unlink_process. destruct (count s =? 1) eqn:E1; b2p.
  { assert (L1 ++ L2 = []) as E by (apply nil_length_inv; lia). rewrite E.
    pose proof (unlink_inv _ (sw_inv _ _ _ Hwf)) as Hi. rewrite E in Hi.
    split; [|done]. split; simpl; try done; [by intros ? ?%elem_of_nil..|by left|].
    rewrite E1. done. }
  destruct (ta <$> L2 ++ L1) as [|b X] eqn:EX.
  { apply (f_equal length) in EX. rewrite length_fmap, length_app in EX. rewrite length_app in Hlen.
    simpl in EX. lia. }
  destruct (exists_last (l := b :: X)) as (X0 & p & E2); [done|].
  destruct (unlink_ring b X X0 p EX E2) as (Hr & Hn & Hp & Hk & Hi).
  rewrite Hn, Hp.
  set (m' := unlink_mem (s_mem s) (ta t)) in *.
  assert (∀ u, u ∈ L1 ++ L2 → u ∈ L1 ++ t :: L2) as Hsub
    by (intros u [?|?]%elem_of_app; apply elem_of_app; [by left|right; by right]).
  assert (ta t ∉ ta <$> L1 ++ L2) as Hnt.
  { pose proof (sp_nodup _ Hsp) as Hnd. rewrite <- Permutation_middle in Hnd. simpl in Hnd.
    by apply NoDup_cons in Hnd as [? _]. }
  split; [|split; [unfold s_mem; simpl; by rewrite a_mem_set|done]].
  split; unfold s_mem; simpl; rewrite ?a_mem_set.
  - by apply unlink_inv.
  - intros u Hu. by apply Hwf, Hsub.
  - intros u Hu. rewrite <- (sw_stack _ _ _ Hwf u) by auto.
    assert (ta u ∈ l) as Il by (apply list_elem_of_fmap_2; auto).
    destruct (sp_range _ Hsp _ Il). by apply task_kept_state; [..|apply Hk].
  - exact Hr.
  - by eapply unlink_head.
  - by eapply unlink_tail.
  - destruct (current s =? ta t) eqn:Ec; b2p.
    + right. rewrite (Permutation_app_comm L1), EX. left.
    + destruct (sw_current _ _ _ Hwf) as [?|Hin]; [by left|right].
      rewrite <- Permutation_middle in Hin. simpl in Hin. by apply elem_of_cons in Hin as [?|?].
  - rewrite u32_id; lia.
Qed.

End Unlink.

(** ** link_process *)

(** Link writes to listed tasks keep the allocator's invariant. *)
Lemma set_next_inv h L R m b v :
  a_inv (a_set m h) (all_blocks L ++ R) → (∀ t, t ∈ L → 224 <= tn t) → b ∈ ta <$> L →
  a_inv (a_set (set_next m b v) h) (all_blocks L ++ R).
Proof.
  intros Hi Hs Hb. pose proof (tasks_spaced _ _ _ Hi Hs) as Hsp.
  destruct (sp_range _ Hsp b Hb) as [Hb0 Hb1]. apply list_elem_of_fmap in Hb as (u & -> & Hu).
  rewrite <- (a_set_set _ m). eapply task_write; [exact Hi|exact Hu|auto|].
  intros i Hn. rewrite a_mem_set. unfold set_next, o_next. nowrap. frame_store.
Qed.

Lemma set_prev_inv h L R m b v :
  a_inv (a_set m h) (all_blocks L ++ R) → (∀ t, t ∈ L → 224 <= tn t) → b ∈ ta <$> L →
  a_inv (a_set (set_prev m b v) h) (all_blocks L ++ R).
Proof.
  intros Hi Hs Hb. pose proof (tasks_spaced _ _ _ Hi Hs) as Hsp.
  destruct (sp_range _ Hsp b Hb) as [Hb0 Hb1]. apply list_elem_of_fmap in Hb as (u & -> & Hu).
  rewrite <- (a_set_set _ m). eapply task_write; [exact Hi|exact Hu|auto|].
  intros i Hn. rewrite a_mem_set. unfold set_prev, o_prev. nowrap. frame_store.
Qed.

Lemma same_inv h L R t :
  a_inv h (all_blocks L ++ R) → t ∈ L → 224 <= tn t → a_inv (a_set (a_mem h) h) (all_blocks L ++ R).
Proof. intros Hi Ht Hs. by eapply task_write. Qed.

(** The memory and the fields [link_process] leaves. *)
Lemma link_facts s L R R' t :
  sched_wf s L R' → a_inv (sc_heap s) (all_blocks (t :: L) ++ R) →
  (∀ u, u ∈ t :: L → 224 <= tn u) → spaced (ta <$> t :: L) →
  ∃ m', s_mem (link_process s (ta t)) = m' ∧ link_process s (ta t) =
    mk_sched (a_set m' (sc_heap s)) (hd 0 (ta <$> L ++ [t])) (ta t) (current s) (u32 (count s + 1))
             (next_pid s) (scheduler_running s) ∧
    ring m' (ta <$> L ++ [t]) ∧ a_inv (a_set m' (sc_heap s)) (all_blocks (t :: L) ++ R) ∧
    ∀ a, a ∈ ta <$> t :: L → task_kept (s_mem s) m' a.
Proof.
  intros Hwf Hi Hs Hsp. assert (ta t ∈ ta <$> t :: L) as It by left.
  pose proof (same_inv _ _ _ t Hi ltac:(left) ltac:(apply Hs; left)) as Hi0. fold (s_mem s) in Hi0.
  unfold link_process. rewrite (sw_head _ _ _ Hwf), (sw_tail _ _ _ Hwf).
  destruct L as [|u L'].
  - exists (set_prev (set_next (s_mem s) (ta t) (ta t)) (ta t) (ta t)). simpl hd.
    split; [unfold s_mem; simpl; by rewrite a_mem_set|]. split; [done|]. split; [by apply ring_single|].
    split; [by apply set_prev_inv; [apply set_next_inv|..]|].
    intros a Ha. eapply task_kept_trans; [|by eapply set_prev_kept]. by eapply set_next_kept.
  - assert (ta u ≠ 0) as Hu0 by (destruct (sp_range _ Hsp (ta u)); [right; left|lia]).
    destruct (exists_last (l := u :: L')) as (L0 & w & Ew); [done|].
    assert (List.last (ta <$> u :: L') 0 = ta w) as -> by (rewrite Ew, fmap_app; apply List.last_last).
    simpl hd. apply Z.eqb_neq in Hu0. rewrite Hu0.
    assert (ta u ∈ ta <$> t :: u :: L') as Iu by (right; left).
    assert (ta w ∈ ta <$> t :: u :: L') as Iw
      by (right; change (ta w ∈ ta <$> u :: L'); rewrite Ew, fmap_app; apply elem_of_app; right; left).
    exists (link_mem (s_mem s) (ta t) (ta u) (ta w)).
    split; [unfold s_mem; simpl; by rewrite a_mem_set|]. split; [done|]. split; [|split].
    + assert (ta u :: (ta <$> L') = (ta <$> L0) ++ [ta w]) as E
        by (change (ta <$> u :: L' = (ta <$> L0) ++ [ta w]); by rewrite Ew, fmap_app).
      rewrite fmap_app.
      exact (ring_insert _ (ta t) (ta u) (ta <$> L') (ta <$> L0) (ta w) E Hsp (sw_ring _ _ _ Hwf)).
    + unfold link_mem. by repeat (apply set_prev_inv || apply set_next_inv).
    + intros a Ha. unfold link_mem. cbv zeta.
      do 3 (eapply task_kept_trans; [|by eapply set_prev_kept || by eapply set_next_kept]).
      by eapply set_next_kept.
Qed.

Lemma link_process_wf s L R t :
  sched_wf s L (task_blocks t ++ R) → 224 <= tn t → t_stack (s_mem s) (ta t) = ts t →
  count s + 1 < 4294967296 →
  let s' := link_process s (ta t) in
  sched_wf s' (L ++ [t]) R ∧ next_pid s' = next_pid s ∧
  (∀ a, a ∈ ta <$> t :: L → task_kept (s_mem s) (s_mem s') a).
Proof.
  intros Hwf Hn Hst Hcb. destruct (sw_count _ _ _ Hwf) as [Hc _].
  assert (a_inv (sc_heap s) (all_blocks (t :: L) ++ R)) as Hinv.
  { eapply a_perm; [|apply Hwf]. change (all_blocks (t :: L)) with (task_blocks t ++ all_blocks L).
    by rewrite app_assoc, (Permutation_app_comm (all_blocks L)). }
  assert (∀ u, u ∈ t :: L → 224 <= tn u) as Hsz by (intros u [->|?]%elem_of_cons; [done|by apply Hwf]).
  pose proof (tasks_spaced _ _ _ Hinv Hsz) as Hsp.
  assert (∀ u, u ∈ t :: L → 0 < ta u ∧ ta u + 224 < 18446744073709551616) as Hrg
    by (intros u Hu; by apply (sp_range _ Hsp), list_elem_of_fmap_2).
  assert (∃ m', s_mem (link_process s (ta t)) = m' ∧ link_process s (ta t) =
    mk_sched (a_set m' (sc_heap s)) (hd 0 (ta <$> L ++ [t])) (ta t) (current s) (u32 (count s + 1))
             (next_pid s) (scheduler_running s) ∧
    ring m' (ta <$> L ++ [t]) ∧ a_inv (a_set m' (sc_heap s)) (all_blocks (t :: L) ++ R) ∧
    ∀ a, a ∈ ta <$> t :: L → task_kept (s_mem s) m' a) as (m' & Em & El & Hr & Hi & Hk).
  { by eapply link_facts. }
  simpl. rewrite Em. split; [|split; [by rewrite El|done]]. rewrite El in Em |- *.
  split; rewrite ?Em; simpl; try done.
  - eapply a_perm; [|exact Hi]. rewrite <- Permutation_cons_append. done.
  - intros u Hu. apply Hsz. rewrite <- Permutation_cons_append in Hu. done.
  - intros u Hu. rewrite <- Permutation_cons_append in Hu. destruct (Hrg u Hu).
    transitivity (t_stack (s_mem s) (ta u)).
    + apply task_kept_state; [done|done|]. apply Hk. by apply list_elem_of_fmap_2.
    + apply elem_of_cons in Hu as [->|Hu]; [done|by apply Hwf].
  - rewrite fmap_app. simpl. by rewrite List.last_last.
  - destruct (sw_current _ _ _ Hwf) as [?|?]; [by left|right]. rewrite fmap_app. apply elem_of_app. by left.
  - rewrite length_app, u32_id by lia. simpl. lia.
Qed.

(** ** cleanup_terminated *)

(** Freeing a block that belongs to no listed task. *)
Lemma sched_free s L b n R :
  sched_wf s L ((b, n) :: R) →
  ∃ k r h' R', (∀ fuel, (k <= fuel)%nat → a_free fuel (sc_heap s) b = Ret (r, h')) ∧
    sched_wf (with_heap h' s) L R' ∧ (R' = R ∨ R' = (b, n) :: R) ∧
    keeps (all_blocks L ++ R) (s_mem s) (a_mem h').
Proof.
  intros Hwf.
  assert (a_inv (sc_heap s) ((b, n) :: all_blocks L ++ R)) as Hi
    by (eapply a_perm; [symmetry; apply Permutation_middle|apply Hwf]).
  destruct (a_free_ok _ _ _ _ Hi) as (k & r & h' & Hf & Hk & Hor).
  assert (∀ t, t ∈ L → same_on (ta t) (ta t + 224) (s_mem s) (a_mem h')) as Hkt
    by (intros t Ht; apply (keeps_task L R); [done|done|by apply Hwf]).
  destruct Hor as [Hi'|Hi'].
  - exists k, r, h', R. split; [done|]. split; [by eapply sched_with_heap|]. auto.
  - exists k, r, h', ((b, n) :: R). split; [done|]. split; [|auto]. eapply sched_with_heap; [done| |done].
    eapply a_perm; [apply Permutation_middle|exact Hi'].
Qed.

(** Unlinking a terminated task and freeing its stack and itself. *)
Definition remove_task (fuel : nat) s (t : Z) : outcome (sched A) :=
  let s := unlink_process s t in
  '(_, h) ← a_free fuel (sc_heap s) (t_stack (s_mem s) t);
  '(_, h) ← a_free fuel h t;
  Ret (with_heap h s).

Lemma remove_task_spec s L1 L2 t R :
  sched_wf s (L1 ++ t :: L2) R →
  ∃ k s' R', (∀ fuel, (k <= fuel)%nat → remove_task fuel s (ta t) = Ret s') ∧
    sched_wf s' (L1 ++ L2) R' ∧
    (∀ u, u ∈ L1 ++ L2 → task_kept (s_mem s) (s_mem s') (ta u)) ∧
    next_pid s' = next_pid s ∧ scheduler_running s' = scheduler_running s.
Proof.
  intros Hwf. destruct (unlink_wf _ _ _ _ _ Hwf) as (Hw1 & Hk1 & Hp1 & Hr1).
  pose proof (sched_spaced _ _ _ Hwf) as Hsp. set (s1 := unlink_process s (ta t)) in *.
  assert (t ∈ L1 ++ t :: L2) as It by (apply elem_of_app; right; left).
  assert (ta t ∈ ta <$> L1 ++ t :: L2) as Ia by (by apply list_elem_of_fmap_2).
  assert (t_stack (s_mem s1) (ta t) = ts t) as Est.
  { destruct (sp_range _ Hsp _ Ia). transitivity (t_stack (s_mem s) (ta t)); [|by apply Hwf].
    apply task_kept_state; [done|done|]. by apply Hk1. }
  assert (sched_wf s1 (L1 ++ L2) ((ts t, tsn t) :: (ta t, tn t) :: R)) as Hw1'.
  { destruct Hw1. split; try done. eapply a_perm; [|exact sw_inv0].
    apply Permutation_app_head. apply Permutation_swap. }
  destruct (sched_free _ _ _ _ _ Hw1') as (k1 & r1 & h1 & R1 & Hf1 & Hw2 & HR1 & Hkp1).
  assert (∃ R1', R1 ≡ₚ (ta t, tn t) :: R1') as [R1' HR].
  { destruct HR1 as [->| ->]; [by exists R|]. exists ((ts t, tsn t) :: R). apply Permutation_swap. }
  assert (sched_wf (with_heap h1 s1) (L1 ++ L2) ((ta t, tn t) :: R1')) as Hw2'.
  { destruct Hw2. split; try done. eapply a_perm; [|exact sw_inv0]. by rewrite HR. }
  destruct (sched_free _ _ _ _ _ Hw2') as (k2 & r2 & h2 & R2 & Hf2 & Hw3 & _ & Hkp2).
  exists (k1 `max` k2)%nat, (with_heap h2 s1), R2. split; [|split; [exact Hw3|split; [|done]]].
  - intros fuel Hf. unfold remove_task. fold s1. rewrite Est, Hf1 by lia. simpl.
    pose proof (Hf2 fuel ltac:(lia)) as E2. simpl in E2. by rewrite E2.
  - intros u Hu. assert (ta u ∈ ta <$> L1 ++ t :: L2) as Iu.
    { apply list_elem_of_fmap_2. apply elem_of_app in Hu as [?|?]; apply elem_of_app; [by left|right; by right]. }
    eapply task_kept_trans; [by apply Hk1|]. apply same_on_task_kept.
    eapply same_on_trans; [eapply keeps_task; [exact Hkp1|done|by apply Hw1]|].
    eapply keeps_task; [exact Hkp2|done|by apply Hw1].
Qed.

Lemma cleanup_loop_S fuel s cur :
  cleanup_loop (S fuel) s cur =
  (s' ← (if in_state (s_mem s) cur TERMINATED then remove_task fuel s cur else Ret s);
   if negb (t_next (s_mem s) cur =? head s') && (0 <? count s')
   then cleanup_loop fuel s' (t_next (s_mem s) cur) else Ret s').
Proof. done. Qed.

(** The tasks [cleanup_terminated] keeps. *)
Definition terminated (m : mem) (t : task) : bool := in_state m (ta t) TERMINATED.

Definition alive (m : mem) (L : list task) : list task :=
  List.filter (λ u, negb (terminated m u)) L.

Definition cleaned (m : mem) (L : list task) : list task :=
  match L with
  | [] => []
  | t :: L' => if terminated m t then L' else t :: alive m L'
  end.

(** Tasks whose bytes are kept have the same state. *)
Lemma alive_kept m m' l L :
  spaced l → (∀ u, u ∈ L → ta u ∈ l ∧ task_kept m m' (ta u)) → alive m' L = alive m L.
Proof.
  intros Hsp Hk. apply List.filter_ext_in. intros u Hu. apply list_elem_of_In in Hu.
  destruct (Hk u Hu) as [Il Hku]. destruct (sp_range _ Hsp _ Il).
  unfold terminated, in_state. by destruct (task_kept_state m m' (ta u)) as [-> _].
Qed.

(** What a clean-up that keeps the tasks [L'] of [s] leaves. *)
Record cleans s s' (L' : list task) (R' : list (Z * Z)) : Prop := {
  cl_wf : sched_wf s' L' R';
  cl_kept : ∀ u, u ∈ L' → task_kept (s_mem s) (s_mem s') (ta u);
  cl_pid : next_pid s' = next_pid s;
  cl_running : scheduler_running s' = scheduler_running s;
}.

Lemma cleans_trans s1 s2 s3 L2 R2 L3 R3 :
  cleans s1 s2 L2 R2 → cleans s2 s3 L3 R3 → (∀ u, u ∈ L3 → u ∈ L2) → cleans s1 s3 L3 R3.
Proof.
  intros [W1 K1 P1 S1] [W2 K2 P2 S2] Hsub. split; try congruence.
  intros u Hu. eapply task_kept_trans; [apply K1; auto|by apply K2].
Qed.

Lemma cleans_refl s L R : sched_wf s L R → cleans s s L R.
Proof. intros Hwf. split; try done. Qed.

(** One iteration at task [c]: its state and the list after it. *)
Lemma cleanup_step s P c Q R :
  sched_wf s (P ++ c :: Q) R →
  ∃ k s' R', (∀ fuel, (k <= fuel)%nat →
      (if in_state (s_mem s) (ta c) TERMINATED then remove_task fuel s (ta c) else Ret s) = Ret s') ∧
    cleans s s' (if terminated (s_mem s) c then P ++ Q else P ++ c :: Q) R'.
Proof.
  intros Hwf. unfold terminated. destruct (in_state _ _ _).
  - destruct (remove_task_spec _ _ _ _ _ Hwf) as (k & s' & R' & Hf & Hw & Hk & Hp & Hr).
    exists k, s', R'. by split.
  - exists O, s, R. split; [done|]. by apply cleans_refl.
Qed.

(** The loop past the head removes every terminated task it meets. *)
Lemma cleanup_rest s P c Q R :
  P ≠ [] → sched_wf s (P ++ c :: Q) R →
  ∃ k s' R', (∀ fuel, (k <= fuel)%nat → cleanup_loop fuel s (ta c) = Ret s') ∧
    cleans s s' (P ++ alive (s_mem s) (c :: Q)) R'.
Proof.
  revert s P c R; induction Q as [|d Q IH]; intros s P c R HP Hwf;
    destruct P as [|p P]; try done;
    destruct (cleanup_step _ _ _ _ _ Hwf) as (k & s1 & R1 & Hf & Hc);
    pose proof (sw_ring _ _ _ Hwf) as Hr; pose proof (sched_spaced _ _ _ Hwf) as Hsp;
    pose proof (cl_wf _ _ _ _ Hc) as Hw1.
  - exists (S k), s1, R1. split.
    + intros [|fuel] Hfu; [lia|]. rewrite cleanup_loop_S, Hf by lia. simpl.
      rewrite fmap_app in Hr. simpl in Hr. rewrite (ring_wrap _ _ _ _ Hr).
      rewrite (sw_head _ _ _ Hw1). replace (hd 0 _) with (ta p) by (by destruct (terminated _ _)).
      by rewrite Z.eqb_refl.
    + unfold alive. simpl. destruct (terminated (s_mem s) c); simpl; [by rewrite app_nil_r in *|done].
  - assert (t_next (s_mem s) (ta c) = ta d) as Hn
      by (rewrite fmap_app in Hr; exact (ring_next _ (fmap (M := list) ta (p :: P)) (ta c) (ta d) (fmap (M := list) ta Q) Hr)).
    set (P1 := if terminated (s_mem s) c then p :: P else (p :: P) ++ [c]).
    assert (cleans s s1 (P1 ++ d :: Q) R1) as Hc1.
    { subst P1. destruct (terminated (s_mem s) c); [done|]. by rewrite <- app_assoc. }
    assert (P1 ≠ [] ∧ hd 0 (ta <$> P1 ++ d :: Q) = ta p) as [HP1 Hh] by (subst P1; by destruct (terminated _ _)).
    destruct (IH s1 P1 d R1 HP1 (cl_wf _ _ _ _ Hc1)) as (k2 & s2 & R2 & Hf2 & Hc2).
    exists (S (k `max` k2))%nat, s2, R2. split.
    + intros [|fuel] Hfu; [lia|]. rewrite cleanup_loop_S, Hf by lia. simpl. rewrite Hn.
      rewrite (sw_head _ _ _ (cl_wf _ _ _ _ Hc1)), Hh. destruct (sw_count _ _ _ (cl_wf _ _ _ _ Hc1)) as [-> _].
      replace (0 <? _) with true by (symmetry; apply Z.ltb_lt; rewrite length_app; simpl; lia).
      replace (ta d =? ta p) with false; [apply Hf2; lia|]. symmetry. apply Z.eqb_neq. intros E.
      pose proof (sp_nodup _ Hsp) as Hnd. rewrite fmap_app in Hnd. simpl in Hnd.
      apply NoDup_cons in Hnd as [Hnd _]. apply Hnd. rewrite <- E. apply elem_of_app. right. right. left.
    + assert (alive (s_mem s1) (d :: Q) = alive (s_mem s) (d :: Q)) as Ea.
      { eapply (alive_kept _ _ _ _ Hsp). intros u Hu. split.
        - apply list_elem_of_fmap_2. apply elem_of_app. right. by right.
        - apply (cl_kept _ _ _ _ Hc1). apply elem_of_app. by right. }
      rewrite Ea in Hc2.
      assert ((p :: P) ++ alive (s_mem s) (c :: d :: Q) = P1 ++ alive (s_mem s) (d :: Q)) as ->.
      { subst P1. unfold alive. simpl. destruct (terminated (s_mem s) c); simpl; [done|].
        by rewrite <- app_assoc. }
      eapply cleans_trans; [exact Hc1|exact Hc2|]. intros u [?|Hu]%elem_of_app; apply elem_of_app; [by left|right].
      unfold alive in Hu. apply list_elem_of_In, List.filter_In in Hu as [Hu _]. by apply list_elem_of_In.
Qed.

Lemma cleanup_spec s L R :
  sched_wf s L R →
  ∃ k s' R', (∀ fuel, (k <= fuel)%nat → cleanup_terminated fuel s = Ret s') ∧
    cleans s s' (cleaned (s_mem s) L) R'.
Proof.
  intros Hwf. unfold cleanup_terminated. pose proof (sched_spaced _ _ _ Hwf) as Hsp.
  rewrite (sw_head _ _ _ Hwf). destruct L as [|t Q]; simpl hd.
  { exists O, s, R. split; [done|]. by apply cleans_refl. }
  assert (ta t ≠ 0) as Ht0 by (destruct (sp_range _ Hsp (ta t)); [left|lia]).
  apply Z.eqb_neq in Ht0. rewrite Ht0.
  destruct (cleanup_step s [] t Q R Hwf) as (k & s1 & R1 & Hf & Hc).
  pose proof (cl_wf _ _ _ _ Hc) as Hw1. pose proof (sw_ring _ _ _ Hwf) as Hr.
  destruct (sw_count _ _ _ Hw1) as [Hcnt _]. simpl in Hcnt, Hc, Hw1.
  destruct Q as [|d Q].
  - exists (S k), s1, R1. split.
    + intros [|fuel] Hfu; [lia|]. rewrite cleanup_loop_S, Hf by lia. simpl.
      change (chain (s_mem s) [ta t; ta t]) in Hr. destruct Hr as [-> _].
      rewrite (sw_head _ _ _ Hw1), Hcnt. unfold cleaned. destruct (terminated _ _); simpl.
      * by rewrite andb_false_r.
      * by rewrite Z.eqb_refl.
    + unfold cleaned. simpl. by destruct (terminated (s_mem s) t).
  - assert (t_next (s_mem s) (ta t) = ta d) as Hn
      by exact (ring_next _ [] (ta t) (ta d) (fmap (M := list) ta Q) Hr).
    unfold cleaned. destruct (terminated (s_mem s) t).
    + exists (S k), s1, R1. split; [|done].
      intros [|fuel] Hfu; [lia|]. rewrite cleanup_loop_S, Hf by lia. simpl.
      by rewrite Hn, (sw_head _ _ _ Hw1), Z.eqb_refl.
    + destruct (cleanup_rest s1 [t] d Q R1) as (k2 & s2 & R2 & Hf2 & Hc2); [done|done|].
      exists (S (k `max` k2))%nat, s2, R2. split.
      * intros [|fuel] Hfu; [lia|]. rewrite cleanup_loop_S, Hf by lia. simpl.
        rewrite Hn, (sw_head _ _ _ Hw1), Hcnt. simpl hd.
        replace (0 <? _) with true by (symmetry; apply Z.ltb_lt; simpl; lia).
        replace (ta d =? ta t) with false; [apply Hf2; lia|]. symmetry. apply Z.eqb_neq. intros E.
        pose proof (sp_nodup _ Hsp) as [Hnd _]%NoDup_cons. apply Hnd. rewrite <- E. left.
      * rewrite <- (alive_kept (s_mem s) (s_mem s1) _ _ Hsp).
        { eapply cleans_trans; [exact Hc|exact Hc2|]. intros u [->|Hu]%elem_of_cons; [left|].
          unfold alive in Hu. apply list_elem_of_In, List.filter_In in Hu as [Hu _].
          right. by apply list_elem_of_In. }
        intros u Hu. split; [apply list_elem_of_fmap_2; by right|]. apply (cl_kept _ _ _ _ Hc). by right.
Qed.

(** ** Switching *)

Lemma find_split {B} (f : B → bool) l x :
  List.find f l = Some x → ∃ l1 l2, l = l1 ++ x :: l2 ∧ f x = true ∧ ∀ y, y ∈ l1 → f y = false.
Proof.
  induction l as [|a l IH]; simpl; [done|]. destruct (f a) eqn:Ea.
  - intros [= ->]. exists [], l. split; [done|]. split; [done|]. by intros y ?%elem_of_nil.
  - intros (l1 & l2 & -> & Hx & Hl)%IH. exists (a :: l1), l2. split; [done|]. split; [done|].
    intros y [->|Hy]%elem_of_cons; auto.
Qed.

Lemma yield_loop_mono fuel fuel' m cnt next checked r :
  (fuel <= fuel')%nat → yield_loop fuel m cnt next checked = Ret r →
  yield_loop fuel' m cnt next checked = Ret r.
Proof.
  revert fuel' next checked; induction fuel as [|fuel IH]; intros [|fuel'] next checked Hf; [done|done|lia|].
  cbn [yield_loop]. destruct (_ && _); [apply IH; lia|done].
Qed.

(** [yield]'s choice: the first runnable task after the current one, or the end
    of a full round. *)
Lemma yield_choice s P c Q R :
  sched_wf s (P ++ c :: Q) R →
  ∃ k t n, (∀ fuel, (k <= fuel)%nat →
      yield_loop fuel (s_mem s) (count s) (t_next (s_mem s) (ta c)) 0 = Ret (t, n)) ∧
    ((n = count s ∧ ∀ u, u ∈ P ++ c :: Q → runnable (s_mem s) (ta u) = false) ∨
     (n < count s ∧ ∃ X u Y, Q ++ P ++ [c] = X ++ u :: Y ∧ t = ta u ∧ runnable (s_mem s) (ta u) = true ∧
        ∀ x, x ∈ X → runnable (s_mem s) (ta x) = false)).
Proof.
  intros Hwf. destruct (sw_count _ _ _ Hwf) as [Hc Hcb].
  assert (ring (s_mem s) (ta <$> (Q ++ P) ++ [c])) as Hr.
  { pose proof (sw_ring _ _ _ Hwf) as Hr. rewrite (cons_middle c P Q), app_assoc, fmap_app in Hr.
    apply ring_rotate in Hr. by rewrite <- fmap_app, app_assoc in Hr. }
  assert (∃ d V, (Q ++ P) ++ [c] = d :: V ∧ t_next (s_mem s) (ta c) = ta d) as (d & V & EV & Hn).
  { destruct (Q ++ P) as [|d W]; [exists c, []|exists d, (W ++ [c])]; (split; [done|]).
    - apply Hr.
    - rewrite fmap_app in Hr. exact (ring_wrap _ _ _ _ Hr). }
  rewrite EV in Hr. rewrite Hn. rewrite (app_assoc Q P [c]), EV.
  assert (Z.of_nat (length V) + 1 = count s) as Hlen.
  { rewrite Hc. apply (f_equal length) in EV. rewrite !length_app in EV. rewrite length_app. simpl in *. lia. }
  exists (length V + 2)%nat.
  destruct (yield_loop_spec (length V + 2) (s_mem s) (count s) (fmap (M := list) ta V) (ta d) (ta d) 0 Hr)
    as (t & n & Hy & Hres); rewrite ?length_fmap; [lia..|].
  exists t, n. split.
  - intros fuel Hf. eapply yield_loop_mono; [exact Hf|exact Hy].
  - change (ta d :: (ta <$> V)) with (ta <$> d :: V) in Hres.
    destruct (List.find _ _) as [x|] eqn:Ef.
    + destruct Hres as [-> Hlt]. right. split; [done|].
      destruct (find_split _ _ _ Ef) as (l1 & l2 & El & Hx & Hl1).
      apply fmap_app_inv in El as (X & Y' & -> & EY & ->).
      symmetry in EY. apply fmap_cons_inv in EY as (u & Y & -> & _ & ->).
      exists X, u, Y. split; [done|]. split; [done|]. split; [done|].
      intros x Hx'. by apply Hl1, list_elem_of_fmap_2.
    + left. split; [done|]. intros u Hu. apply (List.find_none _ _ Ef), list_elem_of_In, list_elem_of_fmap_2.
      rewrite <- EV. rewrite <- Permutation_middle in Hu.
      rewrite <- Permutation_cons_append, (Permutation_app_comm Q). done.
Qed.

Lemma yield_spec s L R :
  sched_wf s L R →
  ∃ k o s' s1 R1, (∀ fuel, (k <= fuel)%nat → yield fuel s = Ret (o, s')) ∧
    cleans s s1 (cleaned (s_mem s) L) R1 ∧ sched_wf s' (cleaned (s_mem s) L) R1 ∧
    match o with
    | None => s' = s1 ∧ (current s1 = 0 ∨ ∀ u, u ∈ cleaned (s_mem s) L →
                runnable (s_mem s1) (ta u) = true → ta u = current s1)
    | Some e => ∃ P c Q X u Y, cleaned (s_mem s) L = P ++ c :: Q ∧ current s1 = ta c ∧
        Q ++ P = X ++ u :: Y ∧ (∀ x, x ∈ X → runnable (s_mem s1) (ta x) = false) ∧
        runnable (s_mem s1) (ta u) = true ∧ current s' = ta u ∧
        in_state (s_mem s') (ta u) ACTIVE = true ∧ e = t_rip (s_mem s1) (ta u)
    end.
Proof.
  intros Hwf. destruct (cleanup_spec s L R Hwf) as (k & s1 & R1 & Hcl & Hc).
  pose proof (cl_wf _ _ _ _ Hc) as Hw1. set (L' := cleaned (s_mem s) L) in *.
  destruct (sw_count _ _ _ Hw1) as [Hcnt Hcb].
  destruct (sw_current _ _ _ Hw1) as [H0|Hin].
  { exists k, None, s1, s1, R1. split; [|split; [done|split; [done|split; [done|by left]]]].
    intros fuel Hf. unfold yield. rewrite Hcl by done. simpl. by rewrite H0. }
  apply list_elem_of_fmap in Hin as (c & Hcur & Hcin). apply list_elem_of_split in Hcin as (P & Q & EL).
  pose proof (sched_spaced _ _ _ Hw1) as Hsp. rewrite EL in Hw1.
  destruct (yield_choice _ _ _ _ _ Hw1) as (k2 & t & n & Hy & Hres). rewrite <- EL in Hw1.
  assert (ta c ∈ ta <$> L') as Ic by (rewrite EL; apply list_elem_of_fmap_2, elem_of_app; right; left).
  destruct (sp_range _ Hsp _ Ic) as [C0 _].
  assert (∀ fuel, ((k `max` k2) <= fuel)%nat → yield fuel s =
    if count s1 <=? n then Ret (None, s1) else if t =? ta c then Ret (None, s1)
    else let s2 := with_mem (set_state (s_mem s1) t ACTIVE) (with_current t s1) in
         Ret (Some (t_rip (s_mem s2) t), s2)) as Hyield.
  { intros fuel Hf. unfold yield. rewrite Hcl by lia. simpl. rewrite Hcur.
    replace (ta c =? 0) with false by lia.
    assert (0 < count s1) by (rewrite Hcnt, EL, length_app; cbn [length]; lia).
    replace (count s1 =? 0) with false by lia. simpl.
    rewrite Hy by lia. simpl. done. }
  destruct Hres as [[-> Hnone]|(Hlt & X & u & Y & EX & -> & Hru & HX)].
  { exists (k `max` k2)%nat, None, s1, s1, R1. split; [|split; [done|split; [done|split; [done|right]]]].
    - intros fuel Hf. rewrite Hyield by done. by rewrite Z.leb_refl.
    - intros u Hu. rewrite EL in Hu. by rewrite Hnone. }
  replace (count s1 <=? n) with false in Hyield by lia.
  destruct (exists_last (l := u :: Y)) as (Z0 & z & EZ); [done|].
  rewrite app_assoc, EZ, app_assoc in EX. apply app_inj_tail in EX as [EX <-].
  assert (L' ≡ₚ c :: Q ++ P) as Hperm by (rewrite EL, <- Permutation_middle, (Permutation_app_comm Q); done).
  assert (ta c ∉ ta <$> Q ++ P) as Hcn.
  { pose proof (sp_nodup _ Hsp) as Hnd. rewrite Hperm in Hnd. by apply NoDup_cons in Hnd as [? _]. }
  destruct Z0 as [|u0 Z0]; simpl in EZ; injection EZ as -> ->.
  - exists (k `max` k2)%nat, None, s1, s1, R1. split; [|split; [done|split; [done|split; [done|right]]]].
    + intros fuel Hf. rewrite Hyield by done. by rewrite Z.eqb_refl.
    + intros w Hw Hrw. rewrite Hperm, EX, app_nil_r in Hw. apply elem_of_cons in Hw as [->|Hw]; [done|].
      by rewrite HX in Hrw.
  - assert (u0 ∈ Q ++ P) as Hu by (rewrite EX; apply elem_of_app; right; left).
    assert (ta u0 ≠ ta c) as Huc by (intros E; apply Hcn; rewrite <- E; by apply list_elem_of_fmap_2).
    assert (u0 ∈ L') as HuL by (rewrite Hperm; by right).
    assert (ta u0 ∈ ta <$> L') as Iu by (by apply list_elem_of_fmap_2).
    destruct (sp_range _ Hsp _ Iu) as [U0 U1].
    eexists (k `max` k2)%nat, (Some _), _, s1, R1. split; [|split; [done|split]].
    + intros fuel Hf. rewrite Hyield by done. apply Z.eqb_neq in Huc. by rewrite Huc.
    + apply (sched_set_state (with_current (ta u0) s1) L' R1 u0 ACTIVE); [|done].
      destruct Hw1. split; try done. by right.
    + exists P, c, Q, X, u0, Z0. do 5 (split; [done|]). split; [done|].
      unfold s_mem. simpl. rewrite !a_mem_set.
      unfold in_state, t_state, t_rip, set_state, o_state, o_rip. nowrap. simpl_mem. split; [done|reflexivity].
Qed.

(** ** spawn_process *)

(** The fields of a task that [init_task] sets up. *)
Lemma init_task_spec m a stack entry pid name priority :
  0 < a → a + 224 < 18446744073709551616 → is_u64 stack → is_u64 entry → is_u32 pid →
  stack + 32768 < 18446744073709551616 →
  let m' := init_task m a stack entry pid name priority in
  t_stack m' a = stack ∧ t_pid m' a = pid ∧ in_state m' a READY = true ∧ t_rip m' a = entry ∧
  load64 m' (a + o_rsp) = stack + 32768 ∧ (∀ i, ¬ (a <= i < a + 224) → m' i = m i).
Proof.
  intros H0 Ht Hs He Hp Hst. unfold is_u32, is_u64 in *.
  unfold init_task, set_state, t_stack, t_pid, in_state, t_state, t_rip, STACK_SIZE, CONTEXT_SIZE,
    o_stack, o_rip, o_cs, o_ss, o_rflags, o_rsp, o_pid, o_state, o_name, o_priority, o_start_time, o_cpu_time.
  nowrap. simpl_mem. split_and!; try done. intros i Hi. frame_store.
  rewrite memset_out by lia. frame_store.
Qed.

Lemma spawn_spec s L R entry name priority :
  sched_wf s L R → is_u64 entry → is_u32 (next_pid s) → count s + 1 < 4294967296 →
  a_ready (sc_heap s) TASK_SIZE →
  (∀ k b h, (∀ fuel, (k <= fuel)%nat → a_malloc fuel (sc_heap s) TASK_SIZE = Ret (b, h)) →
     a_ready h STACK_SIZE) →
  ∃ k t s', (∀ fuel, (k <= fuel)%nat → spawn_process fuel s entry name priority = Ret (ta t, s')) ∧
    sched_wf s' (L ++ [t]) R ∧ ta t ≠ 0 ∧
    t_pid (s_mem s') (ta t) = next_pid s ∧ next_pid s' = u32 (next_pid s + 1) ∧
    in_state (s_mem s') (ta t) READY = true ∧ t_rip (s_mem s') (ta t) = entry ∧
    (∀ u, u ∈ L → task_kept (s_mem s) (s_mem s') (ta u)).
Proof.
  intros Hwf He Hpid Hcb Hr1 Hr2.
  destruct (a_malloc_ok _ _ TASK_SIZE (sw_inv _ _ _ Hwf) ltac:(done) Hr1) as (k1 & b & n & h1 & M1 & B1 & N1 & I1 & K1).
  destruct (a_malloc_ok _ _ STACK_SIZE I1 ltac:(done) (Hr2 _ _ _ M1)) as (k2 & st & sn & h2 & M2 & B2 & N2 & I2 & K2).
  set (t := mk_task b n st sn).
  assert (a_inv h2 (all_blocks (t :: L) ++ R)) as Hi
    by (eapply a_perm; [|exact I2]; apply Permutation_swap).
  unfold TASK_SIZE, STACK_SIZE in N1, N2.
  destruct (a_block _ _ b n Hi) as (Hb0 & _ & Hbt); [left|].
  destruct (a_block _ _ st sn Hi) as (Hs0 & _ & Hst); [right; left|].
  destruct (init_task_spec (a_mem h2) b st entry (next_pid s) name priority)
    as (F1 & F2 & F3 & F4 & _ & F6); [lia|lia|unfold is_u64; lia|done|done|lia|].
  set (m := init_task _ _ _ _ _ _ _) in *.
  assert (∀ u, u ∈ t :: L → 224 <= tn u) as Hsz
    by (intros u [->|?]%elem_of_cons; [simpl; lia|by apply Hwf]).
  pose proof (tasks_spaced _ _ _ Hi Hsz) as Hsp.
  assert (∀ u, u ∈ L → same_on (ta u) (ta u + 224) (s_mem s) m) as Hsame.
  { intros u Hu. assert (ta u ∈ ta <$> t :: L) as Iu by (apply list_elem_of_fmap_2; by right).
    assert (ta u ≠ b) as Hub.
    { intros E. pose proof (sp_nodup _ Hsp) as [Hn _]%NoDup_cons. apply Hn.
      change (ta t) with b. rewrite <- E. by apply list_elem_of_fmap_2. }
    assert (ta t ∈ ta <$> t :: L) as It by left.
    eapply same_on_trans; [eapply (keeps_task L R); [exact K1|done|by apply Hwf]|].
    eapply same_on_trans; [eapply (keeps_task L ((b, n) :: R)); [|done|by apply Hwf]|].
    - intros x y Hx. apply K2. rewrite <- Permutation_middle in Hx. exact Hx.
    - intros i Hin. apply F6. destruct (sp_apart _ Hsp (ta u) b Iu It Hub); lia. }
  assert (sched_wf (mk_sched (a_set m h2) (head s) (tail s) (current s) (count s)
             (u32 (next_pid s + 1)) (scheduler_running s)) L (task_blocks t ++ R)) as Hw.
  { assert (sched_wf (with_heap (a_set m h2) s) L (task_blocks t ++ R)) as [].
    { eapply sched_with_heap; [exact Hwf| |].
      - eapply a_perm; [|eapply (task_write h2 (t :: L) R t m); [exact Hi|left|simpl; lia|exact F6]].
        change (all_blocks (t :: L)) with (task_blocks t ++ all_blocks L).
        by rewrite (app_assoc (all_blocks L)), (Permutation_app_comm (all_blocks L)).
      - intros u Hu. rewrite a_mem_set. by apply Hsame. }
    by split. }
  destruct (link_process_wf _ L R t Hw) as (Hl & Hp & Hk); [simpl; lia|unfold s_mem; simpl; by rewrite a_mem_set|done|].
  assert (task_kept m (s_mem (link_process (mk_sched (a_set m h2) (head s) (tail s) (current s) (count s)
             (u32 (next_pid s + 1)) (scheduler_running s)) b)) b) as Hkb.
  { pose proof (Hk b ltac:(left)) as Hkb. unfold s_mem at 1 in Hkb. simpl in Hkb. by rewrite a_mem_set in Hkb. }
  destruct (task_kept_state _ _ b Hb0 ltac:(lia) Hkb) as (E1 & E2 & _ & E4).
  exists (k1 `max` k2)%nat, t. eexists. split; [|split; [exact Hl|split_and!]].
  - intros fuel Hf. unfold spawn_process. rewrite M1 by lia. simpl. replace (b =? 0) with false by lia.
    rewrite M2 by lia. simpl. by replace (st =? 0) with false by lia.
  - simpl. lia.
  - simpl. rewrite E2. done.
  - exact Hp.
  - simpl. unfold in_state in *. by rewrite E1.
  - simpl. by rewrite E4.
  - intros u Hu. eapply task_kept_trans; [apply same_on_task_kept, Hsame; done|].
    assert (ta u ∈ ta <$> t :: L) as Iu by (apply list_elem_of_fmap_2; by right).
    pose proof (Hk _ Iu) as Hku. unfold s_mem at 1 in Hku. simpl in Hku. by rewrite a_mem_set in Hku.
Qed.

(** ** Searches *)

Lemma search_head s t L R :
  sched_wf s (t :: L) R →
  head s = ta t ∧ ta t ≠ 0 ∧ chain (s_mem s) ((ta t :: (ta <$> L)) ++ [ta t]) ∧ ta t ∉ ta <$> L.
Proof.
  intros Hwf. pose proof (sched_spaced _ _ _ Hwf) as Hsp. split; [by rewrite (sw_head _ _ _ Hwf)|].
  destruct (sp_range _ Hsp (ta t)) as [? _]; [left|]. split; [lia|]. split; [apply (sw_ring _ _ _ Hwf)|].
  by pose proof (sp_nodup _ Hsp) as [? _]%NoDup_cons.
Qed.

Lemma find_fmap (f : Z → bool) (L : list task) :
  List.find f (ta <$> L) = ta <$> List.find (λ t, f (ta t)) L.
Proof. induction L as [|t L IH]; simpl; [done|]. by destruct (f (ta t)). Qed.

Lemma get_by_pid_spec fuel s L R pid :
  sched_wf s L R → (length L < fuel)%nat →
  get_by_pid fuel s pid = Ret (default 0 (ta <$> List.find (λ t, t_pid (s_mem s) (ta t) =? pid) L)).
Proof.
  intros Hwf Hf. unfold get_by_pid. destruct L as [|t L]; [by rewrite (sw_head _ _ _ Hwf)|].
  destruct (search_head _ _ _ _ Hwf) as (-> & Hn & Hc & Hnt). apply Z.eqb_neq in Hn. rewrite Hn.
  rewrite (pid_loop_spec _ _ _ (fmap (M := list) ta L)) by (done || (rewrite length_fmap; simpl in Hf; lia)).
  change (ta t :: (ta <$> L)) with (ta <$> t :: L). by rewrite find_fmap.
Qed.

(** ** Properties *)

(** C10: provided the allocator can serve the request for the task and, after it, the
    request for the stack safely ([a_ready]; the kernel's heap can for the first task, but
    not while a stack is live, unless a free segment fits: see [second_spawn_overlaps]),
    [spawn_process] appends one task to the process list: it returns the task's
    non-null address, the task is READY with the next pid, the given entry point and
    its own stack, the pid counter advances, no other task changes apart from its
    links, and the ring invariant holds again. *)
Theorem spawn_correct s L R entry name priority :
  sched_wf s L R → is_u64 entry → is_u32 (next_pid s) → count s + 1 < 4294967296 →
  a_ready (sc_heap s) TASK_SIZE →
  (∀ k b h, (∀ fuel, (k <= fuel)%nat → a_malloc fuel (sc_heap s) TASK_SIZE = Ret (b, h)) →
     a_ready h STACK_SIZE) →
  ∃ k t s', (∀ fuel, (k <= fuel)%nat → spawn_process fuel s entry name priority = Ret (ta t, s')) ∧
    sched_wf s' (L ++ [t]) R ∧ ta t ≠ 0 ∧
    t_pid (s_mem s') (ta t) = next_pid s ∧ next_pid s' = u32 (next_pid s + 1) ∧
    in_state (s_mem s') (ta t) READY = true ∧ t_rip (s_mem s') (ta t) = entry ∧
    (∀ u, u ∈ L → task_kept (s_mem s) (s_mem s') (ta u)).
Proof. apply spawn_spec. Qed.

(** C11: [cleanup_terminated] always returns and leaves a well-formed ring: when the
    first task is terminated it removes that task alone, since the loop then stands
    at the new head and stops; otherwise it removes exactly the terminated tasks.  The
    remaining tasks keep their order and contents. *)
Theorem cleanup_correct s L R :
  sched_wf s L R →
  ∃ k s' R', (∀ fuel, (k <= fuel)%nat → cleanup_terminated fuel s = Ret s') ∧
    cleans s s' (cleaned (s_mem s) L) R'.
Proof. apply cleanup_spec. Qed.

(** C5: [yield] always returns, after a clean-up, and keeps the ring well formed.
    When it switches, it switches to the first runnable task after the current one in
    ring order, makes it the current, active task and calls its entry point; when it
    does not, nothing else changed and no task other than the current one is
    runnable (or there is no current task). *)
Theorem yield_correct s L R :
  sched_wf s L R →
  ∃ k o s' s1 R1, (∀ fuel, (k <= fuel)%nat → yield fuel s = Ret (o, s')) ∧
    cleans s s1 (cleaned (s_mem s) L) R1 ∧ sched_wf s' (cleaned (s_mem s) L) R1 ∧
    match o with
    | None => s' = s1 ∧ (current s1 = 0 ∨ ∀ u, u ∈ cleaned (s_mem s) L →
                runnable (s_mem s1) (ta u) = true → ta u = current s1)
    | Some e => ∃ P c Q X u Y, cleaned (s_mem s) L = P ++ c :: Q ∧ current s1 = ta c ∧
        Q ++ P = X ++ u :: Y ∧ (∀ x, x ∈ X → runnable (s_mem s1) (ta x) = false) ∧
        runnable (s_mem s1) (ta u) = true ∧ current s' = ta u ∧
        in_state (s_mem s') (ta u) ACTIVE = true ∧ e = t_rip (s_mem s1) (ta u)
    end.
Proof. apply yield_spec. Qed.

(** C33: [kill_process] finds the first task of the list with the given pid, in as
    many steps as there are tasks, and marks it terminated; without such a task it
    changes nothing.  The list and the ring stay as they were. *)
Theorem kill_process_correct fuel s L R pid :
  sched_wf s L R → (length L < fuel)%nat →
  ∃ s', kill_process fuel s pid = Ret s' ∧ sched_wf s' L R ∧
    match List.find (λ t, t_pid (s_mem s) (ta t) =? pid) L with
    | Some t => in_state (s_mem s') (ta t) TERMINATED = true ∧
        (∀ i, ¬ (ta t + 172 <= i < ta t + 176) → s_mem s' i = s_mem s i)
    | None => s' = s
    end.
Proof.
  intros Hwf Hf. unfold kill_process. rewrite (get_by_pid_spec fuel s L R pid Hwf Hf). simpl.
  destruct (List.find _ L) as [t|] eqn:Ef; simpl; [|by exists s].
  assert (t ∈ L) as Ht by (by apply list_elem_of_In, (List.find_some _ _ Ef)).
  pose proof (sched_spaced _ _ _ Hwf) as Hsp.
  destruct (sp_range _ Hsp (ta t)) as [T0 T1]; [by apply list_elem_of_fmap_2|].
  replace (ta t =? 0) with false by lia. simpl. eexists. split; [done|].
  split; [by apply sched_set_state|]. unfold s_mem, with_mem. simpl. rewrite a_mem_set. split.
  - unfold in_state, t_state, set_state, o_state. nowrap. by simpl_mem.
  - intros i Hi. by apply set_state_out.
Qed.

(** [start_scheduler] starts the first runnable task, and when no task is
    runnable it starts the head all the same, terminated or waiting though it is. *)
Theorem start_scheduler_correct fuel s t L R :
  sched_wf s (t :: L) R → (length L < fuel)%nat →
  let u := default t (List.find (λ v, runnable (s_mem s) (ta v)) (t :: L)) in
  ∃ s', start_scheduler fuel s = Ret (Some (t_rip (s_mem s) (ta u)), s') ∧ sched_wf s' (t :: L) R ∧
    current s' = ta u ∧ in_state (s_mem s') (ta u) ACTIVE = true ∧ scheduler_running s' = true.
Proof.
  intros Hwf Hf u. pose proof (sched_spaced _ _ _ Hwf) as Hsp.
  destruct (sw_count _ _ _ Hwf) as [Hc Hcb].
  destruct (search_head _ _ _ _ Hwf) as (Hh & Hn & Hch & Hnt).
  assert (u ∈ t :: L) as Hu.
  { subst u. destruct (List.find _ _) as [v|] eqn:Ef; [|left].
    by apply list_elem_of_In, (List.find_some _ _ Ef). }
  assert (ta u ∈ ta <$> t :: L) as Iu by (by apply list_elem_of_fmap_2).
  destruct (sp_range _ Hsp _ Iu) as [U0 U1].
  assert (start_loop fuel (s_mem s) (ta t) (ta t) = Ret (ta u)) as Hs.
  { rewrite (start_loop_spec _ _ _ (fmap (M := list) ta L));
      [|done|done|rewrite length_fmap; lia|intros a Ha; destruct (sp_range _ Hsp a); [done|lia]].
    change (ta t :: (ta <$> L)) with (ta <$> t :: L). rewrite find_fmap. subst u.
    by destruct (List.find _ _). }
  unfold start_scheduler. replace (count s =? 0) with false by (rewrite Hc; simpl; lia).
  cbv zeta. change (head (with_running true s)) with (head s).
  change (s_mem (with_running true s)) with (s_mem s). rewrite Hh, Hs. simpl.
  replace (ta u =? 0) with false by lia.
  exists (with_mem (set_state (s_mem s) (ta u) ACTIVE) (with_current (ta u) (with_running true s))).
  split; [|split; [|split; [done|split; [|done]]]].
  - do 3 f_equal. unfold s_mem. simpl. rewrite a_mem_set.
    unfold t_rip, set_state, o_rip, o_state. nowrap. by simpl_mem.
  - apply (sched_set_state (with_current (ta u) (with_running true s)) (t :: L) R u ACTIVE); [|done].
    destruct Hwf. split; try done. by right.
  - unfold s_mem. simpl. rewrite a_mem_set.
    unfold in_state, t_state, set_state, o_state. nowrap. by simpl_mem.
Qed.

End Spec.

(** ** Witnesses: the heap over a pool of sixteen frames *)

Definition pool16 : frame_state := mk_frame_state (λ _, 0) 0x1000 16 0 16 0x100000.
Definition sched16 : sched heap_state := mk_sched (mk_heap pool16 0) 0 0 0 0 1 false.

Lemma pool16_wf : frames_wf pool16.
Proof.
  split; simpl; unfold apart; try lia. intros i Hi. left. unfold frame_bit. by rewrite load8_eq.
Qed.

Lemma pool16_fresh : fresh_tail pool16.
Proof. intros i Hi. apply used_false. unfold frame_bit. by rewrite load8_eq. Qed.

Lemma heap16_wf : heap_wf (mk_heap pool16 0) [].
Proof. split; try done. apply pool16_wf. Qed.

Lemma sched16_wf : sched_wf sched16 [] [].
Proof.
  split; try done; try (by intros t ?%elem_of_nil); [|by left]. exists []. split; [apply heap16_wf|done].
Qed.

Lemma sched16_ready : a_ready (sc_heap sched16) TASK_SIZE.
Proof. intros H _. right. split; [apply pool16_fresh|vm_compute; discriminate]. Qed.

Lemma heap16_task :
  match kmalloc 6 (mk_heap pool16 0) TASK_SIZE with
  | Ret (_, h) => latest_frame (h_fr h) = 1 ∧ available_frames (h_fr h) = 16
  | _ => False
  end.
Proof. vm_compute. split; reflexivity. Qed.

Lemma sched16_ready_stack k b h :
  (∀ fuel, (k <= fuel)%nat → a_malloc fuel (sc_heap sched16) TASK_SIZE = Ret (b, h)) →
  a_ready h STACK_SIZE.
Proof.
  intros Hm H _. right.
  destruct (kmalloc_spec 6 (mk_heap pool16 0) [] TASK_SIZE heap16_wf) as (b' & h' & H' & E & Ha);
    [done|right; split; [apply pool16_fresh|vm_compute; discriminate]|simpl; lia|].
  assert (h' = h) as ->.
  { pose proof (Hm (k `max` 6)%nat ltac:(lia)) as E1. simpl in E1.
    pose proof (kmalloc_mono 6 (k `max` 6) _ _ _ ltac:(lia) E) as E2. congruence. }
  split; [apply Ha; [by unfold TASK_SIZE|apply pool16_fresh]|].
  pose proof heap16_task as HE. rewrite E in HE. destruct HE as [-> ->]. vm_compute. discriminate.
Qed.

(** A process list of one task. *)
Lemma sched16_one : ∃ (s : sched heap_state) t, sched_wf s [t] [].
Proof.
  destruct (spawn_spec sched16 [] [] 0x400000 0 1 sched16_wf) as (k & t & s' & _ & Hw & _);
    [unfold is_u64; lia|unfold is_u32; simpl; lia|simpl; lia|apply sched16_ready|apply sched16_ready_stack|].
  by exists s', t.
Qed.

Lemma spawn_correct_witness :
  ∃ k t s', (∀ fuel, (k <= fuel)%nat → spawn_process fuel sched16 0x400000 0 1 = Ret (ta t, s')) ∧
    sched_wf s' [t] [].
Proof.
  destruct (spawn_correct sched16 [] [] 0x400000 0 1 sched16_wf) as (k & t & s' & Hs & Hw & _);
    [unfold is_u64; lia|unfold is_u32; simpl; lia|simpl; lia|apply sched16_ready|apply sched16_ready_stack|].
  exists k, t, s'. split; [exact Hs|exact Hw].
Defined.

(** The second task of the kernel: on an empty heap of 64 frames, the page made for its
    stack is the last frame of the first task's stack, so the page's header lies in the
    top 64 bytes of that stack, which is live, and the two stacks meet there. *)
Definition sched64 : sched heap_state :=
  mk_sched (mk_heap (mk_frame_state (λ _, 0) 0x1000 64 0 64 0x100000) 0) 0 0 0 0 1 false.

Theorem second_spawn_overlaps :
  match spawn_process 20 sched64 0x400000 0 1 with
  | Ret (t1, s1) =>
      match spawn_process 20 s1 0x500000 0 1 with
      | Ret (t2, s2) =>
          let stack1 := t_stack (s_mem s1) t1 in
          let top1 := stack1 + STACK_SIZE in
          load64 (s_mem s2) (t1 ⊕ o_rsp) = top1 ∧ t_stack (s_mem s2) t2 = top1 ∧
          (top1 - 64) `mod` 4096 = 0 ∧
          load64 (s_mem s1) (top1 - 64) = 0 ∧ load64 (s_mem s2) (top1 - 64) = top1 - 64 + heap_page_size
      | _ => False
      end
  | _ => False
  end.
Proof. by vm_compute. Qed.

Lemma cleanup_correct_witness : ∃ (s : sched heap_state) k s',
  ∀ fuel, (k <= fuel)%nat → cleanup_terminated fuel s = Ret s'.
Proof.
  destruct sched16_one as (s & t & Hw).
  destruct (cleanup_correct s [t] [] Hw) as (k & s' & R' & Hc & _). exists s, k, s'. exact Hc.
Defined.

Lemma yield_correct_witness : ∃ (s : sched heap_state) k o s',
  ∀ fuel, (k <= fuel)%nat → yield fuel s = Ret (o, s').
Proof.
  destruct sched16_one as (s & t & Hw).
  destruct (yield_correct s [t] [] Hw) as (k & o & s' & s1 & R1 & Hy & _). exists s, k, o, s'. exact Hy.
Defined.

Lemma kill_process_correct_witness : ∃ (s s' : sched heap_state), kill_process 2 s 1 = Ret s'.
Proof.
  destruct sched16_one as (s & t & Hw).
  destruct (kill_process_correct 2 s [t] [] 1 Hw) as (s' & Hk & _); [simpl; lia|]. exists s, s'. exact Hk.
Defined.

Lemma start_scheduler_correct_witness : ∃ (s s' : sched heap_state) e, start_scheduler 2 s = Ret (Some e, s').
Proof.
  destruct sched16_one as (s & t & Hw).
  destruct (start_scheduler_correct 2 s t [] [] Hw) as (s' & Hk & _); [simpl; lia|].
  exists s, s'. eexists. exact Hk.
Defined.
