(* ===== verification/Tss.v ===== *)
(** * Tss: the task state segment, its descriptor and the global descriptor table.

    [src/kernel/cpu/tss/tss.cc] and [src/kernel/cpu/gdt/gdt.cc].  The static
    [tss] and [ist_stacks] are the record [tss_state]; the addresses the linker
    gives to the statics [tss] and [table] are arguments.  The descriptor
    formats the processor reads ([seg_limit], [tss_base], ...) are stated
    separately, from the bit positions of the architecture manual, so that the
    theorems compare what the code packs with what the processor unpacks. *)
From stdpp Require Import base numbers list.
From S2P Require Import Prelude Mem Boot Frames.
Local Open Scope Z_scope.

Module TSS.

Record TaskStateSegment := mk_tss {
  reserved1 : Z;
  rsp0 : Z; rsp1 : Z; rsp2 : Z;
  reserved2 : Z;
  ist1 : Z; ist2 : Z; ist3 : Z; ist4 : Z; ist5 : Z; ist6 : Z; ist7 : Z;
  reserved3 : Z;
  reserved4 : Z;
  iopb_offset : Z;
}.

(** [sizeof(TaskStateSegment)]: the structure is packed. *)
Definition sizeof_tss : Z := 4 + 3 * 8 + 8 + 7 * 8 + 8 + 2 + 2.

Record Descriptor := mk_descriptor {
  limit_low : Z; base_low : Z; base_mid : Z; access : Z;
  granularity : Z; base_high : Z; base_ext : Z; reserved : Z;
}.

Inductive ISTIndex := IST_NONE | IST_EXCEPTION | IST_IRQ.

Definition ist_index (i : ISTIndex) : Z :=
  match i with IST_NONE => 0 | IST_EXCEPTION => 1 | IST_IRQ => 2 end.

Definition IST_STACK_SIZE : Z := 16384.

Definition create_tss_descriptor (tss_addr : Z) : Z :=
  let limit := sizeof_tss - 1 in
  let desc := {|
    base_low := Z.land tss_addr 0xFFFF;
    base_mid := Z.land (Z.shiftr tss_addr 16) 0xFF;
    base_high := Z.land (Z.shiftr tss_addr 24) 0xFF;
    base_ext := Z.land (Z.shiftr tss_addr 32) 0xFFFFFFFF;
    limit_low := Z.land limit 0xFFFF;
    granularity := Z.land (Z.shiftr limit 16) 0x0F;
    access := 0x89;
    reserved := 0 |} in
  let result := 0 in
  let result := Z.lor result (limit_low desc) in
  let result := Z.lor result (Z.shiftl (base_low desc) 16) in
  let result := Z.lor result (Z.shiftl (base_mid desc) 32) in
  let result := Z.lor result (Z.shiftl (access desc) 40) in
  let result := Z.lor result (Z.shiftl (granularity desc) 48) in
  Z.lor result (Z.shiftl (base_high desc) 56).

Definition create_tss_descriptor_high (tss_addr : Z) : Z :=
  Z.lor 0 (Z.land (Z.shiftr tss_addr 32) 0xFFFFFFFF).

Definition get_tss_descriptor_low (tss_addr : Z) : Z := create_tss_descriptor tss_addr.
Definition get_tss_descriptor_high (tss_addr : Z) : Z := create_tss_descriptor_high tss_addr.

(** The statics of [tss.cc]. *)
Record tss_state := mk_tss_state { tss : TaskStateSegment; ist_stacks : list Z }.

(** [memset] to zero, then the offset of the (absent) I/O permission map. *)
Definition init (k : tss_state) : tss_state :=
  mk_tss_state (mk_tss 0 0 0 0 0 0 0 0 0 0 0 0 0 0 sizeof_tss) (ist_stacks k).

(** The [switch (i)] that stores a stack top. *)
Definition set_ist (i v : Z) (t : TaskStateSegment) : TaskStateSegment :=
  let '(mk_tss r1 a b c r2 i1 i2 i3 i4 i5 i6 i7 r3 r4 io) := t in
  let at_ n old := if i =? n then v else old in
  mk_tss r1 a b c r2 (at_ 1 i1) (at_ 2 i2) (at_ 3 i3) (at_ 4 i4) (at_ 5 i5) (at_ 6 i6)
         (at_ 7 i7) r3 r4 io.

(** [n] rounds of the loop from [i] on; [false] is the early return after a
    failed allocation. *)
Fixpoint init_stacks_loop (n : nat) (i : Z) (k : tss_state) (s : frame_state) :
    bool * tss_state * frame_state :=
  match n with
  | O => (true, k, s)
  | S n =>
      let frames_per_stack := IST_STACK_SIZE `div` FRAME_SIZE in
      let '(stack, s) := allocs s frames_per_stack in
      let k := mk_tss_state (tss k) (<[Z.to_nat i := stack]> (ist_stacks k)) in
      if stack =? 0 then (false, k, s)
      else
        let stack_top := stack ⊕ IST_STACK_SIZE in
        init_stacks_loop n (i + 1) (mk_tss_state (set_ist i stack_top (tss k)) (ist_stacks k)) s
  end.

Definition init_stacks (k : tss_state) (s : frame_state) : bool * tss_state * frame_state :=
  init_stacks_loop 7 1 k s.

Definition set_kernel_stack (stack_ptr : Z) (k : tss_state) : tss_state :=
  let '(mk_tss r1 _ b c r2 i1 i2 i3 i4 i5 i6 i7 r3 r4 io) := tss k in
  mk_tss_state (mk_tss r1 stack_ptr b c r2 i1 i2 i3 i4 i5 i6 i7 r3 r4 io) (ist_stacks k).

Definition get_ist_stack (index : Z) (k : tss_state) : Z :=
  if (index <? 1) || (index >? 7) then 0
  else if index =? 1 then ist1 (tss k)
  else if index =? 2 then ist2 (tss k)
  else 0.

End TSS.

(** ** What the processor reads *)

(** Segment limit, base, type and flags of a descriptor. *)
Definition seg_limit (d : Z) : Z := field d 0 16 + 65536 * field d 48 4.
Definition seg_base (d : Z) : Z := field d 16 24 + 16777216 * field d 56 8.
Definition seg_type (d : Z) : Z := field d 40 4.
Definition seg_s (d : Z) : bool := Z.testbit d 44.
Definition seg_dpl (d : Z) : Z := field d 45 2.
Definition seg_present (d : Z) : bool := Z.testbit d 47.
Definition seg_long (d : Z) : bool := Z.testbit d 53.
Definition seg_db (d : Z) : bool := Z.testbit d 54.
Definition seg_granular (d : Z) : bool := Z.testbit d 55.

(** The 64-bit base of a system descriptor and its high half. *)
Definition tss_base (lo hi : Z) : Z := seg_base lo + 4294967296 * field hi 0 32.

(** ** The global descriptor table *)

Module GDT.

Record TablePtr := mk_ptr { limit : Z; base : Z }.

Definition ENTRIES_NUM : Z := 7.

(** The statics of [gdt.cc] and the registers its initialisation loads:
    [gdtr], the code and data selectors and the task register. *)
Record gdt_state := mk_gdt {
  gp : TablePtr;
  table : list Z;
  gdtr : option TablePtr;
  cs_sel : option Z;
  ds_sel : option Z;
  tr_sel : option Z;
}.

(** The state before [init]: the static initialiser of [table]. *)
Definition initial : gdt_state :=
  mk_gdt (mk_ptr 0 0)
    [0x00; 0xaf9a000000ffff; 0xaf92000000ffff; 0xcffa000000ffff; 0xcff2000000ffff; 0x00; 0x00]
    None None None None.

(** [lgdt], the far return of [reload_cs_segments] and [ltr]. *)
Definition load_gdt (g : gdt_state) : gdt_state :=
  mk_gdt (gp g) (table g) (Some (gp g)) (cs_sel g) (ds_sel g) (tr_sel g).
Definition reload_cs_segments (g : gdt_state) : gdt_state :=
  mk_gdt (gp g) (table g) (gdtr g) (Some 0x08) (Some 0x10) (tr_sel g).
Definition load_tss (g : gdt_state) : gdt_state :=
  mk_gdt (gp g) (table g) (gdtr g) (cs_sel g) (ds_sel g) (Some 0x28).

Definition set_entry (i : nat) (v : Z) (g : gdt_state) : gdt_state :=
  mk_gdt (gp g) (<[i := v]> (table g)) (gdtr g) (cs_sel g) (ds_sel g) (tr_sel g).

Definition init (table_addr tss_addr : Z) (g : gdt_state) (k : TSS.tss_state) :
    gdt_state * TSS.tss_state :=
  let g := mk_gdt (mk_ptr (8 * ENTRIES_NUM - 1) table_addr) (table g) (gdtr g)
                  (cs_sel g) (ds_sel g) (tr_sel g) in
  let g := reload_cs_segments (load_gdt g) in
  let k := TSS.init k in
  let g := set_entry 5 (TSS.get_tss_descriptor_low tss_addr) g in
  let g := set_entry 6 (TSS.get_tss_descriptor_high tss_addr) g in
  (load_tss (load_gdt g), k).

End GDT.

(** The descriptor a selector names in the loaded table: its index is the
    selector shifted by three, and its eight bytes must lie within the limit. *)
Definition selected (g : GDT.gdt_state) (sel : Z) : option Z :=
  match GDT.gdtr g with
  | Some p => if sel + 7 <=? GDT.limit p then GDT.table g !! Z.to_nat (sel `div` 8) else None
  | None => None
  end.

(** ** The packed descriptor *)

(** The descriptor as the sum of its fields. *)
Lemma create_tss_descriptor_sum a :
  TSS.create_tss_descriptor a =
  103 + field a 0 16 * 2 ^ 16 + field a 16 8 * 2 ^ 32 + 0x89 * 2 ^ 40 + field a 24 8 * 2 ^ 56.
Proof.
  unfold TSS.create_tss_descriptor. cbn [TSS.limit_low TSS.base_low TSS.base_mid TSS.access
    TSS.granularity TSS.base_high].
  rewrite <- (Z.shiftr_0_r a) at 1.
  rewrite (land_field a 0 16), (land_field a 16 8), (land_field a 24 8) by (done || lia).
  pose proof (field_range a 0 16 ltac:(lia)). pose proof (field_range a 16 8 ltac:(lia)).
  pose proof (field_range a 24 8 ltac:(lia)).
  change (Z.lor 0 (Z.land (TSS.sizeof_tss - 1) 65535)) with 103.
  change (Z.land (Z.shiftr (TSS.sizeof_tss - 1) 16) 15) with 0.
  rewrite Z.shiftl_0_l, Z.lor_0_r.
  rewrite (lor_shiftl_add _ _ 16), (lor_shiftl_add _ _ 32), (lor_shiftl_add _ _ 40),
    (lor_shiftl_add _ _ 56) by lia. done.
Qed.

Lemma create_tss_descriptor_high_eq a : TSS.create_tss_descriptor_high a = field a 32 32.
Proof. unfold TSS.create_tss_descriptor_high. rewrite Z.lor_0_l. by apply land_field. Qed.

Lemma testbit_field x i : 0 <= i → Z.testbit x i = (field x i 1 =? 1).
Proof.
  intros Hi. unfold field. rewrite <- Z.shiftr_div_pow2, Z.pow_1_r by done.
  rewrite <- Z.bit0_mod, Z.shiftr_spec, Z.add_0_l by lia. by destruct (Z.testbit x i).
Qed.

(** ** Properties of the descriptors *)

Lemma field_join x k n1 n2 : 0 <= k → 0 <= n1 → 0 <= n2 →
  field x k n1 + 2 ^ n1 * field x (k + n1) n2 = field x k (n1 + n2).
Proof.
  intros. unfold field. rewrite !Z.pow_add_r, <- Z.div_div, Z.rem_mul_r by lia. done.
Qed.

Lemma field_whole x n : 0 <= x < 2 ^ n → field x 0 n = x.
Proof. intros. unfold field. rewrite Z.div_1_r. by apply Z.mod_small. Qed.

(** A 64-bit address is the four parts the descriptor stores. *)
Lemma word_split a : is_u64 a →
  a = field a 0 16 + 2 ^ 16 * field a 16 8 + 2 ^ 24 * field a 24 8 + 2 ^ 32 * field a 32 32.
Proof.
  intros Ha.
  assert (field a 0 16 + 2 ^ 16 * field a 16 8 = field a 0 24) by (apply (field_join a 0 16 8); lia).
  assert (field a 0 24 + 2 ^ 24 * field a 24 8 = field a 0 32) by (apply (field_join a 0 24 8); lia).
  assert (field a 0 32 + 2 ^ 32 * field a 32 32 = field a 0 64) by (apply (field_join a 0 32 32); lia).
  pose proof (field_whole a 64 Ha). lia.
Qed.

(** Read a field of a sum, given what lies below and above it. *)
Ltac field_is l h := apply (field_at _ _ _ l _ h); lia.

Lemma tss_descriptor_spec a :
  is_u64 a →
  let lo := TSS.create_tss_descriptor a in
  let hi := TSS.create_tss_descriptor_high a in
  is_u64 lo ∧ is_u64 hi ∧ tss_base lo hi = a ∧ seg_limit lo = TSS.sizeof_tss - 1 ∧
  seg_type lo = 9 ∧ seg_s lo = false ∧ seg_dpl lo = 0 ∧ seg_present lo = true ∧
  seg_granular lo = false.
Proof.
  intros Ha. unfold is_u64 in *. cbv zeta.
  rewrite create_tss_descriptor_sum, create_tss_descriptor_high_eq.
  pose proof (field_range a 0 16 ltac:(lia)). pose proof (field_range a 16 8 ltac:(lia)).
  pose proof (field_range a 24 8 ltac:(lia)). pose proof (field_range a 32 32 ltac:(lia)).
  unfold tss_base, seg_limit, seg_base, seg_type, seg_s, seg_dpl, seg_present, seg_granular.
  rewrite !testbit_field by lia.
  pose proof (word_split a Ha) as Hsplit.
  set (b0 := field a 0 16) in *. set (b1 := field a 16 8) in *. set (b2 := field a 24 8) in *.
  set (b3 := field a 32 32) in *.
  set (x := 103 + _ + _ + _ + _).
  set (l40 := 103 + b0 * 2 ^ 16 + b1 * 2 ^ 32) in *.
  assert (field x 0 16 = 103) as -> by field_is 0 (b0 + b1 * 65536 + 0x89 * 2 ^ 24 + b2 * 2 ^ 40).
  assert (field x 48 4 = 0) as -> by field_is (l40 + 0x89 * 2 ^ 40) (b2 * 2 ^ 4).
  assert (field x 16 24 = b0 + 65536 * b1) as -> by field_is 103 (0x89 + b2 * 2 ^ 16).
  assert (field x 56 8 = b2) as -> by field_is (l40 + 0x89 * 2 ^ 40) 0.
  assert (field b3 0 32 = b3) as -> by (apply field_whole; lia).
  assert (field x 40 4 = 9) as -> by field_is l40 (8 + b2 * 2 ^ 12).
  assert (field x 44 1 = 0) as -> by field_is (l40 + 9 * 2 ^ 40) (4 + b2 * 2 ^ 11).
  assert (field x 45 2 = 0) as -> by field_is (l40 + 9 * 2 ^ 40) (1 + b2 * 2 ^ 9).
  assert (field x 47 1 = 1) as -> by field_is (l40 + 9 * 2 ^ 40) (b2 * 2 ^ 8).
  assert (field x 55 1 = 0) as -> by field_is (l40 + 0x89 * 2 ^ 40) b2.
  subst x. split_and!; try done; try lia.
Qed.

(** ** The interrupt stacks *)

(** The stack pointer slot [i] of the segment. *)
Definition ist_slot (t : TSS.TaskStateSegment) (i : Z) : Z :=
  if i =? 1 then TSS.ist1 t else if i =? 2 then TSS.ist2 t else if i =? 3 then TSS.ist3 t
  else if i =? 4 then TSS.ist4 t else if i =? 5 then TSS.ist5 t else if i =? 6 then TSS.ist6 t
  else TSS.ist7 t.

Lemma ist_slot_set i v t j : 1 <= i <= 7 → 1 <= j <= 7 →
  ist_slot (TSS.set_ist i v t) j = if j =? i then v else ist_slot t j.
Proof.
  intros Hi Hj. destruct t; unfold ist_slot, TSS.set_ist;
  cbn [TSS.ist1 TSS.ist2 TSS.ist3 TSS.ist4 TSS.ist5 TSS.ist6 TSS.ist7].
  assert (j = 1 ∨ j = 2 ∨ j = 3 ∨ j = 4 ∨ j = 5 ∨ j = 6 ∨ j = 7) as Hj' by lia.
  destruct Hj' as [->|[->|[->|[->|[->|[->| ->]]]]]]; simpl; rewrite Z.eqb_sym; done.
Qed.

(** Everything [set_ist] does not select is kept. *)
Lemma set_ist_rsp0 i v t : TSS.rsp0 (TSS.set_ist i v t) = TSS.rsp0 t.
Proof. by destruct t. Qed.
Lemma set_ist_iopb i v t : TSS.iopb_offset (TSS.set_ist i v t) = TSS.iopb_offset t.
Proof. by destruct t. Qed.

(** From the second stack on, each run starts at the last frame of the run
    before it. *)
Lemma init_stacks_loop_spec n i e k s :
  frames_wf s → marked_to s e → latest_frame s < e → 2 <= i → i + Z.of_nat n <= 8 →
  length (TSS.ist_stacks k) = 8%nat →
  e + 3 * Z.of_nat n < available_frames s →
  ∃ k' s', TSS.init_stacks_loop n i k s = (true, k', s') ∧ frames_wf s' ∧ same_pool s s' ∧
    (∀ j, i <= j < i + Z.of_nat n →
       ist_slot (TSS.tss k') j = pool_frame s (e + 3 * (j - i) + 3) ∧
       TSS.ist_stacks k' !! Z.to_nat j = Some (pool_frame s (e + 3 * (j - i) - 1))) ∧
    (∀ j, 1 <= j < i → ist_slot (TSS.tss k') j = ist_slot (TSS.tss k) j ∧
       TSS.ist_stacks k' !! Z.to_nat j = TSS.ist_stacks k !! Z.to_nat j) ∧
    TSS.rsp0 (TSS.tss k') = TSS.rsp0 (TSS.tss k) ∧
    TSS.iopb_offset (TSS.tss k') = TSS.iopb_offset (TSS.tss k) ∧
    latest_frame s' < e + 3 * Z.of_nat n ∧ marked_to s' (e + 3 * Z.of_nat n).
Proof.
  revert i e k s; induction n as [|n IH]; intros i e k s Hwf Hm Hl Hi Hn Hlen Hr.
  { exists k, s. assert (e + 3 * Z.of_nat 0 = e) as -> by lia. split_and!; try done. intros j Hj. lia. }
  wf_destruct Hwf.
  destruct (allocs_marked_to s e 4) as (s1 & Ha & Ht & Hw1 & Hl1 & Hm1); [done..|lia|lia|].
  destruct (tk_pool _ _ _ _ Ht) as (Ef & Ea & Eb & En).
  pose proof (wf_latest _ Hwf).
  cbn [TSS.init_stacks_loop]. change (TSS.IST_STACK_SIZE `div` FRAME_SIZE) with 4. rewrite Ha.
  replace (pool_frame s (e - 1) =? 0) with false by (unfold pool_frame; symmetry; lia).
  unfold TSS.IST_STACK_SIZE. cbn [TSS.tss TSS.ist_stacks].
  set (k1 := TSS.mk_tss_state _ _).
  destruct (IH (i + 1) (e + 3) k1 s1) as (k' & s' & E & Hw' & (Ef' & Ea' & Eb' & En') & Hnew & Hold & Hrsp & Hio & Hlat & Hmk);
    [done|by replace (e + 3) with (e - 1 + 4) by lia|lia..|by (simpl; rewrite length_insert)|lia|].
  exists k', s'. split; [done|]. split; [done|].
  split; [unfold same_pool; split_and!; congruence|].
  subst k1. cbn [TSS.tss TSS.ist_stacks] in *.
  rewrite set_ist_rsp0 in Hrsp. rewrite set_ist_iopb in Hio.
  replace (e + 3 * Z.of_nat (S n)) with (e + 3 + 3 * Z.of_nat n) by lia.
  split_and!; [| |done|done|done|done].
  - intros j Hj. destruct (decide (j = i)) as [->|].
    + destruct (Hold i) as [-> ->]; [lia|].
      rewrite ist_slot_set, Z.eqb_refl by lia. unfold pool_frame. nowrap.
      split; [lia|]. rewrite list_lookup_insert_eq by lia. f_equal. lia.
    + destruct (Hnew j) as [-> ->]; [lia|]. unfold pool_frame. rewrite Eb.
      split; [lia|f_equal; lia].
  - intros j Hj. destruct (Hold j) as [-> ->]; [lia|].
    rewrite ist_slot_set by lia. cond_false. split; [done|].
    apply list_lookup_insert_ne. lia.
Qed.

(** The seven stacks from a fresh pool, and what they leave of it. *)
Lemma init_stacks_spec k s :
  frames_wf s → fresh_tail s → length (TSS.ist_stacks k) = 8%nat →
  latest_frame s + 22 < available_frames s →
  let '(ok, k', s') := TSS.init_stacks k s in
  let base i := pool_frame s (latest_frame s + 3 * (i - 1)) in
  ok = true ∧ frames_wf s' ∧ same_pool s s' ∧
  (∀ i, 1 <= i <= 7 → TSS.ist_stacks k' !! Z.to_nat i = Some (base i) ∧
     ist_slot (TSS.tss k') i = base i + TSS.IST_STACK_SIZE) ∧
  (∀ i, 1 <= i <= 6 → ist_slot (TSS.tss k') i = base (i + 1) + FRAME_SIZE) ∧
  TSS.get_ist_stack (TSS.ist_index TSS.IST_EXCEPTION) k' = base 1 + TSS.IST_STACK_SIZE ∧
  TSS.get_ist_stack (TSS.ist_index TSS.IST_IRQ) k' = base 2 + TSS.IST_STACK_SIZE ∧
  TSS.rsp0 (TSS.tss k') = TSS.rsp0 (TSS.tss k) ∧
  latest_frame s' < latest_frame s + 22 ∧ marked_to s' (latest_frame s + 22).
Proof.
  intros Hwf Hfresh Hlen Hr. wf_destruct Hwf.
  destruct (allocs_fresh s 4) as (s1 & Ha & Ht & Hw1 & Hl1); [done|done|lia|lia|].
  pose proof (marked_to_fresh s 4 s1 Hwf Hfresh Ht Hl1) as Hm1.
  destruct (tk_pool _ _ _ _ Ht) as (Ef & Ea & Eb & En).
  unfold TSS.init_stacks. change 7%nat with (S 6).
  change (TSS.init_stacks_loop (S 6)) with (λ (i : Z) k s,
    let '(stack, s) := allocs s 4 in
    let k := TSS.mk_tss_state (TSS.tss k) (<[Z.to_nat i := stack]> (TSS.ist_stacks k)) in
    if stack =? 0 then (false, k, s)
    else TSS.init_stacks_loop 6 (i + 1)
           (TSS.mk_tss_state (TSS.set_ist i (stack ⊕ 16384) (TSS.tss k)) (TSS.ist_stacks k)) s).
  cbv beta. rewrite Ha. cbn [TSS.tss TSS.ist_stacks].
  replace (pool_frame s (latest_frame s) =? 0) with false by (unfold pool_frame; symmetry; lia).
  edestruct (init_stacks_loop_spec 6 (1 + 1) (latest_frame s + 4))
    as (k' & s' & -> & Hw' & (Ef' & Ea' & Eb' & En') & Hnew & Hold & Hrsp & _ & Hlat & Hmk);
    [done|done|lia|lia|lia|simpl; by rewrite length_insert|lia|].
  assert (∀ i, 1 <= i <= 7 →
    TSS.ist_stacks k' !! Z.to_nat i = Some (pool_frame s (latest_frame s + 3 * (i - 1))) ∧
    ist_slot (TSS.tss k') i = pool_frame s (latest_frame s + 3 * (i - 1)) + 16384) as Hall.
  { intros i Hi. destruct (decide (i = 1)) as [->|].
    - destruct (Hold 1) as [-> ->]; [lia|]. cbn [TSS.tss TSS.ist_stacks].
      rewrite ist_slot_set, Z.eqb_refl, list_lookup_insert_eq by lia.
      unfold pool_frame. nowrap. split; [f_equal|]; lia.
    - destruct (Hnew i) as [-> ->]; [lia|]. unfold pool_frame. rewrite Eb. split; [f_equal|]; lia. }
  split; [done|]. split; [done|]. split; [unfold same_pool; split_and!; congruence|].
  split; [exact Hall|]. split.
  { intros i Hi. destruct (Hall i) as [_ ->]; [lia|]. unfold pool_frame, FRAME_SIZE. lia. }
  split; [apply (Hall 1); lia|]. split; [apply (Hall 2); lia|].
  change (3 * Z.of_nat 6) with 18 in *.
  replace (latest_frame s + 22) with (latest_frame s + 4 + 18) by lia.
  split; [rewrite Hrsp; apply set_ist_rsp0|done].
Qed.

(** ** Properties *)

(** The two words [create_tss_descriptor] and [create_tss_descriptor_high]
    pack are, read back by the processor's bit positions, a present ring-0
    available 64-bit TSS descriptor with the address of the segment as its base
    and the last byte of the structure as its byte-granular limit, for every
    64-bit address. *)
Theorem tss_descriptor_roundtrip a :
  is_u64 a →
  let lo := TSS.create_tss_descriptor a in
  let hi := TSS.create_tss_descriptor_high a in
  is_u64 lo ∧ is_u64 hi ∧ tss_base lo hi = a ∧ seg_limit lo = TSS.sizeof_tss - 1 ∧
  seg_type lo = 9 ∧ seg_s lo = false ∧ seg_dpl lo = 0 ∧ seg_present lo = true ∧
  seg_granular lo = false.
Proof. apply tss_descriptor_spec. Qed.

(** C31: after [GDT::init] every selector it loads names a descriptor inside the
    loaded table: the code selector a present ring-0 64-bit code segment, the
    data selectors a present ring-0 writable data segment, and the task register
    the descriptor pair of the TSS, whose structure has been cleared and has no
    I/O permission map within its limit. *)
Theorem gdt_init_correct table_addr tss_addr k :
  is_u64 tss_addr →
  let '(g, k') := GDT.init table_addr tss_addr GDT.initial k in
  (∃ c, GDT.cs_sel g = Some 0x08 ∧ selected g 0x08 = Some c ∧ seg_present c = true ∧
     seg_long c = true ∧ seg_db c = false ∧ seg_dpl c = 0 ∧ seg_s c = true ∧ seg_type c = 10) ∧
  (∃ d, GDT.ds_sel g = Some 0x10 ∧ selected g 0x10 = Some d ∧ seg_present d = true ∧
     seg_dpl d = 0 ∧ seg_s d = true ∧ seg_type d = 2) ∧
  (∃ lo hi, GDT.tr_sel g = Some 0x28 ∧ selected g 0x28 = Some lo ∧ selected g 0x30 = Some hi ∧
     tss_base lo hi = tss_addr ∧ seg_present lo = true ∧ seg_type lo = 9 ∧
     seg_limit lo + 1 = TSS.iopb_offset (TSS.tss k')) ∧
  GDT.gdtr g = Some (GDT.mk_ptr 55 table_addr) ∧ length (GDT.table g) = 7%nat.
Proof.
  intros Ha. destruct (tss_descriptor_spec tss_addr Ha)
    as (_ & _ & Hb & Hlim & Hty & _ & _ & Hp & _).
  unfold GDT.init, TSS.init, TSS.get_tss_descriptor_low, TSS.get_tss_descriptor_high, selected. cbn [GDT.load_tss GDT.load_gdt GDT.set_entry
    GDT.reload_cs_segments GDT.initial GDT.gp GDT.table GDT.gdtr GDT.cs_sel GDT.ds_sel GDT.tr_sel
    GDT.limit GDT.base insert list_insert].
  split_and!.
  - eexists. split_and!; reflexivity.
  - eexists. split_and!; reflexivity.
  - eexists _, _. split_and!; [done|reflexivity|reflexivity|done..|]. rewrite Hlim. done.
  - done.
  - done.
Qed.

(** Started on a fresh pool with more than 22 frames ahead, [init_stacks] succeeds and
    gives slot [i] the top of a 16 KiB run of the pool, keeps the allocator's
    invariant and the other fields; but the runs are spaced three frames apart,
    so the top frame of every stack is the bottom frame of the next. *)
Theorem init_stacks_layout k s :
  frames_wf s → fresh_tail s → length (TSS.ist_stacks k) = 8%nat →
  latest_frame s + 22 < available_frames s →
  let '(ok, k', s') := TSS.init_stacks k s in
  let base i := pool_frame s (latest_frame s + 3 * (i - 1)) in
  ok = true ∧ frames_wf s' ∧ same_pool s s' ∧
  (∀ i, 1 <= i <= 7 → TSS.ist_stacks k' !! Z.to_nat i = Some (base i) ∧
     ist_slot (TSS.tss k') i = base i + TSS.IST_STACK_SIZE) ∧
  (∀ i, 1 <= i <= 6 → ist_slot (TSS.tss k') i = base (i + 1) + FRAME_SIZE) ∧
  TSS.get_ist_stack (TSS.ist_index TSS.IST_EXCEPTION) k' = base 1 + TSS.IST_STACK_SIZE ∧
  TSS.get_ist_stack (TSS.ist_index TSS.IST_IRQ) k' = base 2 + TSS.IST_STACK_SIZE ∧
  TSS.rsp0 (TSS.tss k') = TSS.rsp0 (TSS.tss k).
Proof.
  intros Hwf Hfresh Hlen Hr. pose proof (init_stacks_spec k s Hwf Hfresh Hlen Hr) as H.
  destruct (TSS.init_stacks k s) as [[ok k'] s']. cbv zeta in *.
  destruct H as (? & ? & ? & ? & ? & ? & ? & ? & _). repeat (split; [assumption|]). assumption.
Qed.

(** ** Witnesses *)

Lemma tss_descriptor_roundtrip_witness :
  let a := 0xffffffff80123450 in
  TSS.create_tss_descriptor a = 0x8000891234500067 ∧
  tss_base (TSS.create_tss_descriptor a) (TSS.create_tss_descriptor_high a) = a.
Proof.
  split; [reflexivity|].
  apply (tss_descriptor_roundtrip 0xffffffff80123450). unfold is_u64. lia.
Defined.

Definition no_tss : TSS.tss_state :=
  TSS.mk_tss_state (TSS.mk_tss 0 0 0 0 0 0 0 0 0 0 0 0 0 0 0) (replicate 8 0).

Lemma gdt_init_correct_witness :
  selected (GDT.init 0x5000 0xffffffff80123450 GDT.initial no_tss).1 0x28 =
  Some 0x8000891234500067 ∧
  length (GDT.table (GDT.init 0x5000 0xffffffff80123450 GDT.initial no_tss).1) = 7%nat.
Proof.
  split; [reflexivity|].
  pose proof (gdt_init_correct 0x5000 0xffffffff80123450 no_tss ltac:(unfold is_u64; lia)) as H.
  destruct (GDT.init _ _ _ _) as [g k]. apply H.
Defined.

(** A pool of 32 frames at 0x100000, its bitmap at 0x1000. *)
Definition pool32 : frame_state := mk_frame_state (λ _, 0) 0x1000 32 0 32 0x100000.

Lemma pool32_wf : frames_wf pool32.
Proof.
  split; simpl; unfold apart; try lia. intros i Hi. left. unfold frame_bit. by rewrite load8_eq.
Qed.

Lemma pool32_fresh : fresh_tail pool32.
Proof. intros i Hi. apply used_false. unfold frame_bit. by rewrite load8_eq. Qed.

Lemma init_stacks_layout_witness :
  let '(ok, k, _) := TSS.init_stacks no_tss pool32 in
  ok = true ∧ ist_slot (TSS.tss k) 1 = 0x104000 ∧ ist_slot (TSS.tss k) 2 = 0x107000.
Proof.
  pose proof (init_stacks_layout no_tss pool32 pool32_wf pool32_fresh ltac:(done)
                ltac:(simpl; lia)) as H.
  destruct (TSS.init_stacks no_tss pool32) as [[ok k] s']. destruct H as (-> & _ & _ & Hs & _).
  split; [done|]. split; [apply (Hs 1); lia|apply (Hs 2); lia].
Defined.
