(* ===== verification/Timer.v ===== *)
(** * Timer: the programmable interval timer and the kernel's clock over it.

    [src/kernel/cpu/interrupts/pit.cc], [src/kernel/cpu/interrupts/pic.cc] and
    [src/kernel/sys/timer.cc].  A call of the port driver is recorded, in order,
    in the list of bytes written to ports.  A [hlt] is left by the next
    interrupt; what interrupts arrive while a sleep is in progress is an input
    of the sleeping operations, so that "the sleep returns" is a statement about
    the ticks the hardware delivers. *)
From stdpp Require Import base numbers list strings.
From S2P Require Import Prelude.
Local Open Scope Z_scope.

(** Bytes written to ports: [outb(port, value)]. *)
Definition port_writes := list (Z * Z).

(** The interrupts that wake a halted processor. *)
Inductive wake := TimerIrq | OtherIrq.

#[global] Instance wake_eq_dec : EqDecision wake.
Proof. solve_decision. Defined.

Module PIC.

Definition disable (out : port_writes) : port_writes := out ++ [(0x21, 0xFF); (0xA1, 0xFF)].

End PIC.

Module PIT.

Definition PIT_FREQUENCY : Z := 1193182.
Definition PIT_COMMAND_PORT : Z := 0x43.
Definition PIT_DATA_PORT_0 : Z := 0x40.

Record pit_state := mk_pit {
  ticks_since_boot : Z;
  timer_frequency : Z;
  out : port_writes;
}.

(** [None] is the processor's divide error. *)
Definition set_frequency (frequency : Z) (p : pit_state) : option pit_state :=
  if frequency =? 0 then None
  else
    let divisor := PIT_FREQUENCY `div` frequency in
    Some (mk_pit (ticks_since_boot p) (timer_frequency p)
      (out p ++ [(PIT_COMMAND_PORT, 0x36);
                 (PIT_DATA_PORT_0, u8 (Z.land divisor 0xFF));
                 (PIT_DATA_PORT_0, u8 (Z.land (Z.shiftr divisor 8) 0xFF))])).

Definition init (frequency : Z) (p : pit_state) : option pit_state :=
  set_frequency frequency (mk_pit (ticks_since_boot p) frequency (out p)).

Definition tick (p : pit_state) : pit_state :=
  mk_pit (ticks_since_boot p ⊕ 1) (timer_frequency p) (out p).

Definition get_ticks (p : pit_state) : Z := ticks_since_boot p.

Definition get_uptime_ms (p : pit_state) : Z :=
  if timer_frequency p =? 0 then 0
  else (ticks_since_boot p ⊗ 1000) `div` timer_frequency p.

Definition get_uptime_us (p : pit_state) : Z :=
  if timer_frequency p =? 0 then 0
  else (ticks_since_boot p ⊗ 1000000) `div` timer_frequency p.

Definition deliver (w : wake) (p : pit_state) : pit_state :=
  match w with TimerIrq => tick p | OtherIrq => p end.

(** [while (ticks_since_boot < target_ticks) hlt] while the interrupts [evs]
    arrive: the state on return and the interrupts still to come, or [None] when
    it is still halted after all of them. *)
Fixpoint sleep_until (target_ticks : Z) (evs : list wake) (p : pit_state) :
    option (pit_state * list wake) :=
  if ticks_since_boot p <? target_ticks then
    match evs with
    | [] => None
    | w :: evs => sleep_until target_ticks evs (deliver w p)
    end
  else Some (p, evs).

(** The product of the two [u32] is a [u32]. *)
Definition sleep_ms (milliseconds : Z) (evs : list wake) (p : pit_state) :
    option (pit_state * list wake) :=
  if timer_frequency p =? 0 then Some (p, evs)
  else
    let target_ticks := ticks_since_boot p ⊕ (u32 (milliseconds * timer_frequency p)) `div` 1000 in
    sleep_until target_ticks evs p.

Definition sleep_us (microseconds : Z) (evs : list wake) (p : pit_state) :
    option (pit_state * list wake) :=
  if timer_frequency p =? 0 then Some (p, evs)
  else
    let target_ticks := ticks_since_boot p ⊕ (u32 (microseconds * timer_frequency p)) `div` 1000000 in
    sleep_until target_ticks evs p.

End PIT.

(** ** [Sys::Timer] *)

Module Timer.

Inductive Type_ := NONE | PIT_TIMER | APIC_TIMER | HPET.

Definition PIT_TARGET_FREQUENCY : Z := 1000.

Record timer_state := mk_timer {
  active_timer : Type_;
  timer_frequency : Z;
  pit : PIT.pit_state;
}.

Definition set_pit (p : PIT.pit_state) (t : timer_state) : timer_state :=
  mk_timer (active_timer t) (timer_frequency t) p.

Definition init (t : timer_state) : option timer_state :=
  match PIT.init PIT_TARGET_FREQUENCY (pit t) with
  | Some p => Some (mk_timer PIT_TIMER PIT_TARGET_FREQUENCY p)
  | None => None
  end.

Definition get_active_timer (t : timer_state) : Type_ := active_timer t.
Definition get_frequency (t : timer_state) : Z := timer_frequency t.

Definition get_timer_name (t : timer_state) : string :=
  match active_timer t with
  | PIT_TIMER => "PIT"
  | APIC_TIMER => "APIC"
  | HPET => "HPET"
  | NONE => "None"
  end.

(** The clock readings answer 0 unless the PIT is active. *)
Definition get_counter (t : timer_state) : Z :=
  match active_timer t with PIT_TIMER => PIT.get_ticks (pit t) | _ => 0 end.
Definition get_uptime_ns (t : timer_state) : Z :=
  match active_timer t with PIT_TIMER => PIT.get_uptime_us (pit t) ⊗ 1000 | _ => 0 end.
Definition get_uptime_us (t : timer_state) : Z :=
  match active_timer t with PIT_TIMER => PIT.get_uptime_us (pit t) | _ => 0 end.
Definition get_uptime_ms (t : timer_state) : Z :=
  match active_timer t with PIT_TIMER => PIT.get_uptime_ms (pit t) | _ => 0 end.

(** Run a sleep of the PIT on the timer's state. *)
Definition lift_sleep (r : option (PIT.pit_state * list wake)) (t : timer_state) :
    option (timer_state * list wake) :=
  match r with Some (p, evs) => Some (set_pit p t, evs) | None => None end.

(** The PIT takes [u32] arguments: the [u64] ones are truncated at the call. *)
Definition sleep_us (microseconds : Z) (evs : list wake) (t : timer_state) :
    option (timer_state * list wake) :=
  match active_timer t with
  | PIT_TIMER => lift_sleep (PIT.sleep_us (u32 microseconds) evs (pit t)) t
  | _ => Some (t, evs)
  end.

Definition sleep_ns (nanoseconds : Z) (evs : list wake) (t : timer_state) :
    option (timer_state * list wake) :=
  let microseconds := (nanoseconds ⊕ 999) `div` 1000 in
  let microseconds := if microseconds =? 0 then 1 else microseconds in
  match active_timer t with
  | PIT_TIMER => lift_sleep (PIT.sleep_us (u32 microseconds) evs (pit t)) t
  | _ => Some (t, evs)
  end.

Definition sleep_ms (milliseconds : Z) (evs : list wake) (t : timer_state) :
    option (timer_state * list wake) :=
  match active_timer t with
  | PIT_TIMER => lift_sleep (PIT.sleep_ms (u32 milliseconds) evs (pit t)) t
  | _ => Some (t, evs)
  end.

End Timer.

(** ** Sleeping *)

(** Timer interrupts among [evs]. *)
Definition tick_count (evs : list wake) : nat :=
  length (filter (λ w, w = TimerIrq) evs).

Lemma tick_count_cons w evs :
  tick_count (w :: evs) = ((if decide (w = TimerIrq) then 1 else 0) + tick_count evs)%nat.
Proof. unfold tick_count. rewrite filter_cons. by case_decide. Qed.

(** The state with the clock set to [n]. *)
Definition at_ticks (n : Z) (p : PIT.pit_state) : PIT.pit_state :=
  PIT.mk_pit n (PIT.timer_frequency p) (PIT.out p).

(** A wait for [n] more ticks returns right after the [n]-th timer interrupt,
    and only then. *)
Lemma sleep_until_spec evs p (n : nat) :
  0 <= PIT.ticks_since_boot p → PIT.ticks_since_boot p + Z.of_nat n < 18446744073709551616 →
  let target := PIT.ticks_since_boot p + Z.of_nat n in
  if decide (n <= tick_count evs)%nat then
    ∃ pre post, evs = pre ++ post ∧ tick_count pre = n ∧
      (last pre = None ∨ last pre = Some TimerIrq) ∧
      PIT.sleep_until target evs p = Some (at_ticks target p, post)
  else PIT.sleep_until target evs p = None.
Proof.
  cbv zeta. revert p n; induction evs as [|w evs IH]; intros p n H0 Hr.
  - cbn [PIT.sleep_until]. change (tick_count []) with 0%nat.
    destruct n as [|n].
    + rewrite decide_True by lia. exists [], []. rewrite Z.add_0_r, Z.ltb_irrefl.
      split_and!; try done; [by left|]. by destruct p.
    + rewrite decide_False by lia.
      by replace (_ <? _) with true by (symmetry; apply Z.ltb_lt; lia).
  - cbn [PIT.sleep_until]. destruct n as [|n].
    { rewrite decide_True by lia. exists [], (w :: evs). rewrite Z.add_0_r, Z.ltb_irrefl.
      split_and!; try done; [by left|]. by destruct p. }
    replace (_ <? _) with true by (symmetry; apply Z.ltb_lt; lia).
    rewrite tick_count_cons. destruct w; simpl PIT.deliver.
    + specialize (IH (PIT.tick p) n). unfold PIT.tick in *. simpl in IH.
      rewrite u64_id in * by lia. specialize (IH ltac:(lia) ltac:(lia)).
      replace (PIT.ticks_since_boot p + Z.of_nat (S n)) with
        (PIT.ticks_since_boot p + 1 + Z.of_nat n) by lia.
      case_decide; [rewrite decide_True by (simpl; lia)|rewrite decide_False by (simpl; lia); done].
      destruct IH as (pre & post & -> & Hc & Hl & ->). exists (TimerIrq :: pre), post.
      split_and!; [done|by rewrite tick_count_cons, Hc|right|done].
      destruct Hl as [Hl|Hl]; [apply last_None in Hl as ->; done|].
      rewrite last_cons, Hl. done.
    + specialize (IH p (S n) H0 Hr). simpl Nat.add.
      case_decide; [|done]. destruct IH as (pre & post & -> & Hc & Hl & ->).
      exists (OtherIrq :: pre), post.
      split_and!; [done|by rewrite tick_count_cons, Hc| |done].
      destruct pre as [|w pre]; [done|]. right. rewrite last_cons.
      destruct Hl as [Hl|Hl]; [apply last_None in Hl; done|]. by rewrite Hl.
Qed.

(** ** The clock after [Timer::init] *)

(** The PIT is the active timer at [PIT_TARGET_FREQUENCY]; the tick count is a
    64-bit value small enough for the millisecond product (584 years). *)
Record clock_ok (t : Timer.timer_state) : Prop := {
  ck_active : Timer.active_timer t = Timer.PIT_TIMER;
  ck_freq : PIT.timer_frequency (Timer.pit t) = 1000;
  ck_ticks : 0 <= PIT.ticks_since_boot (Timer.pit t) < 18446744073709;
}.

(** The timer with [n] more ticks on its clock. *)
Definition advance (n : Z) (t : Timer.timer_state) : Timer.timer_state :=
  Timer.set_pit (at_ticks (PIT.ticks_since_boot (Timer.pit t) + n) (Timer.pit t)) t.

(** At 1000 Hz the uptime in milliseconds is the tick count. *)
Lemma uptime_ms_eq t :
  Timer.active_timer t = Timer.PIT_TIMER → PIT.timer_frequency (Timer.pit t) = 1000 →
  0 <= PIT.ticks_since_boot (Timer.pit t) < 18446744073709551 →
  Timer.get_uptime_ms t = Timer.get_counter t.
Proof.
  intros Ha Hf Ht. unfold Timer.get_uptime_ms, Timer.get_counter.
  rewrite Ha. unfold PIT.get_uptime_ms, PIT.get_ticks. rewrite Hf. simpl. nowrap. dlia.
Qed.

(** A sleep of [d] ticks of the active PIT. *)
Lemma sleep_ticks evs t (d : Z) :
  clock_ok t → 0 <= d < 4294967296 →
  let r := Timer.lift_sleep
    (PIT.sleep_until (PIT.ticks_since_boot (Timer.pit t) ⊕ d) evs (Timer.pit t)) t in
  if decide (d <= Z.of_nat (tick_count evs)) then
    ∃ pre post, evs = pre ++ post ∧ Z.of_nat (tick_count pre) = d ∧
      (last pre = None ∨ last pre = Some TimerIrq) ∧ r = Some (advance d t, post)
  else r = None.
Proof.
  intros [Ha Hf Ht] Hd. cbv zeta.
  pose proof (sleep_until_spec evs (Timer.pit t) (Z.to_nat d)) as H. cbv zeta in H.
  rewrite Z2Nat.id, u64_id in * by lia. specialize (H ltac:(lia) ltac:(lia)).
  destruct (decide (d <= _));
    [rewrite decide_True in H by lia|rewrite decide_False in H by lia; by rewrite H].
  destruct H as (pre & post & -> & Hc & Hl & ->). exists pre, post.
  split_and!; try done. lia.
Qed.

(** A sleep of [ms] milliseconds that does not wrap. *)
Lemma sleep_ms_spec ms evs t :
  clock_ok t → 0 <= ms → ms * 1000 < 4294967296 →
  if decide (ms <= Z.of_nat (tick_count evs)) then
    ∃ pre post, evs = pre ++ post ∧ Z.of_nat (tick_count pre) = ms ∧
      (last pre = None ∨ last pre = Some TimerIrq) ∧
      Timer.sleep_ms ms evs t = Some (advance ms t, post)
  else Timer.sleep_ms ms evs t = None.
Proof.
  intros Hok H0 Hr. pose proof (sleep_ticks evs t ms Hok ltac:(lia)) as H.
  pose proof Hok as [Ha Hf Ht].
  unfold Timer.sleep_ms, PIT.sleep_ms. rewrite Ha, Hf. nowrap. simpl Z.eqb. cbv iota.
  rewrite Z.div_mul by lia. exact H.
Qed.

(** ** Properties *)

(** C18: a sleep of [ms] milliseconds whose tick product fits 32 bits returns
    exactly when [ms] timer interrupts have arrived, however many other
    interrupts wake the processor meanwhile: the uptime has then advanced by
    exactly [ms]; with fewer timer interrupts it is still halted. *)
Theorem sleep_ms_exact ms evs t :
  clock_ok t → 0 <= ms → ms * 1000 < 4294967296 →
  if decide (ms <= Z.of_nat (tick_count evs)) then
    ∃ pre post t', evs = pre ++ post ∧ Z.of_nat (tick_count pre) = ms ∧
      (last pre = None ∨ last pre = Some TimerIrq) ∧
      Timer.sleep_ms ms evs t = Some (t', post) ∧
      Timer.get_counter t' = Timer.get_counter t + ms ∧
      Timer.get_uptime_ms t' = Timer.get_uptime_ms t + ms
  else Timer.sleep_ms ms evs t = None.
Proof.
  intros Hok H0 Hr. pose proof (sleep_ms_spec ms evs t Hok H0 Hr) as H. pose proof Hok as [Ha Hf Ht].
  destruct (decide (ms <= _)); [|done].
  destruct H as (pre & post & -> & Hc & Hl & ->). exists pre, post, (advance ms t).
  assert (Timer.get_counter (advance ms t) = Timer.get_counter t + ms)
    by (unfold Timer.get_counter; simpl; by rewrite Ha).
  split_and!; try done. rewrite !uptime_ms_eq by (done || simpl; lia). done.
Qed.

(** For longer sleeps the product of milliseconds and frequency wraps at 32
    bits, and the sleep ends after fewer ticks than were asked for. *)
Theorem sleep_ms_wraps ms evs t :
  clock_ok t → 4294967296 <= ms * 1000 → ms < 4294967296 →
  let d := u32 (ms * 1000) `div` 1000 in
  d < ms ∧
  (d <= Z.of_nat (tick_count evs) →
   ∃ t' post, Timer.sleep_ms ms evs t = Some (t', post) ∧
     Timer.get_counter t' = Timer.get_counter t + d).
Proof.
  intros Hok Hlo Hhi. pose proof (u32_range (ms * 1000)).
  assert (0 <= u32 (ms * 1000) `div` 1000 <= 4294967) by dlia.
  cbv zeta. split; [lia|]. intros Hc.
  pose proof (sleep_ticks evs t (u32 (ms * 1000) `div` 1000) Hok ltac:(lia)) as Hs.
  pose proof Hok as [Ha Hf Ht].
  unfold Timer.sleep_ms, PIT.sleep_ms. rewrite Ha, Hf, (u32_id ms) by lia. simpl Z.eqb. cbv iota.
  cbv zeta in Hs |- *. rewrite decide_True in Hs by lia.
  destruct Hs as (pre & post & -> & _ & _ & ->). eexists _, _. split; [done|].
  unfold Timer.get_counter. simpl. by rewrite Ha.
Qed.

(** A sleep of less than a millisecond, in microseconds or nanoseconds,
    returns at once without waiting for a tick. *)
Theorem sleep_submillisecond us evs t :
  clock_ok t → 0 <= us < 1000 →
  Timer.sleep_us us evs t = Some (t, evs) ∧ Timer.sleep_ns (us * 1000) evs t = Some (t, evs).
Proof.
  intros Hok Hus. pose proof Hok as [Ha Hf Ht].
  assert (∀ d, 0 <= d < 1000 → Timer.lift_sleep (PIT.sleep_us (u32 d) evs (Timer.pit t)) t = Some (t, evs)) as Hs.
  { intros d Hd. unfold PIT.sleep_us. rewrite Hf. simpl Z.eqb. cbv iota zeta. nowrap.
    rewrite Z.div_small, Z.add_0_r, u64_id by lia.
    destruct evs; simpl; rewrite Z.ltb_irrefl; by destruct t, pit. }
  unfold Timer.sleep_us, Timer.sleep_ns. rewrite Ha. split; [by apply Hs|].
  cbv zeta. nowrap. replace ((us * 1000 + 999) `div` 1000) with us by dlia.
  destruct (us =? 0); apply Hs; lia.
Qed.

(** For every frequency the divisor fits (19 Hz up), [PIT::init] programs the
    counter with a 16-bit divisor whose rate is the closest one not below the
    frequency, low byte first after the mode byte; a frequency of zero faults. *)
Theorem pit_init_programs f p :
  19 <= f <= 1193182 →
  PIT.init 0 p = None ∧
  ∃ lo hi p', PIT.init f p = Some p' ∧ PIT.timer_frequency p' = f ∧
    PIT.out p' = PIT.out p ++ [(0x43, 0x36); (0x40, lo); (0x40, hi)] ∧
    0 <= lo < 256 ∧ 0 <= hi < 256 ∧ 0 < lo + 256 * hi ∧
    f * (lo + 256 * hi) <= PIT.PIT_FREQUENCY < f * (lo + 256 * hi + 1) ∧
    PIT.ticks_since_boot p' = PIT.ticks_since_boot p.
Proof.
  intros Hf. split; [done|]. unfold PIT.init, PIT.set_frequency. cond_false.
  assert (1 <= PIT.PIT_FREQUENCY `div` f < 65536).
  { unfold PIT.PIT_FREQUENCY. split; [apply Z.div_le_lower_bound; lia|].
    apply Z.div_lt_upper_bound; lia. }
  pose proof (Z.div_mod PIT.PIT_FREQUENCY f ltac:(lia)) as Hdm.
  pose proof (Z.mod_pos_bound PIT.PIT_FREQUENCY f ltac:(lia)).
  set (q := PIT.PIT_FREQUENCY `div` f) in *.
  change 0xFF with (Z.ones 8). rewrite shiftr_land_ones, Z.land_ones by lia.
  change (2 ^ 8) with 256.
  assert (q = q `mod` 256 + 256 * ((q `div` 256) `mod` 256)) as Hq by dlia.
  assert (0 <= q `mod` 256 < 256) by dlia. assert (0 <= (q `div` 256) `mod` 256 < 256) by dlia.
  eexists _, _, _. split; [done|]. simpl. split; [done|]. split; [done|]. nowrap.
  rewrite <- Hq. split_and!; try lia.
Qed.

(** [Timer::init] starts the PIT at 1000 Hz and makes it the active timer; from
    then on the counter, the three uptimes and the name agree with each other:
    one tick is one millisecond, and each timer interrupt adds one. *)
Theorem timer_init_clock t :
  0 <= PIT.ticks_since_boot (Timer.pit t) < 18446744073709 - 1 →
  ∃ t', Timer.init t = Some t' ∧ clock_ok t' ∧
    Timer.get_timer_name t' = "PIT"%string ∧ Timer.get_frequency t' = 1000 ∧
    ∀ w, let t'' := Timer.set_pit (PIT.deliver w (Timer.pit t')) t' in
    Timer.get_counter t'' = Timer.get_counter t' + Z.of_nat (tick_count [w]) ∧
    Timer.get_uptime_ms t'' = Timer.get_counter t'' ∧
    Timer.get_uptime_us t'' = 1000 * Timer.get_uptime_ms t'' ∧
    Timer.get_uptime_ns t'' = u64 (1000 * Timer.get_uptime_us t'').
Proof.
  intros Ht. eexists. split; [reflexivity|]. split; [by split; simpl; try lia|].
  split; [done|]. split; [done|]. intros w. cbv zeta.
  unfold Timer.get_uptime_ms, Timer.get_uptime_us, Timer.get_uptime_ns, Timer.get_counter.
  destruct w; simpl; unfold PIT.get_uptime_ms, PIT.get_uptime_us, PIT.get_ticks; simpl;
    nowrap; unfold tick_count, Timer.PIT_TARGET_FREQUENCY; simpl; split_and!;
    first [by rewrite Z.mul_comm|dlia].
Qed.

(** ** Witnesses *)

(** A timer initialised 5 ticks after boot, and a burst of interrupts. *)
Definition timer5 : Timer.timer_state :=
  Timer.mk_timer Timer.PIT_TIMER 1000 (PIT.mk_pit 5 1000 []).
Definition burst : list wake := [OtherIrq; TimerIrq; OtherIrq; TimerIrq; TimerIrq; OtherIrq].

Lemma timer5_ok : clock_ok timer5.
Proof. split; simpl; try done; lia. Qed.

Lemma sleep_ms_exact_witness :
  ∃ t' post, Timer.sleep_ms 2 burst timer5 = Some (t', post) ∧ Timer.get_counter t' = 7 ∧
    post = [TimerIrq; OtherIrq].
Proof.
  pose proof (sleep_ms_exact 2 burst timer5 timer5_ok ltac:(lia) ltac:(lia)) as H.
  rewrite decide_True in H by (vm_compute; done).
  destruct H as (pre & post & t' & Hb & Hc & Hl & Hs & Ht & _).
  exists t', post. split; [done|]. split; [done|].
  assert (Timer.sleep_ms 2 burst timer5 = Some (advance 2 timer5, [TimerIrq; OtherIrq])) as E
    by reflexivity.
  rewrite E in Hs. by inversion Hs.
Defined.

(** 4294968 ms (a little over 71 minutes) is cut to no tick at all. *)
Lemma sleep_ms_wraps_witness :
  u32 (4294968 * 1000) `div` 1000 = 0 ∧
  ∃ t' post, Timer.sleep_ms 4294968 [] timer5 = Some (t', post) ∧ Timer.get_counter t' = 5.
Proof.
  split; [reflexivity|].
  destruct (sleep_ms_wraps 4294968 [] timer5 timer5_ok ltac:(lia) ltac:(lia)) as [_ H].
  destruct (H ltac:(vm_compute; done)) as (t' & post & -> & E). by exists t', post.
Defined.

Lemma sleep_submillisecond_witness : Timer.sleep_ns (999 * 1000) [] timer5 = Some (timer5, []).
Proof. apply (sleep_submillisecond 999 [] timer5 timer5_ok). lia. Defined.

Lemma pit_init_programs_witness :
  ∃ p', PIT.init 1000 (PIT.mk_pit 0 0 []) = Some p' ∧
    PIT.out p' = [(0x43, 0x36); (0x40, 0xA9); (0x40, 0x04)].
Proof.
  destruct (pit_init_programs 1000 (PIT.mk_pit 0 0 []) ltac:(lia)) as (_ & lo & hi & p' & E & _ & Ho & _).
  exists p'. split; [done|]. vm_compute in E. by inversion E.
Defined.

Lemma timer_init_clock_witness :
  ∃ t', Timer.init (Timer.mk_timer Timer.NONE 0 (PIT.mk_pit 0 0 [])) = Some t' ∧ clock_ok t'.
Proof.
  destruct (timer_init_clock (Timer.mk_timer Timer.NONE 0 (PIT.mk_pit 0 0 [])))
    as (t' & E & Hok & _); [simpl; lia|]. by exists t'.
Defined.
