(* ===== verification/IoApic.v ===== *)
(** * IoApic: the I/O interrupt controllers and the routing of interrupts.

    [src/kernel/sys/ioapic.cc].  A controller is reached through a select
    register and a data window, and has its own registers behind them; the
    controllers are indexed by their physical base.  The layout of the MADT
    entries is fixed by headers of the ACPI library, so reading the entry at an
    address is an argument ([entry_at]) of the walk over the table. *)
From stdpp Require Import base numbers list gmap.
From S2P Require Import Prelude Mem Boot Frames Paging.
Local Open Scope Z_scope.

Module IOAPIC.

(** The select register and the registers behind the window. *)
Record controller := mk_controller { ioregsel : Z; ioregs : Z → Z }.
Definition io_space := Z → controller.

Definition with_controller (base : Z) (c : controller) (io : io_space) : io_space :=
  λ b, if b =? base then c else io b.

Definition write (base reg value : Z) (io : io_space) : io_space :=
  let selected := mk_controller reg (ioregs (io base)) in
  with_controller base
    (mk_controller reg (λ r, if r =? ioregsel selected then value else ioregs selected r)) io.

Definition read (base reg : Z) (io : io_space) : Z * io_space :=
  let selected := mk_controller reg (ioregs (io base)) in
  (ioregs selected (ioregsel selected), with_controller base selected io).

(** The entries the driver keeps. *)
Record madt_ioapic := mk_ioapic { id : Z; address : Z; gsi_base : Z }.
Record madt_iso := mk_iso { source : Z; gsi : Z; iso_flags : Z }.
Inductive madt_entry := IoApicEntry (a : madt_ioapic) | IsoEntry (o : madt_iso) | OtherEntry.

(** The static tables, up to [apic_ent] and [iso_ent]. *)
Record tables := mk_tables { apics : list madt_ioapic; iso : list madt_iso }.

Definition TABLE_SIZE : nat := 24.

(** The result of the walk: finished, a write past the end of a static table, or
    cut off by its fuel. *)
Inductive scan (A : Type) := Scanned (a : A) | Overrun | Looping.
Arguments Scanned {A} a.
Arguments Overrun {A}.
Arguments Looping {A}.

Section walk.
(** The entry at an address of the table and its length byte. *)
Context (entry_at : Z → madt_entry * Z).
Context (hhdm : Z).

Fixpoint walk (fuel : nat) (end_ current : Z) (t : tables) (ps : paging_state) :
    scan (tables * paging_state) :=
  match fuel with
  | O => Looping
  | S fuel =>
      if end_ <=? current then Scanned (t, ps)
      else
        let '(entry, len) := entry_at current in
        match entry with
        | IoApicEntry a =>
            let ps := map hhdm ps (address a) (PHYS2VIRT hhdm (address a))
                          (Z.lor PAGE_PRESENT PAGE_WRITE) in
            if (length (apics t) <? TABLE_SIZE)%nat
            then walk fuel end_ (current ⊕ len) (mk_tables (apics t ++ [a]) (iso t)) ps
            else Overrun
        | IsoEntry o =>
            if (length (iso t) <? TABLE_SIZE)%nat
            then walk fuel end_ (current ⊕ len) (mk_tables (apics t) (iso t ++ [o])) ps
            else Overrun
        | OtherEntry => walk fuel end_ (current ⊕ len) t ps
        end
  end.

(** The two reads of every controller after the walk. *)
Fixpoint probe (l : list madt_ioapic) (io : io_space) : io_space :=
  match l with
  | [] => io
  | a :: l =>
      let io := (read (address a) 1 io).2 in
      let io := (read (address a) 0 io).2 in
      probe l io
  end.

(** [init] on the table the ACPI library finds: its [entries] address, its
    header's [length] field and the size of the fixed part of the structure;
    a missing table halts. *)
Definition init (madt : option (Z * Z * Z)) (io : io_space) (ps : paging_state) :
    outcome (scan (tables * io_space * paging_state)) :=
  match madt with
  | None => Hlt
  | Some (entries, len, sizeof_madt) =>
      let end_ := (entries ⊕ len) ⊖ sizeof_madt in
      match walk (S (Z.to_nat (end_ - entries))) end_ entries (mk_tables [] []) ps with
      | Scanned (t, ps) => Ret (Scanned (t, probe (apics t) io, ps))
      | Overrun => Ret Overrun
      | Looping => Ret Looping
      end
  end.
End walk.

(** The first override for [irq]. *)
Fixpoint find_iso (l : list madt_iso) (irq : Z) : option madt_iso :=
  match l with
  | [] => None
  | o :: l => if source o =? irq then Some o else find_iso l irq
  end.

(** The loop over the controllers: the last one looked at is the one used. *)
Fixpoint select (l : list madt_ioapic) (actual_irq : Z) (apic : option madt_ioapic)
    (io : io_space) : option madt_ioapic * io_space :=
  match l with
  | [] => (apic, io)
  | a :: l =>
      let '(ver, io) := read (address a) 1 io in
      let max := Z.shiftr ver 16 in
      if (gsi_base a <=? actual_irq) && (actual_irq <? u32 (gsi_base a + max))
      then (Some a, io)
      else select l actual_irq (Some a) io
  end.

(** The redirection entry of a route. *)
Definition redirection (found : option madt_iso) (vec flags lapic : Z) : Z :=
  match found with
  | None => Z.lor (Z.lor (u64 (Z.shiftl lapic 56)) flags) (Z.land vec 0xFF)
  | Some ciso =>
      let pol := if Z.land (iso_flags ciso) 3 =? 3 then 1 else 0 in
      let mode := if Z.land (Z.shiftr (iso_flags ciso) 2) 3 =? 3 then 1 else 0 in
      Z.lor (Z.lor (Z.lor (Z.lor (u64 (Z.shiftl lapic 56)) (Z.shiftl mode 15))
        (Z.shiftl pol 13)) (Z.land vec 0xFF)) flags
  end.

(** [false] is the early return without any controller. *)
Definition set (t : tables) (vec irq flags lapic : Z) (io : io_space) : bool * io_space :=
  let found := find_iso (iso t) irq in
  let actual_irq := match found with Some ciso => u8 (gsi ciso) | None => irq end in
  let c_flags := redirection found vec flags lapic in
  let '(apic, io) := select (apics t) actual_irq None io in
  match apic with
  | None => (false, io)
  | Some apic =>
      let irqreg := u32 (u32 (u32 (actual_irq - gsi_base apic) * 2) + 0x10) in
      let io := write (address apic) irqreg (u32 c_flags) io in
      let io := write (address apic) (u32 (irqreg + 1)) (u32 (Z.shiftr c_flags 32)) io in
      (true, io)
  end.

(** The fields [dump_entries] prints for one entry. *)
Record redirection_fields := mk_fields {
  vector : Z; delivery_mode : Z; dest_mode : Z; polarity : Z; trigger : Z; mask : Z; dest : Z;
}.

Definition decode_entry (low high : Z) : redirection_fields := {|
  vector := Z.land low 0xFF;
  delivery_mode := Z.land (Z.shiftr low 8) 0x7;
  dest_mode := Z.land (Z.shiftr low 11) 0x1;
  polarity := Z.land (Z.shiftr low 13) 0x1;
  trigger := Z.land (Z.shiftr low 15) 0x1;
  mask := Z.land (Z.shiftr low 16) 0x1;
  dest := Z.land (Z.shiftr high 24) 0xFF |}.

(** [n] rounds of the dump of one controller from [entry] on: the entries that
    are printed. *)
Fixpoint dump_controller (n : nat) (base entry : Z) (io : io_space) :
    list (Z * redirection_fields) * io_space :=
  match n with
  | O => ([], io)
  | S n =>
      let reg := u32 (u32 (entry * 2) + 0x10) in
      let '(low, io) := read base reg io in
      let '(high, io) := read base (u32 (reg + 1)) io in
      let f := decode_entry low high in
      let '(rest, io) := dump_controller n base (u32 (entry + 1)) io in
      (if negb (vector f =? 0) || (mask f =? 0) then (entry, f) :: rest else rest, io)
  end.

Fixpoint dump_entries (l : list madt_ioapic) (io : io_space) :
    list (list (Z * redirection_fields)) * io_space :=
  match l with
  | [] => ([], io)
  | a :: l =>
      let '(ver, io) := read (address a) 1 io in
      let max := Z.land (Z.shiftr ver 16) 0xFF in
      let '(es, io) := dump_controller (Z.to_nat (max + 1)) (address a) 0 io in
      let '(rest, io) := dump_entries l io in
      (es :: rest, io)
  end.

End IOAPIC.
Import IOAPIC.

(** ** Controllers *)

(** Same registers everywhere; only select registers may differ. *)
Definition same_regs (io io' : io_space) : Prop := ∀ b r, ioregs (io' b) r = ioregs (io b) r.

#[global] Instance same_regs_preorder : PreOrder same_regs.
Proof. split; [by intros io b r|]. intros x y z Hxy Hyz b r. by rewrite Hyz. Qed.

Lemma read_value base reg io : (read base reg io).1 = ioregs (io base) reg.
Proof. done. Qed.

Lemma read_same base reg io : same_regs io (read base reg io).2.
Proof. intros b r. unfold read, with_controller; simpl. case_cond; [by subst|done]. Qed.

Lemma write_regs base reg v io b r :
  ioregs (write base reg v io b) r =
  if (b =? base) && (r =? reg) then v else ioregs (io b) r.
Proof.
  unfold write, with_controller; simpl. destruct (b =? base) eqn:E; b2p; simpl; [|done].
  by subst.
Qed.

Lemma probe_same l io : same_regs io (probe l io).
Proof.
  revert io; induction l as [|a l IH]; intros io; [by intros b r|]. simpl.
  etransitivity; [apply (read_same (address a) 1)|].
  etransitivity; [apply (read_same (address a) 0)|]. apply IH.
Qed.

(** The test of the selection loop: [max] is the number of the last pin. *)
Definition max_entry (io : io_space) (a : madt_ioapic) : Z := Z.shiftr (ioregs (io (address a)) 1) 16.
Definition accepts (io : io_space) (irq : Z) (a : madt_ioapic) : bool :=
  (gsi_base a <=? irq) && (irq <? u32 (gsi_base a + max_entry io a)).

Lemma accepts_same io io' irq a : same_regs io io' → accepts io' irq a = accepts io irq a.
Proof. intros H. unfold accepts, max_entry. by rewrite H. Qed.

(** The first accepting controller is selected, and the last one when none
    accepts. *)
Lemma select_spec l irq d io :
  let '(r, io') := select l irq d io in
  same_regs io io' ∧
  ((∃ l1 a l2, l = l1 ++ a :: l2 ∧ accepts io irq a = true ∧
      Forall (λ b, accepts io irq b = false) l1 ∧ r = Some a) ∨
   (Forall (λ b, accepts io irq b = false) l ∧ r = match last l with Some a => Some a | None => d end)).
Proof.
  revert d io; induction l as [|a l IH]; intros d io; [split; [by intros b r|by right]|].
  cbn [select]. pose proof (read_same (address a) 1 io) as Hr.
  pose proof (read_value (address a) 1 io) as Hv.
  destruct (read (address a) 1 io) as [ver io1]; simpl in Hr, Hv; subst ver.
  change (Z.shiftr _ 16) with (max_entry io a).
  destruct (accepts io irq a) eqn:E; unfold accepts in E; rewrite E.
  - split; [done|]. left. by exists [], a, l.
  - specialize (IH (Some a) io1). destruct (select l irq (Some a) io1) as [r io'].
    destruct IH as [Hs IH]. split; [by etransitivity|].
    assert (∀ b, accepts io1 irq b = accepts io irq b) as Hacc by (intros; by apply accepts_same).
    destruct IH as [(l1 & b & l2 & -> & Hb & Hl1 & ->)|[Hl ->]].
    + left. exists (a :: l1), b, l2. rewrite Hacc in Hb. split_and!; try done.
      constructor; [done|]. eapply Forall_impl; [exact Hl1|]. intros c Hc; simpl in *.
      by rewrite <- Hacc.
    + right. split.
      * constructor; [done|]. eapply Forall_impl; [exact Hl|]. intros c Hc; simpl in *.
        by rewrite <- Hacc.
      * rewrite last_cons. by destruct (last l).
Qed.

(** The selection when the first accepting controller is known. *)
Lemma select_unique l irq io (r : option madt_ioapic) l1 a l2 :
  l = l1 ++ a :: l2 → Forall (λ b, accepts io irq b = false) l1 → accepts io irq a = true →
  ((∃ l1' b l2', l = l1' ++ b :: l2' ∧ accepts io irq b = true ∧
      Forall (λ b, accepts io irq b = false) l1' ∧ r = Some b) ∨
   (Forall (λ b, accepts io irq b = false) l ∧ r = match last l with Some a => Some a | None => None end)) →
  r = Some a.
Proof.
  intros -> Hl1 Ha [(l1' & b & l2' & E & Hb & Hl1' & ->)|[Hall _]].
  - f_equal. revert l1' Hl1' E; induction Hl1 as [|c l1 Hc Hl1 IH]; intros l1' Hl1' E.
    + destruct l1' as [|c l1']; simplify_eq/=; [done|].
      apply Forall_cons in Hl1' as [? _]. congruence.
    + destruct l1' as [|c' l1']; simplify_eq/=; [congruence|].
      apply Forall_cons in Hl1' as [_ ?]. by eapply IH.
  - apply Forall_app in Hall as [_ Hall]. apply Forall_cons in Hall as [? _]. congruence.
Qed.

(** ** Redirection entries *)

(** Active-low and level-triggered, as the override of an interrupt says; both
    off without an override. *)
Definition active_low (found : option madt_iso) : Z :=
  match found with Some o => b2z (Z.land (iso_flags o) 3 =? 3) | None => 0 end.
Definition level (found : option madt_iso) : Z :=
  match found with Some o => b2z (Z.land (Z.shiftr (iso_flags o) 2) 3 =? 3) | None => 0 end.

Lemma redirection_sum found vec lapic :
  0 <= vec < 256 → 0 <= lapic < 256 →
  redirection found vec 0 lapic =
  vec + 2 ^ 13 * active_low found + 2 ^ 15 * level found + 2 ^ 56 * lapic.
Proof.
  intros Hv Hl. unfold redirection, active_low, level.
  change (Z.land vec 0xFF) with (Z.land vec (Z.ones 8)). rewrite Z.land_ones, Z.mod_small by lia.
  rewrite Z.shiftl_mul_pow2, u64_id by lia.
  assert (Hlow : ∀ l p, Z.lor (Z.shiftl (b2z l) 15) (Z.lor (Z.shiftl (b2z p) 13) vec) =
    vec + 2 ^ 13 * b2z p + 2 ^ 15 * b2z l).
  { intros l p. rewrite !Z.shiftl_mul_pow2 by lia.
    rewrite (lor_disjoint_add (b2z p) vec 13) by lia.
    rewrite (lor_disjoint_add (b2z l)) by (destruct p; simpl; lia). lia. }
  destruct found as [o|]; rewrite ?Z.lor_0_r.
  - fold (b2z (Z.land (iso_flags o) 3 =? 3)).
    fold (b2z (Z.land (Z.shiftr (iso_flags o) 2) 3 =? 3)). rewrite <- !Z.lor_assoc, Hlow.
    set (x := b2z _). set (y := b2z _).
    pose proof (b2z_range (Z.land (iso_flags o) 3 =? 3) : 0 <= x <= 1).
    pose proof (b2z_range (Z.land (Z.shiftr (iso_flags o) 2) 3 =? 3) : 0 <= y <= 1).
    rewrite lor_disjoint_add by lia. lia.
  - rewrite lor_disjoint_add by lia. lia.
Qed.

(** What [dump_entries] reads back from the two halves of an entry. *)
Lemma decode_redirection found vec lapic :
  0 <= vec < 256 → 0 <= lapic < 256 →
  let x := redirection found vec 0 lapic in
  decode_entry (u32 x) (u32 (Z.shiftr x 32)) =
  mk_fields vec 0 0 (active_low found) (level found) 0 lapic.
Proof.
  intros Hv Hl. cbv zeta. rewrite redirection_sum by done.
  assert (0 <= active_low found <= 1) by (destruct found; simpl; [apply b2z_range|lia]).
  assert (0 <= level found <= 1) by (destruct found; simpl; [apply b2z_range|lia]).
  set (p := active_low found) in *. set (m := level found) in *.
  assert (u32 (vec + 2 ^ 13 * p + 2 ^ 15 * m + 2 ^ 56 * lapic) = vec + 2 ^ 13 * p + 2 ^ 15 * m) as ->.
  { unfold u32. replace (2 ^ 56 * lapic) with (2 ^ 24 * lapic * 4294967296) by lia.
    rewrite Z.mod_add, Z.mod_small by lia. done. }
  assert (Z.shiftr (vec + 2 ^ 13 * p + 2 ^ 15 * m + 2 ^ 56 * lapic) 32 = 2 ^ 24 * lapic) as ->.
  { rewrite Z.shiftr_div_pow2 by lia. symmetry.
    apply Z.div_unique with (vec + 2 ^ 13 * p + 2 ^ 15 * m); lia. }
  rewrite u32_id by lia. unfold decode_entry.
  set (low := vec + 2 ^ 13 * p + 2 ^ 15 * m).
  rewrite <- (Z.shiftr_0_r low) at 1.
  rewrite (land_field low 0 8), (land_field low 8 3), (land_field low 11 1),
    (land_field low 13 1), (land_field low 15 1), (land_field low 16 1),
    (land_field _ 24 8) by (done || lia).
  f_equal.
  - apply (field_at _ _ _ 0 _ (2 ^ 5 * p + 2 ^ 7 * m)); lia.
  - apply (field_at _ _ _ vec _ (2 ^ 2 * p + 2 ^ 4 * m)); lia.
  - apply (field_at _ _ _ vec _ (2 * p + 2 ^ 3 * m)); lia.
  - apply (field_at _ _ _ vec _ (2 * m)); lia.
  - apply (field_at _ _ _ (vec + 2 ^ 13 * p) _ 0); lia.
  - apply (field_at _ _ _ low _ 0); lia.
  - apply (field_at _ _ _ 0 _ 0); lia.
Qed.

(** ** Routing *)

(** The interrupt line a request resolves to. *)
Definition actual_line (t : tables) (irq : Z) : Z :=
  match find_iso (iso t) irq with Some o => u8 (gsi o) | None => irq end.

(** The effect of [set] on the registers, once the controller is known. *)
Lemma set_writes t vec irq flags lapic io a io1 :
  select (apics t) (actual_line t irq) None io = (Some a, io1) →
  let reg := u32 (u32 (u32 (actual_line t irq - gsi_base a) * 2) + 0x10) in
  let x := redirection (find_iso (iso t) irq) vec flags lapic in
  let '(ok, io') := set t vec irq flags lapic io in
  ok = true ∧ ∀ b r, ioregs (io' b) r =
    if b =? address a then
      if r =? u32 (reg + 1) then u32 (Z.shiftr x 32)
      else if r =? reg then u32 x else ioregs (io1 b) r
    else ioregs (io1 b) r.
Proof.
  intros Hsel. unfold set. fold (actual_line t irq). rewrite Hsel. split; [done|].
  intros b r. rewrite !write_regs. by destruct (b =? address a), (r =? _).
Qed.

(** ** The walk over the MADT *)

(** The entries [l] lie one after the other from [a] to [e]. *)
Inductive laid_out (entry_at : Z → madt_entry * Z) : Z → list madt_entry → Z → Prop :=
| laid_nil e : laid_out entry_at e [] e
| laid_cons a n x l e :
    entry_at a = (x, n) → 0 < n → laid_out entry_at (a + n) l e →
    laid_out entry_at a (x :: l) e.

Definition ioapics_of (l : list madt_entry) : list madt_ioapic :=
  omap (λ x, match x with IoApicEntry a => Some a | _ => None end) l.
Definition isos_of (l : list madt_entry) : list madt_iso :=
  omap (λ x, match x with IsoEntry o => Some o | _ => None end) l.

(** The mapping of one controller's page, and of all of them in turn. *)
Definition map_controller (hhdm : Z) (ps : paging_state) (a : madt_ioapic) : paging_state :=
  map hhdm ps (address a) (PHYS2VIRT hhdm (address a)) (Z.lor PAGE_PRESENT PAGE_WRITE).

Lemma laid_out_le entry_at a l e : laid_out entry_at a l e → a + Z.of_nat (length l) <= e.
Proof. induction 1; simpl; lia. Qed.

Lemma walk_spec entry_at hhdm a l e :
  laid_out entry_at a l e → 0 <= a → e < 18446744073709551616 →
  ∀ fuel t ps, (length l < fuel)%nat →
  (length (apics t) + length (ioapics_of l) <= TABLE_SIZE)%nat →
  (length (iso t) + length (isos_of l) <= TABLE_SIZE)%nat →
  walk entry_at hhdm fuel e a t ps =
  Scanned (mk_tables (apics t ++ ioapics_of l) (iso t ++ isos_of l),
           foldl (map_controller hhdm) ps (ioapics_of l)).
Proof.
  induction 1 as [e|a n x l e Hx Hn Hl IH]; intros Ha He fuel t ps Hf Hap His.
  - destruct fuel as [|fuel]; [simpl in Hf; lia|]. simpl. rewrite Z.leb_refl, !app_nil_r.
    by destruct t.
  - destruct fuel as [|fuel]; [simpl in Hf; lia|]. pose proof (laid_out_le _ _ _ _ Hl).
    cbn [walk]. replace (e <=? a) with false by (symmetry; apply Z.leb_gt; lia). rewrite Hx.
    rewrite u64_id by lia. simpl length in Hf.
    destruct x as [c|o|]; cbn [ioapics_of isos_of omap list_omap] in *; simpl in Hap, His.
    + replace (_ <? _)%nat with true by (symmetry; apply Nat.ltb_lt; unfold ioapics_of in *; lia).
      rewrite IH by (simpl; rewrite ?length_app; simpl; try lia; exact His || (unfold ioapics_of in *; lia)).
      simpl. by rewrite <- app_assoc.
    + replace (_ <? _)%nat with true by (symmetry; apply Nat.ltb_lt; unfold isos_of in *; lia).
      rewrite IH by (simpl; rewrite ?length_app; simpl; try lia; exact Hap || (unfold isos_of in *; lia)).
      simpl. by rewrite <- app_assoc.
    + by rewrite IH by (done || lia).
Qed.

(** ** Properties *)

(** C32: on a MADT whose entries fill the space its length field announces, with at
    most 24 controllers and 24 overrides, [init] terminates and records exactly
    those controllers and overrides, in table order, maps each controller's
    page, and changes no controller register. *)
Theorem ioapic_init_collects entry_at hhdm entries len sizeof_madt l io ps :
  laid_out entry_at entries l (entries + len - sizeof_madt) →
  0 <= entries → entries + len < 18446744073709551616 → 0 <= sizeof_madt <= len →
  (length (ioapics_of l) <= 24)%nat → (length (isos_of l) <= 24)%nat →
  ∃ io', IOAPIC.init entry_at hhdm (Some (entries, len, sizeof_madt)) io ps =
    Ret (Scanned (mk_tables (ioapics_of l) (isos_of l), io',
                  foldl (map_controller hhdm) ps (ioapics_of l))) ∧ same_regs io io'.
Proof.
  intros Hl H0 Hr Hs Hap His. pose proof (laid_out_le _ _ _ _ Hl). unfold IOAPIC.init.
  rewrite (u64_id (entries + len)), (u64_id (entries + len - sizeof_madt)) by lia.
  rewrite (walk_spec entry_at hhdm entries l) by (done || lia).
  eexists. split; [reflexivity|]. apply probe_same.
Qed.

(** [set] on the first accepting controller writes the two halves of the pin's
    entry, and nothing else. *)
Lemma set_entry t vec irq flags lapic io l1 a l2 :
  apics t = l1 ++ a :: l2 → Forall (λ b, accepts io (actual_line t irq) b = false) l1 →
  accepts io (actual_line t irq) a = true → 0 <= irq < 256 → 0 <= gsi_base a →
  let pin := actual_line t irq - gsi_base a in
  let x := redirection (find_iso (iso t) irq) vec flags lapic in
  let '(ok, io') := set t vec irq flags lapic io in
  ok = true ∧ ∀ b r, ioregs (io' b) r =
    if b =? address a then
      if r =? 0x11 + 2 * pin then u32 (Z.shiftr x 32)
      else if r =? 0x10 + 2 * pin then u32 x else ioregs (io b) r
    else ioregs (io b) r.
Proof.
  intros Eap Hl1 Hacc Hirq Hbase. cbv zeta.
  assert (0 <= actual_line t irq < 256) as Hline.
  { unfold actual_line. destruct (find_iso _ _); [apply u8_range|done]. }
  pose proof (select_spec (apics t) (actual_line t irq) None io) as Hsel.
  destruct (select (apics t) (actual_line t irq) None io) as [r0 io1] eqn:Es.
  destruct Hsel as [Hsame Hsel].
  assert (r0 = Some a) as -> by (eapply select_unique; eauto).
  pose proof (set_writes t vec irq flags lapic io a io1 Es) as Hset.
  destruct (set t vec irq flags lapic io) as [ok io']. destruct Hset as [-> Hw]. split; [done|].
  unfold accepts in Hacc. b2p.
  set (pin := actual_line t irq - gsi_base a) in *.
  assert (0 <= pin < 256) by lia.
  rewrite (u32_id pin), (u32_id (pin * 2)), (u32_id (pin * 2 + 16)),
    (u32_id (pin * 2 + 16 + 1)) in Hw by lia.
  intros b r. rewrite Hw, Hsame. replace (0x11 + 2 * pin) with (pin * 2 + 16 + 1) by lia.
  by replace (0x10 + 2 * pin) with (pin * 2 + 16) by lia.
Qed.

(** C15: an interrupt whose line is below the last pin of some controller is routed
    to the first such controller: [set] succeeds, and reading the pin's entry
    back as [dump_entries] does gives the requested vector and destination,
    fixed delivery to a physical destination, unmasked, with the polarity and
    trigger mode of the override for that interrupt; no other register of any
    controller changes. *)
Theorem ioapic_set_routes t vec irq lapic io l1 a l2 :
  apics t = l1 ++ a :: l2 → Forall (λ b, accepts io (actual_line t irq) b = false) l1 →
  accepts io (actual_line t irq) a = true →
  0 <= vec < 256 → 0 <= lapic < 256 → 0 <= irq < 256 → 0 <= gsi_base a →
  let pin := actual_line t irq - gsi_base a in
  let '(ok, io') := set t vec irq 0 lapic io in
  ok = true ∧
  decode_entry (ioregs (io' (address a)) (0x10 + 2 * pin))
               (ioregs (io' (address a)) (0x11 + 2 * pin)) =
    mk_fields vec 0 0 (active_low (find_iso (iso t) irq)) (level (find_iso (iso t) irq)) 0 lapic ∧
  (∀ b r, (b, r) ≠ (address a, 0x10 + 2 * pin) → (b, r) ≠ (address a, 0x11 + 2 * pin) →
     ioregs (io' b) r = ioregs (io b) r).
Proof.
  intros Eap Hl1 Hacc Hv Hl Hirq Hbase.
  pose proof (set_entry t vec irq 0 lapic io l1 a l2 Eap Hl1 Hacc Hirq Hbase) as H. cbv zeta in *.
  destruct (set t vec irq 0 lapic io) as [ok io']. destruct H as [-> Hw]. split; [done|].
  set (pin := actual_line t irq - gsi_base a) in *. split.
  - rewrite !Hw, Z.eqb_refl. replace (0x10 + 2 * pin =? 0x11 + 2 * pin) with false by lia.
    rewrite !Z.eqb_refl. by apply decode_redirection.
  - intros b r N1 N2. rewrite Hw. destruct (b =? address a) eqn:?; [|done].
    repeat case_cond; b2p; subst; done.
Qed.

(** The last pin of a controller is taken for the next controller's: with two
    adjacent controllers, routing the last line of the first writes registers 14
    and 15 of the second, which are not redirection entries, and leaves every
    register of the first as it was. *)
Theorem ioapic_last_pin_misrouted t vec irq flags lapic io a a' :
  apics t = [a; a'] → address a ≠ address a' →
  actual_line t irq = gsi_base a + max_entry io a → 0 <= gsi_base a →
  gsi_base a' = gsi_base a + max_entry io a + 1 → gsi_base a' < 256 →
  0 <= max_entry io a →
  let x := redirection (find_iso (iso t) irq) vec flags lapic in
  let '(ok, io') := set t vec irq flags lapic io in
  ok = true ∧ (∀ r, ioregs (io' (address a)) r = ioregs (io (address a)) r) ∧
  ioregs (io' (address a')) 14 = u32 x ∧ ioregs (io' (address a')) 15 = u32 (Z.shiftr x 32).
Proof.
  intros Eap Hne Hline H0 Hadj Hsm Hmax. cbv zeta.
  pose proof (select_spec (apics t) (actual_line t irq) None io) as Hsel.
  destruct (select (apics t) (actual_line t irq) None io) as [r0 io1] eqn:Es.
  destruct Hsel as [Hsame Hsel].
  assert (accepts io (actual_line t irq) a = false) as Ha.
  { unfold accepts. rewrite Hline, u32_id by lia. apply andb_false_iff. right. lia. }
  assert (accepts io (actual_line t irq) a' = false) as Ha'.
  { unfold accepts. apply andb_false_iff. left. lia. }
  assert (r0 = Some a') as ->.
  { destruct Hsel as [(l1 & b & l2 & E & Hb & _ & _)|[_ ->]]; [|by rewrite Eap].
    exfalso. assert (b ∈ apics t) as Hin by (rewrite E; apply elem_of_app; right; constructor).
    rewrite Eap in Hin. apply elem_of_cons in Hin as [->|Hin]; [congruence|].
    apply list_elem_of_singleton in Hin as ->. congruence. }
  pose proof (set_writes t vec irq flags lapic io a' io1 Es) as Hset.
  destruct (set t vec irq flags lapic io) as [ok io']. destruct Hset as [-> Hw]. split; [done|].
  replace (actual_line t irq - gsi_base a') with (-1) in Hw by lia.
  change (u32 (u32 (u32 (-1) * 2) + 16)) with 14 in Hw. change (u32 (14 + 1)) with 15 in Hw.
  split_and!.
  - intros r. rewrite Hw, Hsame. by replace (address a =? address a') with false by lia.
  - by rewrite Hw, Z.eqb_refl.
  - by rewrite Hw, Z.eqb_refl.
Qed.

(** ** Witnesses *)

(** Two 24-pin controllers, lines 0-23 and 24-47, and the usual override of the
    timer interrupt, active high and edge triggered, to line 2. *)
Definition two_controllers : tables :=
  mk_tables [mk_ioapic 0 0xFEC00000 0; mk_ioapic 1 0xFEC01000 24] [mk_iso 0 2 0].
Definition idle_io : io_space := λ _, mk_controller 0 (λ r, if r =? 1 then 0x170011 else 0).

Definition sample_madt (a : Z) : madt_entry * Z :=
  if a =? 0x1000 then (OtherEntry, 8)
  else if a =? 0x1008 then (IoApicEntry (mk_ioapic 0 0xFEC00000 0), 12)
  else (IsoEntry (mk_iso 0 2 0), 10).

Definition blank_paging : paging_state := mk_paging (sample_frames (λ _, 0) 0) 0x100000 ∅ 0 0 0.

Lemma ioapic_init_collects_witness :
  ∃ io' ps', IOAPIC.init sample_madt 0x80000 (Some (0x1000, 74, 44)) idle_io blank_paging =
    Ret (Scanned (mk_tables [mk_ioapic 0 0xFEC00000 0] [mk_iso 0 2 0], io', ps')).
Proof.
  destruct (ioapic_init_collects sample_madt 0x80000 0x1000 74 44
    [OtherEntry; IoApicEntry (mk_ioapic 0 0xFEC00000 0); IsoEntry (mk_iso 0 2 0)]
    idle_io blank_paging) as (io' & E & _); try (simpl; lia).
  { do 3 (eapply laid_cons; [reflexivity|lia|]). constructor. }
  eexists _, _. exact E.
Defined.

Lemma ioapic_set_routes_witness :
  let '(ok, io') := set two_controllers 0x20 0 0 3 idle_io in
  ok = true ∧ decode_entry (ioregs (io' 0xFEC00000) 0x14) (ioregs (io' 0xFEC00000) 0x15) =
    mk_fields 0x20 0 0 0 0 0 3.
Proof.
  pose proof (ioapic_set_routes two_controllers 0x20 0 3 idle_io [] (mk_ioapic 0 0xFEC00000 0)
    [mk_ioapic 1 0xFEC01000 24] eq_refl (List.Forall_nil _) eq_refl
    ltac:(lia) ltac:(lia) ltac:(lia) ltac:(simpl; lia)) as H.
  destruct (set two_controllers 0x20 0 0 3 idle_io) as [ok io'].
  destruct H as (Hok & Hd & _). split; [exact Hok|exact Hd].
Defined.

Lemma ioapic_last_pin_misrouted_witness :
  let '(ok, io') := set two_controllers 0x37 23 0 3 idle_io in
  ok = true ∧ ioregs (io' 0xFEC01000) 14 = 0x37 ∧ ioregs (io' 0xFEC00000) 62 = 0.
Proof.
  pose proof (ioapic_last_pin_misrouted two_controllers 0x37 23 0 3 idle_io
    (mk_ioapic 0 0xFEC00000 0) (mk_ioapic 1 0xFEC01000 24) eq_refl ltac:(done) eq_refl
    ltac:(simpl; lia) eq_refl ltac:(simpl; lia) ltac:(vm_compute; done)) as H.
  destruct (set two_controllers 0x37 23 0 3 idle_io) as [ok io'].
  destruct H as (Hok & H1 & H2 & _). split; [exact Hok|]. split; [exact H2|exact (H1 62)].
Defined.
