(* ===== verification/Lapic.v ===== *)
(** * Lapic: the local interrupt controller and its timer.

    [src/kernel/cpu/lapic/lapic.cc] and [src/include/cpu/lapic.h].  The 32-bit
    registers are memory-mapped: [mmio] holds the last value written at each
    virtual address and [writes] records the writes in order.  The countdown
    register is advanced by the hardware, so the values the calibration reads
    from it are arguments, as are the interrupts that arrive while it waits. *)
From stdpp Require Import base numbers list gmap.
From S2P Require Import Prelude Mem Boot Frames Paging PageTables Timer.
Local Open Scope Z_scope.

Module LAPIC.

Definition LAPIC_TIMER_LVT : Z := 0x320.
Definition LAPIC_TIMER_INITIAL_COUNT : Z := 0x380.
Definition LAPIC_TIMER_DIVIDE_CONFIG : Z := 0x3E0.

Record lapic_state := mk_lapic {
  msr_1B : Z;
  mmio : Z → Z;
  writes : list (Z * Z);
  apic_timer_frequency : Z;
  apic_timer_ticks_per_ms : Z;
}.

Definition _wrmsr (value : Z) (s : lapic_state) : lapic_state :=
  let lo := Z.land value 0xFFFFFFFF in
  let hi := u32 (Z.shiftr value 32) in
  mk_lapic (Z.lor (Z.shiftl hi 32) lo) (mmio s) (writes s)
           (apic_timer_frequency s) (apic_timer_ticks_per_ms s).
Definition _rdmsr (s : lapic_state) : Z := msr_1B s.

Section registers.
Context (hhdm : Z).

Definition base (s : lapic_state) : Z := PHYS2VIRT hhdm (Z.land (_rdmsr s) 0xFFFFF000).

Definition read (reg : Z) (s : lapic_state) : Z := mmio s (base s ⊕ reg).

Definition write (reg value : Z) (s : lapic_state) : lapic_state :=
  let a := base s ⊕ reg in
  mk_lapic (msr_1B s) (λ i, if i =? a then value else mmio s i) (writes s ++ [(reg, value)])
           (apic_timer_frequency s) (apic_timer_ticks_per_ms s).

Definition id (s : lapic_state) : Z := Z.shiftr (read 0x20 s) 24.
Definition eoi (s : lapic_state) : lapic_state := write 0xB0 0 s.

Definition init (s : lapic_state) (ps : paging_state) : lapic_state * paging_state :=
  let msr_val := _rdmsr s in
  let s := _wrmsr (Z.lor msr_val 0x800) s in
  let phys_addr := Z.land msr_val 0xFFFFF000 in
  let ps := map hhdm ps phys_addr (PHYS2VIRT hhdm phys_addr) (Z.lor PAGE_PRESENT PAGE_WRITE) in
  (write 0xf0 (Z.lor 0xff 0x100) s, ps).

(** ** The timer *)

Inductive Mode := ONE_SHOT | PERIODIC | TSC_DEADLINE.
Inductive Divider :=
  DIV_BY_2 | DIV_BY_4 | DIV_BY_8 | DIV_BY_16 | DIV_BY_32 | DIV_BY_64 | DIV_BY_128 | DIV_BY_1.

Definition divider_code (d : Divider) : Z :=
  match d with
  | DIV_BY_2 => 0 | DIV_BY_4 => 1 | DIV_BY_8 => 2 | DIV_BY_16 => 3
  | DIV_BY_32 => 8 | DIV_BY_64 => 9 | DIV_BY_128 => 10 | DIV_BY_1 => 11
  end.

Definition set_initial_count (count : Z) (s : lapic_state) : lapic_state :=
  write LAPIC_TIMER_INITIAL_COUNT count s.
Definition set_divider (d : Divider) (s : lapic_state) : lapic_state :=
  write LAPIC_TIMER_DIVIDE_CONFIG (divider_code d) s.

Definition enable (s : lapic_state) : lapic_state :=
  let lvt := read LAPIC_TIMER_LVT s in
  let lvt := Z.land lvt (u32 (Z.lnot (Z.shiftl 1 16))) in
  write LAPIC_TIMER_LVT lvt s.
Definition disable (s : lapic_state) : lapic_state :=
  let lvt := read LAPIC_TIMER_LVT s in
  let lvt := Z.lor lvt (Z.shiftl 1 16) in
  write LAPIC_TIMER_LVT lvt s.
Definition mask (s : lapic_state) : lapic_state := disable s.
Definition unmask (s : lapic_state) : lapic_state := enable s.

Definition CALIBRATION_MS : Z := 10.

(** [start_count] and [end_count] are what the countdown register holds when it
    is read; [None] when fewer ticks arrive than the wait needs. *)
Definition calibrate_frequency (start_count end_count : Z) (evs : list wake)
    (s : lapic_state) (p : PIT.pit_state) :
    option (Z * lapic_state * PIT.pit_state * list wake) :=
  let s := set_divider DIV_BY_1 s in
  let lvt_backup := read LAPIC_TIMER_LVT s in
  let s := write LAPIC_TIMER_LVT (Z.shiftl 1 16) s in
  let s := set_initial_count 0xFFFFFFFF s in
  let start_pit_ticks := PIT.get_ticks p in
  let target_pit_ticks := start_pit_ticks ⊕ CALIBRATION_MS in
  match PIT.sleep_until target_pit_ticks evs p with
  | None => None
  | Some (p, evs) =>
      let actual_pit_ticks := PIT.get_ticks p ⊖ start_pit_ticks in
      if actual_pit_ticks =? 0 then Some (0, write LAPIC_TIMER_LVT lvt_backup s, p, evs)
      else
        let apic_ticks := u32 (start_count - end_count) in
        let frequency := (apic_ticks ⊗ 1000) `div` actual_pit_ticks in
        Some (frequency, write LAPIC_TIMER_LVT lvt_backup s, p, evs)
  end.

Definition timer_init (vector : Z) (mode : Mode) (divider : Divider)
    (start_count end_count : Z) (evs : list wake) (s : lapic_state) (p : PIT.pit_state) :
    option (lapic_state * PIT.pit_state * list wake) :=
  let s := disable s in
  let s := set_divider divider s in
  let lvt_value := match mode with
    | ONE_SHOT => vector
    | PERIODIC => Z.lor vector (Z.shiftl 1 17)
    | TSC_DEADLINE => Z.lor vector (Z.shiftl 2 17)
    end in
  let s := write LAPIC_TIMER_LVT lvt_value s in
  match calibrate_frequency start_count end_count evs s p with
  | None => None
  | Some (frequency, s, p, evs) =>
      let s := mk_lapic (msr_1B s) (mmio s) (writes s) frequency (u32 (frequency `div` 1000)) in
      Some (enable s, p, evs)
  end.

(** [for (i = 1; i <= 128; i *= 2)], [n] rounds from [i]: the count and the
    divider it leaves, [None] on a division by zero. *)
Fixpoint divider_loop (n : nat) (freq target_hz i count : Z) : option (Z * Z) :=
  match n with
  | O => Some (count, 1)
  | S n =>
      let d := u32 (target_hz * i) in
      if d =? 0 then None
      else
        let count := freq `div` d in
        if count <=? 0xFFFFFFFF then Some (count, i)
        else divider_loop n freq target_hz (i * 2) count
  end.

Definition divider_of (divider_value : Z) : Divider :=
  if divider_value =? 1 then DIV_BY_1 else if divider_value =? 2 then DIV_BY_2
  else if divider_value =? 4 then DIV_BY_4 else if divider_value =? 8 then DIV_BY_8
  else if divider_value =? 16 then DIV_BY_16 else if divider_value =? 32 then DIV_BY_32
  else if divider_value =? 64 then DIV_BY_64 else if divider_value =? 128 then DIV_BY_128
  else DIV_BY_1.

(** [None] is the processor's divide error. *)
Definition set_frequency (target_hz : Z) (s : lapic_state) : option lapic_state :=
  let freq := apic_timer_frequency s in
  if freq =? 0 then Some s
  else if target_hz =? 0 then None
  else
    let count := freq `div` target_hz in
    let searched := if count >? 0xFFFFFFFF then divider_loop 8 freq target_hz 1 count
                    else Some (count, 1) in
    match searched with
    | None => None
    | Some (count, divider_value) =>
        let '(count, divider_value) :=
          if count >? 0xFFFFFFFF then (0xFFFFFFFF, 128) else (count, divider_value) in
        let s := disable s in
        let s := set_divider (divider_of divider_value) s in
        let s := set_initial_count (u32 count) s in
        let new_lvt := Z.lor 0x21 (Z.shiftl 1 17) in
        let s := write LAPIC_TIMER_LVT new_lvt s in
        Some (enable s)
    end.
End registers.

End LAPIC.
Import LAPIC.

(** ** Registers *)

Lemma base_write hhdm reg v s : base hhdm (write hhdm reg v s) = base hhdm s.
Proof. done. Qed.

Lemma read_write hhdm reg reg' v s :
  0 <= reg < 4096 → 0 <= reg' < 4096 →
  read hhdm reg (write hhdm reg' v s) = if reg =? reg' then v else read hhdm reg s.
Proof.
  intros Hr Hr'. unfold read. rewrite base_write. unfold write. cbn [mmio].
  replace (base hhdm s ⊕ reg =? base hhdm s ⊕ reg') with (reg =? reg'); [done|].
  destruct (reg =? reg') eqn:E; b2p; [subst; by rewrite Z.eqb_refl|].
  symmetry. apply Z.eqb_neq. unfold u64. intros H. apply E. revert H. dlia.
Qed.

(** The 4 KiB-aligned base field of the MSR. *)
Lemma land_base x : Z.land x 0xFFFFF000 = (x `div` 4096) `mod` 1048576 * 4096.
Proof.
  change 0xFFFFF000 with (Z.shiftl (Z.ones 20) 12).
  change 1048576 with (2 ^ 20). change 4096 with (2 ^ 12).
  rewrite <- (Z.shiftl_mul_pow2 _ 12), <- Z.land_ones, <- Z.shiftr_div_pow2 by lia.
  apply Z.bits_inj'. intros i Hi. rewrite Z.land_spec, !Z.shiftl_spec, Z.land_spec by done.
  destruct (decide (12 <= i)).
  - rewrite Z.shiftr_spec by lia. do 2 f_equal. lia.
  - rewrite (Z.testbit_neg_r (Z.ones 20)) by lia. by rewrite !andb_false_r.
Qed.

(** Writing a 64-bit value to the MSR and reading it back. *)
Lemma rdmsr_wrmsr v s : is_u64 v → _rdmsr (_wrmsr v s) = v.
Proof.
  intros Hv. unfold is_u64 in Hv. unfold _rdmsr, _wrmsr. cbn [msr_1B].
  change 0xFFFFFFFF with (Z.ones 32).
  rewrite Z.land_ones, Z.shiftl_mul_pow2, Z.shiftr_div_pow2, lor_disjoint_add
    by (lia || apply Z.mod_pos_bound; lia).
  change (2 ^ 32) with 4294967296. rewrite u32_id by dlia. dlia.
Qed.

(** Setting the enable bit keeps the base field. *)
Lemma base_enable hhdm s :
  is_u64 (msr_1B s) → base hhdm (_wrmsr (Z.lor (_rdmsr s) 0x800) s) = base hhdm s.
Proof.
  intros Hm. unfold base. rewrite rdmsr_wrmsr by (apply lor_u64; [done|unfold is_u64; lia]).
  by rewrite Z.land_lor_distr_l, Z.lor_0_r.
Qed.

(** ** The divider search *)

(** The divider a configuration code selects, from the architecture manual:
    bits 0, 1 and 3 give the exponent minus one, all three set is one. *)
Definition divides_by (code : Z) : Z :=
  let k := Z.land code 3 + 4 * Z.land (Z.shiftr code 3) 1 in
  if k =? 7 then 1 else 2 ^ (k + 1).

Lemma divides_by_code k : 0 <= k <= 7 → divides_by (divider_code (divider_of (2 ^ k))) = 2 ^ k.
Proof.
  intros Hk. assert (k = 0 ∨ k = 1 ∨ k = 2 ∨ k = 3 ∨ k = 4 ∨ k = 5 ∨ k = 6 ∨ k = 7) as H by lia.
  by destruct H as [->|[->|[->|[->|[->|[->|[->| ->]]]]]]].
Qed.

(** From [2^k] on, the loop stops at the first power of two whose count fits, or
    leaves the last count, which does not. *)
Lemma divider_loop_spec n freq t k c :
  0 < t → 0 <= k → k + Z.of_nat n <= 8 → t * 2 ^ 7 < 4294967296 →
  (n = 0%nat → 0xFFFFFFFF < c) →
  ∃ c' d, divider_loop n freq t (2 ^ k) c = Some (c', d) ∧
   ((∃ j, k <= j < k + Z.of_nat n ∧ d = 2 ^ j ∧ c' = freq `div` (t * 2 ^ j) ∧ c' <= 0xFFFFFFFF ∧
      ∀ i, k <= i < j → 0xFFFFFFFF < freq `div` (t * 2 ^ i)) ∨
    (d = 1 ∧ 0xFFFFFFFF < c' ∧
      ∀ i, k <= i < k + Z.of_nat n → 0xFFFFFFFF < freq `div` (t * 2 ^ i))).
Proof.
  intros Ht. revert k c; induction n as [|n IH]; intros k c Hk Hn Hr Hc.
  - exists c, 1. split; [done|]. right. split; [done|]. split; [by apply Hc|]. lia.
  - assert (1 <= 2 ^ k <= 2 ^ 7) as [H1 H7] by (split; [lia|apply Z.pow_le_mono_r; lia]).
    assert (0 < t * 2 ^ k < 4294967296) by nia.
    cbn [divider_loop]. rewrite (u32_id (t * 2 ^ k)) by lia. cond_false. case_cond.
    + eexists _, _. split; [done|]. left. exists k. split_and!; try done; try lia.
    + destruct (IH (k + 1) (freq `div` (t * 2 ^ k))) as (c' & d & E & H2); [lia..|done|].
      replace (2 ^ k * 2) with (2 ^ (k + 1)) by (rewrite Z.pow_add_r by lia; lia).
      exists c', d. split; [done|]. destruct H2 as [(j & Hj & Hd & Hc' & Hle & Hlt)|(Hd & Hc' & Hlt)].
      * left. exists j. split_and!; try done; try lia. intros i Hi.
        destruct (decide (i = k)) as [->|]; [done|]. apply Hlt. lia.
      * right. split; [done|]. split; [done|]. intros i Hi.
        destruct (decide (i = k)) as [->|]; [done|]. apply Hlt. lia.
Qed.

(** The count and divider [set_frequency] settles on, for a target whose
    products with the dividers fit 32 bits. *)
Definition rate_choice (freq t count div : Z) : Prop :=
  ∃ k, 0 <= k <= 7 ∧ div = 2 ^ k ∧
  ((count = freq `div` (t * div) ∧ count <= 0xFFFFFFFF ∧
     ∀ i, 0 <= i < k → 0xFFFFFFFF < freq `div` (t * 2 ^ i)) ∨
   (div = 128 ∧ count = 0xFFFFFFFF ∧ 0xFFFFFFFF < freq `div` (t * 128))).

Lemma set_frequency_eq hhdm t s :
  0 < t → t * 128 < 4294967296 → 0 < apic_timer_frequency s →
  ∃ count div, rate_choice (apic_timer_frequency s) t count div ∧
    set_frequency hhdm t s = Some (enable hhdm (write hhdm LAPIC_TIMER_LVT 0x20021
      (set_initial_count hhdm (u32 count) (set_divider hhdm (divider_of div) (disable hhdm s))))).
Proof.
  intros Ht Hr Hf. unfold set_frequency. do 2 cond_false.
  set (freq := apic_timer_frequency s) in *.
  rewrite Z.gtb_ltb. case_cond.
  - destruct (divider_loop_spec 8 freq t 0 (freq `div` t)) as (c & d & E & H); [lia..|].
    change (2 ^ 0) with 1 in E. rewrite E, Z.gtb_ltb.
    destruct H as [(j & Hj & -> & -> & Hle & Hlt)|(-> & Hc & Hlt)].
    + cond_false. eexists _, _. split; [|done]. exists j. split; [lia|]. split; [done|].
      left. by split_and!.
    + cond_true. exists 0xFFFFFFFF, 128. split; [|done]. exists 7. split; [lia|]. split; [done|].
      right. split_and!; try done. by apply (Hlt 7).
  - rewrite Z.gtb_ltb. cond_false. exists (freq `div` t), 1. split; [|done]. exists 0.
    split; [lia|]. split; [done|]. left. rewrite Z.mul_1_r. split_and!; try done. lia.
Qed.

(** Reads of the timer registers after writes to them. *)
Ltac timer_regs :=
  unfold set_initial_count, set_divider, enable, disable, LAPIC_TIMER_LVT,
    LAPIC_TIMER_INITIAL_COUNT, LAPIC_TIMER_DIVIDE_CONFIG;
  repeat (rewrite read_write by lia; cbn [Z.eqb Pos.eqb]).

(** The calibration result is stored beside the registers. *)
Lemma read_with_freq hhdm reg s f g :
  read hhdm reg (mk_lapic (msr_1B s) (mmio s) (writes s) f g) = read hhdm reg s.
Proof. done. Qed.

(** Unmasking an LVT value made of a vector and a mode keeps both. *)
Lemma lvt_unmask vector n :
  0 <= vector < 256 → n = 0 ∨ n = 1 ∨ n = 2 →
  Z.land (Z.lor vector (Z.shiftl n 17)) (u32 (Z.lnot (Z.shiftl 1 16))) = vector + n * 0x20000.
Proof.
  intros Hv Hn. rewrite lor_shiftl_add by lia.
  change (u32 _) with (Z.lor (Z.shiftl (Z.ones 15) 17) (Z.ones 16)).
  rewrite Z.land_lor_distr_r, Z.land_ones by lia.
  replace ((vector + n * 2 ^ 17) `mod` 2 ^ 16) with vector
    by (destruct Hn as [->|[->| ->]]; simpl; dlia).
  replace (Z.land (vector + n * 2 ^ 17) (Z.shiftl (Z.ones 15) 17)) with (n * 2 ^ 17);
    [rewrite lor_disjoint_add; lia|].
  rewrite <- Z.shiftl_mul_pow2 by lia. symmetry.
  replace (vector + Z.shiftl n 17) with (Z.lor vector (Z.shiftl n 17))
    by (rewrite lor_shiftl_add, Z.shiftl_mul_pow2; lia).
  rewrite Z.land_lor_distr_l, <- Z.shiftl_land.
  replace (Z.land n (Z.ones 15)) with n by (destruct Hn as [->|[->| ->]]; done).
  replace (Z.land vector (Z.shiftl (Z.ones 15) 17)) with 0; [apply Z.lor_0_l|].
  symmetry. apply Z.bits_inj'. intros i Hi. rewrite Z.land_spec, Z.bits_0.
  destruct (decide (i < 17)); [rewrite Z.shiftl_spec_low by lia; apply andb_false_r|].
  rewrite <- (Z.mod_small vector (2 ^ 17)) by lia. by rewrite Z.mod_pow2_bits_high by lia.
Qed.

(** ** Properties *)

(** C29: after [LAPIC::init], with frames for the tables, the enable bit of the
    base register is set, and every byte of the page through which the other
    operations reach the registers is mapped, writable, to the physical page the
    base register names; every other translation is as before. *)
Theorem lapic_init_mapped hhdm s ps T :
  tables_wf hhdm (p_fr ps) (pml4 ps) T → is_u64 (msr_1B s) →
  hhdm `mod` 4096 = 0 → 0 <= hhdm → hhdm + 4294967296 <= 18446744073709551616 →
  enough (p_fr ps) T (tables_of (base hhdm s)) →
  let '(s', ps') := LAPIC.init hhdm s ps in
  Z.testbit (msr_1B s') 11 = true ∧ base hhdm s' = base hhdm s ∧
  read hhdm 0xF0 s' = 0x1FF ∧
  (∀ off, 0 <= off < 4096 → ∃ e, translate hhdm ps' (base hhdm s' + off) = Some e ∧
     Z.land e PTE_MASK = Z.land (msr_1B s) 0xFFFFF000 ∧ Z.land e PAGE_WRITE = PAGE_WRITE) ∧
  (∀ v, vpn v ≠ vpn (base hhdm s) → translate hhdm ps' v = translate hhdm ps v).
Proof.
  intros Hwf Hm Hal H0 Hr Hen. unfold LAPIC.init.
  set (phys := Z.land (_rdmsr s) 0xFFFFF000).
  assert (phys `mod` 4096 = 0 ∧ 0 <= phys < 4294967296) as [Hpa Hpr]
    by (subst phys; rewrite land_base; dlia).
  assert (PHYS2VIRT hhdm phys = hhdm + phys) as Hv by (unfold PHYS2VIRT; rewrite u64_id; lia).
  assert (base hhdm s = hhdm + phys) as Hb by exact Hv.
  destruct (map_spec hhdm ps T phys (hhdm + phys) 3) as (T' & R & _);
    [done|by rewrite <- Hb|apply lor_u64; unfold is_u64; lia|].
  rewrite Hv. change (Z.lor PAGE_PRESENT PAGE_WRITE) with 3.
  assert (base hhdm (write hhdm 0xf0 (Z.lor 0xff 0x100) (_wrmsr (Z.lor (_rdmsr s) 0x800) s)) =
    base hhdm s) as Hb' by (rewrite base_write; by apply base_enable).
  split; [|split; [done|split; [|split]]].
  - change (msr_1B _) with (_rdmsr (_wrmsr (Z.lor (_rdmsr s) 0x800) s)).
    rewrite rdmsr_wrmsr by (apply lor_u64; [done|unfold is_u64; lia]).
    rewrite Z.lor_spec. apply orb_true_r.
  - rewrite read_write by lia. done.
  - intros off Hoff. rewrite Hb', Hb. exists (Z.lor phys 3).
    rewrite (rm_translate _ _ _ _ _ _ _ R).
    assert (vpn (hhdm + phys + off) = vpn (hhdm + phys)) as ->
      by (unfold vpn; by replace ((hhdm + phys + off) `div` 4096) with ((hhdm + phys) `div` 4096) by dlia).
    rewrite decide_True by done. unfold visible. rewrite present_lor. split; [by rewrite orb_true_r|].
    split; [rewrite entry_frame; done || lia|].
    change 3 with (Z.lor 1 PAGE_WRITE). rewrite Z.lor_assoc. apply land_lor_absorb.
  - intros v Hvp. rewrite (rm_translate _ _ _ _ _ _ _ R), decide_False; [done|]. by rewrite <- Hb.
Qed.

(** C30: for a target whose product with the largest divider fits 32 bits,
    [set_frequency] masks the timer, programs divider and initial count, and
    leaves it unmasked and periodic on vector 0x21; the divider is the smallest
    power of two for which the count fits its register, and the count is the
    largest whose rate is not below the target (or saturates at divider 128). *)
Theorem lapic_set_frequency_rate hhdm t s :
  0 < t → t * 128 < 4294967296 → 0 < apic_timer_frequency s →
  ∃ count div s', set_frequency hhdm t s = Some s' ∧
    rate_choice (apic_timer_frequency s) t count div ∧
    divides_by (read hhdm LAPIC_TIMER_DIVIDE_CONFIG s') = div ∧
    read hhdm LAPIC_TIMER_INITIAL_COUNT s' = count ∧
    read hhdm LAPIC_TIMER_LVT s' = 0x20021 ∧
    writes s' = writes s ++
      [(LAPIC_TIMER_LVT, Z.lor (read hhdm LAPIC_TIMER_LVT s) 0x10000);
       (LAPIC_TIMER_DIVIDE_CONFIG, divider_code (divider_of div));
       (LAPIC_TIMER_INITIAL_COUNT, count); (LAPIC_TIMER_LVT, 0x20021); (LAPIC_TIMER_LVT, 0x20021)].
Proof.
  intros Ht Hr Hf. destruct (set_frequency_eq hhdm t s Ht Hr Hf) as (count & div & Hc & ->).
  exists count, div. eexists. split; [reflexivity|]. split; [done|].
  destruct Hc as (k & Hk & -> & Hc).
  assert (0 <= count <= 0xFFFFFFFF) as Hcr.
  { destruct Hc as [(-> & ? & _)|(_ & -> & _)]; [|lia]. split; [|done].
    assert (0 < 2 ^ k) by lia. apply Z.div_pos; nia. }
  rewrite (u32_id count) by lia.
  split_and!; [timer_regs; by apply divides_by_code|timer_regs; done|timer_regs; done|].
  unfold enable, set_initial_count, set_divider, disable.
  rewrite (read_write hhdm LAPIC_TIMER_LVT LAPIC_TIMER_LVT) by (unfold LAPIC_TIMER_LVT; lia).
  rewrite Z.eqb_refl. cbn [write writes]. by rewrite <- !app_assoc.
Qed.

(** [LAPIC::Timer::init], when ten ticks of the PIT arrive, measures the
    countdown of ten milliseconds at divider one and scales it to a second, and
    leaves the timer unmasked with the vector and mode it was given; but the
    calibration overwrites the divider, so the timer runs undivided whatever
    divider was asked for. *)
Theorem lapic_timer_init_undivided hhdm vector mode divider c0 c1 evs s p :
  0 <= vector < 256 → 0 <= c1 <= c0 → c0 < 4294967296 → (10 <= tick_count evs)%nat →
  0 <= PIT.ticks_since_boot p → PIT.ticks_since_boot p + 10 < 18446744073709551616 →
  ∃ s' p' post, timer_init hhdm vector mode divider c0 c1 evs s p = Some (s', p', post) ∧
    apic_timer_frequency s' = (c0 - c1) * 100 ∧
    apic_timer_ticks_per_ms s' = (c0 - c1) `div` 10 ∧
    divides_by (read hhdm LAPIC_TIMER_DIVIDE_CONFIG s') = 1 ∧
    read hhdm LAPIC_TIMER_LVT s' =
      vector + match mode with ONE_SHOT => 0 | PERIODIC => 0x20000 | TSC_DEADLINE => 0x40000 end ∧
    PIT.ticks_since_boot p' = PIT.ticks_since_boot p + 10.
Proof.
  intros Hv Hc Hc0 Hevs Hp0 Hp. unfold timer_init, calibrate_frequency.
  pose proof (sleep_until_spec evs p 10 ltac:(lia) ltac:(lia)) as Hs. cbv zeta in Hs.
  rewrite decide_True in Hs by done. destruct Hs as (pre & post & -> & _ & _ & Hs).
  unfold PIT.get_ticks, CALIBRATION_MS. rewrite (u64_id (_ + 10)) by lia.
  change (Z.of_nat 10) with 10 in Hs. rewrite Hs.
  unfold at_ticks. cbn [PIT.ticks_since_boot].
  replace (PIT.ticks_since_boot p + 10 - PIT.ticks_since_boot p) with 10 by lia.
  change (u64 10) with 10. change (10 =? 0) with false. cbv iota.
  rewrite (u32_id (c0 - c1)), (u64_id ((c0 - c1) * 1000)) by lia.
  replace (((c0 - c1) * 1000) `div` 10) with ((c0 - c1) * 100) by dlia.
  eexists _, _, _. split; [reflexivity|].
  unfold enable at 1 2. cbn [write apic_timer_frequency apic_timer_ticks_per_ms].
  split; [done|]. split; [rewrite u32_id by dlia; dlia|].
  split; [timer_regs; rewrite ?read_with_freq; timer_regs; done|].
  split; [|done]. timer_regs; rewrite ?read_with_freq; timer_regs.
  destruct mode; [|apply (lvt_unmask vector 1); lia|apply (lvt_unmask vector 2); lia].
  pose proof (lvt_unmask vector 0 Hv (or_introl eq_refl)) as E.
  rewrite Z.shiftl_0_l, Z.lor_0_r in E. exact E.
Qed.

(** ** Witnesses *)

(** A controller at its usual base with a 100 MHz calibrated timer. *)
Definition lapic100 : lapic_state := mk_lapic 0xFEE00900 (λ _, 0) [] 100000000 100000.

Lemma lapic_init_mapped_witness :
  let hhdm := 0x80000 in
  let '(s', ps') := LAPIC.init hhdm lapic100 sample_paging in
  ∃ e, translate hhdm ps' (base hhdm s' + 0xB0) = Some e ∧ Z.land e PTE_MASK = 0xFEE00000.
Proof.
  cbv zeta.
  pose proof (lapic_init_mapped 0x80000 lapic100 sample_paging sample_tree sample_tables
    ltac:(unfold is_u64; simpl; lia) eq_refl ltac:(lia) ltac:(lia)
    ltac:(apply enough_three; rewrite sample_free; lia)) as H.
  destruct (LAPIC.init 0x80000 lapic100 sample_paging) as [s' ps'].
  destruct H as (_ & _ & _ & H & _). destruct (H 0xB0 ltac:(lia)) as (e & He & Hf & _).
  exists e. split; [exact He|exact Hf].
Defined.

Lemma lapic_set_frequency_rate_witness :
  ∃ s', set_frequency 0 1000 lapic100 = Some s' ∧ read 0 LAPIC_TIMER_LVT s' = 0x20021.
Proof.
  destruct (lapic_set_frequency_rate 0 1000 lapic100 ltac:(lia) ltac:(lia) ltac:(simpl; lia))
    as (count & div & s' & E & _ & _ & _ & H & _).
  exists s'. split; [exact E|exact H].
Defined.

Lemma lapic_timer_init_undivided_witness :
  ∃ s' p' post,
    timer_init 0 0x21 PERIODIC DIV_BY_16 0xFFFFFFFF 0xFFF0BDBF (replicate 10 TimerIrq) lapic100
      (PIT.mk_pit 0 1000 []) = Some (s', p', post) ∧
    apic_timer_frequency s' = 100000000 ∧ divides_by (read 0 LAPIC_TIMER_DIVIDE_CONFIG s') = 1.
Proof.
  destruct (lapic_timer_init_undivided 0 0x21 PERIODIC DIV_BY_16 0xFFFFFFFF 0xFFF0BDBF
    (replicate 10 TimerIrq) lapic100 (PIT.mk_pit 0 1000 []) ltac:(lia) ltac:(lia) ltac:(lia)
    ltac:(vm_compute; lia) ltac:(simpl; lia) ltac:(simpl; lia))
    as (s' & p' & post & E & Hf & _ & Hd & _).
  exists s', p', post. split; [exact E|]. split; [exact Hf|exact Hd].
Defined.
