(* ===== verification/Interrupts.v ===== *)
(** * Interrupts: the interrupt descriptor table, interrupt dispatch and the
    handlers the ACPI library installs.

    [src/kernel/cpu/interrupts/idt.cc], [src/kernel/cpu/interrupts/irq.cc] and
    the interrupt part of [src/kernel/sys/acpi_kapi.cc].  The entry stubs of
    [isr.s] are assembly; what the model keeps of them is their addresses (the
    argument [isr]) and the number the stub of vector [32 + n] pushes for
    [irq_handler], which is [n]. *)
From stdpp Require Import base numbers list gmap.
From S2P Require Import Prelude Mem Boot Frames Paging Tss Timer Lapic IoApic.
Local Open Scope Z_scope.

Module IDT.

Definition INT_GATE : Z := 0x8E.
Definition TRAP_GATE : Z := 0x8F.
Definition IDT_MAX_DESCRIPTORS : Z := 256.

Record Table := mk_table { size : Z; offset : Z }.

Record Gate := mk_gate {
  offset_low : Z; selector : Z; ist : Z; type_attr : Z;
  offset_mid : Z; offset_high : Z; zero : Z;
}.

(** The statics of [idt.cc], the loaded table register and the interrupt flag. *)
Record idt_state := mk_idt {
  idt : list Gate;
  idtr : Table;
  isr_handlers : list Z;
  loaded : option Table;
  interrupts_on : bool;
}.

Definition set_gate (index : Z) (g : Gate) (s : idt_state) : idt_state :=
  mk_idt (<[Z.to_nat index := g]> (idt s)) (idtr s) (isr_handlers s) (loaded s) (interrupts_on s).

Definition register_entry_with_ist (index offset selector type ist : Z) (s : idt_state) : idt_state :=
  set_gate index
    (mk_gate (Z.land offset 0xFFFF) selector ist (Z.lor type 0x80)
       (Z.land (Z.shiftr offset 16) 0xFFFF) (Z.land (Z.shiftr offset 32) 0xFFFFFFFF) 0) s.

Definition register_entry (index offset selector type : Z) (s : idt_state) : idt_state :=
  set_gate index
    (mk_gate (Z.land offset 0xFFFF) selector 0 (Z.lor type 0x80)
       (Z.land (Z.shiftr offset 16) 0xFFFF) (Z.land (Z.shiftr offset 32) 0xFFFFFFFF) 0) s.

(** [isr_handlers[i]]; the table has one entry per vector. *)
Definition handler_of (s : idt_state) (i : Z) : Z := default 0 (isr_handlers s !! Z.to_nat i).

(** Register the stub of vector [i] on the exception stack, if there is one. *)
Definition register_exception (i : Z) (s : idt_state) : idt_state :=
  if handler_of s i =? 0 then s
  else register_entry_with_ist i (handler_of s i) 0x08 INT_GATE (TSS.ist_index TSS.IST_EXCEPTION) s.

(** [for (u8 i = 0; i < 32; i++)], [n] rounds from [i]. *)
Fixpoint exceptions_loop (n : nat) (i : Z) (s : idt_state) : idt_state :=
  match n with
  | O => s
  | S n => exceptions_loop n (u8 (i + 1)) (register_exception i s)
  end.

(** The static initialisers: no gate, and the stubs of the first 48 vectors. *)
Definition initial (isr : Z → Z) : idt_state :=
  mk_idt (replicate 256 (mk_gate 0 0 0 0 0 0 0)) (mk_table 0 0)
    (fmap (λ i, if i <? 48 then isr i else 0) (seqZ 0 256)) None false.

Definition set_handler (i v : Z) (s : idt_state) : idt_state :=
  mk_idt (idt s) (idtr s) (<[Z.to_nat i := v]> (isr_handlers s)) (loaded s) (interrupts_on s).

Definition init (isr : Z → Z) (idt_addr : Z) (s : idt_state) : idt_state :=
  let s := mk_idt (idt s) (mk_table (u16 (16 * IDT_MAX_DESCRIPTORS) - 1) idt_addr)
                  (isr_handlers s) (loaded s) (interrupts_on s) in
  let s := set_handler 0xF0 (isr 0xF0) s in
  let s := set_handler 0xFF (isr 0xFF) s in
  let s := exceptions_loop 32 0 s in
  let s := register_exception 0xF0 s in
  let s := register_exception 0xFF s in
  mk_idt (idt s) (idtr s) (isr_handlers s) (Some (idtr s)) true.

End IDT.

(** ** What the processor reads of a gate *)

Definition gate_present (g : IDT.Gate) : bool := Z.testbit (IDT.type_attr g) 7.
Definition gate_dpl (g : IDT.Gate) : Z := field (IDT.type_attr g) 5 2.
Definition gate_type (g : IDT.Gate) : Z := field (IDT.type_attr g) 0 4.
Definition gate_target (g : IDT.Gate) : Z :=
  IDT.offset_low g + 2 ^ 16 * IDT.offset_mid g + 2 ^ 32 * IDT.offset_high g.

(** An interrupt gate of ring 0 into the kernel code segment. *)
Definition kernel_gate (g : IDT.Gate) (target stack : Z) : Prop :=
  gate_present g = true ∧ gate_type g = 14 ∧ gate_dpl g = 0 ∧ IDT.selector g = 0x08 ∧
  IDT.ist g = stack ∧ gate_target g = target.

(** ** Dispatch *)

Module IRQ.

(** The handlers of the kernel; [Driver n] is any other function of that type. *)
Inductive handler := Timer_Handle | IOAPIC_Handle | uacpi_irq_bridge | Driver (n : Z).

Record uacpi_irq_handler := mk_uh { uh_handler : Z; uh_ctx : Z; uh_irq : Z; uh_installed : bool }.

(** What handlers do beyond the state: a log line, or a call into the ACPI
    library or a driver. *)
Inductive event := LogIrq (n : Z) | AcpiCall (f ctx : Z) | DriverCall (n error : Z).

Record irq_state := mk_irq {
  irq_handlers : list (option handler);
  timer_interrupt_count : Z;
  uacpi_handlers : list uacpi_irq_handler;
  events : list event;
  idt_st : IDT.idt_state;
  pit : PIT.pit_state;
  lapic : LAPIC.lapic_state;
}.

Definition set_idt (d : IDT.idt_state) (s : irq_state) : irq_state :=
  mk_irq (irq_handlers s) (timer_interrupt_count s) (uacpi_handlers s) (events s) d (pit s) (lapic s).
Definition set_irq_handler (i : Z) (h : handler) (s : irq_state) : irq_state :=
  mk_irq (<[Z.to_nat i := Some h]> (irq_handlers s)) (timer_interrupt_count s) (uacpi_handlers s)
         (events s) (idt_st s) (pit s) (lapic s).
Definition set_uacpi (l : list uacpi_irq_handler) (s : irq_state) : irq_state :=
  mk_irq (irq_handlers s) (timer_interrupt_count s) l (events s) (idt_st s) (pit s) (lapic s).
Definition add_event (e : event) (s : irq_state) : irq_state :=
  mk_irq (irq_handlers s) (timer_interrupt_count s) (uacpi_handlers s) (events s ++ [e])
         (idt_st s) (pit s) (lapic s).

Definition register_entry (irq : Z) (h : handler) (s : irq_state) : irq_state :=
  let s := set_irq_handler irq h s in
  set_idt (IDT.register_entry_with_ist irq (IDT.handler_of (idt_st s) irq) 0x08 IDT.INT_GATE
             (TSS.ist_index TSS.IST_IRQ) (idt_st s)) s.

Definition timer_handle (s : irq_state) : irq_state :=
  mk_irq (irq_handlers s) (timer_interrupt_count s ⊕ 1) (uacpi_handlers s) (events s)
         (idt_st s) (PIT.tick (pit s)) (lapic s).

Definition irq_bridge (error : Z) (s : irq_state) : irq_state :=
  let irq := u32 error in
  if irq >=? 256 then s
  else
    match uacpi_handlers s !! Z.to_nat irq with
    | Some h => if negb (uh_installed h) || (uh_handler h =? 0) then s
                else add_event (AcpiCall (uh_handler h) (uh_ctx h)) s
    | None => s
    end.

Definition run (h : handler) (error : Z) (s : irq_state) : irq_state :=
  match h with
  | Timer_Handle => timer_handle s
  | IOAPIC_Handle => add_event (LogIrq error) s
  | uacpi_irq_bridge => irq_bridge error s
  | Driver n => add_event (DriverCall n error) s
  end.

(** [irq_handler] for the number [error] in the frame, which the stubs keep
    below 256. *)
Definition irq_handler (hhdm error : Z) (s : irq_state) : irq_state :=
  let s := match irq_handlers s !! Z.to_nat error with
           | Some (Some h) => run h error s
           | _ => s
           end in
  mk_irq (irq_handlers s) (timer_interrupt_count s) (uacpi_handlers s) (events s)
         (idt_st s) (pit s) (LAPIC.eoi hhdm (lapic s)).

Definition init (hhdm : Z) (t : IOAPIC.tables) (io : IOAPIC.io_space) (s : irq_state) :
    irq_state * IOAPIC.io_space :=
  let s := register_entry 0x20 Timer_Handle s in
  let s := set_irq_handler 0 Timer_Handle s in
  let io := (IOAPIC.set t 0x20 0 0 (LAPIC.id hhdm (lapic s)) io).2 in
  (s, io).

(** ** Handlers of the ACPI library *)

Inductive uacpi_status := STATUS_OK | STATUS_INVALID_ARGUMENT | STATUS_ALREADY_EXISTS.

(** A handle is a pointer to an entry of [uacpi_handlers]: null, or the place
    [i] entries after the start of the table. *)
Inductive irq_handle := NullHandle | EntryHandle (i : Z).

Definition install (irq handler ctx : Z) (out_ok : bool) (s : irq_state) :
    uacpi_status * irq_handle * irq_state :=
  if (irq >=? 256) || (handler =? 0) || negb out_ok then (STATUS_INVALID_ARGUMENT, NullHandle, s)
  else
    match uacpi_handlers s !! Z.to_nat irq with
    | Some h =>
        if uh_installed h then (STATUS_ALREADY_EXISTS, NullHandle, s)
        else
          let s := set_uacpi (<[Z.to_nat irq := mk_uh handler ctx irq true]> (uacpi_handlers s)) s in
          (STATUS_OK, EntryHandle irq, register_entry (u8 irq) uacpi_irq_bridge s)
    | None => (STATUS_INVALID_ARGUMENT, NullHandle, s)
    end.

Definition uninstall (handler : Z) (h : irq_handle) (s : irq_state) : uacpi_status * irq_state :=
  match h with
  | NullHandle => (STATUS_INVALID_ARGUMENT, s)
  | EntryHandle i =>
      if handler =? 0 then (STATUS_INVALID_ARGUMENT, s)
      else if (i <? 0) || (i >=? 256) then (STATUS_INVALID_ARGUMENT, s)
      else
        match uacpi_handlers s !! Z.to_nat i with
        | Some e =>
            if negb (uh_installed e) || negb (uh_handler e =? handler)
            then (STATUS_INVALID_ARGUMENT, s)
            else (STATUS_OK,
                  set_uacpi (<[Z.to_nat i := mk_uh 0 0 (uh_irq e) false]> (uacpi_handlers s)) s)
        | None => (STATUS_INVALID_ARGUMENT, s)
        end
  end.

End IRQ.
Import IRQ.

(** ** Gates *)

(** The gate [register_entry_with_ist] builds for the kernel code segment. *)
Definition int_gate (offset stack : Z) : IDT.Gate :=
  IDT.mk_gate (Z.land offset 0xFFFF) 0x08 stack 0x8E
    (Z.land (Z.shiftr offset 16) 0xFFFF) (Z.land (Z.shiftr offset 32) 0xFFFFFFFF) 0.

Lemma int_gate_spec offset stack : is_u64 offset → kernel_gate (int_gate offset stack) offset stack.
Proof.
  intros Ho. unfold kernel_gate, gate_target, int_gate. cbn.
  split_and!; try reflexivity.
  rewrite <- (Z.shiftr_0_r offset) at 1.
  rewrite (land_field offset 0 16), (land_field offset 16 16), (land_field offset 32 32) by (done || lia).
  assert (field offset 0 16 + 2 ^ 16 * field offset 16 16 = field offset 0 32)
    by (apply (field_join offset 0 16 16); lia).
  assert (field offset 0 32 + 2 ^ 32 * field offset 32 32 = field offset 0 64)
    by (apply (field_join offset 0 32 32); lia).
  pose proof (field_whole offset 64 Ho). lia.
Qed.

Lemma register_exception_eq i s :
  IDT.register_exception i s =
  if IDT.handler_of s i =? 0 then s else IDT.set_gate i (int_gate (IDT.handler_of s i) 1) s.
Proof. done. Qed.

(** Registering gates changes nothing but the table. *)
Lemma register_exception_rest i s :
  let s' := IDT.register_exception i s in
  IDT.isr_handlers s' = IDT.isr_handlers s ∧ IDT.idtr s' = IDT.idtr s ∧
  length (IDT.idt s') = length (IDT.idt s) ∧ (∀ j, IDT.handler_of s' j = IDT.handler_of s j).
Proof.
  cbv zeta. rewrite register_exception_eq. case_cond; [done|]. simpl.
  by rewrite length_insert.
Qed.

Lemma register_exception_gate i j s :
  0 <= i < 256 → 0 <= j < 256 → length (IDT.idt s) = 256%nat →
  IDT.idt (IDT.register_exception i s) !! Z.to_nat j =
  if (j =? i) && negb (IDT.handler_of s i =? 0) then Some (int_gate (IDT.handler_of s i) 1)
  else IDT.idt s !! Z.to_nat j.
Proof.
  intros Hi Hj Hl. rewrite register_exception_eq.
  destruct (IDT.handler_of s i =? 0) eqn:E; [by rewrite andb_false_r|]. simpl.
  destruct (j =? i) eqn:Eji; b2p; simpl.
  - subst. apply list_lookup_insert_eq. lia.
  - apply list_lookup_insert_ne. lia.
Qed.

Lemma exceptions_loop_spec n i s :
  0 <= i → i + Z.of_nat n <= 32 → length (IDT.idt s) = 256%nat →
  let s' := IDT.exceptions_loop n i s in
  IDT.isr_handlers s' = IDT.isr_handlers s ∧ IDT.idtr s' = IDT.idtr s ∧
  length (IDT.idt s') = 256%nat ∧
  ∀ j, 0 <= j < 256 → IDT.idt s' !! Z.to_nat j =
    if (i <=? j) && (j <? i + Z.of_nat n) && negb (IDT.handler_of s j =? 0)
    then Some (int_gate (IDT.handler_of s j) 1) else IDT.idt s !! Z.to_nat j.
Proof.
  cbv zeta. revert i s; induction n as [|n IH]; intros i s Hi Hn Hl.
  { split_and!; try done. intros j Hj.
    replace ((i <=? j) && (j <? i + Z.of_nat 0)) with false; [done|]. symmetry.
    apply andb_false_iff. destruct (decide (j < i)); [left|right; apply Z.ltb_ge]; lia. }
  cbn [IDT.exceptions_loop]. rewrite u8_id by lia.
  destruct (register_exception_rest i s) as (E1 & E2 & E3 & E4).
  destruct (IH (i + 1) (IDT.register_exception i s)) as (H1 & H2 & H3 & H4); [lia|lia|congruence|].
  split_and!; [congruence..|]. intros j Hj. rewrite H4, E4, register_exception_gate by (done || lia).
  destruct (IDT.handler_of s j =? 0) eqn:Ez.
  - rewrite !andb_false_r. destruct (j =? i) eqn:?; b2p; [subst; by rewrite Ez|done].
  - rewrite !andb_true_r. destruct (decide (j = i)) as [->|Hne].
    + rewrite Z.eqb_refl, Ez. simpl.
      replace ((i + 1 <=? i) && (i <? i + 1 + Z.of_nat n)) with false
        by (symmetry; apply andb_false_iff; left; apply Z.leb_gt; lia).
      replace ((i <=? i) && (i <? i + Z.of_nat (S n))) with true
        by (symmetry; apply andb_true_iff; rewrite Z.leb_le, Z.ltb_lt; lia). done.
    + replace (j =? i) with false by (symmetry; by apply Z.eqb_neq). simpl.
      replace ((i + 1 <=? j) && (j <? i + 1 + Z.of_nat n)) with
        ((i <=? j) && (j <? i + Z.of_nat (S n))); [done|].
      apply eq_true_iff_eq. rewrite !andb_true_iff, !Z.leb_le, !Z.ltb_lt. lia.
Qed.

(** ** After [IDT::init] *)

(** The vectors [init] registers. *)
Definition exception_vector (v : Z) : bool := (v <? 32) || (v =? 0xF0) || (v =? 0xFF).

Lemma initial_handler isr i : 0 <= i < 256 →
  IDT.handler_of (IDT.initial isr) i = if i <? 48 then isr i else 0.
Proof.
  intros Hi. unfold IDT.handler_of, IDT.initial. cbn [IDT.isr_handlers].
  rewrite list_lookup_fmap, lookup_seqZ_lt by lia. simpl. by rewrite Z2Nat.id by lia.
Qed.

Lemma set_handler_of i v j s : 0 <= i < 256 → 0 <= j < 256 →
  length (IDT.isr_handlers s) = 256%nat →
  IDT.handler_of (IDT.set_handler i v s) j = if j =? i then v else IDT.handler_of s j.
Proof.
  intros Hi Hj Hl. unfold IDT.handler_of, IDT.set_handler. cbn [IDT.isr_handlers].
  case_cond; [subst; rewrite list_lookup_insert_eq by lia; done|].
  rewrite list_lookup_insert_ne by lia. done.
Qed.

(** [init] on any table: the two extra stubs are filed, and each exception vector
    with a stub gets its gate. *)
Lemma idt_init_gates isr idt_addr s :
  length (IDT.idt s) = 256%nat → length (IDT.isr_handlers s) = 256%nat →
  let s' := IDT.init isr idt_addr s in
  let stub v := if v =? 0xFF then isr 0xFF else if v =? 0xF0 then isr 0xF0 else IDT.handler_of s v in
  length (IDT.idt s') = 256%nat ∧ IDT.loaded s' = Some (IDT.mk_table 4095 idt_addr) ∧
  IDT.interrupts_on s' = true ∧
  (∀ v, 0 <= v < 256 → IDT.handler_of s' v = stub v) ∧
  ∀ v, 0 <= v < 256 → IDT.idt s' !! Z.to_nat v =
    if exception_vector v && negb (stub v =? 0) then Some (int_gate (stub v) 1)
    else IDT.idt s !! Z.to_nat v.
Proof.
  intros Hl Hlh. unfold IDT.init. cbv zeta.
  set (s0 := IDT.mk_idt (IDT.idt s) _ _ _ _). set (s1 := IDT.set_handler 255 _ _).
  assert (∀ v, 0 <= v < 256 → IDT.handler_of s1 v =
    if v =? 0xFF then isr 0xFF else if v =? 0xF0 then isr 0xF0 else IDT.handler_of s v) as Hh.
  { intros v Hv. subst s1. rewrite set_handler_of by (try lia; simpl; by rewrite length_insert).
    rewrite set_handler_of by (lia || done). done. }
  assert (IDT.idt s1 = IDT.idt s) as Hs1 by done.
  assert (IDT.idtr s1 = IDT.mk_table 4095 idt_addr) as Ht1 by done.
  clearbody s1. clear s0.
  destruct (exceptions_loop_spec 32 0 s1) as (H1 & H2 & H3 & H4); [lia|lia|congruence|].
  set (s2 := IDT.exceptions_loop 32 0 s1) in *. clearbody s2.
  assert (∀ j, IDT.handler_of s2 j = IDT.handler_of s1 j) as Hh2
    by (intros; unfold IDT.handler_of; by rewrite H1).
  destruct (register_exception_rest 240 s2) as (E1 & E2 & E3 & E4).
  pose proof (λ j Hj, register_exception_gate 240 j s2 ltac:(lia) Hj H3) as E5.
  set (s3 := IDT.register_exception 240 s2) in *. clearbody s3.
  destruct (register_exception_rest 255 s3) as (F1 & F2 & F3 & F4).
  pose proof (λ j Hj, register_exception_gate 255 j s3 ltac:(lia) Hj ltac:(congruence)) as F5.
  set (s4 := IDT.register_exception 255 s3) in *. clearbody s4.
  cbn [IDT.idt IDT.loaded IDT.interrupts_on].
  split; [congruence|]. split; [congruence|]. split; [done|]. split.
  { intros v Hv. unfold IDT.handler_of. cbn [IDT.isr_handlers]. rewrite F1, E1, H1. by apply Hh. }
  intros v Hv. rewrite F5, E4, Hh2, E5, Hh2, H4, Hs1, !Hh by lia.
  change (0 + Z.of_nat 32) with 32. replace (0 <=? v) with true by lia. unfold exception_vector.
  destruct (v =? 255) eqn:?; b2p; [subst; cbn [Z.eqb Pos.eqb]; by destruct (isr 255 =? 0)|].
  destruct (v =? 240) eqn:?; b2p; [subst; cbn [Z.eqb Pos.eqb]; by destruct (isr 240 =? 0)|].
  by rewrite !orb_false_r.
Qed.

Lemma idt_init_spec isr idt_addr :
  (∀ v, 0 <= v < 256 → is_u64 (isr v) ∧ isr v ≠ 0) →
  let s := IDT.init isr idt_addr (IDT.initial isr) in
  length (IDT.idt s) = 256%nat ∧ IDT.loaded s = Some (IDT.mk_table 4095 idt_addr) ∧
  IDT.interrupts_on s = true ∧
  (∀ v, 0 <= v < 256 → IDT.handler_of s v =
     if (v <? 48) || (v =? 0xF0) || (v =? 0xFF) then isr v else 0) ∧
  ∀ v, 0 <= v < 256 → IDT.idt s !! Z.to_nat v =
    Some (if exception_vector v then int_gate (isr v) 1 else IDT.mk_gate 0 0 0 0 0 0 0).
Proof.
  intros Hisr.
  destruct (idt_init_gates isr idt_addr (IDT.initial isr)) as (H1 & H2 & H3 & H4 & H5);
    [apply length_replicate|cbn; by rewrite length_fmap, length_seqZ|].
  cbv zeta in *. split; [done|]. split; [done|]. split; [done|].
  assert (∀ v, 0 <= v < 256 → (if v =? 255 then isr 255 else if v =? 240 then isr 240
    else IDT.handler_of (IDT.initial isr) v) =
    if (v <? 48) || (v =? 0xF0) || (v =? 0xFF) then isr v else 0) as Hst.
  { intros v Hv. rewrite initial_handler by done.
    destruct (v =? 255) eqn:?; b2p; [subst; done|]. destruct (v =? 240) eqn:?; b2p; [subst; done|].
    by rewrite !orb_false_r. }
  split; [intros v Hv; rewrite H4 by done; by apply Hst|].
  intros v Hv. rewrite H5, Hst by done. unfold exception_vector.
  assert (IDT.idt (IDT.initial isr) !! Z.to_nat v = Some (IDT.mk_gate 0 0 0 0 0 0 0)) as ->
    by (apply lookup_replicate_2; lia).
  pose proof (proj2 (Hisr v Hv)).
  destruct (v <? 32) eqn:?; b2p; simpl.
  - replace (v <? 48) with true by lia. simpl. by replace (isr v =? 0) with false by lia.
  - destruct (v =? 240) eqn:?; b2p; [subst; simpl; by replace (isr 240 =? 0) with false by lia|].
    destruct (v =? 255) eqn:?; b2p; [subst; simpl; by replace (isr 255 =? 0) with false by lia|]. done.
Qed.

(** ** Properties *)

(** C19: after [IDT::init] the loaded table has, for each of the 32 exception
    vectors and for 0xF0 and 0xFF, a present ring-0 interrupt gate in the kernel
    code segment to that vector's stub on the exception stack, and no present
    gate for any other vector. *)
Theorem idt_init_correct isr idt_addr :
  (∀ v, 0 <= v < 256 → is_u64 (isr v) ∧ isr v ≠ 0) →
  let s := IDT.init isr idt_addr (IDT.initial isr) in
  IDT.loaded s = Some (IDT.mk_table 4095 idt_addr) ∧ IDT.interrupts_on s = true ∧
  ∀ v, 0 <= v < 256 → ∃ g, IDT.idt s !! Z.to_nat v = Some g ∧
    if exception_vector v
    then kernel_gate g (isr v) (TSS.ist_index TSS.IST_EXCEPTION)
    else gate_present g = false.
Proof.
  intros Hisr. destruct (idt_init_spec isr idt_addr Hisr) as (_ & H1 & H2 & _ & Hg). cbv zeta.
  split; [done|]. split; [done|]. intros v Hv. eexists. split; [by apply Hg|].
  destruct (exception_vector v); [|done]. apply int_gate_spec. by apply Hisr.
Qed.

(** The state of a machine that has run [IDT::init]. *)
Record idt_ready (isr : Z → Z) (s : irq_state) : Prop := {
  ir_idt : length (IDT.idt (idt_st s)) = 256%nat;
  ir_handlers : ∀ v, 0 <= v < 256 → IDT.handler_of (idt_st s) v =
    if (v <? 48) || (v =? 0xF0) || (v =? 0xFF) then isr v else 0;
  ir_irq : length (irq_handlers s) = 256%nat;
  ir_uacpi : length (uacpi_handlers s) = 256%nat;
}.

Lemma register_entry_idt v h s :
  IDT.idt (idt_st (IRQ.register_entry v h s)) =
  <[Z.to_nat v := int_gate (IDT.handler_of (idt_st s) v) 2]> (IDT.idt (idt_st s)).
Proof. done. Qed.

(** C16: [IRQ::init] gives vector 0x20 a gate to its stub on the interrupt stack and
    keeps every other gate; from then on each timer interrupt, dispatched with
    the number its stub pushes, advances the PIT's clock and the interrupt count
    by one and ends with the end-of-interrupt write, changing nothing else. *)
Theorem irq_init_timer isr hhdm t io s :
  idt_ready isr s → is_u64 (isr 32) →
  let '(s', io') := IRQ.init hhdm t io s in
  (∃ g, IDT.idt (idt_st s') !! 32%nat = Some g ∧
     kernel_gate g (isr 32) (TSS.ist_index TSS.IST_IRQ)) ∧
  (∀ v, v ≠ 32%nat → IDT.idt (idt_st s') !! v = IDT.idt (idt_st s) !! v) ∧
  io' = (IOAPIC.set t 0x20 0 0 (LAPIC.id hhdm (lapic s)) io).2 ∧
  ∀ s1, irq_handlers s1 = irq_handlers s' →
  let s2 := irq_handler hhdm 0 s1 in
  PIT.ticks_since_boot (pit s2) = PIT.ticks_since_boot (pit s1) ⊕ 1 ∧
  timer_interrupt_count s2 = timer_interrupt_count s1 ⊕ 1 ∧
  LAPIC.writes (lapic s2) = LAPIC.writes (lapic s1) ++ [(0xB0, 0)] ∧
  irq_handlers s2 = irq_handlers s1 ∧ idt_st s2 = idt_st s1 ∧ events s2 = events s1 ∧
  uacpi_handlers s2 = uacpi_handlers s1.
Proof.
  intros [Hl Hh Hi _] Hu. unfold IRQ.init. split_and!; try done.
  - cbn [set_irq_handler idt_st]. rewrite register_entry_idt. eexists. split.
    + apply list_lookup_insert_eq. lia.
    + rewrite Hh by lia. by apply int_gate_spec.
  - intros v Hv. cbn [set_irq_handler idt_st]. rewrite register_entry_idt.
    by apply list_lookup_insert_ne.
  - intros s1 E. unfold irq_handler.
    assert (irq_handlers s1 !! 0%nat = Some (Some Timer_Handle)) as E0.
    { rewrite E. simpl. apply list_lookup_insert_eq. rewrite length_insert. lia. }
    change (Z.to_nat 0) with 0%nat. rewrite E0. simpl. by split_and!.
Qed.

(** A handler registered for an interrupt vector is not the one that vector
    dispatches to: [register_entry] files it under the vector, the stub of vector
    [32 + n] pushes [n], and the slot [n] keeps whatever it held. *)
Theorem registered_vector_dispatch hhdm v h s :
  32 <= v < 48 → length (irq_handlers s) = 256%nat →
  let s' := IRQ.register_entry v h s in
  irq_handlers s' !! Z.to_nat v = Some (Some h) ∧
  (irq_handlers s' !! Z.to_nat (v - 32) = irq_handlers s !! Z.to_nat (v - 32)) ∧
  events (irq_handler hhdm (v - 32) s') = events (irq_handler hhdm (v - 32) s) ∧
  pit (irq_handler hhdm (v - 32) s') = pit (irq_handler hhdm (v - 32) s).
Proof.
  intros Hv Hl. cbv zeta.
  assert (irq_handlers (IRQ.register_entry v h s) = <[Z.to_nat v := Some h]> (irq_handlers s)) as E by done.
  assert (irq_handlers (IRQ.register_entry v h s) !! Z.to_nat (v - 32) =
    irq_handlers s !! Z.to_nat (v - 32)) as Hslot
    by (rewrite E; apply list_lookup_insert_ne; lia).
  split; [rewrite E; apply list_lookup_insert_eq; lia|]. split; [done|].
  unfold irq_handler. rewrite Hslot.
  destruct (irq_handlers s !! Z.to_nat (v - 32)) as [[[]|]|]; simpl; try done.
  unfold irq_bridge. simpl. destruct (_ >=? 256); [done|].
  destruct (uacpi_handlers s !! _) as [u|]; [|done]. by destruct (_ || _).
Qed.

(** C40: installing an ACPI handler for line [irq] below 16 succeeds exactly when
    none is installed there, and the bridge then calls it with its context; but
    the gate it writes is that of exception vector [irq]: after [IDT::init] the
    vector of the line itself, [32 + irq], still has no present gate. *)
Theorem acpi_install_wrong_gate isr hhdm s irq f ctx :
  idt_ready isr s → 1 <= irq < 16 → f ≠ 0 →
  (∀ v, 32 <= v < 48 → IDT.idt (idt_st s) !! Z.to_nat v = Some (IDT.mk_gate 0 0 0 0 0 0 0)) →
  (∃ h, uacpi_handlers s !! Z.to_nat irq = Some h ∧ uh_installed h = false) →
  let '(st, hd, s') := install irq f ctx true s in
  st = STATUS_OK ∧ hd = EntryHandle irq ∧
  (install irq f ctx true s').1.1 = STATUS_ALREADY_EXISTS ∧
  events (irq_handler hhdm irq s') = events s' ++ [AcpiCall f ctx] ∧
  IDT.idt (idt_st s') !! Z.to_nat irq = Some (int_gate (isr irq) 2) ∧
  (∃ g, IDT.idt (idt_st s') !! Z.to_nat (32 + irq) = Some g ∧ gate_present g = false).
Proof.
  intros [Hl Hh Hi Hua] Hirq Hf Hgates (h & Hh0 & Hinst). unfold install at 1.
  replace (irq >=? 256) with false by lia. replace (f =? 0) with false by lia. simpl orb.
  rewrite Hh0, Hinst. rewrite u8_id by lia.
  split; [done|]. split; [done|]. split; [|split; [|split]].
  - unfold install. replace (irq >=? 256) with false by lia. replace (f =? 0) with false by lia.
    simpl. by rewrite list_lookup_insert_eq by lia.
  - unfold irq_handler. cbn [register_entry set_idt set_irq_handler irq_handlers set_uacpi].
    rewrite list_lookup_insert_eq by lia. simpl run. unfold irq_bridge.
    rewrite u32_id by lia. replace (irq >=? 256) with false by lia. simpl uacpi_handlers.
    rewrite list_lookup_insert_eq by lia. simpl. replace (f =? 0) with false by lia. done.
  - rewrite register_entry_idt. simpl. rewrite list_lookup_insert_eq by lia.
    change (IDT.handler_of _ irq) with (IDT.handler_of (idt_st s) irq). rewrite Hh by lia.
    by replace (irq <? 48) with true by lia.
  - rewrite register_entry_idt. simpl. rewrite list_lookup_insert_ne by lia.
    eexists. split; [apply Hgates; lia|done].
Qed.

(** Uninstalling with the handle and handler of an installed entry frees it,
    so that the bridge no longer calls it and it can be installed again; with
    another handler, a null or foreign handle or a free entry it is refused and
    nothing changes. *)
Theorem acpi_uninstall_correct isr s i f :
  idt_ready isr s → 0 <= i < 256 →
  (uninstall f NullHandle s = (STATUS_INVALID_ARGUMENT, s)) ∧
  ∃ e, uacpi_handlers s !! Z.to_nat i = Some e ∧
  let '(st, s') := uninstall f (EntryHandle i) s in
  if decide (f ≠ 0 ∧ uh_installed e = true ∧ uh_handler e = f) then
    st = STATUS_OK ∧ events (irq_bridge i s') = events s' ∧
    (∀ ctx, (install i f ctx true s').1.1 = STATUS_OK) ∧
    (∀ j, j ≠ Z.to_nat i → uacpi_handlers s' !! j = uacpi_handlers s !! j)
  else st = STATUS_INVALID_ARGUMENT ∧ s' = s.
Proof.
  intros [Hl Hh Hi Hua] Hir. split; [done|].
  destruct (lookup_lt_is_Some_2 (uacpi_handlers s) (Z.to_nat i)) as [e He]; [lia|].
  exists e. split; [done|]. unfold uninstall.
  destruct (f =? 0) eqn:Ef; b2p.
  { rewrite decide_False by naive_solver. done. }
  replace (i <? 0) with false by lia. replace (i >=? 256) with false by lia. simpl orb. rewrite He.
  destruct (uh_installed e) eqn:Ei; simpl; [|rewrite decide_False by naive_solver; done].
  destruct (uh_handler e =? f) eqn:Eh; b2p; simpl; [|rewrite decide_False by naive_solver; done].
  rewrite decide_True by done. split; [done|]. split_and!.
  - unfold irq_bridge. rewrite u32_id by lia. replace (i >=? 256) with false by lia. simpl.
    by rewrite list_lookup_insert_eq by lia.
  - intros ctx. unfold install. replace (i >=? 256) with false by lia.
    replace (f =? 0) with false by lia. simpl. by rewrite list_lookup_insert_eq by lia.
  - intros j Hj. simpl. by apply list_lookup_insert_ne.
Qed.

Lemma irq_init_pit hhdm t io s : pit (IRQ.init hhdm t io s).1 = pit s.
Proof. done. Qed.

(** ** Witnesses: stubs 16 bytes apart, and a machine that has run [IDT::init]. *)

Definition stub_at (v : Z) : Z := 0xffffffff80100000 + 16 * v.

Lemma stub_at_ok v : 0 <= v < 256 → is_u64 (stub_at v) ∧ stub_at v ≠ 0.
Proof. unfold is_u64, stub_at. lia. Qed.

Definition booted : irq_state :=
  mk_irq (replicate 256 None) 0 (replicate 256 (mk_uh 0 0 0 false)) []
    (IDT.init stub_at 0x6000 (IDT.initial stub_at)) (PIT.mk_pit 41 1000 []) lapic100.

Lemma booted_ready : idt_ready stub_at booted.
Proof.
  destruct (idt_init_spec stub_at 0x6000 stub_at_ok) as (H1 & _ & _ & H4 & _).
  split; [exact H1|exact H4|apply length_replicate|apply length_replicate].
Qed.

Lemma booted_lines v : 32 <= v < 48 →
  IDT.idt (idt_st booted) !! Z.to_nat v = Some (IDT.mk_gate 0 0 0 0 0 0 0).
Proof.
  intros Hv. destruct (idt_init_spec stub_at 0x6000 stub_at_ok) as (_ & _ & _ & _ & H5).
  cbn [booted idt_st]. rewrite H5 by lia. unfold exception_vector.
  replace (v <? 32) with false by lia. replace (v =? 240) with false by lia.
  by replace (v =? 255) with false by lia.
Qed.

Lemma idt_init_correct_witness :
  ∃ g, IDT.idt (IDT.init stub_at 0x6000 (IDT.initial stub_at)) !! 14%nat = Some g ∧
    kernel_gate g 0xffffffff801000E0 1.
Proof.
  destruct (idt_init_correct stub_at 0x6000 stub_at_ok) as (_ & _ & H).
  destruct (H 14 ltac:(lia)) as (g & Hg & Hk). exists g. split; [exact Hg|exact Hk].
Defined.

Lemma irq_init_timer_witness :
  let s' := (IRQ.init 0 two_controllers idle_io booted).1 in
  PIT.ticks_since_boot (pit (irq_handler 0 0 s')) = 42.
Proof.
  pose proof (irq_init_timer stub_at 0 two_controllers idle_io booted booted_ready
    (proj1 (stub_at_ok 32 ltac:(lia)))) as H.
  cbv zeta. pose proof (irq_init_pit 0 two_controllers idle_io booted) as Hp.
  destruct (IRQ.init 0 two_controllers idle_io booted) as [s' io'].
  cbn [fst] in Hp |- *.
  destruct H as (_ & _ & _ & H). destruct (H s' eq_refl) as (-> & _).
  rewrite Hp. reflexivity.
Defined.

Lemma registered_vector_dispatch_witness :
  irq_handlers (IRQ.register_entry 33 (Driver 7) booted) !! 33%nat = Some (Some (Driver 7)) ∧
  events (irq_handler 0 1 (IRQ.register_entry 33 (Driver 7) booted)) = [].
Proof.
  destruct (registered_vector_dispatch 0 33 (Driver 7) booted ltac:(lia)
    (ir_irq _ _ booted_ready)) as (H1 & _ & H3 & _).
  split; [exact H1|]. etransitivity; [exact H3|reflexivity].
Defined.

Lemma acpi_install_wrong_gate_witness :
  (install 9 0x1234 0x55 true booted).1.1 = STATUS_OK.
Proof.
  pose proof (acpi_install_wrong_gate stub_at 0 booted 9 0x1234 0x55 booted_ready ltac:(lia)
    ltac:(lia) booted_lines) as H.
  destruct (install 9 0x1234 0x55 true booted) as [[st hd] s'].
  apply H. eexists. split; reflexivity.
Defined.

Lemma acpi_uninstall_correct_witness :
  (uninstall 0x1234 NullHandle booted).1 = STATUS_INVALID_ARGUMENT ∧
  (uninstall 0x1234 (EntryHandle 9) booted).1 = STATUS_INVALID_ARGUMENT ∧
  (uninstall 0x1234 (EntryHandle 9) (install 9 0x1234 0x55 true booted).2).1 = STATUS_OK.
Proof.
  split; [by rewrite (proj1 (acpi_uninstall_correct stub_at booted 9 0x1234 booted_ready ltac:(lia)))|].
  split; reflexivity.
Defined.
