(* ===== verification/IrqState.v ===== *)
(** * IrqState: the interrupt state after any sequence of operations.

    The operations of [src/kernel/cpu/interrupts/irq.cc] and of the interrupt table
    of [src/kernel/sys/acpi_kapi.cc] as one step relation, in whatever order
    drivers, the ACPI library and the hardware make them happen after [IDT::init];
    the invariant of the tables is proved by induction on the steps. *)
From stdpp Require Import base numbers list relations.
From S2P Require Import Prelude Mem Boot Frames Paging Tss Timer Lapic IoApic Interrupts.
Import IRQ.
Local Open Scope Z_scope.

(** One operation on the interrupt state. *)
Inductive irq_op :=
| Register (v : Z) (h : handler)
| Interrupt (n : Z)
| Install (irq handler ctx : Z) (ok : bool)
| Uninstall (handler : Z) (hnd : irq_handle)
| Init (t : IOAPIC.tables) (io : IOAPIC.io_space).

(** The arguments their types allow. *)
Definition op_typed (op : irq_op) : Prop :=
  match op with
  | Register v _ => 0 <= v < 256
  | Interrupt n => 0 <= n < 256
  | Install irq _ _ _ => 0 <= irq < 4294967296
  | _ => True
  end.

Inductive irq_step (hhdm : Z) : irq_op → irq_state → irq_state → Prop :=
| step_register v h s : irq_step hhdm (Register v h) s (IRQ.register_entry v h s)
| step_interrupt n s : irq_step hhdm (Interrupt n) s (irq_handler hhdm n s)
| step_install irq handler ctx ok s :
    irq_step hhdm (Install irq handler ctx ok) s (install irq handler ctx ok s).2
| step_uninstall handler hnd s : irq_step hhdm (Uninstall handler hnd) s (uninstall handler hnd s).2
| step_init t io s : irq_step hhdm (Init t io) s (IRQ.init hhdm t io s).1.

Inductive irq_steps (hhdm : Z) : list irq_op → irq_state → irq_state → Prop :=
| steps_nil s : irq_steps hhdm [] s s
| steps_snoc ops op s s' s'' :
    irq_steps hhdm ops s s' → irq_step hhdm op s' s'' → irq_steps hhdm (ops ++ [op]) s s''.

(** The vectors [isr.s] has a stub for; [isr_handlers] is null at the others. *)
Definition has_stub (v : Z) : bool := (v <? 48) || (v =? 0xF0) || (v =? 0xFF).

(** The operation asks for the gate of vector [v]. *)
Definition names (op : irq_op) (v : Z) : Prop :=
  match op with
  | Register v' _ => v' = v
  | Install irq _ _ _ => irq = v
  | _ => False
  end.

Definition blank : IDT.Gate := IDT.mk_gate 0 0 0 0 0 0 0.

(** The gate of a vector with a stub is blank or leads to its own stub in ring 0 on
    one of the two interrupt stacks.  Without a stub it is blank unless one of [ops]
    named the vector, and then a present gate to address 0; a registration always
    leaves that. *)
Definition gate_ok (isr : Z → Z) (ops : list irq_op) (v : Z) (g : IDT.Gate) : Prop :=
  if has_stub v then g = blank ∨ kernel_gate g (isr v) 1 ∨ kernel_gate g (isr v) 2
  else (g = blank ∧ ∀ h, Register v h ∉ ops) ∨
       (kernel_gate g 0 2 ∧ ∃ op, op ∈ ops ∧ names op v).

(** An installed ACPI handler is callable and knows its own line. *)
Definition entry_ok (i : nat) (e : uacpi_irq_handler) : Prop :=
  uh_installed e = true → uh_handler e ≠ 0 ∧ uh_irq e = Z.of_nat i.

Record irq_wf (isr : Z → Z) (ops : list irq_op) (s : irq_state) : Prop := {
  wf_ready : idt_ready isr s;
  wf_gates : ∀ v g, 0 <= v < 256 → IDT.idt (idt_st s) !! Z.to_nat v = Some g → gate_ok isr ops v g;
  wf_uacpi : ∀ i e, uacpi_handlers s !! i = Some e → entry_ok i e;
  wf_count : is_u64 (timer_interrupt_count s);
  wf_ticks : is_u64 (PIT.ticks_since_boot (pit s));
}.

Lemma u64_wf x : is_u64 (u64 x).
Proof. apply u64_range. Qed.

(** One more operation that does not register the vector. *)
Lemma gate_ok_snoc isr ops op v g :
  (∀ h, op ≠ Register v h) → gate_ok isr ops v g → gate_ok isr (ops ++ [op]) v g.
Proof.
  intros Hop. unfold gate_ok. destruct (has_stub v); [done|]. intros [[-> Hn]|(Hg & o & Ho & Hv)].
  - left. split; [done|]. intros h [?|E%list_elem_of_singleton]%elem_of_app; [by eapply Hn|]. by eapply Hop.
  - right. split; [done|]. exists o. split; [apply elem_of_app; by left|done].
Qed.

(** Any operation that registers no vector. *)
Lemma wf_snoc isr ops op s :
  (∀ v h, op ≠ Register v h) → irq_wf isr ops s → irq_wf isr (ops ++ [op]) s.
Proof.
  intros Hop [H1 Hg Hu Hc Ht]. split; try done. intros v g Hv Hl.
  apply gate_ok_snoc; [by intros h; apply Hop|by apply Hg].
Qed.

Section Steps.
Context (isr : Z → Z) (Hisr : ∀ v, 0 <= v < 256 → is_u64 (isr v)).

(** Registering a vector, for an operation that names it. *)
Lemma register_wf ops op v h s :
  0 <= v < 256 → names op v ∨ has_stub v = true → (∀ v' h', op = Register v' h' → v' = v) →
  irq_wf isr ops s → irq_wf isr (ops ++ [op]) (IRQ.register_entry v h s).
Proof.
  intros Hv Hn Hop [[H1 H2 H3 H4] Hg Hu Hc Ht]. split; [split|..]; try done.
  - rewrite register_entry_idt. by rewrite length_insert.
  - simpl. by rewrite length_insert.
  - intros v' g Hv'. rewrite register_entry_idt. destruct (decide (v' = v)) as [->|Hne].
    + rewrite list_lookup_insert_eq by lia. intros [= <-]. rewrite H2 by done. fold (has_stub v).
      unfold gate_ok. destruct (has_stub v).
      * right; right. apply int_gate_spec. by apply Hisr.
      * right. destruct Hn as [Hn|]; [|done]. split; [apply int_gate_spec; unfold is_u64; lia|].
        exists op. split; [apply elem_of_app; right; by left|done].
    + rewrite list_lookup_insert_ne by lia. intros Hl. apply gate_ok_snoc; [|by apply Hg].
      intros h' ->. by specialize (Hop v' h' eq_refl).
Qed.

Lemma set_irq_handler_wf ops i h s : irq_wf isr ops s → irq_wf isr ops (set_irq_handler i h s).
Proof.
  intros [[H1 H2 H3 H4] Hg Hu Hc Ht]. split; [split|..]; try done. simpl. by rewrite length_insert.
Qed.

Lemma run_wf ops h n s : irq_wf isr ops s → irq_wf isr ops (run h n s).
Proof.
  intros [[H1 H2 H3 H4] Hg Hu Hc Ht].
  destruct h; simpl; unfold irq_bridge; repeat case_match;
    (split; [by split|..]; try done; apply u64_wf).
Qed.

Lemma interrupt_wf ops hhdm n s : irq_wf isr ops s → irq_wf isr ops (irq_handler hhdm n s).
Proof.
  intros Hs. unfold irq_handler. 
  assert (irq_wf isr ops match irq_handlers s !! Z.to_nat n with Some (Some h) => run h n s | _ => s end)
    as [[H1 H2 H3 H4] Hg Hu Hc Ht] by (repeat case_match; try done; by apply run_wf).
  by split.
Qed.

Lemma set_uacpi_wf ops l s :
  length l = 256%nat → (∀ i e, l !! i = Some e → entry_ok i e) → irq_wf isr ops s →
  irq_wf isr ops (set_uacpi l s).
Proof. intros Hl He [[H1 H2 H3 H4] Hg Hu Hc Ht]. by split. Qed.

Lemma update_entry i e (l : list uacpi_irq_handler) :
  (∀ j x, l !! j = Some x → entry_ok j x) → entry_ok i e →
  ∀ j x, <[i := e]> l !! j = Some x → entry_ok j x.
Proof. intros Hl He j x [(<- & <- & _)|[_ ?]]%list_lookup_insert_Some; [done|by apply Hl]. Qed.

Lemma install_wf ops irq handler ctx ok s :
  0 <= irq → irq_wf isr ops s →
  irq_wf isr (ops ++ [Install irq handler ctx ok]) (install irq handler ctx ok s).2.
Proof.
  intros H0 Hs. pose proof (wf_snoc isr ops (Install irq handler ctx ok) s ltac:(done) Hs) as Hs'.
  unfold install. destruct (irq >=? 256) eqn:E1; [done|].
  destruct (handler =? 0) eqn:E2; [done|]. destruct ok; [|done]. simpl.
  destruct (uacpi_handlers s !! Z.to_nat irq) as [e|]; [|done].
  destruct (uh_installed e); [done|]. simpl. b2p. rewrite u8_id by lia.
  apply register_wf; [lia|by left|done|]. apply set_uacpi_wf; [|apply update_entry|done].
  - rewrite length_insert. exact (ir_uacpi _ _ (wf_ready _ _ _ Hs)).
  - exact (wf_uacpi _ _ _ Hs).
  - intros _. simpl. lia.
Qed.

Lemma uninstall_wf ops handler hnd s : irq_wf isr ops s → irq_wf isr ops (uninstall handler hnd s).2.
Proof.
  intros Hs. unfold uninstall. repeat (case_match; try done). 
  apply set_uacpi_wf; [|apply update_entry|done].
  - rewrite length_insert. exact (ir_uacpi _ _ (wf_ready _ _ _ Hs)).
  - exact (wf_uacpi _ _ _ Hs).
  - done.
Qed.

Lemma step_wf ops hhdm op s s' :
  op_typed op → irq_step hhdm op s s' → irq_wf isr ops s → irq_wf isr (ops ++ [op]) s'.
Proof.
  intros Ht Hst Hs. destruct Hst; simpl in Ht.
  - apply register_wf; [done|by left|by intros ? ? [= -> _]|done].
  - apply interrupt_wf. by apply wf_snoc.
  - apply install_wf; [lia|done].
  - apply uninstall_wf. by apply wf_snoc.
  - apply set_irq_handler_wf. apply register_wf; [lia|by right|done|done].
Qed.

Lemma steps_wf hhdm ops s s' :
  irq_steps hhdm ops s s' → Forall op_typed ops → irq_wf isr [] s → irq_wf isr ops s'.
Proof.
  induction 1 as [s|ops op s s1 s2 _ IH Hst]; [done|].
  intros [Hops Hop]%Forall_app Hs. apply Forall_cons in Hop as [Hop _].
  eapply step_wf; [done|done|by apply IH].
Qed.
End Steps.

(** The statics before [IDT::init]: no ACPI handler is installed. *)
Record fresh (isr : Z → Z) (s : irq_state) : Prop := {
  fr_idt : idt_st s = IDT.initial isr;
  fr_irq : length (irq_handlers s) = 256%nat;
  fr_uacpi : uacpi_handlers s = replicate 256 (mk_uh 0 0 0 false);
  fr_count : is_u64 (timer_interrupt_count s);
  fr_ticks : is_u64 (PIT.ticks_since_boot (pit s));
}.

Lemma fresh_init_wf isr idt_addr s :
  (∀ v, 0 <= v < 256 → is_u64 (isr v) ∧ isr v ≠ 0) → fresh isr s →
  irq_wf isr [] (set_idt (IDT.init isr idt_addr (idt_st s)) s).
Proof.
  intros Hisr [E H1 H2 H3 H4]. rewrite E.
  destruct (idt_init_spec isr idt_addr Hisr) as (I1 & _ & _ & I2 & I3).
  set (d := IDT.init isr idt_addr (IDT.initial isr)) in *. clearbody d.
  split; [split|..]; simpl; try done.
  - by rewrite H2.
  - intros v g Hv. rewrite I3 by done. intros [= <-]. unfold gate_ok.
    destruct (exception_vector v) eqn:Ev.
    + assert (has_stub v = true) as ->.
      { unfold has_stub. revert Ev. unfold exception_vector.
        destruct (v <? 48) eqn:E1; [done|]. replace (v <? 32) with false by (b2p; lia). by intros ->. }
      right; left. apply int_gate_spec. by apply Hisr.
    + destruct (has_stub v); [by left|]. left. split; [done|]. by intros h ?%elem_of_nil.
  - intros i e. rewrite H2. intros [-> _]%lookup_replicate. done.
Qed.

(** ** Property *)

(** C17: the gates, handlers and counters stay well-typed whatever happens after
    [IDT::init]: after any sequence of registrations, interrupts of any number, ACPI
    installations and removals (with any arguments of their types) and
    initialisations of the interrupt line,
    - the gate of a vector that has a stub is either blank or a present ring-0
      interrupt gate in the kernel code segment to that vector's own stub, on one of
      the two interrupt stacks;
    - the gate of a vector that has none is blank unless an operation of the sequence
      named that vector; nothing checks the vector, so then it can be a present gate
      to address 0, and after a registration it is;
    - every installed ACPI entry has a handler to call and its own line, and the
      counters are 64-bit values. *)
Theorem irq_tables_typed isr hhdm idt_addr s0 ops s :
  (∀ v, 0 <= v < 256 → is_u64 (isr v) ∧ isr v ≠ 0) → fresh isr s0 →
  irq_steps hhdm ops (set_idt (IDT.init isr idt_addr (idt_st s0)) s0) s → Forall op_typed ops →
  length (IDT.idt (idt_st s)) = 256%nat ∧ length (irq_handlers s) = 256%nat ∧
  length (uacpi_handlers s) = 256%nat ∧
  (∀ v, 0 <= v < 256 → ∃ g, IDT.idt (idt_st s) !! Z.to_nat v = Some g ∧
     if has_stub v then g = blank ∨ kernel_gate g (isr v) 1 ∨ kernel_gate g (isr v) 2
     else (g = blank ∧ ∀ h, Register v h ∉ ops) ∨
          (kernel_gate g 0 2 ∧ ∃ op, op ∈ ops ∧ names op v)) ∧
  (∀ i e, uacpi_handlers s !! i = Some e → entry_ok i e) ∧
  is_u64 (timer_interrupt_count s) ∧ is_u64 (PIT.ticks_since_boot (pit s)).
Proof.
  intros Hisr Hf Hst Hty. assert (irq_wf isr ops s) as [[H1 _ H2 H3] Hg Hu Hc Ht].
  { eapply (steps_wf isr); [intros v Hv; by apply Hisr|exact Hst|done|by apply fresh_init_wf]. }
  do 3 (split; [done|]). split; [|done]. intros v Hv.
  destruct (lookup_lt_is_Some_2 (IDT.idt (idt_st s)) (Z.to_nat v)) as [g E]; [lia|].
  exists g. split; [done|]. by apply Hg.
Qed.

(** An ACPI line installed, interrupted and removed again, and a vector without a stub
    registered. *)
Definition fresh_sample : irq_state :=
  mk_irq (replicate 256 None) 0 (replicate 256 (mk_uh 0 0 0 false)) [] (IDT.initial stub_at)
    (PIT.mk_pit 41 1000 []) lapic100.

Definition visit1 : irq_state :=
  (IRQ.init 0 two_controllers idle_io (set_idt (IDT.init stub_at 0x6000 (idt_st fresh_sample)) fresh_sample)).1.
Definition visit2 : irq_state := (install 9 0x1234 0x55 true visit1).2.
Definition visit3 : irq_state := irq_handler 0 9 visit2.
Definition visit4 : irq_state := (uninstall 0x1234 (EntryHandle 9) visit3).2.
Definition visited : irq_state := IRQ.register_entry 0x50 (Driver 1) visit4.

Lemma irq_tables_typed_witness :
  (∃ g, IDT.idt (idt_st visited) !! 9%nat = Some g ∧
     (g = blank ∨ kernel_gate g (stub_at 9) 1 ∨ kernel_gate g (stub_at 9) 2)) ∧
  ∃ g, IDT.idt (idt_st visited) !! 80%nat = Some g ∧ kernel_gate g 0 2.
Proof.
  pose (ops := [] ++ [Init two_controllers idle_io] ++ [Install 9 0x1234 0x55 true] ++ [Interrupt 9] ++
    [Uninstall 0x1234 (EntryHandle 9)] ++ [Register 0x50 (Driver 1)]).
  destruct (irq_tables_typed stub_at 0 0x6000 fresh_sample ops visited stub_at_ok) as (_ & _ & _ & H & _).
  - split; [reflexivity|reflexivity|reflexivity|unfold is_u64; simpl; lia|unfold is_u64; simpl; lia].
  - exact (steps_snoc _ [_; _; _; _] _ _ visit4 _ (steps_snoc _ [_; _; _] _ _ visit3 _
      (steps_snoc _ [_; _] _ _ visit2 _ (steps_snoc _ [_] _ _ visit1 _ (steps_snoc _ [] _ _ _ _ (steps_nil _ _)
        (step_init 0 _ _ _)) (step_install 0 _ _ _ _ visit1)) (step_interrupt 0 9 visit2))
        (step_uninstall 0 _ _ visit3)) (step_register 0 _ _ visit4)).
  - repeat constructor; simpl; lia.
  - split; [exact (H 9 ltac:(lia))|]. destruct (H 0x50 ltac:(lia)) as (g & Hg & [[_ Hn]|[Hk _]]).
    + destruct (Hn (Driver 1)). unfold ops. do 4 right. left.
    + exists g. split; [exact Hg|exact Hk].
Defined.
