(* ===== verification/Symbols.v ===== *)
(** * Symbols: the table that turns code addresses into function names.

    [src/kernel/err/meta_resolver.cc] and [src/include/err/handler.h].  The static
    array [symbol_table] is the list of its entries up to the first null pointer.
    The fields of an ELF symbol are read as the source reads them; the symbol
    type encoding ([ELF64_ST_TYPE], [STT_FUNC]) belongs to the ELF header of the
    support library and is an argument. *)
From stdpp Require Import base numbers list sorting.
From S2P Require Import Prelude Exchange.
Local Open Scope Z_scope.

Definition MAX_SYMBOLS : Z := 1024.

Record symbol_entry := mk_symbol { address : Z; name : Z; size : Z }.

Record elf_sym := mk_elf_sym { st_name : Z; st_info : Z; st_value : Z; st_size : Z }.

(** The test of [sort_symbol_table]. *)
Definition symbol_after (x y : symbol_entry) : bool := address y <? address x.

Definition sort_symbol_table (l : list symbol_entry) : list symbol_entry :=
  exchange_sort symbol_after l.

Section init.
Context (ELF64_ST_TYPE : Z → Z) (STT_FUNC : Z).

(** The symbols the loop skips. *)
Definition skipped (sym : elf_sym) : bool :=
  (st_name sym =? 0) || (st_info sym =? 0) || negb (ELF64_ST_TYPE (st_info sym) =? STT_FUNC).

Fixpoint collect (strtab : Z) (l : list elf_sym) (table : list symbol_entry) :
    list symbol_entry :=
  match l with
  | [] => table
  | sym :: l =>
      if skipped sym then collect strtab l table
      else collect strtab l
             (table ++ [mk_symbol (st_value sym) (strtab ⊕ st_name sym) (st_size sym)])
  end.

(** [None]: an entry was written past the end of [symbol_table]. *)
Definition init_symbols (strtab : Z) (symtab : list elf_sym) : option (list symbol_entry) :=
  let table := collect strtab symtab [] in
  if Z.of_nat (length table) <=? MAX_SYMBOLS then Some (sort_symbol_table table) else None.
End init.

(** The loop of [resolve_address], with the entry found so far. *)
Fixpoint resolve_loop (l : list symbol_entry) (addr : Z) (entry : option symbol_entry) :
    option symbol_entry * bool :=
  match l with
  | [] => (entry, false)
  | s :: l =>
      if address s =? addr then (Some s, true)
      else if address s >? addr then (entry, false)
      else resolve_loop l addr (Some s)
  end.

Definition resolve_address (table : list symbol_entry) (addr : Z) : option symbol_entry * bool :=
  resolve_loop table addr None.

(** ** Sorting *)

#[global] Instance symbol_after_ok : ExchangeTest symbol_after.
Proof.
  split; unfold symbol_after; intros; b2p; apply Z.ltb_ge; lia.
Qed.

(** Ascending addresses. *)
Definition ascending (l : list symbol_entry) : Prop :=
  ∀ i j x y, (i < j)%nat → l !! i = Some x → l !! j = Some y → address x <= address y.

Lemma sort_symbol_table_spec l : sort_symbol_table l ≡ₚ l ∧ ascending (sort_symbol_table l).
Proof.
  split; [apply exchange_sort_Permutation|]. intros i j x y Hij Hi Hj.
  apply Z.ltb_ge. by eapply (exchange_sort_ordered symbol_after).
Qed.

Lemma ascending_cons s l : ascending (s :: l) → ascending l ∧ ∀ x, x ∈ l → address s <= address x.
Proof.
  intros H. split.
  - intros i j x y Hij Hi Hj. apply (H (S i) (S j)); [lia|done|done].
  - intros x Hx. apply list_elem_of_lookup in Hx as [k Hk]. apply (H 0%nat (S k)); [lia|done|done].
Qed.

(** ** Resolution *)

(** What an address resolves to in a set of symbols: the nearest symbol at or
    below it. *)
Definition nearest (l : list symbol_entry) (addr : Z) (s : symbol_entry) : Prop :=
  s ∈ l ∧ address s <= addr ∧ ∀ x, x ∈ l → address x <= addr → address x <= address s.

Lemma resolve_loop_spec l addr e :
  ascending l → (∀ s, e = Some s → address s < addr ∧ ∀ x, x ∈ l → address s <= address x) →
  match resolve_loop l addr e with
  | (Some s, exact) =>
      (e = Some s ∨ s ∈ l) ∧ address s <= addr ∧
      (∀ x, x ∈ l → address x <= addr → address x <= address s) ∧
      (exact = true ↔ address s = addr)
  | (None, exact) => exact = false ∧ e = None ∧ ∀ x, x ∈ l → addr < address x
  end.
Proof.
  revert e; induction l as [|s l IH]; intros e Hasc He.
  - simpl. destruct e as [s|].
    + destruct (He s eq_refl) as [Hlt _]. split_and!; [by left|lia|by intros ? ?%elem_of_nil|].
      split; [done|lia].
    + split_and!; try done. by intros ? ?%elem_of_nil.
  - apply ascending_cons in Hasc as [Hasc Hmin]. simpl. destruct (address s =? addr) eqn:E; b2p.
    { split_and!; [right; by left|lia|intros; lia|done]. }
    rewrite Z.gtb_ltb. destruct (addr <? address s) eqn:E2; b2p.
    + destruct e as [s0|].
      * destruct (He s0 eq_refl) as [Hlt _]. split_and!; [by left|lia| |split; [done|lia]].
        intros x Hx Hle. apply elem_of_cons in Hx as [->|Hx]; [lia|]. specialize (Hmin x Hx). lia.
      * split_and!; try done. intros x Hx. apply elem_of_cons in Hx as [->|Hx]; [done|].
        specialize (Hmin x Hx). lia.
    + specialize (IH (Some s) Hasc). destruct (resolve_loop l addr (Some s)) as [[r|] exact].
      * destruct IH as (Hr & Hle & Hmax & Hex); [intros ? [= <-]; split; [lia|done]|].
        split_and!; [destruct Hr as [[= ->]|Hr]; right; [by left|by right]|done| |done].
        intros x Hx Hxa. apply elem_of_cons in Hx as [->|Hx]; [|by apply Hmax].
        destruct Hr as [[= ->]|Hr]; [lia|by apply Hmin].
      * destruct IH as (_ & ? & _); [intros ? [= <-]; split; [lia|done]|done].
Qed.

Lemma resolve_loop_in l addr e s exact :
  resolve_loop l addr e = (Some s, exact) → e = Some s ∨ s ∈ l.
Proof.
  revert e; induction l as [|x l IH]; intros e; simpl; [intros [= <-]; by left|].
  case_cond; [intros [= -> _]; right; left|]. case_cond; [intros [= <- _]; by left|].
  intros [[= ->]|?]%IH; right; [left|by right].
Qed.

(** A resolved entry is one of the table's. *)
Lemma resolve_in l addr s exact : resolve_address l addr = (Some s, exact) → s ∈ l.
Proof. intros [?|?]%resolve_loop_in; done. Qed.

(** ** Collection *)

Lemma collect_app ty fn strtab l t :
  collect ty fn strtab l t = t ++ collect ty fn strtab l [].
Proof.
  revert t; induction l as [|s l IH]; intros t; simpl; [by rewrite app_nil_r|].
  destruct (skipped ty fn s); [apply IH|]. rewrite IH, (IH [_]). by rewrite <- app_assoc.
Qed.

(** The entries of the function symbols of the file. *)
Definition functions_of (ty : Z → Z) (fn strtab : Z) (l : list elf_sym) : list symbol_entry :=
  (λ sym, mk_symbol (st_value sym) (strtab ⊕ st_name sym) (st_size sym)) <$>
    filter (λ sym, skipped ty fn sym = false) l.

Lemma collect_functions ty fn strtab l : collect ty fn strtab l [] = functions_of ty fn strtab l.
Proof.
  unfold functions_of. induction l as [|s l IH]; [done|]. simpl. rewrite filter_cons.
  destruct (skipped ty fn s); case_decide; try done. rewrite collect_app, IH. done.
Qed.

(** ** Properties *)

(** C20: when the kernel's function symbols fit the table, every address resolves
    after [init_symbols] to the nearest function symbol at or below it, flagged
    exact precisely when it is that symbol's address, and to nothing only when
    every function symbol lies above it; with more symbols than entries the
    table is overrun. *)
Theorem resolve_address_correct ty fn strtab symtab addr :
  let fns := functions_of ty fn strtab symtab in
  match init_symbols ty fn strtab symtab with
  | None => MAX_SYMBOLS < Z.of_nat (length fns)
  | Some table =>
      Z.of_nat (length fns) <= MAX_SYMBOLS ∧ table ≡ₚ fns ∧ ascending table ∧
      match resolve_address table addr with
      | (Some s, exact) => nearest fns addr s ∧ (exact = true ↔ address s = addr)
      | (None, exact) => exact = false ∧ ∀ x, x ∈ fns → addr < address x
      end
  end.
Proof.
  cbv zeta. unfold init_symbols. rewrite collect_functions. case_cond; [|done].
  destruct (sort_symbol_table_spec (functions_of ty fn strtab symtab)) as [Hp Hasc].
  split; [done|]. split; [done|]. split; [done|].
  pose proof (resolve_loop_spec _ addr None Hasc ltac:(done)) as H. unfold resolve_address.
  destruct (resolve_loop _ addr None) as [[s|] exact].
  - destruct H as ([?|Hin] & Hle & Hmax & Hex); [done|]. split; [|done].
    split; [by rewrite <- Hp|]. split; [done|]. intros x Hx. apply Hmax. by rewrite Hp.
  - destruct H as (-> & _ & Hall). split; [done|]. intros x Hx. apply Hall. by rewrite Hp.
Qed.

(** Three functions, given out of order, and an object the table leaves out. *)
Example resolve_sample :
  let symtab := [mk_elf_sym 1 0x12 0x3000 0x10; mk_elf_sym 9 0x12 0x1000 0x80;
                 mk_elf_sym 17 0x11 0x2800 8; mk_elf_sym 25 0x12 0x2000 0x40] in
  match init_symbols (λ i, Z.land i 0xf) 2 0x9000 symtab with
  | Some table => resolve_address table 0x2834 = (Some (mk_symbol 0x2000 0x9019 0x40), false) ∧
                  resolve_address table 0x1000 = (Some (mk_symbol 0x1000 0x9009 0x80), true) ∧
                  resolve_address table 0xfff = (None, false)
  | None => False
  end.
Proof. by vm_compute. Qed.

(** ** The resolver against a reference *)

Definition by_address (x y : symbol_entry) : Prop := address x <= address y.

#[global] Instance by_address_dec : RelDecision by_address.
Proof. intros x y. unfold by_address. apply _. Defined.
#[global] Instance by_address_total : Total by_address.
Proof. intros x y. unfold by_address. lia. Qed.
#[global] Instance by_address_trans : Transitive by_address.
Proof. intros x y z. unfold by_address. lia. Qed.

Lemma ascending_sorted l : ascending l → StronglySorted by_address l.
Proof.
  induction l as [|s l IH]; intros H; [constructor|]. apply ascending_cons in H as [H Hmin].
  constructor; [by apply IH|]. by apply Forall_forall.
Qed.

(** The last symbol at or below an address. *)
Definition floor_entry (l : list symbol_entry) (addr : Z) : option symbol_entry :=
  last (filter (λ s, address s <= addr) l).

Lemma floor_entry_above l addr : (∀ x, x ∈ l → addr < address x) → floor_entry l addr = None.
Proof.
  intros H. unfold floor_entry. rewrite filter_none; [done|]. intros x Hx. specialize (H x Hx). lia.
Qed.

Lemma resolve_loop_reference l addr e :
  ascending l → NoDup (address <$> l) →
  resolve_loop l addr e =
    (match floor_entry l addr with Some s => Some s | None => e end,
     bool_decide (addr ∈ address <$> l)).
Proof.
  revert e; induction l as [|s l IH]; intros e Hasc Hnd; [done|].
  apply ascending_cons in Hasc as [Hasc Hmin]. apply NoDup_cons in Hnd as [Hs Hnd]. 
  assert (∀ x, x ∈ l → address s < address x) as Hlt.
  { intros x Hx. specialize (Hmin x Hx). assert (address s ≠ address x); [|lia].
    intros E. apply Hs. rewrite E. by apply list_elem_of_fmap_2. }
  simpl. unfold floor_entry. rewrite filter_cons. destruct (address s =? addr) eqn:E; b2p.
  - subst addr. rewrite decide_True by lia. rewrite bool_decide_true by (left; done).
    rewrite (filter_none _ l); [done|]. intros x Hx. specialize (Hlt x Hx). lia.
  - rewrite Z.gtb_ltb. destruct (addr <? address s) eqn:E2; b2p.
    + rewrite decide_False by lia. rewrite filter_none by (intros x Hx; specialize (Hlt x Hx); lia).
      rewrite bool_decide_false; [done|]. intros [->|Hin]%elem_of_cons; [lia|].
      apply list_elem_of_fmap in Hin as (x & -> & Hx). specialize (Hlt x Hx). lia.
    + rewrite decide_True by lia. rewrite IH by done. f_equal.
      * rewrite last_cons. unfold floor_entry. by destruct (last _).
      * apply bool_decide_ext. rewrite elem_of_cons. naive_solver.
Qed.

Lemma address_inj l x y :
  NoDup (address <$> l) → x ∈ l → y ∈ l → address x = address y → x = y.
Proof.
  intros Hnd [i Hi]%list_elem_of_lookup [j Hj]%list_elem_of_lookup E.
  assert (i = j) as ->; [|congruence].
  eapply (NoDup_lookup (address <$> l) i j (address x)); [done| |];
    rewrite list_lookup_fmap; [by rewrite Hi|]. rewrite Hj. simpl. congruence.
Qed.

(** C38: the exchange sort and the linear search are equivalent to a textbook
    resolver: for functions at distinct addresses the table is the merge sort of
    the entries by address, and an address resolves to the last of them at or
    below it, exactly when it is one of the addresses. *)
Theorem resolver_reference l addr :
  NoDup (address <$> l) →
  sort_symbol_table l = merge_sort by_address l ∧
  resolve_address (sort_symbol_table l) addr =
    (floor_entry (merge_sort by_address l) addr, bool_decide (addr ∈ address <$> l)).
Proof.
  intros Hnd. destruct (sort_symbol_table_spec l) as [Hp Hasc].
  assert (sort_symbol_table l = merge_sort by_address l) as E.
  { apply (StronglySorted_unique_strong by_address).
    - intros x y Hx Hy H1 H2. rewrite Hp in Hx. rewrite merge_sort_Permutation in Hy.
      apply (address_inj l); [done..|]. unfold by_address in *. lia.
    - by apply ascending_sorted.
    - apply Sorted_StronglySorted; [apply _|]. apply Sorted_merge_sort, _.
    - by rewrite Hp, merge_sort_Permutation. }
  split; [done|]. rewrite <- E. unfold resolve_address.
  rewrite resolve_loop_reference; [|done|by rewrite Hp].
  f_equal; [by destruct (floor_entry _ _)|]. apply bool_decide_ext. by rewrite Hp.
Qed.

Lemma resolver_reference_witness :
  resolve_address (sort_symbol_table [mk_symbol 0x3000 1 16; mk_symbol 0x1000 2 128; mk_symbol 0x2000 3 64])
    0x2834 = (Some (mk_symbol 0x2000 3 64), false).
Proof.
  destruct (resolver_reference [mk_symbol 0x3000 1 16; mk_symbol 0x1000 2 128; mk_symbol 0x2000 3 64] 0x2834)
    as [_ H]; [apply (bool_decide_unpack _); vm_compute; exact I|].
  etransitivity; [exact H|]. vm_compute. reflexivity.
Defined.
