(* ===== verification/SymbolHeap.v ===== *)
(** * SymbolHeap: the heap objects behind the symbol table.

    [init_symbols] of [src/kernel/err/meta_resolver.cc] allocates a
    [symbol_entry_t] for every function symbol and fills it; the table itself, as the
    values of these objects, is in [Symbols]. *)
From stdpp Require Import base numbers list.
From S2P Require Import Prelude Mem Boot Frames Paging PageTables Heap HeapSpec HeapPages Allocator.
From S2P Require Import HeapTables Symbols.
Local Open Scope Z_scope.

(** The [kmalloc] and the three stores [init_symbols] makes for each entry. *)
Fixpoint store_entries (fuel : nat) (h : heap_state) (l : list symbol_entry) : outcome heap_state :=
  match l with
  | [] => Ret h
  | e :: l =>
      '(p, h) ← kmalloc fuel h 24;
      let m := store64 (h_mem h) p (Symbols.address e) in
      let m := store64 m (p ⊕ 8) (Symbols.name e) in
      let m := store64 m (p ⊕ 16) (Symbols.size e) in
      store_entries fuel (set_h_mem m h) l
  end.

(** The object at [p] holds the entry. *)
Definition entry_at (m : mem) (p : Z) (e : symbol_entry) : Prop :=
  load64 m p = Symbols.address e ∧ load64 m (p + 8) = Symbols.name e ∧
  load64 m (p + 16) = Symbols.size e.

Definition entry_typed (e : symbol_entry) : Prop :=
  is_u64 (Symbols.address e) ∧ is_u64 (Symbols.name e) ∧ is_u64 (Symbols.size e).

(** The three stores for an entry. *)
Definition fill_entry (m : mem) (p : Z) (e : symbol_entry) : mem :=
  store64 (store64 (store64 m p (Symbols.address e)) (p ⊕ 8) (Symbols.name e)) (p ⊕ 16) (Symbols.size e).

Lemma fill_entry_spec m p e :
  entry_typed e → 0 <= p → p + 24 < 18446744073709551616 →
  entry_at (fill_entry m p e) p e ∧ ∀ a, ¬ (p <= a < p + 24) → fill_entry m p e a = m a.
Proof.
  intros (H1 & H2 & H3) H0 Hp. unfold fill_entry. nowrap. split.
  - split_and!; simpl_mem; done.
  - intros a Ha. unfold store64. rewrite !store_out by (simpl; lia). done.
Qed.

(** The block [b] is an object for the entry. *)
Definition holds (m : mem) (b : Z * Z) (e : symbol_entry) : Prop := 24 <= b.2 ∧ entry_at m b.1 e.

Lemma holds_keeps m m' b e : holds m b e → same_on b.1 (b.1 + b.2) m m' → holds m' b e.
Proof.
  intros (Hn & H1 & H2 & H3) Hs. split; [done|].
  split_and!; [rewrite <- H1|rewrite <- H2|rewrite <- H3];
    apply load64_same_on; (eapply same_on_weaken; [..|exact Hs]; lia).
Qed.

(** Objects in blocks whose bytes are kept. *)
Lemma objects_keep L m m' bs l :
  keeps L m m' → bs ⊆ L → Forall2 (holds m) bs l → Forall2 (holds m') bs l.
Proof.
  intros Hk. induction bs as [|[b n] bs IH] in l |- *; intros Hs Ho; inversion_clear Ho; [constructor|].
  constructor; [|apply IH; [by intros x Hx; apply Hs; right|done]].
  eapply holds_keeps; [done|]. apply Hk. apply Hs. by left.
Qed.

(** Every entry gets an object of its own, the live blocks are kept, and the frames
    in use outside the heap are spared. *)
Lemma store_entries_spec l : ∀ h H n,
  heap_wf h H → 0 <= n → frames_for h (n + Z.of_nat (length l)) → Forall entry_typed l →
  ∃ k h' H' (bs : list (Z * Z)), (∀ fuel, (k <= fuel)%nat → store_entries fuel h l = Ret h') ∧
    heap_wf h' H' ∧ frames_for h' n ∧ spares h H h' H' ∧ keeps (blocks H) (h_mem h) (h_mem h') ∧
    blocks H' ≡ₚ bs ++ blocks H ∧ Forall2 (holds (h_mem h')) bs l.
Proof.
  induction l as [|e l IH]; intros h H n Hwf Hn Hfr Hty.
  { exists O, h, H, []. rewrite Z.add_0_r in Hfr. split; [done|]. split; [done|]. split; [done|].
    split; [split; done|]. split; [by intros b k _|]. split; [done|constructor]. }
  apply Forall_cons in Hty as [He Hty].
  set (n1 := n + Z.of_nat (length l)). 
  destruct (kmalloc_small (heap_weight H + 5) h H 24 n1) as (p & h1 & H1 & E & Ha & Hf1);
    [done|lia|lia|by replace (n1 + 1) with (n + Z.of_nat (length (e :: l))) by (simpl; lia)|done|].
  destruct Ha as [A1 A2 (z & Hz & A3 & A3') A4 _ A6 _ _].
  assert ((p, z) ∈ blocks H1) as Hb by (rewrite A3; left).
  pose proof Hb as (i & q & Hi & Hq)%elem_of_blocks.
  destruct (page_block_bounds h1 H1 A1 i q p z Hi Hq) as (B1 & B2 & B3).
  destruct (page_bounds h1 H1 A1 i q Hi) as (P1 & P2 & P3 & _).
  destruct (fill_entry_spec (h_mem h1) p e He) as [Hat Hout]; [lia|lia|].
  set (m := fill_entry (h_mem h1) p e) in *.
  assert (∀ a, ¬ (p <= a < p + z) → m a = h_mem h1 a) as Hout' by (intros a Hna; apply Hout; lia).
  destruct (IH (set_h_mem m h1) H1 n) as (k & h' & H' & bs & Hst & W & Hf' & Hsp & Hk & Hp & Hob);
    [by eapply heap_write|done|by eapply write_frames_for|done|].
  exists (Nat.max (heap_weight H + 5) k), h', H', ((p, z) :: bs).
  split; [|split; [done|split; [done|split; [|split; [|split]]]]].
  - intros fuel Hfuel. cbn [store_entries]. rewrite (kmalloc_mono (heap_weight H + 5) fuel h 24 (p, h1)) by (done || lia).
    cbn [mbind outcome_bind]. apply Hst. lia.
  - eapply spares_trans; [exact A6|]. eapply spares_trans; [by eapply write_spares|exact Hsp].
  - intros b k' Hbk a Hak. rewrite <- (A4 b k' Hbk a Hak).
    rewrite (Hk b k'); [|by rewrite A3; right|done]. apply Hout.
    destruct (A3' b k' Hbk); lia.
  - rewrite Hp, A3. simpl. by rewrite Permutation_middle.
  - constructor; [|done]. eapply (holds_keeps m); [by split|]. by apply Hk.
Qed.
