(* ===== verification/Faults.v ===== *)
(** * Faults: what the kernel does when an exception is raised.

    [src/kernel/cpu/interrupts/handler.cc] and the parts of
    [src/kernel/err/dump.cc] that do not disassemble.  The report the handler
    prints is modelled as the choices it makes (which message, which cause,
    which table), not as the box-drawing text around them; the debug-information
    lookup ([DWARF::addr2line_lookup]) is library code and an argument. *)
From stdpp Require Import base numbers list strings.
From S2P Require Import Prelude Mem.
Local Open Scope Z_scope.

(** [messages]: 22 strings, the other entries of the array are null. *)
Definition messages : list string :=
  ["Divide by zero"; "Single step"; "Non-maskable interrupt"; "Breakpoint"; "Overflow";
   "Bound range exceeded"; "Invalid opcode"; "Device not available"; "Double fault";
   "Coprocessor segment overrun"; "Invalid TSS"; "Segment not present"; "Stack-segment fault";
   "General protection fault"; "Page fault"; "Reserved"; "x87 FPU error"; "Alignment check";
   "Machine check"; "SIMD floating-point exception"; "Virtualization exception";
   "Control protection exception"].

(** The fields of [struct isr_frame] the handler reads or writes. *)
Record isr_frame := mk_frame {
  return_address : Z;
  cr2 : Z;
  rip : Z;
  rbp : Z;
  int_num : Z;
  error_code : Z;
}.

(** The lines of the report that depend on the frame. *)
Inductive cause := NotPresent | ProtectionViolation.
Inductive access := ReadAccess | WriteAccess.
Inductive mode := SupervisorMode | UserMode.
Inductive flag := ReservedBit | InstructionFetch | ProtectionKey | ShadowStack.
Inductive table := TableGDT | TableIDT | TableLDT.

Inductive report :=
| Registers (message : option string) (padding : Z) (shows_error : bool)
| DoubleFault (external : bool) (tbl : table) (index : Z)
| InvalidTSS (index : Z)
| InvalidSegment (index : Z)
| GeneralProtection (index : Z)
| PageFault (address : Z) (c : cause) (a : access) (m : mode) (fs : list flag)
| DumpAt (address rbp disas : Z).

(** [dump_registers]: [None] is the call of [strlen] on a null pointer. *)
Definition dump_registers (info : isr_frame) : option report :=
  let shown := if int_num info <? 22 then messages !! Z.to_nat (int_num info) else None in
  match messages !! Z.to_nat (int_num info) with
  | None => None
  | Some m =>
      let msg_len := Z.of_nat (String.length m) in
      Some (Registers shown (54 ⊖ msg_len) (negb (error_code info =? 0)))
  end.

Definition handle_double_fault (info : isr_frame) : report :=
  let ext := Z.land (error_code info) 0x01 in
  let tbl := Z.shiftr (Z.land (error_code info) 0x07) 1 in
  let index := Z.shiftr (Z.land (error_code info) 0xFFFF) 3 in
  DoubleFault (negb (ext =? 0))
    (if tbl =? 0 then TableGDT else if (tbl =? 1) || (tbl =? 3) then TableIDT else TableLDT) index.

Definition handle_invalid_tss (info : isr_frame) : report := InvalidTSS (error_code info).
Definition handle_invalid_segment (info : isr_frame) : report := InvalidSegment (error_code info).
Definition handle_gpf (info : isr_frame) : report := GeneralProtection (error_code info).

(** [(attrs >> n) & 0x1] as a condition. *)
Definition attr (attrs n : Z) : bool := negb (Z.land (Z.shiftr attrs n) 1 =? 0).

Definition handle_page_fault (info : isr_frame) : report :=
  let attrs := Z.land (error_code info) 0x7F in
  PageFault (cr2 info)
    (if attr attrs 0 then ProtectionViolation else NotPresent)
    (if attr attrs 1 then WriteAccess else ReadAccess)
    (if attr attrs 2 then UserMode else SupervisorMode)
    ((if attr attrs 3 then [ReservedBit] else []) ++
     (if attr attrs 4 then [InstructionFetch] else []) ++
     (if attr attrs 5 then [ProtectionKey] else []) ++
     (if attr attrs 6 then [ShadowStack] else [])).

Definition handle_err_code (info : isr_frame) : list report :=
  if int_num info =? 0x08 then [handle_double_fault info]
  else if int_num info =? 0x0A then [handle_invalid_tss info]
  else if int_num info =? 0x0B then [handle_invalid_segment info]
  else if int_num info =? 0x0D then [handle_gpf info]
  else if int_num info =? 0x0E then [handle_page_fault info]
  else [].

(** How a handler ends: it returns to the interrupted code, halts the machine
    after its report, or dereferences a null pointer. *)
Inductive handled := Returned | Halted (r : list report) | NullDeref.

Section dwarf.
(** The address [addr2line_lookup] finds, if it finds one. *)
Context (addr2line : Z → option Z).

Definition find_rip (return_address : Z) : Z :=
  match addr2line (return_address ⊖ 1) with Some a => a | None => return_address end.

Definition has_error_code (n : Z) : bool :=
  (n =? 0x08) || (n =? 0x0A) || (n =? 0x0B) || (n =? 0x0D) || (n =? 0x0E).

Definition isr_handler (info : isr_frame) : handled :=
  if int_num info =? 0xFF then Returned
  else
    let info := mk_frame (return_address info) (cr2 info) (find_rip (return_address info))
                         (rbp info) (int_num info) (error_code info) in
    match dump_registers info with
    | None => NullDeref
    | Some regs =>
        let errs := if has_error_code (int_num info) then handle_err_code info else [] in
        let disas_addr := if return_address info ⊖ rip info <? 0x2
                          then return_address info else rip info in
        Halted (regs :: errs ++ [DumpAt (rip info) (rbp info) disas_addr])
    end.
End dwarf.

(** ** [dump.cc] *)

(** The digit [dump_address] writes for a nibble. *)
Definition hex_digit (nibble : Z) : Z := if nibble <? 10 then 48 + nibble else 65 + nibble - 10.

(** [for (i = 15; i >= 0; --i)]: [n] digits, the last of them first. *)
Fixpoint hex_loop (n : nat) (value : Z) (buf : list Z) : list Z :=
  match n with
  | O => buf
  | S n => hex_loop n (Z.shiftr value 4) (hex_digit (Z.land value 0xF) :: buf)
  end.

(** The sixteen characters after the "0x" prefix. *)
Definition dump_address (value : Z) : list Z := hex_loop 16 value [].

(** [__memcpy_chk]: byte by byte, whatever [destlen] is. *)
Fixpoint memcpy_chk_loop (n : nat) (m : mem) (dest src i : Z) : mem :=
  match n with
  | O => m
  | S n => memcpy_chk_loop n (store8 m (dest + i) (load8 m (src + i))) dest src (i + 1)
  end.

Definition memcpy_chk (m : mem) (dest src len destlen : Z) : mem :=
  memcpy_chk_loop (Z.to_nat len) m dest src 0.

Definition KERNEL_BASE : Z := 0xffffffff80000000.

(** [for (i = 0; i < 16 && rbp; ++i)], [n] rounds from [i]: the frames printed,
    with their number and return address. *)
Fixpoint backtrace_loop (n : nat) (i : Z) (m : mem) (rbp : Z) : list (Z * Z) :=
  match n with
  | O => []
  | S n =>
      if rbp =? 0 then []
      else
        let rip := load64 m (rbp ⊕ 8) in
        if rip =? 0 then []
        else
          let rest := backtrace_loop n (i + 1) m (load64 m rbp) in
          if rip >? KERNEL_BASE then (i, rip) :: rest else rest
  end.

Definition backtrace (m : mem) (rbp : Z) : list (Z * Z) := backtrace_loop 16 0 m rbp.

(** ** Decoding *)

Lemma attr_testbit e n : 0 <= n < 7 → attr (Z.land e 0x7F) n = Z.testbit e n.
Proof.
  intros Hn. unfold attr. change 1 with (Z.ones 1).
  rewrite Z.land_ones by lia. change (2 ^ 1) with 2.
  rewrite <- Z.bit0_mod, Z.shiftr_spec, Z.add_0_l by lia.
  change 0x7F with (Z.ones 7). rewrite Z.land_spec, Z.ones_spec_low, andb_true_r by lia.
  by destruct (Z.testbit e n).
Qed.

(** Every message fits the column it is padded to. *)
Lemma messages_fit n m : messages !! n = Some m → Z.of_nat (String.length m) <= 29.
Proof.
  intros H. assert (Forall (λ m, Z.of_nat (String.length m) <= 29) messages) as Hall
    by (repeat constructor; by vm_compute).
  by eapply Forall_lookup_1 in Hall.
Qed.

Lemma messages_lookup n : 0 <= n → (∃ m, messages !! Z.to_nat n = Some m) ↔ n < 22.
Proof.
  intros Hn. change (∃ m, messages !! Z.to_nat n = Some m) with (is_Some (messages !! Z.to_nat n)).
  rewrite lookup_lt_is_Some. change (length messages) with 22%nat. lia.
Qed.

(** ** Hexadecimal *)

(** The value of a digit character and of a string of them. *)
Definition hex_value (c : Z) : Z := if c <? 65 then c - 48 else c - 65 + 10.
Definition parse_hex (s : list Z) : Z := foldl (λ acc c, 16 * acc + hex_value c) 0 s.
Definition is_hex (c : Z) : Prop := 48 <= c <= 57 ∨ 65 <= c <= 70.

Lemma hex_value_digit d : 0 <= d < 16 → hex_value (hex_digit d) = d ∧ is_hex (hex_digit d).
Proof.
  intros Hd. unfold hex_value, hex_digit, is_hex.
  destruct (d <? 10) eqn:?; b2p; case_cond; lia.
Qed.

Lemma hex_loop_app n v buf : hex_loop n v buf = hex_loop n v [] ++ buf.
Proof.
  revert v buf; induction n as [|n IH]; intros v buf; [done|]. simpl.
  rewrite IH, (IH _ [_]), <- app_assoc. done.
Qed.

Lemma hex_loop_spec n v : 0 <= v →
  length (hex_loop n v []) = n ∧ Forall is_hex (hex_loop n v []) ∧
  parse_hex (hex_loop n v []) = v `mod` 16 ^ Z.of_nat n.
Proof.
  revert v; induction n as [|n IH]; intros v Hv.
  { split_and!; [done|constructor|]. simpl. by rewrite Z.mod_1_r. }
  simpl hex_loop. rewrite hex_loop_app.
  rewrite Z.shiftr_div_pow2 by lia. change (2 ^ 4) with 16.
  change 0xF with (Z.ones 4). rewrite Z.land_ones by lia. change (2 ^ 4) with 16.
  destruct (IH (v `div` 16)) as (H1 & H2 & H3); [dlia|].
  destruct (hex_value_digit (v `mod` 16)) as [Hd Hh]; [dlia|].
  split_and!.
  - rewrite length_app, H1. simpl. lia.
  - apply Forall_app. split; [done|]. by constructor.
  - unfold parse_hex in *. rewrite foldl_app, H3. cbn [foldl]. rewrite Hd.
    rewrite Nat2Z.inj_succ, Z.pow_succ_r, (Z.rem_mul_r v 16) by lia. lia.
Qed.

(** ** Copying and walking *)

Lemma memcpy_chk_loop_spec n m dest src i a :
  (∀ x, 0 <= m x < 256) → 0 <= i → apart dest (i + Z.of_nat n) src (i + Z.of_nat n) →
  memcpy_chk_loop n m dest src i a =
  if (dest + i <=? a) && (a <? dest + i + Z.of_nat n) then m (src + (a - dest)) else m a.
Proof.
  unfold apart. revert m i; induction n as [|n IH]; intros m i Hm Hi Hap; simpl memcpy_chk_loop.
  { replace (_ && _) with false; [done|]. symmetry. apply andb_false_iff.
    destruct (decide (a < dest + i)); [left; apply Z.leb_gt|right; apply Z.ltb_ge]; lia. }
  assert (∀ x, store8 m (dest + i) (load8 m (src + i)) x = if x =? dest + i then m (src + i) else m x) as Hst.
  { intros x. destruct (x =? dest + i) eqn:E; b2p.
    - subst. unfold store8. rewrite store_in by lia. rewrite Z.sub_diag. unfold byte_of.
      rewrite Z.div_1_r, load8_eq. specialize (Hm (src + i)). by rewrite u8_id, Z.mod_small by lia.
    - apply store_out. lia. }
  rewrite IH; [|intros x; rewrite Hst; case_cond; apply Hm|lia|lia]. rewrite !Hst.
  destruct (decide (a = dest + i)) as [->|].
  - replace (_ && (dest + i <? dest + (i + 1) + _)) with false
      by (symmetry; apply andb_false_iff; left; apply Z.leb_gt; lia).
    rewrite Z.eqb_refl. replace (_ && _) with true
      by (symmetry; apply andb_true_iff; rewrite Z.leb_le, Z.ltb_lt; lia).
    f_equal. lia.
  - replace (a =? dest + i) with false by lia.
    replace ((dest + i <=? a) && (a <? dest + i + Z.of_nat (S n))) with
      ((dest + (i + 1) <=? a) && (a <? dest + (i + 1) + Z.of_nat n))
      by (apply eq_true_iff_eq; rewrite !andb_true_iff, !Z.leb_le, !Z.ltb_lt; lia).
    destruct (_ && _) eqn:E; b2p; [|done..].
    by replace (src + (a - dest) =? dest + i) with false by lia.
Qed.

(** A chain of saved frame pointers with its return addresses. *)
Inductive frame_chain (m : mem) : Z → list Z → Prop :=
| chain_end : frame_chain m 0 []
| chain_frame fp ra l :
    fp ≠ 0 → load64 m (fp ⊕ 8) = ra → ra ≠ 0 → frame_chain m (load64 m fp) l →
    frame_chain m fp (ra :: l).

Lemma backtrace_loop_spec n i m fp l :
  frame_chain m fp l → Forall (λ ra, KERNEL_BASE < ra) l →
  backtrace_loop n i m fp = imap (λ k ra, (i + Z.of_nat k, ra)) (take n l).
Proof.
  intros Hc. revert n i; induction Hc as [|fp ra l Hfp Hra Hnz Hc IH]; intros n i Hk.
  { destruct n; [done|]. by rewrite take_nil. }
  apply Forall_cons in Hk as [Hb Hk]. cbv beta in Hb. destruct n as [|n]; [done|]. simpl.
  replace (fp =? 0) with false by lia. rewrite Hra. replace (ra =? 0) with false by lia.
  rewrite Z.gtb_ltb. replace (KERNEL_BASE <? ra) with true by lia. f_equal; [f_equal; lia|].
  rewrite IH by done. apply imap_ext. intros k x _. unfold compose. f_equal. lia.
Qed.

(** ** Properties *)

(** C34: an exception with a message (vectors 0 to 21) is reported and the machine
    halts, with the padding after the message never negative; a page fault's
    report shows the faulting address and decodes each bit of the error code as
    the architecture defines it; the spurious vector 0xFF returns; and any other
    vector makes the handler itself dereference a null message. *)
Theorem isr_handler_outcome addr2line info :
  0 <= int_num info < 256 →
  match isr_handler addr2line info with
  | Returned => int_num info = 0xFF
  | NullDeref => 22 <= int_num info ∧ int_num info ≠ 0xFF
  | Halted rs =>
      int_num info < 22 ∧
      (∃ m pad, messages !! Z.to_nat (int_num info) = Some m ∧ 0 <= pad ∧
         pad + Z.of_nat (String.length m) = 54 ∧
         rs !! 0%nat = Some (Registers (Some m) pad (negb (error_code info =? 0)))) ∧
      (int_num info = 14 →
       let bit := Z.testbit (error_code info) in
       rs !! 1%nat = Some (PageFault (cr2 info)
         (if bit 0 then ProtectionViolation else NotPresent)
         (if bit 1 then WriteAccess else ReadAccess)
         (if bit 2 then UserMode else SupervisorMode)
         ((if bit 3 then [ReservedBit] else []) ++ (if bit 4 then [InstructionFetch] else []) ++
          (if bit 5 then [ProtectionKey] else []) ++ (if bit 6 then [ShadowStack] else []))))
  end.
Proof.
  intros Hn. unfold isr_handler. destruct (int_num info =? 0xFF) eqn:E; b2p; [done|].
  unfold dump_registers. cbn [int_num error_code return_address rip rbp].
  pose proof (messages_lookup (int_num info) ltac:(lia)) as Hm.
  destruct (messages !! Z.to_nat (int_num info)) as [m|] eqn:Em.
  - assert (int_num info < 22) as Hlt by (apply Hm; eauto). split; [done|].
    pose proof (messages_fit _ _ Em). replace (int_num info <? 22) with true by lia.
    split.
    + exists m, (54 - Z.of_nat (String.length m)). rewrite u64_id by lia.
      split_and!; [done|lia|lia|done].
    + intros E14. unfold has_error_code, handle_err_code. cbn [int_num]. rewrite E14. cbn -[Z.testbit handle_page_fault].
      unfold handle_page_fault. cbn [error_code cr2]. rewrite !attr_testbit by lia.
      done.
  - split; [|done]. destruct (decide (int_num info < 22)) as [Hlt|]; [|lia].
    apply Hm in Hlt as [m Hm']. done.
Qed.

(** [dump_address] prints sixteen hexadecimal digits that read back as the
    value, for every 64-bit value. *)
Theorem dump_address_roundtrip v :
  is_u64 v → length (dump_address v) = 16%nat ∧ Forall is_hex (dump_address v) ∧
    parse_hex (dump_address v) = v.
Proof.
  intros Hv. unfold is_u64 in Hv. destruct (hex_loop_spec 16 v) as (H1 & H2 & H3); [lia|].
  split_and!; [done|done|]. unfold dump_address. rewrite H3. apply Z.mod_small. lia.
Qed.

(** On a well-formed chain of kernel stack frames, [backtrace] stops and prints
    the return addresses of the innermost sixteen frames, numbered from zero, in
    call order. *)
Theorem backtrace_correct m fp l :
  frame_chain m fp l → Forall (λ ra, KERNEL_BASE < ra) l →
  backtrace m fp = imap (λ k ra, (Z.of_nat k, ra)) (take 16 l).
Proof. intros Hc Hk. unfold backtrace. by rewrite (backtrace_loop_spec 16 0 m fp l). Qed.

(** On ranges that do not overlap [__memcpy_chk] is [memcpy], whatever size
    the destination is declared to have. *)
Theorem memcpy_chk_memcpy m dest src len destlen a :
  (∀ x, 0 <= m x < 256) → 0 <= len → apart dest len src len →
  memcpy_chk m dest src len destlen a = memcpy m dest src len a.
Proof.
  intros Hm Hl Hap. unfold memcpy_chk, memcpy.
  rewrite memcpy_chk_loop_spec by (rewrite ?Z2Nat.id, ?Z.add_0_l by lia; done || lia).
  by rewrite Z2Nat.id, Z.add_0_r by lia.
Qed.

(** ** Witnesses *)

Lemma isr_handler_outcome_witness :
  ∃ pad, isr_handler (λ _, None) (mk_frame 0xffffffff80001234 0xdead0000 0 0 14 2) =
    Halted [Registers (Some "Page fault"%string) pad true;
            PageFault 0xdead0000 NotPresent WriteAccess SupervisorMode [];
            DumpAt 0xffffffff80001234 0 0xffffffff80001234] ∧ 0 <= pad.
Proof.
  pose proof (isr_handler_outcome (λ _, None) (mk_frame 0xffffffff80001234 0xdead0000 0 0 14 2)
    ltac:(simpl; lia)) as H.
  exists 44. split; [reflexivity|].
  change (isr_handler _ _) with (Halted [Registers (Some "Page fault"%string) 44 true;
    PageFault 0xdead0000 NotPresent WriteAccess SupervisorMode [];
    DumpAt 0xffffffff80001234 0 0xffffffff80001234]) in H.
  destruct H as (_ & (m & pad & _ & Hp & _ & E) & _). injection E as _ E. lia.
Defined.

Lemma dump_address_roundtrip_witness :
  parse_hex (dump_address 0xffffffff8012abcd) = 0xffffffff8012abcd.
Proof. apply (dump_address_roundtrip 0xffffffff8012abcd). unfold is_u64. lia. Defined.

(** Two frames, the outer one last. *)
Definition stack_mem : mem :=
  store64 (store64 (store64 (store64 (λ _, 0) 0x1000 0x2000) 0x1008 0xffffffff80000123)
    0x2000 0) 0x2008 0xffffffff80000456.

Lemma backtrace_correct_witness :
  backtrace stack_mem 0x1000 = [(0, 0xffffffff80000123); (1, 0xffffffff80000456)].
Proof.
  rewrite (backtrace_correct stack_mem 0x1000 [0xffffffff80000123; 0xffffffff80000456]).
  - reflexivity.
  - do 2 (apply chain_frame; [done|reflexivity|done|]).
    change (load64 stack_mem (load64 stack_mem 0x1000)) with 0. constructor.
  - repeat constructor.
Defined.

Lemma memcpy_chk_memcpy_witness :
  memcpy_chk (λ a, u8 a) 0x100 0x205 8 4 0x103 = 8 ∧ memcpy (λ a, u8 a) 0x100 0x205 8 0x103 = 8.
Proof.
  split; [|reflexivity].
  rewrite (memcpy_chk_memcpy (λ a, u8 a) 0x100 0x205 8 4 0x103); [reflexivity|apply u8_range|lia|].
  unfold apart. lia.
Defined.
