(* ===== verification/Text.v ===== *)
(** * Text: byte strings.

    The character data the kernel and its tools handle: a C string is the list of its
    bytes without the terminator. *)
From stdpp Require Import base numbers list strings.
From Stdlib Require Import Ascii.
From S2P Require Import Prelude.
Local Open Scope Z_scope.

Definition chr (a : ascii) : Z := Z.of_N (N_of_ascii a).

(** A literal of the source. *)
Fixpoint str (s : string) : list Z :=
  match s with
  | EmptyString => []
  | String a s => chr a :: str s
  end.

(** The bytes before the first null: what the C library takes a buffer for. *)
Fixpoint c_str (l : list Z) : list Z :=
  match l with
  | [] => []
  | c :: l => if c =? 0 then [] else c :: c_str l
  end.

Lemma c_str_id l : Forall (λ b, b ≠ 0) l → c_str l = l.
Proof. induction 1 as [|b l Hb Hl IH]; [done|]. simpl. case_cond; [done|]. by rewrite IH. Qed.

Lemma c_str_snoc l : Forall (λ b, b ≠ 0) l → c_str (l ++ [0]) = l.
Proof. induction 1 as [|b l Hb Hl IH]; [done|]. simpl. case_cond; [done|]. by rewrite IH. Qed.

(** ** Hexadecimal *)

(** The digit [printf] writes for a value below 16, and its value. *)
Definition hex_char (v : Z) : Z := if v <? 10 then 48 + v else 87 + v.

Definition hex_value (c : Z) : option Z :=
  if (48 <=? c) && (c <=? 57) then Some (c - 48)
  else if (97 <=? c) && (c <=? 102) then Some (c - 87)
  else None.

Lemma hex_value_char v : 0 <= v < 16 → hex_value (hex_char v) = Some v.
Proof.
  intros Hv. unfold hex_value, hex_char. destruct (v <? 10) eqn:E; b2p.
  - replace (_ && _) with true by (symmetry; apply andb_true_iff; rewrite !Z.leb_le; lia).
    f_equal. lia.
  - replace ((48 <=? 87 + v) && (87 + v <=? 57)) with false
      by (symmetry; apply andb_false_iff; rewrite !Z.leb_gt; lia).
    replace (_ && _) with true by (symmetry; apply andb_true_iff; rewrite !Z.leb_le; lia).
    f_equal. lia.
Qed.

(** [%02x] of a byte. *)
Definition hex2 (v : Z) : list Z := [hex_char (v `div` 16); hex_char (v `mod` 16)].
