(* ===== verification/Demangle.v ===== *)
(** * Demangle: readable names for the symbols of a crash report.

    [src/kernel/err/mangle.cc].  A C string is the list of its bytes without the
    terminator; reading index [i] of it reads the terminator at its end and is a
    fault further on.  The output buffer, the name buffer and the scratch buffers
    keep their sizes, and a write past one of them is a fault; so is reading a
    byte of [old_params] that was never written.  [unmangle_name] checks nothing while
    it fills its buffer, so there the size is compared once, at its end, and the loop
    over a nested name may go on for ever: it takes [rounds].  The names the compiler
    builds are in [Mangle].  [atoi] is the C library's. *)
From stdpp Require Import base numbers list strings.
From S2P Require Import Prelude Text.
Local Open Scope Z_scope.

(** ** Faults *)

Inductive fault := ReadPast | Overflow | Uninitialised | BadNumber | OutOfFuel.

Inductive result (A : Type) := Ok (a : A) | Fault (f : fault).
Arguments Ok {A} a.
Arguments Fault {A} f.

#[global] Instance result_ret : MRet result := λ A a, Ok a.
#[global] Instance result_bind : MBind result := λ A B f r,
  match r with Ok a => f a | Fault e => Fault e end.

(** ** Bytes *)

(** [name[i]]. *)
Definition at_ (name : list Z) (i : nat) : result Z :=
  match (name ++ [0]) !! i with Some c => Ok c | None => Fault ReadPast end.

(** The source of a [memcpy] of [n] bytes from [name + i]. *)
Definition slice (name : list Z) (i : nat) (n : Z) : result (list Z) :=
  if Z.of_nat i + n <=? Z.of_nat (length name) + 1
  then Ok (take (Z.to_nat n) (drop i (name ++ [0]))) else Fault ReadPast.

(** Append to a buffer of capacity [cap]. *)
Definition push (cap : Z) (buf bytes : list Z) : result (list Z) :=
  if Z.of_nat (length buf) + Z.of_nat (length bytes) <=? cap
  then Ok (buf ++ bytes) else Fault Overflow.

Definition is_digit (c : Z) : bool := (48 <=? c) && (c <=? 57).

Definition is_space (c : Z) : bool := (c =? 32) || ((9 <=? c) && (c <=? 13)).

(** [atoi]: white space, a sign, digits up to the first other byte; a value that
    does not fit an [int] is undefined. *)
Fixpoint atoi_digits (l : list Z) (acc : Z) : Z :=
  match l with
  | c :: l => if is_digit c then atoi_digits l (10 * acc + (c - 48)) else acc
  | [] => acc
  end.

Fixpoint atoi_skip (l : list Z) : list Z :=
  match l with
  | c :: l' => if is_space c then atoi_skip l' else l
  | [] => []
  end.

Definition atoi (l : list Z) : result Z :=
  let v := match atoi_skip l with
           | 43 :: l => atoi_digits l 0
           | 45 :: l => - atoi_digits l 0
           | l => atoi_digits l 0
           end in
  if (-2147483648 <=? v) && (v <=? 2147483647) then Ok v else Fault BadNumber.

(** ** The demangler *)

Definition is_mangled (name : list Z) : result bool :=
  c0 ← at_ name 0;
  if c0 =? 95 then c1 ← at_ name 1; Ok (c1 =? 90) else Ok false.

Definition copy_unmangled_name (name : list Z) : result (list Z) := push 128 [] name.

(** [while (name[*i] >= '0' && name[*i] <= '9')]: the digits and the new index. *)
Fixpoint digits_loop (fuel : nat) (name : list Z) (i : nat) (length_str : list Z) :
    result (list Z * nat) :=
  match fuel with
  | O => Fault OutOfFuel
  | S fuel =>
      c ← at_ name i;
      if is_digit c then
        length_str ← push 16 length_str [c];
        digits_loop fuel name (S i) length_str
      else Ok (length_str, i)
  end.

(** The length is an [u32]. *)
Definition parse_function_length (name : list Z) (i : nat) : result (Z * nat) :=
  '(length_str, i) ← digits_loop (S (length name)) name i [];
  _ ← push 16 length_str [0];
  n ← atoi length_str;
  Ok (u32 n, i).

(** A length and the bytes it counts, appended to the buffer, however long it is. *)
Definition component (name : list Z) (i : nat) (buf : list Z) : result (list Z * nat) :=
  '(len, i) ← parse_function_length name i;
  bytes ← slice name i len;
  Ok (buf ++ bytes, (i + Z.to_nat len)%nat).

Definition colons : list Z := [58; 58].

(** [while (name[*i] != 'E')]. *)
Fixpoint nested_loop (fuel : nat) (name : list Z) (i : nat) (buf : list Z) :
    result (list Z * nat) :=
  match fuel with
  | O => Fault OutOfFuel
  | S fuel =>
      c ← at_ name i;
      if c =? 69 then Ok (buf, i)
      else
        '(buf, i) ← component name i buf;
        c ← at_ name i;
        nested_loop fuel name i (if c =? 69 then buf else buf ++ colons)
  end.

Section Rounds.
Context (rounds : nat).

(** The buffer [unmangle_name] fills, its terminator checked against the size of
    both buffers it is called with, and the index it leaves. *)
Definition unmangle_name (name : list Z) (i : nat) : result (list Z * nat) :=
  c ← at_ name i;
  let ns := c =? 78 in
  let i := if ns then S i else i in
  '(buf, i) ← component name i [];
  '(buf, i) ← (if ns then
                 '(buf, i) ← nested_loop rounds name i (buf ++ colons);
                 Ok (buf, S i)
               else Ok (buf, i));
  _ ← push 128 buf [0];
  Ok (buf, i).

Definition is_end_of_parameters (c : Z) : bool := (c =? 69) || (c =? 0) || (c =? 32).

(** The state of the parameter list: the output, the text of the current
    parameter, and [old_params] as the flat array it is, with its row index. *)
Record pstate := mk_pstate {
  buffer : list Z;
  latest_type : list Z;
  old_params : list (option Z);
  old_params_i : nat;
}.

Definition set_text (buf latest : list Z) (s : pstate) : pstate :=
  mk_pstate buf latest (old_params s) (old_params_i s).

Definition append_to_buffer (bytes : list Z) (s : pstate) : result pstate :=
  buf ← push 128 (buffer s) bytes;
  latest ← push 64 (latest_type s) bytes;
  Ok (set_text buf latest s).

(** [while (name[*i] != '_')] of a substitution. *)
Fixpoint seq_id_loop (fuel : nat) (name : list Z) (i : nat) (type_i : list Z) :
    result (list Z * nat) :=
  match fuel with
  | O => Fault OutOfFuel
  | S fuel =>
      c ← at_ name i;
      if c =? 95 then Ok (type_i, i)
      else
        type_i ← push 16 type_i [c];
        seq_id_loop fuel name (S i) type_i
  end.

(** [while ( *old_param && *old_param != ' ')] from offset [k] of the array. *)
Fixpoint copy_old (fuel : nat) (k : Z) (s : pstate) : result pstate :=
  match fuel with
  | O => Fault OutOfFuel
  | S fuel =>
      if (k <? 0) || (1024 <=? k) then Fault ReadPast
      else
        match old_params s !! Z.to_nat k with
        | Some (Some c) =>
            if (c =? 0) || (c =? 32) then Ok s
            else
              s ← append_to_buffer [c] s;
              copy_old fuel (k + 1) s
        | _ => Fault Uninitialised
        end
  end.

Definition handle_repeated_type (name : list Z) (i : nat) (s : pstate) : result (pstate * nat) :=
  '(type_i, i) ← seq_id_loop (S (S (length name))) name (S i) [];
  _ ← push 16 type_i [0];
  repeat ← (if (0 <? length type_i)%nat then atoi (c_str type_i) else Ok 0);
  s ← copy_old 1025 (u32 repeat * 16) s;
  Ok (s, i).

Definition handle_objstruct (name : list Z) (i : nat) (s : pstate) : result (pstate * nat) :=
  '(name_str, i) ← unmangle_name name i;
  s ← append_to_buffer (c_str name_str) s;
  Ok (s, i).

(** The cases of the [switch] that append a fixed text. *)
Definition type_text (c : Z) : option (list Z) :=
  if c =? 80 then Some (str "*") else if c =? 118 then Some (str "void")
  else if c =? 109 then Some (str "u64") else if c =? 106 then Some (str "u32")
  else if c =? 116 then Some (str "u16") else if c =? 104 then Some (str "u8")
  else if c =? 121 then Some (str "u64") else if c =? 120 then Some (str "long long")
  else if c =? 105 then Some (str "int") else if c =? 108 then Some (str "long")
  else if c =? 99 then Some (str "char") else if c =? 98 then Some (str "bool")
  else if c =? 102 then Some (str "float") else if c =? 100 then Some (str "double")
  else if c =? 115 then Some (str "short") else if c =? 75 then Some (str "const ")
  else if c =? 122 then Some (str "...") else None.

Definition demangle_single_parameter (name : list Z) (i : nat) (s : pstate) :
    result (pstate * nat) :=
  c ← at_ name i;
  match type_text c with
  | Some t => s ← append_to_buffer t s; Ok (s, i)
  | None =>
      if c =? 83 then handle_repeated_type name i s
      else if is_digit c || (c =? 78) then handle_objstruct name i s
      else s ← append_to_buffer (drop i name) s; Ok (s, i)
  end.

Definition add_separator (name : list Z) (i : nat) (s : pstate) : result pstate :=
  c ← at_ name i;
  if is_end_of_parameters c then Ok s
  else
    buf ← push 128 (buffer s) (str ", ");
    Ok (set_text buf (latest_type s) s).

(** [old_params[k][n] = 0; memcpy(old_params[k++], latest_type, n)], offsets in
    the flat array. *)
Definition save_param (s : pstate) : result pstate :=
  let k := (16 * old_params_i s)%nat in
  let n := length (latest_type s) in
  if (k + n <? 1024)%nat then
    let arr := <[(k + n)%nat := Some 0]> (old_params s) in
    let arr := take k arr ++ (Some <$> latest_type s) ++ drop (k + n) arr in
    Ok (mk_pstate (buffer s) [] arr (S (old_params_i s)))
  else Fault Overflow.

Fixpoint demangle_parameters (fuel : nat) (name : list Z) (i : nat) (s : pstate) :
    result (pstate * nat) :=
  match fuel with
  | O => Fault OutOfFuel
  | S fuel =>
      c ← at_ name i;
      if is_end_of_parameters c then Ok (s, i)
      else
        '(s, i) ← demangle_single_parameter name i s;
        c ← at_ name i;
        if (c =? 80) || (c =? 75) then demangle_parameters fuel name (S i) s
        else
          s ← save_param s;
          s ← add_separator name (S i) s;
          demangle_parameters fuel name (S i) s
  end.

(** The bytes written to the 128-byte block.  No terminator is written after
    them: as a C string the block ends at the first null it held before. *)
Definition demangle_alloc_symbol (name : list Z) : result (list Z) :=
  mangled ← is_mangled name;
  if negb mangled then copy_unmangled_name name
  else
    c ← at_ name 2;
    '(buf, i) ← (if c =? 78 then
                   '(buf, i) ← unmangle_name name 2;
                   buf ← push 128 (c_str buf) (str "(");
                   Ok (buf, i)
                 else
                   '(buf, i) ← component name 2 [];
                   buf ← push 128 buf (str "(");
                   Ok (buf, i));
    let s := mk_pstate buf [] (replicate 1024 None) 0 in
    '(s, i) ← demangle_parameters (S (S (length name))) name i s;
    buf ← push 128 (buffer s) (str ")");
    push 128 buf (drop i name).
End Rounds.

Example demangle_nested :
  demangle_alloc_symbol 30 (str "_ZN3Mem5Frame6allocsEj") = Ok (str "Mem::Frame::allocs(u32)").
Proof. by vm_compute. Qed.
Example demangle_pointers :
  demangle_alloc_symbol 30 (str "_Z6strcpyPcPKc") = Ok (str "strcpy(*char, *const char)").
Proof. by vm_compute. Qed.
Example demangle_class_parameter :
  demangle_alloc_symbol 30 (str "_Z3foo3Bar") = Fault ReadPast.
Proof. by vm_compute. Qed.
Example demangle_const_member :
  demangle_alloc_symbol 1000 (str "_ZNK3Foo3barEv") = Fault OutOfFuel.
Proof. by vm_compute. Qed.

(** ** The rounds of a nested name

    The loop over a nested name goes on where a length is read; it is stuck where there
    is none. *)

(** The digits a string starts with. *)
Fixpoint digit_run (l : list Z) : nat :=
  match l with c :: l => if is_digit c then S (digit_run l) else O | [] => O end.

(** A nested name that has come to [l] ends: at its end mark, or with a fault where a
    length does not fit its scratch buffer, an [int] or the string; otherwise the
    length's characters are skipped. *)
Fixpoint walks (n : nat) (l : list Z) : bool :=
  match n with
  | O => false
  | S n =>
      match l with
      | [] => false
      | c :: _ =>
          if c =? 69 then true
          else
            let k := digit_run l in
            let v := atoi_digits (take k l) 0 in
            if (k =? 0)%nat then false
            else if (15 <? k)%nat || (2147483647 <? v) || (Z.of_nat (length l) <? Z.of_nat k + v) then true
            else walks n (drop (k + Z.to_nat v) l)
      end
  end.

Definition ends (l : list Z) : bool := walks (S (length l)) l.

Lemma digit_run_le l : (digit_run l <= length l)%nat.
Proof. induction l as [|c l IH]; simpl; [lia|]. case_match; lia. Qed.

Lemma walks_enough n m l : (length l < n)%nat → (length l < m)%nat → walks n l = walks m l.
Proof.
  revert m l; induction n as [|n IH]; intros [|m] l Hn Hm; [lia..|]. destruct l as [|c l]; [done|].
  cbn [walks]. case_cond; [done|]. destruct (digit_run (c :: l)) as [|k]; [done|]. change (S k =? 0)%nat with false.
  cbv iota. destruct (_ || _); [done|]. apply IH; rewrite length_drop; cbn [length] in *; lia.
Qed.

(** One round: a length and its characters. *)
Lemma ends_step c l :
  ends (c :: l) =
  if c =? 69 then true
  else
    let k := digit_run (c :: l) in
    let v := atoi_digits (take k (c :: l)) 0 in
    if (k =? 0)%nat then false
    else if (15 <? k)%nat || (2147483647 <? v) || (Z.of_nat (length (c :: l)) <? Z.of_nat k + v) then true
    else ends (drop (k + Z.to_nat v) (c :: l)).
Proof.
  unfold ends at 1. cbn [walks]. cbv zeta. case_cond; [done|].
  destruct (digit_run (c :: l)) as [|k]; [done|]. change (S k =? 0)%nat with false.
  cbv iota. destruct (_ || _); [done|]. apply walks_enough; rewrite length_drop; cbn [length] in *; lia.
Qed.

Lemma at_drop name i : (i <= length name)%nat → at_ name i = Ok (hd 0 (drop i name)).
Proof.
  intros Hi. unfold at_. destruct (decide (i = length name)) as [->|].
  - by rewrite lookup_app_r, Nat.sub_diag, drop_all.
  - destruct (lookup_lt_is_Some_2 name i) as [c E]; [lia|].
    rewrite lookup_app_l, E by lia. by rewrite (drop_S name c i E).
Qed.

(** *** Numbers *)

Lemma atoi_digits_nonneg l a : 0 <= a → 0 <= atoi_digits l a.
Proof.
  revert a; induction l as [|c l IH]; intros a Ha; simpl; [done|]. destruct (is_digit c) eqn:E; [|done].
  unfold is_digit in E. b2p. apply IH. lia.
Qed.

Lemma atoi_of_digits c l : is_digit c = true → atoi_digits (c :: l) 0 <= 2147483647 →
  0 <= atoi_digits (c :: l) 0 → atoi (c :: l) = Ok (atoi_digits (c :: l) 0).
Proof.
  intros Hc Hhi Hlo. unfold is_digit in Hc. b2p.
  assert (c = 48 ∨ c = 49 ∨ c = 50 ∨ c = 51 ∨ c = 52 ∨ c = 53 ∨ c = 54 ∨ c = 55 ∨ c = 56 ∨ c = 57)
    as H10 by lia.
  unfold atoi. assert (atoi_skip (c :: l) = c :: l) as ->
    by (repeat destruct H10 as [->|H10]; by subst).
  assert ((match c :: l with 43 :: l => atoi_digits l 0 | 45 :: l => - atoi_digits l 0
           | l => atoi_digits l 0 end) = atoi_digits (c :: l) 0) as ->
    by (repeat destruct H10 as [->|H10]; by subst).
  by replace (_ && _) with true by (symmetry; apply andb_true_iff; rewrite !Z.leb_le; lia).
Qed.

Lemma digit_run_digits l : Forall (λ c, is_digit c = true) (take (digit_run l) l).
Proof. induction l as [|c l IH]; simpl; [done|]. destruct (is_digit c) eqn:E; [by constructor|done]. Qed.

(** [atoi] of a run of digits. *)
Lemma atoi_run l : Forall (λ c, is_digit c = true) l →
  atoi l = if 2147483647 <? atoi_digits l 0 then Fault BadNumber else Ok (atoi_digits l 0).
Proof.
  intros Hl. pose proof (atoi_digits_nonneg l 0 ltac:(lia)). destruct Hl as [|c l Hc Hl]; [done|].
  case_cond; [|apply atoi_of_digits; done || lia]. pose proof Hc as Hd. unfold is_digit in Hd. b2p.
  assert (c = 48 ∨ c = 49 ∨ c = 50 ∨ c = 51 ∨ c = 52 ∨ c = 53 ∨ c = 54 ∨ c = 55 ∨ c = 56 ∨ c = 57)
    as H10 by lia.
  unfold atoi. assert (atoi_skip (c :: l) = c :: l) as -> by (repeat destruct H10 as [->|H10]; by subst).
  assert ((match c :: l with 43 :: l => atoi_digits l 0 | 45 :: l => - atoi_digits l 0
           | l => atoi_digits l 0 end) = atoi_digits (c :: l) 0) as ->
    by (repeat destruct H10 as [->|H10]; by subst).
  by replace (_ <=? 2147483647) with false by (symmetry; apply Z.leb_gt; lia); rewrite andb_false_r.
Qed.

Lemma digits_loop_run fuel name i acc :
  (i <= length name)%nat → (digit_run (drop i name) < fuel)%nat → (length acc <= 16)%nat →
  let k := digit_run (drop i name) in
  digits_loop fuel name i acc =
  if (length acc + k <=? 16)%nat then Ok (acc ++ take k (drop i name), (i + k)%nat) else Fault Overflow.
Proof.
  cbv zeta. revert i acc; induction fuel as [|fuel IH]; intros i acc Hi Hf Ha; [lia|]. simpl.
  rewrite at_drop by done. simpl. destruct (drop i name) as [|c l] eqn:E; simpl in *.
  - rewrite (proj2 (Nat.leb_le _ _)) by lia. by rewrite app_nil_r, Nat.add_0_r.
  - destruct (is_digit c) eqn:Ec; simpl; cycle 1.
    { rewrite (proj2 (Nat.leb_le _ _)) by lia. by rewrite app_nil_r, Nat.add_0_r. }
    assert (drop (S i) name = l) as El by (by rewrite <- Nat.add_1_r, <- drop_drop, E).
    assert (S i <= length name)%nat as Hi' by (pose proof (length_drop name i) as Hd; rewrite E in Hd; simpl in Hd; lia).
    unfold push. simpl. destruct (decide (length acc = 16%nat)) as [H16|].
    { rewrite H16. by rewrite (proj2 (Nat.leb_gt _ _)) by lia. }
    rewrite (proj2 (Z.leb_le _ _)) by lia. simpl. rewrite IH by (rewrite ?El, ?length_app; simpl; lia).
    rewrite El, length_app. simpl. replace (length acc + 1 + digit_run l)%nat with (length acc + S (digit_run l))%nat by lia.
    case_match; [|done]. rewrite <- app_assoc. do 2 f_equal. lia.
Qed.

(** What [component] does, as a function of the string from its index. *)
Lemma component_eq name i buf :
  (i <= length name)%nat →
  let l := drop i name in
  let k := digit_run l in
  let v := atoi_digits (take k l) 0 in
  component name i buf =
  if (15 <? k)%nat then Fault Overflow
  else if 2147483647 <? v then Fault BadNumber
  else if Z.of_nat (length l) + 1 <? Z.of_nat k + v then Fault ReadPast
  else Ok (buf ++ take (Z.to_nat v) (drop (i + k) (name ++ [0])), (i + k + Z.to_nat v)%nat).
Proof.
  intros Hi. cbv zeta. unfold component, parse_function_length.
  pose proof (digit_run_le (drop i name)) as Hk. pose proof (length_drop name i) as Hd.
  rewrite digits_loop_run by (simpl; lia). simpl length. rewrite Nat.add_0_l.
  set (k := digit_run _) in *. set (v := atoi_digits _ 0).
  pose proof (atoi_digits_nonneg (take k (drop i name)) 0 ltac:(lia)) as Hv. fold v in Hv.
  destruct (Nat.leb_spec k 16); cycle 1.
  { by rewrite (proj2 (Nat.ltb_lt _ _)) by lia. }
  simpl. unfold push. rewrite length_take. simpl length.
  destruct (Nat.ltb_spec 15 k).
  { rewrite (proj2 (Z.leb_gt _ _)) by lia. done. }
  rewrite (proj2 (Z.leb_le _ _)) by lia. simpl. rewrite atoi_run by apply digit_run_digits. fold v.
  destruct (2147483647 <? v) eqn:Ev; [done|]. b2p. simpl. rewrite u32_id by lia. unfold slice.
  destruct (_ <? _) eqn:El; b2p.
  - by rewrite (proj2 (Z.leb_gt _ _)) by lia.
  - by rewrite (proj2 (Z.leb_le _ _)) by lia.
Qed.

(** ** Termination *)

Definition no_loop {A} (r : result A) : Prop := r ≠ Fault OutOfFuel.

Lemma no_loop_bind {A B} (r : result A) (f : A → result B) :
  no_loop r → (∀ a, r = Ok a → no_loop (f a)) → no_loop (r ≫= f).
Proof. destruct r as [a|e]; [intros _ H; by apply H|]. intros He _ [= ->]. by apply He. Qed.

Lemma no_loop_ok {A} (a : A) : no_loop (Ok a).
Proof. done. Qed.

Lemma no_loop_at name i : no_loop (at_ name i).
Proof. unfold at_. by destruct (_ !! i). Qed.

Lemma no_loop_slice name i n : no_loop (slice name i n).
Proof. unfold slice. by case_cond. Qed.

Lemma no_loop_push cap buf bytes : no_loop (push cap buf bytes).
Proof. unfold push. by case_cond. Qed.

Lemma no_loop_atoi l : no_loop (atoi l).
Proof. unfold atoi. by case_match. Qed.

Create HintDb no_loop.
#[local] Hint Resolve no_loop_ok no_loop_at no_loop_slice no_loop_push no_loop_atoi : no_loop.

(** Step through the binds of an operation, keeping the results' equations. *)
Ltac steps :=
  repeat first
    [ apply no_loop_bind; [solve [eauto with no_loop]|intros ? ?]
    | progress simpl
    | case_match
    | solve [eauto with no_loop] ].

Lemma at_some name i c : at_ name i = Ok c → (i <= length name)%nat ∧ (c ≠ 0 → (i < length name)%nat).
Proof.
  unfold at_. destruct (_ !! i) as [c'|] eqn:E; [|done]. intros [= ->].
  pose proof (lookup_lt_Some _ _ _ E) as Hlt. rewrite length_app in Hlt. simpl in Hlt.
  split; [lia|]. intros Hc. destruct (decide (i = length name)) as [->|]; [|lia].
  rewrite lookup_app_r, Nat.sub_diag in E by lia. simpl in E. congruence.
Qed.

Lemma push_some cap buf bytes buf' : push cap buf bytes = Ok buf' →
  buf' = buf ++ bytes ∧ Z.of_nat (length buf') <= cap.
Proof. unfold push. case_cond; [|done]. intros [= <-]. rewrite length_app. split; [done|lia]. Qed.

Lemma digits_loop_total name i l :
  (i <= length name)%nat → (length l <= 16)%nat → no_loop (digits_loop (S (length name)) name i l).
Proof.
  intros Hi Hl. pose proof (digit_run_le (drop i name)). rewrite length_drop in *.
  rewrite digits_loop_run by lia. case_match; done.
Qed.

Lemma component_total name i buf : (i <= length name)%nat → no_loop (component name i buf).
Proof. intros Hi. rewrite component_eq by done. repeat case_match; done. Qed.

(** After a component the index is in the string, on its terminator, or one past it. *)
Lemma component_index name i buf b j :
  (i <= length name)%nat → component name i buf = Ok (b, j) → (i <= j <= S (length name))%nat.
Proof.
  intros Hi. rewrite component_eq by done. pose proof (digit_run_le (drop i name)).
  pose proof (atoi_digits_nonneg (take (digit_run (drop i name)) (drop i name)) 0 ltac:(lia)).
  rewrite length_drop in *. do 3 (case_match; [done|]). intros [= _ <-]. b2p. lia.
Qed.

Lemma at_past name : at_ name (S (length name)) = Fault ReadPast.
Proof. unfold at_. by rewrite lookup_ge_None_2 by (rewrite length_app; simpl; lia). Qed.

(** A nested name that ends does so within one round per character. *)
Lemma nested_loop_ends fuel name i buf :
  (i <= length name)%nat → (length (drop i name) < fuel)%nat → ends (drop i name) = true →
  no_loop (nested_loop fuel name i buf).
Proof.
  revert i buf; induction fuel as [|fuel IH]; intros i buf Hi Hf He; [lia|]. simpl.
  rewrite at_drop by done. cbn [mbind result_bind]. destruct (drop i name) as [|c l] eqn:E; [done|].
  rewrite ends_step in He. cbn [hd]. case_cond; [done|]. cbv zeta in He. 
  rewrite component_eq, E by done. cbv zeta.
  set (k := digit_run (c :: l)) in *. set (v := atoi_digits _ 0) in *.
  pose proof (length_drop name i) as Hd. rewrite E in Hd.
  pose proof (atoi_digits_nonneg (take k (c :: l)) 0 ltac:(lia)) as Hv. fold v in Hv.
  destruct k as [|k]; [done|]. change (S k =? 0)%nat with false in He. cbv iota in He.
  destruct (15 <? S k)%nat; [done|]. destruct (2147483647 <? v); [done|]. cbn [orb] in He.
  destruct (_ + 1 <? _) eqn:E1; [done|]. b2p. cbn [mbind result_bind].
  destruct (_ <? _) eqn:E2 in He; b2p.
  - replace (i + S k + Z.to_nat v)%nat with (S (length name)) by lia. by rewrite at_past.
  - apply no_loop_bind; [apply no_loop_at|]. intros c' _. apply IH; [lia|rewrite length_drop; cbn [length] in *; lia|].
    by rewrite <- Nat.add_assoc, <- drop_drop, E.
Qed.

(** One that is stuck never does: whatever the number of rounds, it wants another. *)
Lemma nested_loop_stuck fuel name i buf :
  (i <= length name)%nat → ends (drop i name) = false → nested_loop fuel name i buf = Fault OutOfFuel.
Proof.
  revert i buf; induction fuel as [|fuel IH]; intros i buf Hi He; [done|]. simpl.
  rewrite at_drop by done. cbn [mbind result_bind]. destruct (drop i name) as [|c l] eqn:E.
  - cbn [hd]. change (0 =? 69) with false. cbv iota. rewrite component_eq, E by done. simpl.
    rewrite !Nat.add_0_r, at_drop by done. simpl. apply IH; [done|]. by rewrite E.
  - rewrite ends_step in He. cbn [hd]. destruct (c =? 69) eqn:E69; [done|]. cbv zeta in He.
    rewrite component_eq, E by done. cbv zeta.
    set (k := digit_run (c :: l)) in *. set (v := atoi_digits _ 0) in *.
    pose proof (length_drop name i) as Hd. rewrite E in Hd.
    pose proof (atoi_digits_nonneg (take k (c :: l)) 0 ltac:(lia)) as Hv. fold v in Hv.
    destruct (k =? 0)%nat eqn:Ek.
    + apply Nat.eqb_eq in Ek. assert (v = 0) as -> by (subst v; by rewrite Ek).
      rewrite Ek. change (15 <? 0)%nat with false. change (2147483647 <? 0) with false. cbv iota.
      rewrite (proj2 (Z.ltb_ge _ _)) by lia. cbn [mbind result_bind].
      rewrite !Nat.add_0_r, at_drop by done. cbn [mbind result_bind]. apply IH; [done|].
      rewrite E, ends_step, E69. cbv zeta. fold k. by rewrite Ek.
    + destruct (15 <? k)%nat; [done|]. destruct (2147483647 <? v); [done|]. cbn [orb] in He.
      destruct (_ <? _) eqn:E1 in He; [done|]. b2p. rewrite (proj2 (Z.ltb_ge _ _)) by lia.
      cbn [mbind result_bind]. rewrite at_drop by lia. cbn [mbind result_bind].
      apply IH; [lia|]. by rewrite <- Nat.add_assoc, <- drop_drop, E.
Qed.

(** Every nested name of the string ends. *)
Definition all_end (name : list Z) : Prop :=
  ∀ i, name !! i = Some 78 → ends (drop (S i) name) = true.

Lemma at_lookup name i c : at_ name i = Ok c → c ≠ 0 → name !! i = Some c.
Proof.
  intros H Hc. destruct (at_some _ _ _ H) as [_ Hi]. specialize (Hi Hc). rewrite at_drop in H by lia.
  destruct (lookup_lt_is_Some_2 name i Hi) as [c' E]. rewrite (drop_S name c' i E) in H. simpl in H. congruence.
Qed.

Section Total.
Context (rounds : nat) (name : list Z) (Hrounds : (length name < rounds)%nat) (Hall : all_end name).

Lemma unmangle_name_total i : (i <= length name)%nat → no_loop (unmangle_name rounds name i).
Proof.
  intros Hi. unfold unmangle_name. apply no_loop_bind; [auto with no_loop|]. intros c Hc.
  destruct (c =? 78) eqn:E78; b2p.
  - subst. pose proof (at_lookup _ _ _ Hc ltac:(done)) as Hl. pose proof (lookup_lt_Some _ _ _ Hl).
    specialize (Hall _ Hl). pose proof (length_drop name (S i)) as Hd.
    apply no_loop_bind; [apply component_total; lia|]. intros [b j] Hb.
    assert ((j <= length name)%nat → ends (drop j name) = true) as He.
    { rewrite component_eq in Hb by lia. destruct (drop (S i) name) as [|c l] eqn:E; [done|].
      rewrite ends_step in Hall. cbv zeta in *. set (k := digit_run (c :: l)) in *. set (v := atoi_digits _ 0) in *.
      pose proof (atoi_digits_nonneg (take k (c :: l)) 0 ltac:(lia)) as Hv. fold v in Hv.
      destruct (15 <? k)%nat; [done|]. destruct (2147483647 <? v); [done|].
      destruct (_ + 1 <? _) eqn:E1; [done|]. injection Hb as _ <-. b2p. intros Hj.
      replace (S (i + k + Z.to_nat v)) with (S i + (k + Z.to_nat v))%nat by lia. rewrite <- drop_drop, E.
      destruct (c =? 69) eqn:E69; b2p.
      + subst c. assert (k = 0%nat) as Ek by done. assert (v = 0) as -> by (subst v; by rewrite Ek).
        by rewrite Ek.
      + destruct k as [|k]; [done|]. change (S k =? 0)%nat with false in Hall. cbv iota in Hall.
        cbn [orb] in Hall. destruct (_ <? _) eqn:E2 in Hall; [|done]. b2p. cbn [length] in *. lia. }
    pose proof (component_index name (S i) _ _ _ ltac:(lia) Hb) as Hj.
    apply no_loop_bind; [|intros [b' j'] _; steps].
    apply no_loop_bind; [|by intros [? ?]].
    destruct (decide (j = S (length name))) as [->|].
    + destruct rounds; [lia|]. simpl. by rewrite at_past.
    + apply nested_loop_ends; [lia|rewrite length_drop; lia|apply He; lia].
  - apply no_loop_bind; [by apply component_total|]. intros [b j] _. simpl. steps.
Qed.

Lemma append_total bytes s : no_loop (append_to_buffer bytes s).
Proof. unfold append_to_buffer. steps. Qed.


#[local] Hint Resolve append_total : no_loop.

Lemma seq_id_loop_total fuel i l :
  (1 <= fuel)%nat → (S (length name) < fuel + i)%nat → no_loop (seq_id_loop fuel name i l).
Proof.
  revert i l; induction fuel as [|fuel IH]; intros i l H1 Hf; [lia|]. simpl.
  apply no_loop_bind; [auto with no_loop|]. intros c Hc. case_cond; [done|].
  apply no_loop_bind; [auto with no_loop|]. intros l' _.
  destruct (at_some _ _ _ Hc) as [Hle _]. apply IH; lia.
Qed.


(** The row of an old parameter ends within its array. *)
Lemma copy_old_total fuel k s : (1 <= fuel)%nat → 1024 < Z.of_nat fuel + k → no_loop (copy_old fuel k s).
Proof.
  revert k s; induction fuel as [|fuel IH]; intros k s H1 Hf; [lia|]. simpl.
  destruct ((k <? 0) || (1024 <=? k)) eqn:E; [done|]. b2p.
  destruct (old_params s !! _) as [[c|]|]; [|done..].
  destruct ((c =? 0) || (c =? 32)); [done|].
  apply no_loop_bind; [auto with no_loop|]. intros s' _. apply IH; lia.
Qed.

Lemma handle_repeated_total i s : no_loop (handle_repeated_type name i s).
Proof.
  unfold handle_repeated_type.
  apply no_loop_bind; [apply seq_id_loop_total; lia|]. intros [l j] _.
  apply no_loop_bind; [auto with no_loop|]. intros _ _.
  apply no_loop_bind; [case_match; auto with no_loop|]. intros r _.
  apply no_loop_bind; [apply copy_old_total; [lia|pose proof (u32_range r); lia]|]. done.
Qed.

Lemma single_total i s : (i <= length name)%nat → no_loop (demangle_single_parameter rounds name i s).
Proof.
  intros Hi. unfold demangle_single_parameter. apply no_loop_bind; [auto with no_loop|]. intros c _.
  destruct (type_text c); [steps|]. destruct (c =? 83); [apply handle_repeated_total|].
  destruct (is_digit c || (c =? 78)); [unfold handle_objstruct|steps].
  apply no_loop_bind; [by apply unmangle_name_total|]. intros [? ?] _. steps.
Qed.

(** The index never moves back over the string. *)
Lemma component_le i buf b j : component name i buf = Ok (b, j) → (i <= j)%nat.
Proof.
  intros H. destruct (decide (i <= length name)%nat) as [Hi|]; [by destruct (component_index _ _ _ _ _ Hi H)|].
  unfold component, parse_function_length in H. simpl in H. unfold at_ in H.
  rewrite lookup_ge_None_2 in H by (rewrite length_app; simpl; lia). done.
Qed.

Lemma nested_loop_le fuel i buf b j : nested_loop fuel name i buf = Ok (b, j) → (i <= j)%nat.
Proof.
  revert i buf; induction fuel as [|fuel IH]; intros i buf; [done|]. simpl.
  destruct (at_ name i) as [c|]; [|done]. simpl. destruct (c =? 69); [by intros [= <- <-]|].
  destruct (component name i buf) as [[b' k]|] eqn:E; [|done]. apply component_le in E. simpl.
  destruct (at_ name k) as [c'|]; [|done]. simpl. intros H%IH. lia.
Qed.

Lemma unmangle_le i b j : unmangle_name rounds name i = Ok (b, j) → (i <= j)%nat.
Proof.
  unfold unmangle_name. destruct (at_ name i) as [c|]; [|done]. simpl. destruct (c =? 78).
  - destruct (component name (S i) []) as [[b' k]|] eqn:E; [|done]. apply component_le in E. simpl.
    destruct (nested_loop rounds name k _) as [[b3 k']|] eqn:E2; [|done]. apply nested_loop_le in E2.
    simpl. destruct (push 128 b3 [0]); [|done]. intros [= <- <-]. lia.
  - destruct (component name i []) as [[b' k]|] eqn:E; [|done]. apply component_le in E. simpl.
    destruct (push 128 b' [0]); [|done]. intros [= <- <-]. lia.
Qed.

Lemma seq_id_le fuel i l l' j : seq_id_loop fuel name i l = Ok (l', j) → (i <= j)%nat.
Proof.
  revert i l; induction fuel as [|fuel IH]; intros i l; [done|]. simpl.
  destruct (at_ name i) as [c|]; [|done]. simpl. destruct (c =? 95); [by intros [= <- <-]|].
  destruct (push 16 l [c]); [|done]. simpl. intros H%IH. lia.
Qed.

Lemma single_le i s s' j : demangle_single_parameter rounds name i s = Ok (s', j) → (i <= j)%nat.
Proof.
  unfold demangle_single_parameter. destruct (at_ name i) as [c|]; [|done]. simpl.
  destruct (type_text c) as [t|].
  { destruct (append_to_buffer t s); [|done]. by intros [= <- <-]. }
  destruct (c =? 83).
  { unfold handle_repeated_type. generalize 1025%nat; intros fuel.
    destruct (seq_id_loop _ name (S i) []) as [[l k]|] eqn:E; [|done]. apply seq_id_le in E. simpl.
    destruct (push 16 l [0]); [|done]. simpl. destruct (if (0 <? length l)%nat then _ else _); [|done].
    simpl. destruct (copy_old _ _ s); [|done]. intros [= <- <-]. lia. }
  destruct (is_digit c || (c =? 78)).
  - unfold handle_objstruct. destruct (unmangle_name rounds name i) as [[b k]|] eqn:E; [|done].
    apply unmangle_le in E. simpl. destruct (append_to_buffer _ s); [|done]. by intros [= <- <-].
  - destruct (append_to_buffer _ s); [|done]. by intros [= <- <-].
Qed.

Lemma save_total s : no_loop (save_param s).
Proof. unfold save_param. by case_match. Qed.

Lemma separator_total i s : no_loop (add_separator name i s).
Proof. unfold add_separator. steps. Qed.

Lemma demangle_parameters_total fuel i s :
  (1 <= fuel)%nat → (S (length name) < fuel + i)%nat →
  no_loop (demangle_parameters rounds fuel name i s).
Proof.
  revert i s; induction fuel as [|fuel IH]; intros i s H1 Hf; [lia|]. simpl.
  apply no_loop_bind; [auto with no_loop|]. intros c Hc. destruct (is_end_of_parameters c); [done|].
  destruct (at_some _ _ _ Hc) as [Hi _].
  apply no_loop_bind; [by apply single_total|]. intros [s' j] Hj. apply single_le in Hj.
  apply no_loop_bind; [auto with no_loop|]. intros c' _.
  destruct ((c' =? 80) || (c' =? 75)); [apply IH; lia|].
  apply no_loop_bind; [apply save_total|]. intros s2 _.
  apply no_loop_bind; [apply separator_total|]. intros s3 _. apply IH; lia.
Qed.

Lemma demangle_no_loop : no_loop (demangle_alloc_symbol rounds name).
Proof.
  unfold demangle_alloc_symbol.
  apply no_loop_bind; [unfold is_mangled; steps|]. intros m _.
  destruct (negb m); [unfold copy_unmangled_name; auto with no_loop|].
  apply no_loop_bind; [auto with no_loop|]. intros c Hc. destruct (at_some _ _ _ Hc) as [Hi _].
  apply no_loop_bind.
  { case_match; (apply no_loop_bind; [by (apply unmangle_name_total || apply component_total)|]);
      intros [b i] _; steps. }
  intros [b i] _. apply no_loop_bind; [apply demangle_parameters_total; lia|].
  intros [s i'] _. steps.
Qed.
End Total.

(** A function whose own nested name is stuck. *)
Lemma demangle_stuck rounds rest :
  ends rest = false → demangle_alloc_symbol rounds (str "_ZN" ++ rest) = Fault OutOfFuel.
Proof.
  intros He. set (name := str "_ZN" ++ rest). assert (drop 3 name = rest) as Ed by done.
  assert (3 <= length name)%nat as H3 by (unfold name; rewrite length_app; simpl; lia).
  assert (unmangle_name rounds name 2 = Fault OutOfFuel) as Hu.
  { unfold unmangle_name. change (at_ name 2) with (Ok 78). cbn [mbind result_bind].
    change (78 =? 78) with true. cbv iota zeta. rewrite component_eq, Ed by done. cbv zeta.
    set (k := digit_run rest). set (v := atoi_digits _ 0).
    pose proof (atoi_digits_nonneg (take k rest) 0 ltac:(lia)) as Hv. fold v in Hv.
    assert ((k =? 0)%nat = true ∨ (15 <? k)%nat || (2147483647 <? v) || (Z.of_nat (length rest) <? Z.of_nat k + v) = false ∧
      ends (drop (k + Z.to_nat v) rest) = false) as [Ek|[Hc Hn]].
    { subst k v. destruct rest as [|c l]; [by left|]. rewrite ends_step in He. cbv zeta in He.
      destruct (c =? 69); [done|]. destruct (_ =? 0)%nat; [by left|]. right. by destruct (_ || _). }
    - apply Nat.eqb_eq in Ek. assert (v = 0) as -> by (subst v; by rewrite Ek). rewrite Ek.
      change (15 <? 0)%nat with false. change (2147483647 <? 0) with false. cbv iota.
      rewrite (proj2 (Z.ltb_ge _ _)) by lia. cbn [mbind result_bind].
      change (3 + 0 + Z.to_nat 0)%nat with 3%nat. rewrite nested_loop_stuck; [done|lia|by rewrite Ed].
    - apply orb_false_iff in Hc as [[Hc1 Hc2]%orb_false_iff Hc3]. rewrite Hc1, Hc2. b2p.
      rewrite (proj2 (Z.ltb_ge _ _)) by lia. cbn [mbind result_bind].
      rewrite nested_loop_stuck; [done| |by rewrite <- Nat.add_assoc, <- drop_drop, Ed].
      unfold name. rewrite length_app. simpl. lia. }
  unfold demangle_alloc_symbol. change (is_mangled name) with (Ok true). cbn [mbind result_bind negb].
  change (at_ name 2) with (Ok 78). cbn [mbind result_bind]. change (78 =? 78) with true. cbv iota.
  by rewrite Hu.
Qed.

(** ** Property *)


