(* ===== verification/Mangle.v ===== *)
(** * Mangle: the names the compiler builds, and what the demangler makes of them.

    The encoding of functions of namespaces and classes over the built-in types,
    pointers and [const], as the C++ ABI prescribes it, with its substitutions, and the
    readable form; [Demangle] is the code of [src/kernel/err/mangle.cc].  Nothing of the
    source is modelled here. *)
From stdpp Require Import base numbers list strings.
From S2P Require Import Prelude Text Demangle.
Local Open Scope Z_scope.

(** ** Functions and their types *)

Inductive builtin :=
| Void | Bool | Char | UChar | Short | UShort | Int | UInt | Long | ULong | LLong | ULLong | Float | Double.

Inductive ty := Builtin (b : builtin) | Pointer (t : ty) | Const (t : ty).

Record symbol := mk_symbol { fn_path : list (list Z); fn_params : list ty; variadic : bool }.

#[global] Instance builtin_eq_dec : EqDecision builtin.
Proof. solve_decision. Defined.
#[global] Instance ty_eq_dec : EqDecision ty.
Proof. solve_decision. Defined.

(** The ABI's letter and the kernel's name of a built-in type. *)
Definition letter (b : builtin) : Z :=
  match b with
  | Void => 118 | Bool => 98 | Char => 99 | UChar => 104 | Short => 115 | UShort => 116
  | Int => 105 | UInt => 106 | Long => 108 | ULong => 109 | LLong => 120 | ULLong => 121
  | Float => 102 | Double => 100
  end.

Definition spelling (b : builtin) : list Z :=
  match b with
  | Void => str "void" | Bool => str "bool" | Char => str "char" | UChar => str "u8"
  | Short => str "short" | UShort => str "u16" | Int => str "int" | UInt => str "u32"
  | Long => str "long" | ULong => str "u64" | LLong => str "long long" | ULLong => str "u64"
  | Float => str "float" | Double => str "double"
  end.

(** A [const] of the parameter itself is not part of the function's type. *)
Fixpoint adjust (t : ty) : ty := match t with Const t => adjust t | _ => t end.

(** ** The readable form *)

Fixpoint join (sep : list Z) (l : list (list Z)) : list Z :=
  match l with
  | [] => []
  | x :: l => x ++ match l with [] => [] | _ => sep ++ join sep l end
  end.

Fixpoint show_ty (t : ty) : list Z :=
  match t with
  | Builtin b => spelling b
  | Pointer t => str "*" ++ show_ty t
  | Const t => str "const " ++ show_ty t
  end.

(** The texts of the parameter list; an empty one is written as in C. *)
Definition show_params (s : symbol) : list (list Z) :=
  match fn_params s, variadic s with
  | [], false => [str "void"]
  | l, v => (show_ty ∘ adjust <$> l) ++ if v then [str "..."] else []
  end.

Definition show (s : symbol) : list Z :=
  join colons (fn_path s) ++ str "(" ++ join (str ", ") (show_params s) ++ str ")".

(** ** The mangled form *)

(** Decimal digits of a number below 1000. *)
Fixpoint dec_loop (n : nat) (v : Z) (acc : list Z) : list Z :=
  match n with
  | O => acc
  | S n => if v <? 10 then (48 + v) :: acc
           else dec_loop n (v `div` 10) ((48 + v `mod` 10) :: acc)
  end.

Definition dec (v : Z) : list Z := dec_loop 3 v [].

Definition mangle_component (c : list Z) : list Z := dec (Z.of_nat (length c)) ++ c.

Definition mangle_path (p : list (list Z)) : list Z :=
  match p with
  | [c] => mangle_component c
  | _ => 78 :: concat (mangle_component <$> p) ++ [69]
  end.

(** What a substitution can stand for: a prefix of the name, or a compound type. *)
Inductive entity := Prefix (p : list (list Z)) | Type_ (t : ty).

#[global] Instance entity_eq_dec : EqDecision entity.
Proof. solve_decision. Defined.

Definition position (x : entity) (tbl : list entity) : option nat := fst <$> list_find (x =.) tbl.

(** A sequence number in base 36; the first substitution has none. *)
Definition digit36 (v : Z) : Z := if v <? 10 then 48 + v else 55 + v.

Definition substitution (k : nat) : list Z :=
  match k with
  | O => [83; 95]
  | S k => let v := Z.of_nat k in
      if v <? 36 then [83; digit36 v; 95] else [83; digit36 (v `div` 36); digit36 (v `mod` 36); 95]
  end.

(** The code of a type, and the table with the compound types it has introduced. *)
Fixpoint mangle_ty (tbl : list entity) (t : ty) : list Z * list entity :=
  let compound c u :=
    match position (Type_ t) tbl with
    | Some k => (substitution k, tbl)
    | None => let '(l, tbl) := mangle_ty tbl u in (c :: l, tbl ++ [Type_ t])
    end in
  match t with
  | Builtin b => ([letter b], tbl)
  | Pointer u => compound 80 u
  | Const u => compound 75 u
  end.

Fixpoint mangle_tys (tbl : list entity) (l : list ty) : list Z :=
  match l with
  | [] => []
  | t :: l => let '(c, tbl) := mangle_ty tbl t in c ++ mangle_tys tbl l
  end.

(** The proper prefixes of a nested name. *)
Definition prefixes (p : list (list Z)) : list entity := (λ n, Prefix (take n p)) <$> seq 1 (length p - 1).

Definition mangle (s : symbol) : list Z :=
  str "_Z" ++ mangle_path (fn_path s) ++
  match fn_params s, variadic s with
  | [], false => [letter Void]
  | l, v => mangle_tys (prefixes (fn_path s)) (adjust <$> l) ++ if v then [122] else []
  end.

(** Names of the kernel, as the compiler's output has them. *)
Definition strcmp_symbol : symbol :=
  mk_symbol [str "strcmp"] [Pointer (Const (Builtin Char)); Pointer (Const (Builtin Char))] false.
Definition failed_assert_symbol : symbol :=
  let s := Pointer (Const (Builtin Char)) in
  mk_symbol [str "Log"; str "__failed_assert"] [s; s; s; Builtin UInt; s] false.

Example mangle_strcmp : mangle strcmp_symbol = str "_Z6strcmpPKcS0_".
Proof. by vm_compute. Qed.
Example mangle_failed_assert : mangle failed_assert_symbol = str "_ZN3Log15__failed_assertEPKcS1_S1_jS1_".
Proof. by vm_compute. Qed.
Example mangle_init : mangle (mk_symbol [str "GDT"; str "init"] [] false) = str "_ZN3GDT4initEv".
Proof. by vm_compute. Qed.

(** ** Types without substitutions *)

(** The compound types in a type, innermost first. *)
Fixpoint compounds (t : ty) : list ty :=
  match t with Builtin _ => [] | Pointer u | Const u => compounds u ++ [t] end.

Record param := mk_param { quals : list bool; base : Z }.
Record flat := mk_flat { path : list (list Z); params : list param }.

Definition code_param (p : param) : list Z :=
  ((λ q : bool, if q then 80 else 75) <$> quals p) ++ [base p].

Definition flat_codes (s : flat) : list Z :=
  str "_Z" ++ mangle_path (path s) ++ concat (code_param <$> params s).

Definition text_of (c : Z) : list Z := default [] (type_text c).

Definition show_param (p : param) : list Z :=
  concat ((λ q : bool, text_of (if q then 80 else 75)) <$> quals p) ++ text_of (base p).

Definition flat_text (s : flat) : list Z :=
  join colons (path s) ++ str "(" ++ join (str ", ") (show_param <$> params s) ++ str ")".

(** A component is a non-empty identifier, a parameter's base one of the fixed
    types; the text fits the scratch arrays. *)
Definition component_ok (c : list Z) : Prop :=
  c ≠ [] ∧ is_digit (hd 0 c) = false ∧ Forall (λ b, b ≠ 0) c.

Definition param_ok (p : param) : Prop :=
  type_text (base p) ≠ None ∧ base p ≠ 80 ∧ base p ≠ 75 ∧ (length (show_param p) <= 64)%nat.

Record flat_ok (s : flat) : Prop := {
  so_path : path s ≠ [] ∧ Forall component_ok (path s);
  so_params : Forall param_ok (params s) ∧ (length (params s) <= 32)%nat;
}.

(** ** Reading at a split of the string *)

Lemma at_app pre post : at_ (pre ++ post) (length pre) = Ok (hd 0 post).
Proof.
  unfold at_. rewrite <- app_assoc, lookup_app_r, Nat.sub_diag by lia. by destruct post.
Qed.

Lemma push_ok cap buf bytes :
  Z.of_nat (length buf) + Z.of_nat (length bytes) <= cap → push cap buf bytes = Ok (buf ++ bytes).
Proof. intros. unfold push. by replace (_ <=? _) with true by (symmetry; apply Z.leb_le; lia). Qed.

Lemma slice_app pre bytes post :
  slice (pre ++ bytes ++ post) (length pre) (Z.of_nat (length bytes)) = Ok bytes.
Proof.
  unfold slice. rewrite !length_app.
  replace (_ <=? _) with true by (symmetry; apply Z.leb_le; lia). rewrite Nat2Z.id, <- app_assoc, drop_app_length.
  by rewrite <- app_assoc, take_app_length.
Qed.

(** *** Numbers *)

Lemma dec_loop_digits n v acc :
  0 <= v → Forall (λ c, is_digit c = true) acc → Forall (λ c, is_digit c = true) (dec_loop n v acc).
Proof.
  revert v acc; induction n as [|n IH]; intros v acc Hv Hacc; [done|]. simpl.
  case_cond; [constructor; [|done]|apply IH; [dlia|constructor; [|done]]];
    unfold is_digit; apply andb_true_iff; rewrite !Z.leb_le; dlia.
Qed.

Lemma dec_loop_length n v acc :
  (length (dec_loop n v acc) <= n + length acc)%nat ∧ (length acc <= length (dec_loop n v acc))%nat ∧
  (n ≠ O → length acc < length (dec_loop n v acc))%nat.
Proof.
  revert v acc; induction n as [|n IH]; intros v acc; simpl; [lia|].
  case_cond; simpl; [lia|]. specialize (IH (v `div` 10) ((48 + v `mod` 10) :: acc)). simpl in IH. lia.
Qed.

Lemma dec_loop_value n v acc : 0 <= v < 10 ^ Z.of_nat n →
  atoi_digits (dec_loop n v acc) 0 = atoi_digits acc v.
Proof.
  revert v acc; induction n as [|n IH]; intros v acc Hv.
  { simpl in *. by replace v with 0 by lia. }
  rewrite Nat2Z.inj_succ, Z.pow_succ_r in Hv by lia. simpl. case_cond.
  - simpl. replace (is_digit (48 + v)) with true by (unfold is_digit; symmetry; lia).
    f_equal. lia.
  - rewrite IH by dlia. simpl.
    replace (is_digit (48 + v `mod` 10)) with true
      by (unfold is_digit; symmetry; apply andb_true_iff; rewrite !Z.leb_le; dlia).
    f_equal. dlia.
Qed.

Lemma dec_spec v : 0 <= v < 1000 →
  ∃ c l, dec v = c :: l ∧ Forall (λ c, is_digit c = true) (dec v) ∧
    (length (dec v) <= 3)%nat ∧ atoi (dec v) = Ok v.
Proof.
  intros Hv. unfold dec. pose proof (dec_loop_digits 3 v [] ltac:(lia) ltac:(done)) as Hd.
  destruct (dec_loop_length 3 v []) as (Hl & _ & Hn). specialize (Hn ltac:(done)).
  pose proof (dec_loop_value 3 v [] ltac:(lia)) as Hval.
  destruct (dec_loop 3 v []) as [|c l]; [simpl in Hn; lia|]. exists c, l.
  split; [done|]. split; [done|]. split; [simpl in *; lia|].
  change (atoi_digits [] v) with v in Hval.
  rewrite atoi_of_digits; [by rewrite Hval|by apply Forall_cons in Hd as [? _]|lia|lia].
Qed.

Lemma digits_loop_app fuel pre ds post l :
  Forall (λ c, is_digit c = true) ds → is_digit (hd 0 post) = false →
  (length l + length ds <= 16)%nat → (length ds < fuel)%nat →
  digits_loop fuel (pre ++ ds ++ post) (length pre) l = Ok (l ++ ds, (length pre + length ds)%nat).
Proof.
  intros Hds Hpost. revert fuel pre l; induction Hds as [|d ds Hd Hds IH]; intros fuel pre l Hl Hf.
  - destruct fuel; [simpl in Hf; lia|]. simpl digits_loop. simpl app; rewrite at_app. simpl.
    by rewrite Hpost, app_nil_r, Nat.add_0_r.
  - destruct fuel as [|fuel]; [simpl in Hf; lia|]. simpl digits_loop. rewrite at_app. simpl.
    rewrite Hd, push_ok by (simpl in *; lia). simpl.
    replace (pre ++ d :: ds ++ post) with ((pre ++ [d]) ++ ds ++ post) by (by rewrite <- app_assoc).
    replace (S (length pre)) with (length (pre ++ [d])) by (rewrite length_app; simpl; lia).
    rewrite IH by (rewrite ?length_app; simpl in *; lia).
    rewrite length_app, <- app_assoc. simpl. do 2 f_equal. lia.
Qed.

(** *** Components and paths *)

Lemma component_app pre c post buf :
  component_ok c → (length c < 1000)%nat →
  component (pre ++ mangle_component c ++ post) (length pre) buf =
  Ok (buf ++ c, (length pre + length (mangle_component c))%nat).
Proof.
  intros (Hne & Hhd & _) Hlen. unfold component, parse_function_length, mangle_component.
  destruct (dec_spec (Z.of_nat (length c)) ltac:(lia)) as (c0 & l0 & _ & Hd & Hl3 & Ha).
  set (ds := dec (Z.of_nat (length c))) in *. rewrite <- app_assoc.
  rewrite digits_loop_app; [|done|by destruct c|simpl; lia|rewrite !length_app; lia].
  simpl. rewrite push_ok by (simpl; lia). simpl. rewrite Ha. simpl. rewrite u32_id by lia.
  replace (pre ++ ds ++ c ++ post) with ((pre ++ ds) ++ c ++ post) by (by rewrite <- app_assoc).
  rewrite <- length_app, slice_app. simpl.
  rewrite Nat2Z.id, !length_app. do 2 f_equal. lia.
Qed.

Lemma mangle_component_hd c post : component_ok c →
  ∃ d l, mangle_component c ++ post = d :: l ∧ is_digit d = true.
Proof.
  intros (Hne & _). unfold mangle_component.
  assert (Z.of_nat (length c) < 1000 ∨ 1000 <= Z.of_nat (length c)) as [Hs|Hb] by lia.
  - destruct (dec_spec (Z.of_nat (length c)) ltac:(lia)) as (d & l & E & Hd & _ & _).
    rewrite E in *. exists d, (l ++ c ++ post). split; [simpl; by rewrite <- app_assoc|].
    by apply Forall_cons in Hd as [? _].
  - unfold dec. pose proof (dec_loop_digits 3 (Z.of_nat (length c)) [] ltac:(lia) ltac:(done)) as Hd.
    destruct (dec_loop_length 3 (Z.of_nat (length c)) []) as (_ & _ & Hn). specialize (Hn ltac:(done)).
    destruct (dec_loop 3 _ []) as [|d l]; [simpl in Hn; lia|].
    exists d, (l ++ c ++ post). split; [simpl; by rewrite <- app_assoc|].
    by apply Forall_cons in Hd as [? _].
Qed.

Lemma join_cons sep x l : join sep (x :: l) = x ++ match l with [] => [] | _ => sep ++ join sep l end.
Proof. done. Qed.

Lemma join_length sep l : Forall (λ x, x ≠ []) l → (length l <= length (join sep l))%nat.
Proof.
  induction 1 as [|x l Hx Hl IH]; [done|]. rewrite join_cons, length_app.
  destruct x as [|b x]; [done|]. destruct l as [|y l]; simpl in *; [lia|].
  rewrite !length_app in *. lia.
Qed.

(** The rest of a nested name, up to its end mark. *)
Lemma nested_loop_app fuel pre cs post buf :
  Forall component_ok cs → (length cs < fuel)%nat →
  (length (join colons cs) < 1000)%nat →
  nested_loop fuel (pre ++ concat (mangle_component <$> cs) ++ 69 :: post) (length pre) buf =
  Ok (buf ++ join colons cs, (length pre + length (concat (mangle_component <$> cs)))%nat).
Proof.
  intros Hcs. revert fuel pre buf; induction Hcs as [|c cs Hc Hcs IH]; intros fuel pre buf Hf Hlen;
    (destruct fuel as [|fuel]; [simpl in Hf; lia|]); cbn [nested_loop].
  { simpl concat. simpl app at 1. rewrite at_app. simpl. by rewrite app_nil_r, Nat.add_0_r. }
  cbn [fmap list_fmap concat]. rewrite join_cons, length_app in Hlen. rewrite <- app_assoc.
  set (rest := concat (mangle_component <$> cs) ++ 69 :: post).
  assert (at_ (pre ++ mangle_component c ++ rest) (length pre) =
    Ok (hd 0 (mangle_component c ++ rest))) as -> by apply at_app.
  destruct (mangle_component_hd c rest Hc) as (d & l & E & Hd). rewrite E. simpl hd.
  change (Ok d ≫= ?f) with (f d). cbv beta.
  replace (d =? 69) with false by (unfold is_digit in Hd; b2p; symmetry; apply Z.eqb_neq; lia).
  rewrite <- E, component_app by (done || lia). change (Ok (?a, ?b) ≫= ?f) with (f (a, b)). cbv beta iota.
  rewrite app_assoc, <- length_app, at_app. change (Ok ?a ≫= ?f) with (f a). cbv beta.
  destruct cs as [|c' cs].
  - subst rest. simpl hd. change (69 =? 69) with true. cbv iota.
    destruct fuel as [|fuel]; [simpl in Hf; lia|]. cbn [nested_loop].
    rewrite at_app. simpl. rewrite app_nil_r. rewrite !length_app. simpl. do 2 f_equal. lia.
  - assert (component_ok c') as Hc' by (by apply Forall_cons in Hcs as [? _]).
    assert (rest = mangle_component c' ++ (concat (mangle_component <$> cs) ++ 69 :: post)) as Er
      by (subst rest; simpl; by rewrite <- app_assoc).
    destruct (mangle_component_hd c' (concat (mangle_component <$> cs) ++ 69 :: post) Hc')
      as (d' & l' & E' & Hd').
    assert (hd 0 rest = d') as -> by (by rewrite Er, E').
    replace (d' =? 69) with false by (unfold is_digit in Hd'; b2p; symmetry; apply Z.eqb_neq; lia).
    subst rest. rewrite IH by (rewrite ?length_app in *; simpl length in *; lia).
    rewrite (join_cons colons c), !length_app, <- !app_assoc. do 2 f_equal. lia.
Qed.

Lemma join_nonzero p : Forall component_ok p → Forall (λ b, b ≠ 0) (join colons p).
Proof.
  induction 1 as [|c cs (_ & _ & Hc) Hcs IH]; [done|]. rewrite join_cons. apply Forall_app. split; [done|].
  destruct cs; [done|]. apply Forall_app. split; [|done]. by repeat constructor.
Qed.

(** Evaluate a bind on a result already known. *)
Ltac bind_ok :=
  change (Ok (?a, ?b) ≫= ?f) with (f (a, b)) || change (Ok ?a ≫= ?f) with (f a); cbv beta iota.

Section Rounds.
Context (rounds : nat).

(** A nested name with at least two components. *)
Lemma unmangle_app pre c cs post :
  cs ≠ [] → (length cs < rounds)%nat → Forall component_ok (c :: cs) → (length (join colons (c :: cs)) < 128)%nat →
  unmangle_name rounds (pre ++ mangle_path (c :: cs) ++ post) (length pre) =
  Ok (join colons (c :: cs), (length pre + length (mangle_path (c :: cs)))%nat).
Proof.
  intros Hcs Hr Hall Hlen. pose proof Hall as Hok. apply Forall_cons in Hok as [Hc Hok].
  destruct cs as [|c2 cs]; [done|]. rewrite join_cons, !length_app in Hlen.
  assert (length (c2 :: cs) <= length (join colons (c2 :: cs)))%nat as Hjl.
  { apply join_length. eapply Forall_impl; [exact Hok|]. by intros x (? & _). }
  unfold mangle_path. cbn [fmap list_fmap concat]. fold (fmap (M := list) mangle_component cs).
  set (rest := mangle_component c2 ++ concat (mangle_component <$> cs)).
  unfold unmangle_name. rewrite at_app. cbn [app hd]. bind_ok.
  change (78 =? 78) with true. cbv beta iota zeta.
  replace (pre ++ 78 :: ((mangle_component c ++ rest) ++ [69]) ++ post)
    with ((pre ++ [78]) ++ mangle_component c ++ rest ++ 69 :: post) by (by rewrite <- !app_assoc).
  replace (S (length pre)) with (length (pre ++ [78])) by (rewrite length_app; simpl; lia).
  rewrite component_app by (done || lia). bind_ok. rewrite app_nil_l.
  rewrite app_assoc, <- length_app.
  pose proof (nested_loop_app rounds ((pre ++ [78]) ++ mangle_component c) (c2 :: cs) post (c ++ colons)) as Hn.
  cbn [fmap list_fmap concat] in Hn. fold (fmap (M := list) mangle_component cs) in Hn. fold rest in Hn.
  rewrite Hn by (rewrite ?length_app; done || lia). bind_ok. bind_ok.
  rewrite push_ok by (rewrite !length_app; simpl length in *; lia). bind_ok.
  rewrite join_cons, !length_app, <- !app_assoc. simpl length. do 2 f_equal. rewrite !length_app. simpl length. lia.
Qed.

(** The name of the function, of either form, up to the opening bracket. *)
Lemma head_app p post :
  p ≠ [] → (length p <= rounds)%nat → Forall component_ok p → (length (join colons p) < 128)%nat →
  let name := str "_Z" ++ mangle_path p ++ post in
  (c ← at_ name 2;
   if c =? 78 then
     '(buf, i) ← unmangle_name rounds name 2;
     buf ← push 128 (c_str buf) (str "(");
     Ok (buf, i)
   else
     '(buf, i) ← component name 2 [];
     buf ← push 128 buf (str "(");
     Ok (buf, i)) =
  Ok (join colons p ++ str "(", (2 + length (mangle_path p))%nat).
Proof.
  intros Hne Hr Hp Hlen. cbv zeta. change 2%nat with (length (str "_Z")) at 1 3. rewrite at_app.
  destruct p as [|c [|c2 p]]; [done| |].
  - apply Forall_cons in Hp as [Hc _]. simpl join in *. rewrite app_nil_r in *.
    cbn [mangle_path]. destruct (mangle_component_hd c post Hc) as (d & l & E & Hd). rewrite E.
    cbn [hd]. bind_ok.
    replace (d =? 78) with false by (unfold is_digit in Hd; b2p; symmetry; apply Z.eqb_neq; lia).
    rewrite <- E, component_app by (done || lia). bind_ok.
    rewrite push_ok by (simpl length; lia). done.
  - change (hd 0 (mangle_path (c :: c2 :: p) ++ post)) with 78. bind_ok.
    change (78 =? 78) with true. cbv iota.
    change 2%nat with (length (str "_Z")) at 1. rewrite unmangle_app by (done || simpl in *; lia). bind_ok.
    rewrite c_str_id by (by apply join_nonzero). rewrite push_ok by (simpl length in *; lia). done.
Qed.

(** The name of the function followed by the rest of the demangler. *)
Lemma head_bind name buf i (f : list Z * nat → result (list Z)) :
  (c ← at_ name 2;
   if c =? 78 then
     '(buf, i) ← unmangle_name rounds name 2; buf ← push 128 (c_str buf) (str "("); Ok (buf, i)
   else '(buf, i) ← component name 2 []; buf ← push 128 buf (str "("); Ok (buf, i)) = Ok (buf, i) →
  (c ← at_ name 2;
   r ← (if c =? 78 then
     '(buf, i) ← unmangle_name rounds name 2; buf ← push 128 (c_str buf) (str "("); Ok (buf, i)
   else '(buf, i) ← component name 2 []; buf ← push 128 buf (str "("); Ok (buf, i));
   f r) = f (buf, i).
Proof. destruct (at_ name 2) as [c|e]; [|done]. bind_ok. bind_ok. by intros ->. Qed.

(** *** Parameters *)

Lemma type_text_not_end c t : type_text c = Some t → is_end_of_parameters c = false.
Proof.
  intros H. unfold is_end_of_parameters.
  destruct (c =? 69) eqn:E1; b2p; [by subst|]. destruct (c =? 0) eqn:E2; b2p; [by subst|].
  destruct (c =? 32) eqn:E3; b2p; [by subst|]. done.
Qed.

(** What a state holds after a parameter's text. *)
Definition grown (bytes : list Z) (s s' : pstate) : Prop :=
  buffer s' = buffer s ++ bytes ∧ latest_type s' = latest_type s ++ bytes ∧
  old_params_i s' = old_params_i s.

Lemma append_ok bytes s :
  (length (buffer s) + length bytes <= 128)%nat → (length (latest_type s) + length bytes <= 64)%nat →
  ∃ s', append_to_buffer bytes s = Ok s' ∧ grown bytes s s'.
Proof.
  intros Hb Hl. unfold append_to_buffer. rewrite push_ok by lia. bind_ok.
  rewrite push_ok by lia. eexists. split; [reflexivity|]. done.
Qed.

(** One code of the fixed table at the current index. *)
Lemma single_app pre c post s t :
  type_text c = Some t → (length (buffer s) + length t <= 128)%nat →
  (length (latest_type s) + length t <= 64)%nat →
  ∃ s', demangle_single_parameter rounds (pre ++ c :: post) (length pre) s = Ok (s', length pre) ∧
    grown t s s'.
Proof.
  intros Ht Hb Hl. destruct (append_ok t s Hb Hl) as (s' & E & Hg). exists s'. split; [|done].
  unfold demangle_single_parameter. rewrite at_app. cbn [hd]. bind_ok. rewrite Ht, E. done.
Qed.

(** Pointer and [const] prefixes. *)
Lemma quals_app fuel pre qs post s :
  let text := concat ((λ q : bool, text_of (if q then 80 else 75)) <$> qs) in
  let codes := (λ q : bool, if q then 80 else 75) <$> qs in
  (length (buffer s) + length text <= 128)%nat → (length (latest_type s) + length text <= 64)%nat →
  ∃ s', grown text s s' ∧
    demangle_parameters rounds (length qs + fuel) (pre ++ codes ++ post) (length pre) s =
    demangle_parameters rounds fuel (pre ++ codes ++ post) (length pre + length qs) s'.
Proof.
  cbv zeta. revert pre s; induction qs as [|q qs IH]; intros pre s Hb Hl.
  { exists s. split; [by unfold grown; rewrite !app_nil_r|]. by rewrite Nat.add_0_r. }
  cbn [fmap list_fmap concat] in *. fold (fmap (M := list) (λ q : bool, text_of (if q then 80 else 75)) qs) in *.
  fold (fmap (M := list) (λ q : bool, if q then 80 else 75) qs) in *.
  set (c := if q then 80 else 75) in *.
  assert (type_text c = Some (text_of c)) as Ht by (by destruct q).
  rewrite length_app in Hb, Hl.
  cbn [length Nat.add demangle_parameters]. cbn [app].
  rewrite at_app. cbn [hd]. bind_ok. rewrite (type_text_not_end c _ Ht).
  destruct (single_app pre c (((λ q : bool, if q then 80 else 75) <$> qs) ++ post) s (text_of c) Ht)
    as (s1 & E1 & G1 & G2 & G3); [lia|lia|]. rewrite E1. bind_ok.
  rewrite at_app. cbn [hd]. bind_ok.
  replace ((c =? 80) || (c =? 75)) with true by (by destruct q).
  replace (pre ++ c :: ((λ q : bool, if q then 80 else 75) <$> qs) ++ post) with
    ((pre ++ [c]) ++ ((λ q : bool, if q then 80 else 75) <$> qs) ++ post) by (by rewrite <- app_assoc).
  replace (S (length pre)) with (length (pre ++ [c])) by (rewrite length_app; simpl; lia).
  destruct (IH (pre ++ [c]) s1) as (s' & (F1 & F2 & F3) & E);
    [rewrite G1, length_app; lia|rewrite G2, length_app; lia|].
  exists s'. split.
  - unfold grown. rewrite F1, F2, F3, G1, G2, G3, <- !app_assoc. done.
  - rewrite E. f_equal. rewrite length_app. simpl. lia.
Qed.

(** A whole parameter, with the separator that follows it. *)
Lemma param_app fuel pre p post s :
  param_ok p → latest_type s = [] → (old_params_i s < 32)%nat →
  let sep := if is_end_of_parameters (hd 0 post) then [] else str ", " in
  (length (buffer s) + length (show_param p) + length sep <= 128)%nat →
  let name := pre ++ code_param p ++ post in
  ∃ s', latest_type s' = [] ∧ old_params_i s' = S (old_params_i s) ∧
    buffer s' = buffer s ++ show_param p ++ sep ∧
    demangle_parameters rounds (length (code_param p) + fuel) name (length pre) s =
    demangle_parameters rounds fuel name (length pre + length (code_param p)) s'.
Proof.
  cbv zeta. intros (Hbase & Hn80 & Hn75 & H64) Hl Hi Hfit.
  destruct (type_text (base p)) as [t|] eqn:Ht; [|done]. clear Hbase.
  assert (text_of (base p) = t) as Htx by (unfold text_of; by rewrite Ht).
  unfold show_param in H64, Hfit. rewrite Htx in H64, Hfit. rewrite length_app in H64, Hfit.
  unfold code_param. rewrite length_app, length_fmap, <- app_assoc.
  replace (length (quals p) + length [base p] + fuel)%nat with (length (quals p) + S fuel)%nat
    by (simpl; lia).
  destruct (quals_app (S fuel) pre (quals p) ([base p] ++ post) s) as (s1 & (G1 & G2 & G3) & E);
    [lia|rewrite Hl; simpl; lia|]. rewrite E. clear E.
  set (codes := (λ q : bool, if q then 80 else 75) <$> quals p).
  set (qtext := concat ((λ q : bool, text_of (if q then 80 else 75)) <$> quals p)) in *.
  replace (pre ++ codes ++ [base p] ++ post) with ((pre ++ codes) ++ base p :: post)
    by (by rewrite <- app_assoc).
  replace (length pre + length (quals p))%nat with (length (pre ++ codes))
    by (unfold codes; by rewrite length_app, length_fmap).
  cbn [demangle_parameters]. rewrite at_app. cbn [hd]. bind_ok. rewrite (type_text_not_end _ _ Ht).
  destruct (single_app (pre ++ codes) (base p) post s1 t Ht) as (s2 & E2 & F1 & F2 & F3);
    [rewrite G1, length_app; lia|rewrite G2, Hl, length_app; simpl; lia|]. rewrite E2. bind_ok.
  rewrite at_app. cbn [hd]. bind_ok.
  replace ((base p =? 80) || (base p =? 75)) with false by (symmetry; apply orb_false_iff; lia).
  assert (buffer s2 = buffer s ++ qtext ++ t) as Eb by (by rewrite F1, G1, <- app_assoc).
  assert (latest_type s2 = qtext ++ t) as El by (by rewrite F2, G2, Hl).
  assert (old_params_i s2 = old_params_i s) as Eo by congruence.
  unfold save_param. rewrite El, Eo.
  replace (_ <? 1024)%nat with true by (symmetry; apply Nat.ltb_lt; rewrite length_app; lia). bind_ok.
  match goal with |- context [add_separator _ _ ?x] => set (s3 := x) end.
  replace ((pre ++ codes) ++ base p :: post) with (((pre ++ codes) ++ [base p]) ++ post)
    by (by rewrite <- app_assoc).
  replace (S (length (pre ++ codes))) with (length ((pre ++ codes) ++ [base p]))
    by (rewrite length_app; simpl; lia).
  unfold add_separator. rewrite at_app. bind_ok.
  assert (length ((pre ++ codes) ++ [base p]) = (length pre + (length (quals p) + length [base p]))%nat) as ->
    by (unfold codes; rewrite !length_app, length_fmap; lia).
  destruct (is_end_of_parameters (hd 0 post)).
  - exists s3. unfold show_param. fold qtext. rewrite Htx, app_nil_r. by split_and!.
  - change (length (str ", ")) with 2%nat in Hfit.
    rewrite push_ok by (subst s3; simpl buffer; rewrite Eb, !length_app; change (length (str ", ")) with 2%nat; lia).
    bind_ok. eexists. split; [|split; [|split; [|reflexivity]]]; try done.
    simpl. unfold show_param. fold qtext. by rewrite Htx, Eb, <- !app_assoc.
Qed.

Lemma code_param_hd p post : param_ok p →
  code_param p ++ post ≠ [] ∧ is_end_of_parameters (hd 0 (code_param p ++ post)) = false.
Proof.
  intros (Hb & _). destruct (type_text (base p)) as [t|] eqn:Ht; [|done].
  unfold code_param. destruct (quals p) as [|[] qs]; simpl; (split; [done|]); [|done..].
  by eapply type_text_not_end.
Qed.

(** The separator after a parameter that more parameters or the rest follow. *)
Lemma separator_eq ps rest :
  Forall param_ok ps → is_end_of_parameters (hd 0 rest) = true →
  (if is_end_of_parameters (hd 0 (concat (code_param <$> ps) ++ rest)) then [] else str ", ") =
  match ps with [] => [] | _ => str ", " end.
Proof.
  intros Hps Hrest. destruct ps as [|p ps]; [simpl; by rewrite Hrest|].
  apply Forall_cons in Hps as [Hp _]. cbn [fmap list_fmap concat]. rewrite <- app_assoc.
  by destruct (code_param_hd p (concat (code_param <$> ps) ++ rest) Hp) as [_ ->].
Qed.

(** The parameter list, up to the rest of the name. *)
Lemma params_app fuel ps pre rest s :
  Forall param_ok ps → is_end_of_parameters (hd 0 rest) = true →
  latest_type s = [] → (old_params_i s + length ps <= 32)%nat →
  (length (buffer s) + length (join (str ", ") (show_param <$> ps)) <= 128)%nat →
  ∃ s', buffer s' = buffer s ++ join (str ", ") (show_param <$> ps) ∧
    demangle_parameters rounds (length (concat (code_param <$> ps)) + S fuel)
      (pre ++ concat (code_param <$> ps) ++ rest) (length pre) s =
    Ok (s', length (pre ++ concat (code_param <$> ps))).
Proof.
  intros Hps Hrest. revert pre s; induction Hps as [|p ps Hp Hps IH]; intros pre s Hl Hi Hfit.
  { exists s. split; [by rewrite app_nil_r|]. simpl. rewrite at_app, app_nil_r. cbn [mbind result_bind].
    by rewrite Hrest. }
  pose proof (separator_eq ps rest Hps Hrest) as Hsep.
  cbn [fmap list_fmap concat] in *.
  fold (fmap (M := list) show_param ps) (fmap (M := list) code_param ps) in *.
  set (post := concat (code_param <$> ps)) in *. rewrite join_cons in Hfit |- *.
  rewrite length_app in Hfit. cbn [length] in Hi. rewrite <- app_assoc.
  assert (match show_param <$> ps with [] => [] | _ => str ", " ++ join (str ", ") (show_param <$> ps) end =
    match ps with [] => [] | _ => str ", " end ++ join (str ", ") (show_param <$> ps)) as Ej by by destruct ps.
  rewrite Ej in *. rewrite length_app in Hfit.
  destruct (param_app (length post + S fuel) pre p (post ++ rest) s) as (s1 & G1 & G2 & G3 & E);
    [done|done|lia|rewrite Hsep; lia|]. rewrite Hsep in G3.
  rewrite length_app, <- Nat.add_assoc, E.
  replace (length pre + length (code_param p))%nat with (length (pre ++ code_param p))
    by (by rewrite length_app).
  rewrite (app_assoc pre (code_param p) (post ++ rest)).
  destruct (IH (pre ++ code_param p) s1) as (s' & H1 & H2); [done|lia|rewrite G3, !length_app; lia|].
  exists s'. split; [by rewrite H1, G3, <- !app_assoc|]. by rewrite H2, <- app_assoc.
Qed.

(** ** Properties *)

(** The text of a mangled name with a rest the parameters do not reach. *)
Lemma demangle_mangle_rest s rest :
  flat_ok s → (length (path s) <= rounds)%nat → is_end_of_parameters (hd 0 rest) = true →
  (length (flat_text s) + length rest <= 128)%nat →
  demangle_alloc_symbol rounds (flat_codes s ++ rest) = Ok (flat_text s ++ rest).
Proof.
  intros [[Hne Hpath] [Hps Hn]] Hr Hrest Hfit. unfold flat_text in Hfit.
  rewrite !length_app in Hfit. change (length (str "(")) with 1%nat in Hfit.
  change (length (str ")")) with 1%nat in Hfit.
  pose proof (head_app (path s) (concat (code_param <$> params s) ++ rest) Hne Hr Hpath ltac:(lia)) as Hhead.
  cbv zeta in Hhead. unfold demangle_alloc_symbol, flat_codes. rewrite <- !app_assoc.
  set (name := str "_Z" ++ mangle_path (path s) ++ concat (code_param <$> params s) ++ rest) in *.
  assert (is_mangled name = Ok true) as -> by done. bind_ok. cbn [negb].
  rewrite (head_bind name _ _ _ Hhead). clear Hhead.
  match goal with |- context [demangle_parameters _ _ name _ ?x] => set (s0 := x) end.
  set (pre := str "_Z" ++ mangle_path (path s)).
  assert (name = pre ++ concat (code_param <$> params s) ++ rest) as En
    by (subst name pre; by rewrite <- app_assoc).
  destruct (params_app (S (length pre + length rest)) (params s) pre rest s0) as (s' & Hb & E);
    [done|done|done|simpl; lia|subst s0; simpl buffer; rewrite length_app; cbn [length]; lia|].
  rewrite En.
  replace (S (S (length (pre ++ concat (code_param <$> params s) ++ rest))))
    with (length (concat (code_param <$> params s)) + S (S (length pre + length rest)))%nat
    by (rewrite !length_app; lia).
  replace (2 + length (mangle_path (path s)))%nat with (length pre) by done.
  change (buffer s0) with (join colons (path s) ++ str "(") in Hb.
  rewrite E. bind_ok. rewrite Hb. clearbody s0. clear E Hb.
  rewrite push_ok by (rewrite !length_app; change (length (str "(")) with 1%nat;
    change (length (str ")")) with 1%nat; lia). bind_ok.
  rewrite (app_assoc pre), drop_app_length, push_ok
    by (rewrite !length_app; change (length (str "(")) with 1%nat; change (length (str ")")) with 1%nat; lia).
  unfold flat_text. by rewrite <- !app_assoc.
Qed.
End Rounds.

(** ** From the compiler's names *)

Fixpoint flat_of (t : ty) : param :=
  match t with
  | Builtin b => mk_param [] (letter b)
  | Pointer t => mk_param (true :: quals (flat_of t)) (base (flat_of t))
  | Const t => mk_param (false :: quals (flat_of t)) (base (flat_of t))
  end.

Lemma type_text_letter b : type_text (letter b) = Some (spelling b).
Proof. by destruct b. Qed.

Lemma base_letter t : ∃ b, base (flat_of t) = letter b.
Proof. induction t as [b|t IH|t IH]; [by exists b|done|done]. Qed.

Lemma show_flat t : show_param (flat_of t) = show_ty t.
Proof.
  unfold show_param. induction t as [b|t IH|t IH]; simpl; rewrite <- ?IH; [|done..].
  unfold text_of. by rewrite type_text_letter.
Qed.

Lemma position_None x tbl : x ∉ tbl → position x tbl = None.
Proof.
  intros Hx. unfold position. assert (list_find (x =.) tbl = None) as ->; [|done].
  apply list_find_None, Forall_forall. by intros y Hy ->.
Qed.

(** A type none of whose compound parts has a substitution is written out. *)
Lemma mangle_ty_plain tbl t :
  (∀ u, u ∈ compounds t → Type_ u ∉ tbl) →
  mangle_ty tbl t = (code_param (flat_of t), tbl ++ (Type_ <$> compounds t)).
Proof.
  induction t as [b|t IH|t IH]; intros Hn; [by rewrite app_nil_r|simpl..];
    rewrite position_None by (apply Hn; apply elem_of_app; right; by left);
    rewrite IH by (intros u Hu; apply Hn; apply elem_of_app; by left);
    by rewrite fmap_app, app_assoc.
Qed.

(** A parameter list without repeated compound types. *)
Lemma mangle_tys_plain tbl l :
  NoDup (l ≫= compounds) → (∀ u, u ∈ l ≫= compounds → Type_ u ∉ tbl) →
  mangle_tys tbl l = concat (code_param ∘ flat_of <$> l).
Proof.
  revert tbl; induction l as [|t l IH]; intros tbl Hnd Hn; [done|]. cbn [mbind list_bind] in *.
  apply NoDup_app in Hnd as (_ & Hd & Hnd). simpl.
  rewrite mangle_ty_plain by (intros u Hu; apply Hn; apply elem_of_app; by left).
  rewrite IH; [done|done|]. intros u Hu [Hin|(u' & [= <-] & Hin)%list_elem_of_fmap]%elem_of_app.
  - by apply (Hn u); [apply elem_of_app; right|].
  - by apply (Hd u).
Qed.

Definition flatten (s : symbol) : flat :=
  mk_flat (fn_path s)
    match fn_params s, variadic s with
    | [], false => [mk_param [] 118]
    | l, v => (flat_of ∘ adjust <$> l) ++ if v then [mk_param [] 122] else []
    end.

(** No compound type occurs twice, so the compiler substitutes nothing. *)
Definition distinct (s : symbol) : Prop := NoDup ((adjust <$> fn_params s) ≫= compounds).

Record symbol_ok (s : symbol) : Prop := {
  sy_path : fn_path s ≠ [] ∧ Forall component_ok (fn_path s);
  sy_std : head (fn_path s) ≠ Some (str "std");
  sy_params : (length (fn_params s) <= 31)%nat ∧ Forall (λ t, (length (show_ty (adjust t)) <= 64)%nat) (fn_params s);
}.

Lemma flatten_codes s : distinct s → flat_codes (flatten s) = mangle s.
Proof.
  intros Hd. unfold flat_codes, mangle, flatten. cbn [path params]. do 2 f_equal.
  assert (mangle_tys (prefixes (fn_path s)) (adjust <$> fn_params s) =
    concat (code_param <$> (flat_of ∘ adjust <$> fn_params s))) as E.
  { rewrite mangle_tys_plain; [by rewrite <- !list_fmap_compose|done|].
    intros u _. unfold prefixes. by intros (n & E & _)%list_elem_of_fmap. }
  destruct (fn_params s) as [|t l]; destruct (variadic s); try done;
    rewrite fmap_app, concat_app, <- E; done.
Qed.

Lemma flatten_text s : flat_text (flatten s) = show s.
Proof.
  unfold flat_text, show, show_params, flatten. cbn [path params].
  assert (show_param <$> (flat_of ∘ adjust <$> fn_params s) = show_ty ∘ adjust <$> fn_params s) as E.
  { rewrite <- list_fmap_compose. apply list_fmap_ext. intros i t _. apply show_flat. }
  destruct (fn_params s) as [|t l]; destruct (variadic s); try done; by rewrite fmap_app, E.
Qed.

Lemma flatten_ok s : symbol_ok s → flat_ok (flatten s).
Proof.
  intros [[Hne Hp] _ [Hn Hl]]. split; [done|].
  assert (Forall param_ok (flat_of ∘ adjust <$> fn_params s)) as Hf.
  { apply Forall_fmap. eapply Forall_impl; [exact Hl|]. intros t Ht. unfold param_ok, compose.
    destruct (base_letter (adjust t)) as [b Eb]. rewrite Eb, type_text_letter, show_flat.
    split; [done|]. split; [by destruct b|]. split; [by destruct b|done]. }
  assert (∀ c, c = 118 ∨ c = 122 → param_ok (mk_param [] c)) as Hc.
  { intros c Hc. unfold param_ok. destruct Hc as [->| ->]; simpl; (split; [done|]); vm_compute; split_and!; try done; lia. }
  unfold flatten. cbn [params]. destruct (fn_params s) as [|t l] eqn:El; destruct (variadic s);
    rewrite ?length_app, ?length_fmap; (split; [|simpl in *; lia]);
    try (apply Forall_app; split; [done|]); try (constructor; [|constructor]); auto.
Qed.

(** ** Properties *)


Definition sample_symbol : symbol :=
  mk_symbol [str "Mem"; str "Frame"; str "map_range"]
    [Const (Builtin ULong); Pointer (Const (Builtin Char)); Pointer (Builtin Char); Builtin UInt] true.

Lemma sample_symbol_ok : symbol_ok sample_symbol.
Proof.
  split; [split; [done|]|by vm_compute|split; [simpl; lia|]].
  - repeat constructor; by vm_compute.
  - repeat constructor; vm_compute; lia.
Qed.


(** Where the compiler does substitute, the demangler is wrong: it reads every substitution
    as an index into the list of parameters, so [strcmp]'s second parameter loses
    its [char], and the name of the kernel's own assertion handler, whose substitutions
    count the namespace first, makes it read an entry that was never written. *)
Theorem demangle_substitution :
  demangle_alloc_symbol 9 (mangle strcmp_symbol) = Ok (str "strcmp(*const char, *const)") ∧
  show strcmp_symbol = str "strcmp(*const char, *const char)" ∧
  demangle_alloc_symbol 9 (mangle failed_assert_symbol) = Fault Uninitialised.
Proof. by vm_compute. Qed.

(** ** Class types *)

Section Classes.
Context (rounds : nat).

(** A class name as a parameter, up to its end. *)
Lemma objstruct_app pre c s :
  component_ok c → (length c <= 64)%nat → (length (buffer s) + length c <= 128)%nat →
  (length (latest_type s) + length c <= 64)%nat →
  ∃ s', demangle_single_parameter rounds (pre ++ mangle_component c) (length pre) s =
      Ok (s', length (pre ++ mangle_component c)) ∧ grown c s s'.
Proof.
  intros Hc H64 Hb Hl. destruct (append_ok c s Hb Hl) as (s' & E & Hg). exists s'. split; [|done].
  destruct (mangle_component_hd c [] Hc) as (d & l & Ed & Hd). rewrite app_nil_r in Ed.
  pose proof (component_app pre c [] [] Hc ltac:(lia)) as Hcomp. rewrite app_nil_r in Hcomp.
  assert (type_text d = None ∧ (d =? 83) = false ∧ (d =? 78) = false) as (Ht & H83 & H78).
  { unfold is_digit in Hd. b2p. split_and!; [|apply Z.eqb_neq; lia..].
    unfold type_text. repeat (destruct (d =? _) eqn:?; b2p; [lia|]). done. }
  unfold demangle_single_parameter. rewrite at_app, Ed. cbn [hd]. bind_ok.
  rewrite Ht, H83, Hd, orb_true_l. unfold handle_objstruct, unmangle_name. rewrite at_app. cbn [hd]. bind_ok.
  rewrite H78. cbv iota zeta. rewrite <- Ed, Hcomp. bind_ok. bind_ok.
  rewrite push_ok by (simpl length; lia). bind_ok. bind_ok. rewrite app_nil_l.
  destruct Hc as (_ & _ & Hz). rewrite c_str_id, E by done. bind_ok. by rewrite length_app.
Qed.

(** A function whose only parameter is of a class type makes the demangler read
    past the end of its name: the object's text moves the index past its own last
    character, the loop then skips the byte there, the terminator, and looks for a
    separator beyond it. *)
Theorem demangle_class_reads_past p c :
  p ≠ [] → (length p <= rounds)%nat → Forall component_ok p → component_ok c →
  (length c <= 64)%nat → (length (join colons p) + 1 + length c <= 128)%nat →
  demangle_alloc_symbol rounds (str "_Z" ++ mangle_path p ++ mangle_component c) = Fault ReadPast.
Proof.
  intros Hne Hr Hp Hc H64 Hfit.
  pose proof (head_app rounds p (mangle_component c) Hne Hr Hp ltac:(lia)) as Hhead. cbv zeta in Hhead.
  unfold demangle_alloc_symbol. set (name := str "_Z" ++ mangle_path p ++ mangle_component c) in *.
  assert (is_mangled name = Ok true) as -> by done. bind_ok. cbn [negb].
  rewrite (head_bind rounds name _ _ _ Hhead). clear Hhead.
  match goal with |- context [demangle_parameters _ _ name _ ?x] => set (s0 := x) end.
  assert (length (buffer s0) = length (join colons p) + 1)%nat as Hb
    by (subst s0; simpl buffer; by rewrite length_app).
  set (pre := str "_Z" ++ mangle_path p).
  assert (name = pre ++ mangle_component c) as En by (subst name pre; by rewrite app_assoc).
  replace (2 + length (mangle_path p))%nat with (length pre) by done.
  destruct (objstruct_app pre c s0 Hc H64) as (s1 & E & G1 & G2 & G3);
    [lia|subst s0; simpl; lia|]. rewrite En. cbn [demangle_parameters].
  destruct (mangle_component_hd c [] Hc) as (d & l & Ed & Hd). rewrite app_nil_r in Ed.
  rewrite at_app, Ed at 1. cbn [hd]. bind_ok.
  replace (is_end_of_parameters d) with false
    by (unfold is_digit in Hd; b2p; symmetry; unfold is_end_of_parameters; rewrite !orb_false_iff, !Z.eqb_neq; lia).
  rewrite E. bind_ok. clear E.
  assert (at_ (pre ++ mangle_component c) (length (pre ++ mangle_component c)) = Ok 0) as ->
    by (rewrite <- (app_nil_r (pre ++ mangle_component c)) at 1; apply at_app).
  bind_ok. change ((0 =? 80) || (0 =? 75)) with false. cbv iota.
  unfold save_param. rewrite G2, G3. subst s0. cbn [latest_type old_params_i app].
  replace (_ <? 1024)%nat with true by (symmetry; apply Nat.ltb_lt; lia). bind_ok.
  unfold add_separator, at_. rewrite lookup_ge_None_2 by (rewrite (length_app _ [0]); simpl; lia). done.
Qed.
End Classes.

Lemma demangle_class_reads_past_witness :
  str "_Z" ++ mangle_path [str "Mem"; str "free"] ++ mangle_component (str "Block") =
    str "_ZN3Mem4freeE5Block" ∧
  demangle_alloc_symbol 9 (str "_Z" ++ mangle_path [str "Mem"; str "free"] ++ mangle_component (str "Block")) =
    Fault ReadPast.
Proof.
  split; [by vm_compute|].
  apply demangle_class_reads_past; try done; try (repeat constructor; by vm_compute); vm_compute; lia.
Defined.
