(* ===== verification/Arch.v ===== *)
(** * Arch: the processor queries and the serial port.

    [src/kernel/arch/cpuid.cc], [src/kernel/arch/sse.cc] and
    [src/kernel/arch/serial.cc].  What the [cpuid] instruction answers is an
    argument ([cpuid leaf subleaf] gives eax, ebx, ecx, edx); the values read from
    the ports of the serial controller are a stream, one per read. *)
From stdpp Require Import base numbers list.
From S2P Require Import Prelude.
Local Open Scope Z_scope.

Definition registers : Type := Z * Z * Z * Z.

(** What [cpuid] answers: four 32-bit registers. *)
Definition cpuid_wf (cpuid : Z → Z → registers) : Prop :=
  ∀ leaf sub, let '(eax, ebx, ecx, edx) := cpuid leaf sub in
    is_u32 eax ∧ is_u32 ebx ∧ is_u32 ecx ∧ is_u32 edx.

(** ** [CPUID] *)

Module CPUID.
Section CPUID.
Context (cpuid : Z → Z → registers).

(** The four bytes of [((u32* )buf)[k] = v], low byte first. *)
Definition word_bytes (v : Z) : list Z :=
  [field v 0 8; field v 8 8; field v 16 8; field v 24 8].

Definition cpu_vendor : list Z :=
  let '(eax, ebx, ecx, edx) := cpuid 0 0 in
  word_bytes ebx ++ word_bytes edx ++ word_bytes ecx ++ [0].

(** One round of the loop of [cpu_brand]. *)
Definition brand_words (i : Z) : list Z :=
  let '(eax, ebx, ecx, edx) := cpuid (u32 (0x80000002 + i)) 0 in
  word_bytes eax ++ word_bytes ebx ++ word_bytes ecx ++ word_bytes edx.

Definition cpu_brand : list Z :=
  brand_words 0 ++ brand_words 1 ++ brand_words 2 ++ [0].

(** [base * ebx / eax], a 64-bit product. *)
Definition tsc_freq : Z :=
  let '(eax, ebx, ecx, edx) := cpuid 0x15 0 in
  if negb (eax =? 0) && negb (ebx =? 0) then
    let base := if negb (ecx =? 0) then ecx else 1 in
    (base ⊗ ebx) `div` eax
  else 0.

End CPUID.
End CPUID.

(** ** [SSE] *)

Module SSE.

(** The registers the assembly reads and writes. *)
Record cpu_state := mk_cpu { cs : Z; cr0 : Z; cr4 : Z }.

(** [and $~(1<<2)] on the 64-bit register. *)
Definition enable (cpuid : Z → Z → registers) (sub : Z) (s : cpu_state) : bool * cpu_state :=
  if negb (Z.land (cs s) 3 =? 0) then (false, s)
  else
    let '(eax, ebx, ecx, edx) := cpuid 1 sub in
    if negb (Z.testbit edx 25) then (false, s)
    else if Z.land ecx 1 =? 0 then (false, s)
    else
      let ebx := ecx in
      if Z.land ebx (Z.shiftl 1 19) =? 0 then (false, s)
      else if Z.land ebx (Z.shiftl 1 20) =? 0 then (false, s)
      else
        let rax := Z.lor (Z.land (cr0 s) (u64 (Z.lnot (Z.shiftl 1 2)))) (Z.shiftl 1 1) in
        let rax' := Z.lor (cr4 s) (Z.lor (Z.shiftl 1 9) (Z.shiftl 1 10)) in
        (true, mk_cpu (cs s) rax rax').

(** The leaf is set, the sub-leaf is whatever [ecx] held. *)
Definition test (cpuid : Z → Z → registers) (sub : Z) : bool :=
  let '(eax, ebx, ecx, edx) := cpuid 1 sub in
  negb (Z.land edx (Z.shiftl 1 25) =? 0).

End SSE.

(** ** [UART] *)

Module UART.

Definition COM1 : Z := 0x3F8.

Inductive access := Out (port v : Z) | In (port : Z).

(** The accesses made, and the values the next reads will return. *)
Record uart_state := mk_uart { accesses : list access; input : list Z }.

Definition outb (port v : Z) (s : uart_state) : uart_state :=
  mk_uart (accesses s ++ [Out port v]) (input s).

(** A read of the stream; at its end the program is still waiting. *)
Definition inb (port : Z) (s : uart_state) : option (Z * uart_state) :=
  match input s with
  | v :: rest => Some (u8 v, mk_uart (accesses s ++ [In port]) rest)
  | [] => None
  end.

(** [None]: the loop-back test failed and the processor spins. *)
Definition init (s : uart_state) : option uart_state :=
  let s := outb (COM1 + 1) 0x00 s in
  let s := outb (COM1 + 3) 0x80 s in
  let s := outb (COM1 + 0) 0x03 s in
  let s := outb (COM1 + 1) 0x00 s in
  let s := outb (COM1 + 3) 0x03 s in
  let s := outb (COM1 + 2) 0xC7 s in
  let s := outb (COM1 + 4) 0x0B s in
  let s := outb (COM1 + 4) 0x1E s in
  let s := outb (COM1 + 0) 0xAE s in
  '(v, s) ← inb (COM1 + 0) s;
  if negb (v =? 0xAE) then None
  else Some (outb (COM1 + 4) 0x0F s).

Definition active (s : uart_state) : option (bool * uart_state) :=
  '(v, s) ← inb (COM1 + 5) s;
  Some (negb (Z.land v 1 =? 0), s).

Definition transmit_empty (s : uart_state) : option (bool * uart_state) :=
  '(v, s) ← inb (COM1 + 5) s;
  Some (negb (Z.land v 0x20 =? 0), s).

(** [while (!test());], one read of the stream per round. *)
Fixpoint wait (fuel : nat) (test : uart_state → option (bool * uart_state)) (s : uart_state) :
    option uart_state :=
  match fuel with
  | O => None
  | S fuel =>
      match test s with
      | Some (b, s) => if b then Some s else wait fuel test s
      | None => None
      end
  end.

Definition read (s : uart_state) : option (Z * uart_state) :=
  s ← wait (S (length (input s))) active s;
  inb COM1 s.

Definition write (data : Z) (s : uart_state) : option uart_state :=
  s ← wait (S (length (input s))) transmit_empty s;
  Some (outb COM1 data s).

End UART.

(** ** Properties of the queries *)

(** The time-stamp counter frequency is exact: the 64-bit product of the crystal
    frequency and the ratio's numerator never wraps, so the result is the
    quotient rounded down, below 2^64; with a zero numerator or denominator it is 0,
    and a crystal frequency the processor does not report counts as 1. *)
Theorem tsc_freq_exact cpuid :
  cpuid_wf cpuid →
  let '(eax, ebx, ecx, edx) := cpuid 0x15 0 in
  let base := if ecx =? 0 then 1 else ecx in
  0 <= CPUID.tsc_freq cpuid < 18446744073709551616 ∧
  (eax = 0 ∨ ebx = 0 → CPUID.tsc_freq cpuid = 0) ∧
  (eax ≠ 0 → ebx ≠ 0 →
   CPUID.tsc_freq cpuid * eax <= base * ebx < (CPUID.tsc_freq cpuid + 1) * eax).
Proof.
  intros Hwf. specialize (Hwf 0x15 0). unfold CPUID.tsc_freq.
  destruct (cpuid 0x15 0) as [[[eax ebx] ecx] edx]. destruct Hwf as (Ha & Hb & Hc & _). unfold is_u32 in *.
  replace (if negb (ecx =? 0) then ecx else 1) with (if ecx =? 0 then 1 else ecx) by (by destruct (ecx =? 0)).
  set (base := if ecx =? 0 then 1 else ecx).
  assert (0 <= base < 4294967296) as Hbase by (subst base; case_cond; lia).
  assert (0 <= base * ebx < 18446744073709551616) as Hp by nia.
  rewrite u64_id by done. destruct (eax =? 0) eqn:Ea; [b2p; simpl; split_and!; done || lia|].
  destruct (ebx =? 0) eqn:Eb; [b2p; simpl; split_and!; done || lia|]. b2p. simpl.
  pose proof (Z.div_mod (base * ebx) eax ltac:(lia)). pose proof (Z.mod_pos_bound (base * ebx) eax ltac:(lia)).
  assert (0 <= (base * ebx) `div` eax) by (apply Z.div_pos; lia).
  split_and!; [lia|nia|intros [?|?]; lia|intros _ _; nia].
Qed.

Definition skylake (leaf sub : Z) : registers :=
  if leaf =? 0x15 then (2, 250, 24000000, 0)
  else if leaf =? 0 then (22, 0x756e6547, 0x6c65746e, 0x49656e69)
  else if leaf =? 1 then (0x506e3, 0, 0x7ffafbbf, 0xbfebfbff) else (0, 0, 0, 0).

Lemma skylake_wf : cpuid_wf skylake.
Proof. intros leaf sub. unfold skylake, is_u32. repeat case_cond; lia. Qed.

Lemma tsc_freq_exact_witness : CPUID.tsc_freq skylake * 2 <= 24000000 * 250.
Proof.
  pose proof (tsc_freq_exact skylake skylake_wf) as (_ & _ & H). by apply H.
Defined.

(** The bytes of a register reassemble to it. *)
Lemma word_bytes_value v : is_u32 v →
  foldr (λ b acc, b + 256 * acc) 0 (CPUID.word_bytes v) = v.
Proof. unfold is_u32, CPUID.word_bytes, field. simpl. intros. dlia. Qed.

(** [vendor] and [brand] fill their buffers of 13 and 49 bytes exactly. *)
Lemma cpu_vendor_length cpuid : length (CPUID.cpu_vendor cpuid) = 13%nat.
Proof. unfold CPUID.cpu_vendor. by destruct (cpuid 0 0) as [[[? ?] ?] ?]. Qed.

Lemma cpu_brand_length cpuid : length (CPUID.cpu_brand cpuid) = 49%nat.
Proof.
  unfold CPUID.cpu_brand, CPUID.brand_words.
  by destruct (cpuid _ 0) as [[[? ?] ?] ?], (cpuid _ 0) as [[[? ?] ?] ?], (cpuid _ 0) as [[[? ?] ?] ?].
Qed.

(** "GenuineIntel": the registers are stored in the order ebx, edx, ecx. *)
Example cpu_vendor_intel :
  CPUID.cpu_vendor skylake = [71; 101; 110; 117; 105; 110; 101; 73; 110; 116; 101; 108; 0].
Proof. by vm_compute. Qed.

(** *** SSE *)

Lemma land_bit x k : 0 <= k → (Z.land x (Z.shiftl 1 k) =? 0) = negb (Z.testbit x k).
Proof.
  intros Hk. rewrite Z.shiftl_mul_pow2, Z.mul_1_l by done.
  destruct (Z.testbit x k) eqn:E; simpl.
  - apply Z.eqb_neq. intros H0. assert (Z.testbit (Z.land x (2 ^ k)) k = true) as H
      by (by rewrite Z.land_spec, E, Z.pow2_bits_true). by rewrite H0, Z.bits_0 in H.
  - apply Z.eqb_eq, Z.bits_inj'. intros n Hn. rewrite Z.land_spec, Z.pow2_bits_eqb, Z.bits_0 by done.
    destruct (k =? n) eqn:En; b2p; [subst; by rewrite E|apply andb_false_r].
Qed.

(** A branch of [SSE::enable] that fails. *)
Ltac fails := cbv beta iota zeta; split; [split; [done|intros; intuition (congruence || lia)]|split; [done|split; done]].

(** C37: [SSE::enable] succeeds exactly in ring 0 on a processor with SSE, SSE3,
    SSE4.1 and SSE4.2; it then clears the emulation bit and sets the monitor bit
    of [cr0] and the two SSE bits of [cr4], leaving every other bit; when it fails it
    leaves both registers alone, and [SSE::test] holds whenever it succeeds. *)
Theorem sse_enable_correct cpuid sub s :
  is_u64 (SSE.cr0 s) →
  let '(eax, ebx, ecx, edx) := cpuid 1 sub in
  let '(ok, s') := SSE.enable cpuid sub s in
  (ok = true ↔ SSE.cs s `mod` 4 = 0 ∧ Z.testbit edx 25 = true ∧ Z.testbit ecx 0 = true ∧
     Z.testbit ecx 19 = true ∧ Z.testbit ecx 20 = true) ∧
  (ok = true → SSE.test cpuid sub = true) ∧
  (ok = false → s' = s) ∧
  (ok = true → SSE.cs s' = SSE.cs s ∧ (∀ i, 0 <= i →
     Z.testbit (SSE.cr0 s') i = negb (i =? 2) && Z.testbit (SSE.cr0 s) i || (i =? 1) ∧
     Z.testbit (SSE.cr4 s') i = Z.testbit (SSE.cr4 s) i || (i =? 9) || (i =? 10))).
Proof.
  intros H0. unfold SSE.enable, SSE.test. destruct (cpuid 1 sub) as [[[eax ebx] ecx] edx] eqn:Ec.
  change 3 with (Z.ones 2) at 1. rewrite Z.land_ones by lia. change (2 ^ 2) with 4.
  change (Z.land ecx 1) with (Z.land ecx (Z.shiftl 1 0)). rewrite !land_bit by lia.
  destruct (SSE.cs s `mod` 4 =? 0) eqn:E1; b2p; cbn [negb]; cbv iota; [|fails].
  destruct (Z.testbit edx 25); cbn [negb]; cbv iota; [|fails].
  destruct (Z.testbit ecx 0); cbn [negb]; cbv iota; [|fails].
  destruct (Z.testbit ecx 19); cbn [negb]; cbv iota; [|fails].
  destruct (Z.testbit ecx 20); cbn [negb]; cbv iota; [|fails].
  split_and!; try done. intros _. split; [done|]. cbn [SSE.cr0 SSE.cr4]. intros i Hi. split.
  - rewrite Z.lor_spec, Z.land_spec. change (Z.shiftl 1 1) with (2 ^ 1).
    rewrite (Z.pow2_bits_eqb 1), (Z.eqb_sym 1) by lia. f_equal.
    change (u64 (Z.lnot (Z.shiftl 1 2))) with (Z.ldiff (Z.ones 64) (2 ^ 2)).
    rewrite Z.ldiff_spec, Z.pow2_bits_eqb, (Z.eqb_sym 2), Z.testbit_ones_nonneg by lia.
    destruct (decide (i < 64)).
    + replace (i <? 64) with true by (symmetry; by apply Z.ltb_lt). by rewrite andb_comm.
    + assert (Z.testbit (SSE.cr0 s) i = false) as ->; [|by rewrite !andb_false_r].
      unfold is_u64 in H0. rewrite <- (Z.mod_small (SSE.cr0 s) (2 ^ 64)) by (change (2 ^ 64) with 18446744073709551616; lia).
      apply Z.mod_pow2_bits_high. lia.
  - rewrite !Z.lor_spec. change (Z.shiftl 1 9) with (2 ^ 9). change (Z.shiftl 1 10) with (2 ^ 10).
    rewrite !Z.pow2_bits_eqb, (Z.eqb_sym 9), (Z.eqb_sym 10) by lia. apply orb_assoc.
Qed.

Lemma sse_enable_correct_witness : (SSE.enable skylake 0 (SSE.mk_cpu 0x28 0x80000015 0x20)).1 = true.
Proof.
  pose proof (sse_enable_correct skylake 0 (SSE.mk_cpu 0x28 0x80000015 0x20)) as H.
  destruct H as ([_ H] & _); [unfold is_u64; simpl; lia|]. apply H. repeat split.

Defined.

(** ** The serial port *)

(** Status reads that report an empty transmitter. *)
Definition ready (v : Z) : bool := Z.testbit (u8 v) 5.
Definition ready_count (l : list Z) : nat := length (filter (λ v, ready v = true) l).

(** The bytes sent, and the status reads made. *)
Definition sent (s : UART.uart_state) : list Z :=
  omap (λ a, match a with
             | UART.Out p v => if p =? UART.COM1 then Some v else None
             | UART.In _ => None
             end) (UART.accesses s).

Lemma sent_snoc acc l a : sent (UART.mk_uart (acc ++ [a]) l) =
  sent (UART.mk_uart acc l) ++ match a with
                               | UART.Out p v => if p =? UART.COM1 then [v] else []
                               | UART.In _ => []
                               end.
Proof.
  unfold sent. cbn [UART.accesses]. rewrite omap_app. f_equal. destruct a as [p v|p]; [|done]. simpl. by case_cond.
Qed.

Lemma transmit_empty_cons acc v l :
  UART.transmit_empty (UART.mk_uart acc (v :: l)) =
  Some (ready v, UART.mk_uart (acc ++ [UART.In (UART.COM1 + 5)]) l).
Proof.
  unfold UART.transmit_empty, UART.inb. simpl. unfold ready.
  change 0x20 with (Z.shiftl 1 5). rewrite land_bit by lia. by rewrite negb_involutive.
Qed.

(** Polling stops at the first ready status and sends nothing. *)
Lemma wait_ready fuel s :
  (length (UART.input s) < fuel)%nat → (1 <= ready_count (UART.input s))%nat →
  ∃ s', UART.wait fuel UART.transmit_empty s = Some s' ∧ sent s' = sent s ∧
    ready_count (UART.input s) = S (ready_count (UART.input s')).
Proof.
  destruct s as [acc input]. cbn [UART.input]. revert acc input.
  induction fuel as [|fuel IH]; intros acc input Hf Hr; [lia|]. destruct input as [|v input]; [unfold ready_count in Hr; simpl in Hr; lia|].
  cbn [UART.wait]. rewrite transmit_empty_cons.
  destruct (ready v) eqn:Ev.
  - eexists. split; [reflexivity|]. split; [by rewrite sent_snoc, app_nil_r|].
    unfold ready_count. by rewrite filter_cons_True.
  - assert (ready_count (v :: input) = ready_count input) as Ec
      by (unfold ready_count; by rewrite filter_cons_False by congruence).
    destruct (IH (acc ++ [UART.In (UART.COM1 + 5)]) input) as (s' & E & Hs & Hc);
      [simpl in Hf; lia|lia|].
    exists s'. split; [done|]. split; [by rewrite Hs, sent_snoc, app_nil_r|]. by rewrite Ec.
Qed.

(** [UART::write] sends its byte once, after the first ready status. *)
Lemma uart_write_spec data s :
  (1 <= ready_count (UART.input s))%nat →
  ∃ s', UART.write data s = Some s' ∧ sent s' = sent s ++ [data] ∧
    ready_count (UART.input s) = S (ready_count (UART.input s')).
Proof.
  intros Hr. unfold UART.write.
  destruct (wait_ready (S (length (UART.input s))) s ltac:(lia) Hr) as (s1 & -> & Hs & Hc).
  simpl. eexists. split; [reflexivity|]. destruct s1 as [acc input]. unfold UART.outb. simpl in *.
  by rewrite sent_snoc, Hs.
Qed.

(** [UART::init] finishes exactly when the loop-back read returns the byte sent. *)
Lemma uart_init_spec s v l : UART.input s = v :: l →
  is_Some (UART.init s) ↔ u8 v = 0xAE.
Proof.
  intros Hi. unfold UART.init, UART.inb, UART.outb. cbn [UART.input UART.accesses]. rewrite Hi. simpl.
  destruct (u8 v =? 174) eqn:E; b2p; simpl; (split; [|done || by intros ?]).
  - done.
  - by intros [? [=]].
Qed.
