(* ===== verification/Log.v ===== *)
(** * Log: the kernel's log.

    [src/kernel/dbg/logger/log.cc].  A message goes to the serial port byte by
    byte ([Arch]) and, once it is initialised, to the terminal.  [vsprintf] and the
    terminal are the support library's: formatting is an argument, what the
    terminal was given is recorded.  The buffers keep their sizes (128 bytes for the
    prefixed format, 1024 for the formatted text). *)
From stdpp Require Import base numbers list strings.
From S2P Require Import Prelude Text Arch.
Local Open Scope Z_scope.

Module Log.

(** Why a call does not return: a buffer is overrun, or the serial port never
    becomes ready. *)
Inductive stop := Overrun | Waiting.

Record log_state := mk_log {
  serial : UART.uart_state;
  tty_initialized : bool;
  tty : list Z;
}.

Definition result : Type := (Z * log_state) + stop.

Definition and_then (r : result) (f : Z → log_state → result) : result :=
  match r with inl (n, s) => f n s | inr e => inr e end.

Fixpoint print_serial (message : list Z) (s : UART.uart_state) : option UART.uart_state :=
  match message with
  | [] => Some s
  | c :: message => s ← UART.write c s; print_serial message s
  end.

Definition print (message : list Z) (s : log_state) : result :=
  match print_serial message (serial s) with
  | None => inr Waiting
  | Some u =>
      let len := Z.of_nat (length message) in
      inl (len, mk_log u (tty_initialized s)
                  (if tty_initialized s then tty s ++ message else tty s))
  end.

(** The level prefixes: an escape sequence, the name, a second sequence. *)
Definition ESC : list Z := [27].
Definition prefix (colour name : string) : list Z :=
  ESC ++ str colour ++ str name ++ ESC ++ str "[36m ".

Definition RESET : list Z := ESC ++ str "[0m" ++ [10].

Section Format.
Context {args : Type} (vsprintf_ : list Z → args → list Z) (no_args : args).

(** A formatted text and its terminator must fit the buffer of 1024 bytes. *)
Definition vsprintf (format : list Z) (a : args) (s : log_state) : result :=
  let buffer := vsprintf_ format a in
  if (length buffer <? 1024)%nat then print buffer s else inr Overrun.

Definition printf (format : list Z) (a : args) (s : log_state) : result :=
  let buffer := vsprintf_ format a in
  if (length buffer <? 1024)%nat then
    and_then (print buffer s) (λ n s, inl (0 + n, s))
  else inr Overrun.

(** The shape of every level: [strcat] onto a buffer of 128 bytes, the formatted
    message, the reset sequence. *)
Definition level (p : list Z) (tail : log_state → result) (format : list Z) (a : args)
    (s : log_state) : result :=
  let base := p ++ format in
  if (length base <? 128)%nat then
    and_then (vsprintf base a s) (λ n s, and_then (tail s) (λ k s, inl (0 + n + k, s)))
  else inr Overrun.

Definition info := level (prefix "[37;1m" "[    INFO]") (print RESET).
Definition critical := level (prefix "[31;1m" "[CRITICAL]") (print RESET).
Definition success := level (prefix "[32;1m" "[ SUCCESS]") (print RESET).
Definition running := level (prefix "[90;1m" "[ RUNNING]") (print RESET).
Definition debug := level (prefix "[34;1m" "[   DEBUG]") (printf RESET no_args).
Definition warning := level (prefix "[33;1m" "[ WARNING]") (print RESET).

Definition ASSERT_MESSAGE : list Z :=
  str "Failed assertion " ++ ESC ++ str "[0m" ++ ESC ++ str "[41m%s" ++ ESC ++ str "[0m" ++ [10; 9] ++
  str "   [ " ++ ESC ++ str "[33m%s" ++ ESC ++ str "[0m ]  ->  " ++ ESC ++ str "[36;4m%s:%d" ++
  ESC ++ str "[0m in " ++ ESC ++ str "[36;4m%s".

(** The five arguments of the message are one argument list. *)
Definition failed_assert (a : args) (s : log_state) : result := critical ASSERT_MESSAGE a s.

End Format.
End Log.
Import Log.

(** ** Printing *)

Lemma print_serial_spec message s :
  (length message <= ready_count (UART.input s))%nat →
  ∃ s', print_serial message s = Some s' ∧ sent s' = sent s ++ message ∧
    ready_count (UART.input s) = (length message + ready_count (UART.input s'))%nat.
Proof.
  revert s; induction message as [|c message IH]; intros s Hr; simpl in *.
  - exists s. by rewrite app_nil_r.
  - destruct (uart_write_spec c s ltac:(lia)) as (s1 & -> & Hs & Hc).
    destruct (IH s1 ltac:(lia)) as (s2 & E & Hs2 & Hc2). exists s2. simpl. split; [done|].
    rewrite Hs2, Hs, <- app_assoc. split; [done|lia].
Qed.

(** What a state holds after [text] was logged. *)
Record logged (text : list Z) (s s' : log_state) : Prop := {
  lg_sent : sent (serial s') = sent (serial s) ++ text;
  lg_tty : tty s' = if tty_initialized s then tty s ++ text else tty s;
  lg_init : tty_initialized s' = tty_initialized s;
  lg_ready : ready_count (UART.input (serial s)) =
    (length text + ready_count (UART.input (serial s')))%nat;
}.

Lemma logged_trans t1 t2 s1 s2 s3 : logged t1 s1 s2 → logged t2 s2 s3 → logged (t1 ++ t2) s1 s3.
Proof.
  intros [A1 A2 A3 A4] [B1 B2 B3 B4]. split; [by rewrite B1, A1, app_assoc| |by rewrite B3|rewrite length_app; lia].
  rewrite B2, A3, A2. destruct (tty_initialized s1); [by rewrite app_assoc|done].
Qed.

Lemma print_spec message s :
  (length message <= ready_count (UART.input (serial s)))%nat →
  ∃ s', print message s = inl (Z.of_nat (length message), s') ∧ logged message s s'.
Proof.
  intros Hr. destruct (print_serial_spec message (serial s) Hr) as (u & E & Hs & Hc).
  unfold print. rewrite E. eexists. split; [reflexivity|]. by split.
Qed.

Section Levels.
Context {args : Type} (vsprintf_ : list Z → args → list Z) (no_args : args).

(** Every level but [debug] prints the reset sequence directly. *)
Lemma level_spec p format a s :
  (length p + length format < 128)%nat →
  let text := vsprintf_ (p ++ format) a in
  (length text < 1024)%nat →
  (length text + length RESET <= ready_count (UART.input (serial s)))%nat →
  ∃ s', level vsprintf_ p (print RESET) format a s =
      inl (Z.of_nat (length text + length RESET), s') ∧ logged (text ++ RESET) s s'.
Proof.
  intros Hp text Ht Hr. unfold level, vsprintf. fold text. rewrite length_app.
  replace (_ <? 128)%nat with true by (symmetry; by apply Nat.ltb_lt).
  replace (_ <? 1024)%nat with true by (symmetry; by apply Nat.ltb_lt).
  destruct (print_spec text s ltac:(lia)) as (s1 & -> & H1).
  destruct (print_spec RESET s1) as (s2 & E2 & H2); [pose proof (lg_ready _ _ _ H1); lia|].
  exists s2. cbn [and_then]. rewrite E2. cbn [and_then]. split; [do 2 f_equal; lia|by eapply logged_trans].
Qed.

End Levels.

(** ** Properties *)

(** C28: every log level returns exactly when its text fits: a format of at most 104
    bytes whose formatted text, prefix included, is below 1024 bytes is sent to the
    serial port (and to the terminal once initialised) followed by the reset
    sequence, each byte once and in order, and the number of bytes is returned; a longer format
    overruns the 128-byte buffer, and a longer text the 1024-byte one. *)
Theorem log_bounds {args : Type} (vsprintf_ : list Z → args → list Z) (no_args : args)
    (p : list Z) (log : list Z → args → log_state → result) format a s :
  (p, log) ∈ [(prefix "[37;1m" "[    INFO]", info vsprintf_);
              (prefix "[31;1m" "[CRITICAL]", critical vsprintf_);
              (prefix "[32;1m" "[ SUCCESS]", success vsprintf_);
              (prefix "[90;1m" "[ RUNNING]", running vsprintf_);
              (prefix "[33;1m" "[ WARNING]", warning vsprintf_)] →
  let text := vsprintf_ (p ++ format) a in
  ((length format <= 104)%nat → (length text < 1024)%nat →
   (length text + 5 <= ready_count (UART.input (serial s)))%nat →
   ∃ s', log format a s = inl (Z.of_nat (length text + 5), s') ∧ logged (text ++ RESET) s s') ∧
  ((104 < length format)%nat ∨ (1024 <= length text)%nat → log format a s = inr Overrun).
Proof.
  intros Hin text.
  assert (length p = 23%nat ∧ log = level vsprintf_ p (print RESET)) as [Hp ->].
  { repeat (apply elem_of_cons in Hin as [[= -> ->]|Hin]; [done|]). by apply elem_of_nil in Hin. }
  split.
  - intros Hf Ht Hr. apply (level_spec vsprintf_ p format a s); [lia|done|done].
  - intros Hlong. unfold level, vsprintf. rewrite length_app, Hp. fold text.
    destruct (23 + length format <? 128)%nat eqn:E; [|done]. apply Nat.ltb_lt in E.
    destruct Hlong as [?|?]; [lia|].
    replace (length text <? 1024)%nat with false by (symmetry; apply Nat.ltb_ge; lia). done.
Qed.

(** The assertion message and the critical prefix fill 110 of the 128 bytes. *)
Lemma assert_message_fits :
  length (prefix "[31;1m" "[CRITICAL]" ++ ASSERT_MESSAGE) = 110%nat.
Proof. by vm_compute. Qed.

(** Witness: one literal argument list, a port that is always ready. *)
Definition plain (format : list Z) (a : unit) : list Z := format.
Definition ready_log : log_state := mk_log (UART.mk_uart [] (replicate 64 0x20)) true [].

Lemma log_bounds_witness :
  ∃ s', success plain (str "Memory mapped") () ready_log = inl (41, s') ∧
    sent (serial s') = prefix "[32;1m" "[ SUCCESS]" ++ str "Memory mapped" ++ RESET.
Proof.
  destruct (log_bounds plain () (prefix "[32;1m" "[ SUCCESS]") (success plain) (str "Memory mapped") () ready_log)
    as [(s' & E & H) _].
  - do 2 right. left.
  - vm_compute. lia.
  - vm_compute. lia.
  - vm_compute. lia.
  - exists s'. split; [exact E|]. destruct H as [H _ _ _]. rewrite H. reflexivity.
Defined.
