(* ===== verification/Font.v ===== *)
(** * Font: the font converter of the build.

    [misc/f16toc.c] turns the 4096 bytes of a font file into the C array the terminal
    driver is compiled with.  Files are arguments: [file] is [None] when [fopen]
    fails, otherwise the bytes [fread] can deliver. *)
From stdpp Require Import base numbers list strings.
From S2P Require Import Prelude Text.
Local Open Scope Z_scope.

Definition font_size : nat := 4096.

(** What [main] leaves: the exit code, and whether it wrote the array. *)
Record run := mk_run { exit_code : Z; stdout : list Z; stderr : bool }.

Definition header : list Z :=
  str "#include <klib/types.h>" ++ [10] ++ str "extern " ++ [34] ++ str "C" ++ [34] ++
  str " const u8 tty_font[] = {" ++ [10].

(** One round of the loop over [size] bytes. *)
Definition element (size i : nat) (v : Z) : list Z :=
  (if (i mod 12 =? 0)%nat then str "  " else []) ++
  str "0x" ++ hex2 v ++
  (if (i + 1 <? size)%nat then str ", " else str " ") ++
  (if ((i + 1) mod 12 =? 0)%nat then [10] else []).

Fixpoint elements (size i : nat) (font : list Z) : list Z :=
  match font with
  | [] => []
  | v :: font => element size i v ++ elements size (S i) font
  end.

Definition main (argc : Z) (file : option (list Z)) : run :=
  if argc <? 2 then mk_run 1 [] true
  else
    match file with
    | None => mk_run 1 [] true
    | Some bytes =>
        let font := take font_size bytes in
        if negb (length font =? font_size)%nat then mk_run 1 [] true
        else
          mk_run 0 (header ++ elements font_size 0 font ++
                    (if negb (font_size mod 12 =? 0)%nat then [10] else []) ++ str "};" ++ [10]) false
    end.

(** ** The array, as a compiler reads it *)

(** The bytes of the hexadecimal literals of a text, in order. *)
Fixpoint literals (fuel : nat) (l : list Z) : list Z :=
  match fuel with
  | O => []
  | S fuel =>
      match l with
      | 48 :: 120 :: a :: b :: rest =>
          match hex_value a, hex_value b with
          | Some x, Some y => 16 * x + y :: literals fuel rest
          | _, _ => literals fuel (120 :: a :: b :: rest)
          end
      | _ :: rest => literals fuel rest
      | [] => []
      end
  end.

Definition is_byte (v : Z) : Prop := 0 <= v < 256.

(** Skipping text that starts no literal. *)
Lemma literals_skip fuel pre l :
  Forall (λ c, c ≠ 48) pre → literals (length pre + fuel) (pre ++ l) = literals fuel l.
Proof.
  induction 1 as [|c pre Hc Hp IH]; [done|]. cbn [length Nat.add app]. rewrite <- IH.
  destruct c as [|p|p]; [done| |done]. cbn [literals].
  repeat (destruct p as [p|p|]; try reflexivity). done.
Qed.

Lemma literals_hex2 fuel v l : is_byte v →
  literals (S fuel) (str "0x" ++ hex2 v ++ l) = v :: literals fuel l.
Proof.
  unfold is_byte. intros Hv. cbn -[hex_char]. rewrite !hex_value_char by dlia. f_equal. dlia.
Qed.

(** The text of one element before and after its literal. *)
Definition lead (i : nat) : list Z := if (i mod 12 =? 0)%nat then str "  " else [].
Definition trail (size i : nat) : list Z :=
  (if (i + 1 <? size)%nat then str ", " else str " ") ++ (if ((i + 1) mod 12 =? 0)%nat then [10] else []).

Lemma element_eq size i v : element size i v = lead i ++ str "0x" ++ hex2 v ++ trail size i.
Proof. done. Qed.

Lemma lead_plain i : Forall (λ c, c ≠ 48) (lead i).
Proof. unfold lead. case_match; by repeat constructor. Qed.
Lemma trail_plain size i : Forall (λ c, c ≠ 48) (trail size i).
Proof. unfold trail. repeat case_match; by repeat constructor. Qed.

(** The rounds that read [l] elements. *)
Fixpoint rounds (size i : nat) (font : list Z) : nat :=
  match font with
  | [] => O
  | _ :: font => length (lead i) + S (length (trail size i) + rounds size (S i) font)
  end.

Lemma elements_literals fuel size i font l :
  Forall is_byte font →
  literals (rounds size i font + fuel) (elements size i font ++ l) = font ++ literals fuel l.
Proof.
  intros Hf. revert i; induction Hf as [|v font Hv Hf IH]; intros i; [done|].
  cbn [rounds elements]. rewrite element_eq, <- !app_assoc, <- Nat.add_assoc.
  rewrite literals_skip by apply lead_plain. rewrite Nat.add_succ_l, literals_hex2 by done.
  rewrite <- Nat.add_assoc, literals_skip by apply trail_plain. by rewrite IH.
Qed.

Lemma rounds_bound size i font : (rounds size i font <= length (elements size i font))%nat.
Proof.
  revert i; induction font as [|v font IH]; intros i; [done|]. cbn [rounds elements].
  rewrite element_eq, !length_app. specialize (IH (S i)). simpl (length (str _)). lia.
Qed.

Lemma literals_nil fuel l : Forall (λ c, c ≠ 48) l → literals fuel l = [].
Proof.
  revert l; induction fuel as [|fuel IH]; intros l Hl; [done|]. destruct Hl as [|c l Hc Hl]; [done|].
  rewrite <- (IH l Hl) at 1. change (c :: l) with ([c] ++ l).
  change (S fuel) with (length [c] + fuel)%nat. by rewrite literals_skip by by repeat constructor.
Qed.

(** ** Properties *)

(** C39: the converter round-trips the font: for a file of at least 4096 bytes the program
    succeeds and the literals of the array it prints are exactly the first 4096
    bytes of the file, in order; a missing argument, an unreadable or a shorter
    file is an error that prints no array. *)
Theorem font_roundtrip argc bytes :
  (2 <= argc → (font_size <= length bytes)%nat → Forall is_byte bytes →
   let r := main argc (Some bytes) in
   exit_code r = 0 ∧ stderr r = false ∧
   literals (length (stdout r)) (stdout r) = take font_size bytes) ∧
  (argc < 2 ∨ (length bytes < font_size)%nat → main argc (Some bytes) = mk_run 1 [] true) ∧
  main argc None = mk_run 1 [] true.
Proof.
  split_and!.
  - intros Ha Hl Hb r. unfold r, main.
    replace (argc <? 2) with false by (symmetry; by apply Z.ltb_ge).
    assert (length (take font_size bytes) = font_size) as Hlen by (rewrite length_take; lia).
    rewrite Hlen, Nat.eqb_refl. cbn [negb exit_code stdout stderr]. split_and!; [done..|].
    assert (Forall is_byte (take font_size bytes)) as Hf by by apply Forall_take.
    generalize dependent (take font_size bytes). intros font _ Hf.
    generalize font_size. intros size. set (tl := (if negb _ then [10] else []) ++ str "};" ++ [10]).
    assert (Forall (λ c, c ≠ 48) tl) as Htl by (subst tl; case_match; by repeat constructor).
    rewrite length_app. rewrite literals_skip by (by vm_compute; repeat constructor).
    pose proof (rounds_bound size 0 font). rewrite length_app.
    replace (length (elements size 0 font) + length tl)%nat with
      (rounds size 0 font + (length (elements size 0 font) - rounds size 0 font + length tl))%nat by lia.
    rewrite elements_literals by done. by rewrite literals_nil, app_nil_r.
  - intros [Ha|Hl]; unfold main; [by replace (argc <? 2) with true by (symmetry; by apply Z.ltb_lt)|].
    case_cond; [done|]. rewrite length_take.
    replace (_ =? font_size)%nat with false by (symmetry; apply Nat.eqb_neq; lia). done.
  - unfold main. by case_cond.
Qed.

Lemma font_roundtrip_witness :
  exit_code (main 2 (Some (replicate 4096 7))) = 0.
Proof.
  apply (font_roundtrip 2 (replicate 4096 7)); [lia|by rewrite length_replicate|].
  apply Forall_replicate. unfold is_byte. lia.
Defined.
