(* ===== verification/Dump.v ===== *)
(** * Dump: the code window of a crash report.

    [Err::Handler::dump_at_addr] of [src/kernel/err/dump.cc] and [search_repr] of
    [src/kernel/err/meta_resolver.cc].  The disassembler (Zydis), the debug
    information and [sprintf]'s pointer format are libraries outside the
    repository: arguments.  The report is the list of the choices made for each
    line, not the box drawn around it. *)
From stdpp Require Import base numbers list strings.
From S2P Require Import Prelude Text Mem Symbols Faults Demangle Mangle.
Local Open Scope Z_scope.

(** ** What the disassembler returns *)

(** The operand kinds the code tells apart: [mem] is based on the instruction
    pointer or not, with the size of its displacement. *)
Inductive operand :=
| Immediate (is_relative : bool) (value : Z)
| Memory (base_rip : bool) (disp_size disp_value : Z)
| OtherOperand.

(** [i_follow]: the mnemonic is one of call, lea, jmp and mov. *)
Record instruction := mk_insn { i_length : Z; i_text : list Z; i_follow : bool; operands : list operand }.

(** One line: the address, whether it is the marked one, the instruction's text and
    the name of the function it refers to. *)
Record line := mk_line { l_address : Z; l_marked : bool; l_text : list Z; l_target : option (list Z) }.

Section Dump.
Context (string_at : Z → list Z) (format_ptr : Z → list Z).
Context (addr2line : Z → option Z).
(** [ZydisDisassembleIntel] at an address with a number of bytes available. *)
Context (disassemble : Z → Z → option instruction).
Context (symbol_table : list symbol_entry).
(** The rounds the demangler's unbounded loop is given. *)
Context (rounds : nat).

(** ** Names *)

Definition search_repr (addr : Z) (r : option symbol_entry * bool) : result (list Z) :=
  match r with
  | (None, _) => Ok (str "FAILED TO RESOLVE")
  | (Some entry, exact) =>
      let text := if negb exact
                  then string_at (name entry) ++ str " + " ++ format_ptr (addr ⊖ address entry)
                  else string_at (name entry) in
      buffer ← push 128 [] (text ++ [0]);
      demangle_alloc_symbol rounds (c_str buffer)
  end.

Definition addrsym_repr (addr : Z) : result (list Z) :=
  search_repr addr (resolve_address symbol_table addr).

(** ** Where the window starts *)

(** The instruction [offset] bytes into the function, with the length argument as
    the code computes it. *)
Definition decode (entry : symbol_entry) (offset : Z) : option instruction :=
  disassemble (address entry ⊕ offset) (size entry ⊖ offset).

(** The first loop: [instruction_addresses] is the ring of 32 entries. *)
Fixpoint scan (fuel : nat) (entry : symbol_entry) (disas offset : Z) (ring : list (option Z))
    (count : Z) : result (list (option Z) * Z) :=
  match fuel with
  | O => Fault OutOfFuel
  | S fuel =>
      match decode entry offset with
      | None => Ok (ring, count)
      | Some insn =>
          let runtime := address entry ⊕ offset in
          let ring := <[Z.to_nat (count `mod` 32) := Some runtime]> ring in
          let count := count + 1 in
          if runtime >=? disas then Ok (ring, count)
          else scan fuel entry disas (offset ⊕ i_length insn) ring count
      end
  end.

(** The second loop: back from the function's start to [start]. *)
Fixpoint skip (fuel : nat) (entry : symbol_entry) (start offset : Z) : result Z :=
  match fuel with
  | O => Fault OutOfFuel
  | S fuel =>
      if address entry ⊕ offset <? start then
        match decode entry offset with
        | None => Ok offset
        | Some insn => skip fuel entry start (offset ⊕ i_length insn)
        end
      else Ok offset
  end.

Definition SYMBOL_START_THRESHOLD : Z := 96.

Definition window_start (fuel : nat) (entry : symbol_entry) (disas : Z) : result Z :=
  if disas ⊖ address entry <=? SYMBOL_START_THRESHOLD then Ok 0
  else
    '(ring, count) ← scan fuel entry disas 0 (replicate 32 None) 0;
    let start_index := if count >=? 4 then count - 4 else 0 in
    match ring !! Z.to_nat (start_index `mod` 32) with
    | Some (Some start) => skip fuel entry start 0
    | _ => Fault Uninitialised
    end.

(** ** The lines *)

(** The address an operand names, if it names one. *)
Definition operand_target (runtime : Z) (insn : instruction) (op : operand) : option Z :=
  match op with
  | Immediate true value => Some (u64 (runtime + i_length insn + value))
  | Immediate false value => Some (u64 value)
  | Memory true disp_size value =>
      if disp_size >? 0 then Some (u64 (runtime + i_length insn + value)) else None
  | _ => None
  end.

(** The loop over the operands stops at the first that names a kernel address. *)
Fixpoint target_loop (runtime : Z) (insn : instruction) (ops : list operand) :
    result (option (list Z)) :=
  match ops with
  | [] => Ok None
  | op :: ops =>
      match operand_target runtime insn op with
      | Some target =>
          if target >=? KERNEL_BASE then
            match resolve_address symbol_table target with
            | (Some entry, true) =>
                repr ← search_repr target (Some entry, true);
                Ok (match repr with
                    | [] => None
                    | 48 :: 120 :: _ => None
                    | _ => Some repr
                    end)
            | _ => Ok None
            end
          else target_loop runtime insn ops
      | None => target_loop runtime insn ops
      end
  end.

Definition instructions_to_show : nat := 7.

(** The last loop, at most [n] lines. *)
Fixpoint lines (n : nat) (entry : symbol_entry) (disas offset : Z) : result (list line) :=
  match n with
  | O => Ok []
  | S n =>
      match decode entry offset with
      | None => Ok []
      | Some insn =>
          let runtime := address entry ⊕ offset in
          let marked := (disas >=? runtime) && (disas <? (runtime ⊕ i_length insn)) in
          target ← (if i_follow insn then target_loop runtime insn (operands insn) else Ok None);
          rest ← lines n entry disas (offset ⊕ i_length insn);
          Ok (mk_line runtime marked (i_text insn) target :: rest)
      end
  end.

(** What a report shows. *)
Record dump := mk_dump {
  d_function : list Z;
  d_located : bool;
  d_backtrace : list (Z * Z);
  d_lines : list line;
}.

(** [None] is the return value [-1]. *)
Definition dump_at_addr (fuel : nat) (m : mem) (frame_address addr rbp disas : Z) :
    result (option dump) :=
  let rbp := if rbp =? 0 then frame_address else rbp in
  let disas := if disas =? 0 then addr else disas in
  match resolve_address symbol_table addr with
  | (None, _) => Ok None
  | (Some entry, exact) =>
      fn_repr ← search_repr addr (Some entry, exact);
      let located := match addr2line addr with Some _ => true | None => false end in
      offset ← window_start fuel entry disas;
      ls ← lines instructions_to_show entry disas offset;
      Ok (Some (mk_dump fn_repr located (Faults.backtrace m rbp) ls))
  end.

End Dump.

(** ** Linear decoding from the start of a function *)

(** What the disassembler documents: an instruction has 1 to 15 bytes, and no
    more than are available. *)
Definition decoder_ok (disassemble : Z → Z → option instruction) : Prop :=
  ∀ a n insn, disassemble a n = Some insn → 1 <= i_length insn <= 15 ∧ i_length insn <= n.

Record entry_ok (e : symbol_entry) : Prop := {
  eo_address : 0 <= address e;
  eo_size : 0 <= size e;
  eo_top : address e + size e + 15 < 18446744073709551616;
}.

Section Decoding.
Context (disassemble : Z → Z → option instruction) (Hdec : decoder_ok disassemble).
Context (e : symbol_entry) (He : entry_ok e).

(** The offset of the [n]-th instruction. *)
Fixpoint nth_offset (n : nat) : option Z :=
  match n with
  | O => Some 0
  | S n => o ← nth_offset n; insn ← decode disassemble e o; Some (o + i_length insn)
  end.

Lemma decode_bounds o insn : 0 <= o <= size e → decode disassemble e o = Some insn →
  1 <= i_length insn <= 15 ∧ o + i_length insn <= size e.
Proof.
  intros Ho Hd. destruct He. unfold decode in Hd. rewrite (u64_id (size e - o)) in Hd by lia.
  apply Hdec in Hd. lia.
Qed.

Lemma nth_offset_bounds n o : nth_offset n = Some o → Z.of_nat n <= o <= size e.
Proof.
  revert o; induction n as [|n IH]; intros o Hn; [simplify_eq/=; destruct He; lia|].
  cbn [nth_offset] in Hn. destruct (nth_offset n) as [o'|] eqn:E; [|done]. simpl in Hn.
  destruct (decode disassemble e o') as [insn|] eqn:Ed; [|done]. simplify_eq/=.
  specialize (IH o' eq_refl). destruct (decode_bounds o' insn) as [??]; [lia|done|lia].
Qed.

Lemma nth_offset_S n o insn : nth_offset n = Some o → decode disassemble e o = Some insn →
  nth_offset (S n) = Some (o + i_length insn).
Proof. intros Hn Hd. cbn [nth_offset]. rewrite Hn. simpl. by rewrite Hd. Qed.

(** Offsets are defined downwards and strictly increase. *)
Lemma nth_offset_lt n m o : (m < n)%nat → nth_offset n = Some o →
  ∃ o' insn, nth_offset m = Some o' ∧ decode disassemble e o' = Some insn ∧ o' + i_length insn <= o.
Proof.
  revert o; induction n as [|n IH]; intros o Hm Hn; [lia|].
  cbn [nth_offset] in Hn. destruct (nth_offset n) as [o1|] eqn:E; [|done]. simpl in Hn.
  destruct (decode disassemble e o1) as [i1|] eqn:Ed; [|done]. simplify_eq/=.
  destruct (decide (m = n)) as [->|]; [by exists o1, i1|].
  destruct (IH o1 ltac:(lia) eq_refl) as (o' & insn & E' & Ed' & Hle). exists o', insn.
  split_and!; [done|done|]. pose proof (nth_offset_bounds _ _ E).
  destruct (decode_bounds o1 i1) as [??]; [lia|done|lia].
Qed.

Lemma runtime_eq o : 0 <= o <= size e → address e ⊕ o = address e + o.
Proof. destruct He. intros. apply u64_id. lia. Qed.

(** *** The first loop *)

(** The ring holds the last 32 of the [c] addresses. *)
Definition ring_ok (ring : list (option Z)) (c : nat) : Prop :=
  length ring = 32%nat ∧ ∀ j o, (j < c <= j + 32)%nat → nth_offset j = Some o →
    ring !! (j mod 32)%nat = Some (Some (address e + o)).

(** Where the loop stops: after the first instruction at or past [disas], or at
    the first that does not decode. *)
Record scanned (disas : Z) (c : nat) : Prop := {
  sc_before : ∀ j o, (S j < c)%nat → nth_offset j = Some o → address e + o < disas;
  sc_defined : is_Some (nth_offset (c - 1));
  sc_stop : (1 <= c)%nat ∧ (∃ o, nth_offset (c - 1) = Some o ∧ disas <= address e + o) ∨
            (∀ o, nth_offset (c - 1) = Some o → address e + o < disas) ∧
            (∃ o, nth_offset c = Some o ∧ decode disassemble e o = None);
}.

Lemma ring_step ring c o : ring_ok ring c → nth_offset c = Some o →
  ring_ok (<[Z.to_nat (Z.of_nat c `mod` 32) := Some (address e + o)]> ring) (S c).
Proof.
  intros [Hl Hr] Hc. split; [by rewrite length_insert|].
  assert (Z.to_nat (Z.of_nat c `mod` 32) = (c mod 32)%nat) as ->
    by (change 32 with (Z.of_nat 32); rewrite <- Nat2Z.inj_mod; apply Nat2Z.id).
  intros j o' Hj Hj'. destruct (decide (j = c)) as [->|Hne].
  - assert (o' = o) as -> by congruence. apply list_lookup_insert_eq. rewrite Hl.
    apply Nat.mod_upper_bound. lia.
  - rewrite list_lookup_insert_ne; [apply Hr; [lia|done]|].
    intros Heq. pose proof (Nat.div_mod_eq j 32). pose proof (Nat.div_mod_eq c 32). lia.
Qed.

Lemma scan_spec fuel disas o ring c :
  address e < disas → nth_offset c = Some o → ring_ok ring c → size e - o < Z.of_nat fuel →
  (∀ j o, (j < c)%nat → nth_offset j = Some o → address e + o < disas) →
  ∃ ring' c', scan disassemble fuel e disas o ring (Z.of_nat c) = Ok (ring', Z.of_nat c') ∧
    ring_ok ring' c' ∧ scanned disas c'.
Proof.
  intros Hd0. revert o ring c; induction fuel as [|fuel IH]; intros o ring c Hc Hring Hf Hbefore.
  { pose proof (nth_offset_bounds _ _ Hc). lia. }
  pose proof (nth_offset_bounds _ _ Hc) as Hb. cbn [scan].
  destruct (decode disassemble e o) as [insn|] eqn:Ed.
  - destruct (decode_bounds o insn ltac:(lia) Ed) as [Hlen Hnext].
    rewrite runtime_eq by lia. pose proof (nth_offset_S c o insn Hc Ed) as HS.
    replace (Z.of_nat c + 1) with (Z.of_nat (S c)) by lia. rewrite Z.geb_leb.
    destruct (disas <=? address e + o) eqn:Ecmp; b2p.
    + exists (<[Z.to_nat (Z.of_nat c `mod` 32):=Some (address e + o)]> ring), (S c).
      split; [done|]. split; [by apply ring_step|]. split.
      * intros j o' Hj. apply Hbefore. lia.
      * simpl. rewrite Nat.sub_0_r. eauto.
      * left. simpl. rewrite Nat.sub_0_r. split; [lia|eauto].
    + rewrite (u64_id (o + _)) by (destruct He; lia).
      destruct (IH (o + i_length insn) (<[Z.to_nat (Z.of_nat c `mod` 32):=Some (address e + o)]> ring) (S c))
        as (ring' & c' & E & Hr & Hs); [done|by apply ring_step|lia| |by exists ring', c'].
      intros j o' Hj Hj'. destruct (decide (j = c)) as [->|]; [congruence|]. apply (Hbefore j); [lia|done].
  - exists ring, c. split; [done|]. split; [done|]. split.
    + intros j o' Hj. apply Hbefore. lia.
    + destruct c as [|c]; [simpl; eauto|]. simpl. rewrite Nat.sub_0_r.
      destruct (nth_offset_lt (S c) c o ltac:(lia) Hc) as (o' & insn & -> & _). eauto.
    + destruct c as [|c].
      * right. simpl in *. simplify_eq. split; [|by exists 0]. intros o [= <-]. lia.
      * right. split; [|by exists o]. intros o' Ho'. apply (Hbefore (S c - 1)%nat); [lia|done].
Qed.

(** *** The second loop *)

Lemma skip_spec fuel k ok t ot :
  nth_offset k = Some ok → nth_offset t = Some ot → (k <= t)%nat → size e - ok < Z.of_nat fuel →
  skip disassemble fuel e (address e + ot) ok = Ok ot.
Proof.
  revert k ok; induction fuel as [|fuel IH]; intros k ok Hk Ht Hle Hf; pose proof (nth_offset_bounds _ _ Hk).
  { lia. }
  cbn [skip]. rewrite runtime_eq by lia. destruct (decide (k = t)) as [->|Hne].
  - assert (ok = ot) as -> by congruence.
    replace (_ <? _) with false by (symmetry; apply Z.ltb_ge; lia). done.
  - destruct (nth_offset_lt t k ot ltac:(lia) Ht) as (o' & insn & Hk' & Hd & Hlt). simplify_eq.
    destruct (decode_bounds ok insn ltac:(lia) Hd) as [Hlen Hnext].
    replace (_ <? _) with true by (symmetry; apply Z.ltb_lt; lia). rewrite Hd.
    rewrite u64_id by (destruct He; lia). apply (IH (S k)); [by apply nth_offset_S|done|lia|lia].
Qed.

(** *** The window *)

(** Instruction [n] is the one that covers [disas]. *)
Definition covers (n : nat) (disas : Z) : Prop :=
  ∃ o insn, nth_offset n = Some o ∧ decode disassemble e o = Some insn ∧
    address e + o <= disas < address e + o + i_length insn.

Lemma covers_scanned n disas c : covers n disas → scanned disas c →
  (1 <= c)%nat ∧ (n <= c - 1 <= S n)%nat.
Proof.
  intros (o & insn & Hn & Hd & Hcov) [Hbefore [ol Hlast] Hstop].
  pose proof (nth_offset_S n o insn Hn Hd) as HS. pose proof (nth_offset_bounds _ _ HS).
  assert (∀ i j oi oj, (i < j)%nat → nth_offset i = Some oi → nth_offset j = Some oj → oi < oj) as Hmono.
  { intros i j oi oj Hij Hi Hj. destruct (nth_offset_lt j i oj Hij Hj) as (o' & ins & Hi' & Hdi & Hle).
    simplify_eq. pose proof (nth_offset_bounds _ _ Hi). destruct (decode_bounds oi ins) as [??]; [lia|done|lia]. }
  assert (¬ (S n < c - 1)%nat) as Hup by (intros Hlt; specialize (Hbefore (S n) _ ltac:(lia) HS); lia).
  destruct Hstop as [[Hc (o1 & Ho1 & Hge)]|[Hlt (o2 & Ho2 & Hnone)]].
  - split; [done|]. split; [|lia]. destruct (decide (n <= c - 1)%nat) as [|Hn']; [done|].
    pose proof (Hmono (c - 1)%nat n o1 o ltac:(lia) Ho1 Hn). lia.
  - destruct (decide (n < c)%nat) as [Hnc|Hnc]; [lia|]. exfalso.
    destruct (decide (n = c)) as [->|]; [congruence|].
    destruct (nth_offset_lt n c o ltac:(lia) Hn) as (o' & ins & Ho' & Hd' & _). congruence.
Qed.

Lemma window_far fuel n disas :
  covers n disas → 96 < disas - address e → size e < Z.of_nat fuel →
  ∃ k ok, window_start disassemble fuel e disas = Ok ok ∧ nth_offset k = Some ok ∧ (k <= n <= k + 3)%nat.
Proof.
  intros Hcov Hfar Hf. pose proof Hcov as (o & insn & Hn & Hd & Hr).
  pose proof (nth_offset_bounds _ _ Hn). destruct (decode_bounds o insn) as [??]; [lia|done|].
  unfold window_start, SYMBOL_START_THRESHOLD. rewrite u64_id by (destruct He; lia).
  replace (_ <=? 96) with false by (symmetry; apply Z.leb_gt; lia).
  destruct (scan_spec fuel disas 0 (replicate 32 None) 0) as (ring & c & Es & [Hl Hring] & Hsc);
    [lia|done|split; [done|intros; lia]|lia|intros; lia|].
  change (Z.of_nat 0) with 0 in Es. rewrite Es. cbn [mbind result_bind].
  destruct (covers_scanned n disas c Hcov Hsc) as [Hc1 Hnc].
  set (t := (if 4 <=? c then c - 4 else 0)%nat).
  assert (Z.to_nat ((if Z.of_nat c >=? 4 then Z.of_nat c - 4 else 0) `mod` 32) = (t mod 32)%nat) as ->.
  { assert ((if Z.of_nat c >=? 4 then Z.of_nat c - 4 else 0) = Z.of_nat t) as ->.
    { subst t. rewrite Z.geb_leb. destruct (4 <=? c)%nat eqn:E1; [apply Nat.leb_le in E1|apply Nat.leb_gt in E1].
      - replace (4 <=? Z.of_nat c) with true by (symmetry; apply Z.leb_le; lia). lia.
      - replace (4 <=? Z.of_nat c) with false by (symmetry; apply Z.leb_gt; lia). done. }
    change 32 with (Z.of_nat 32). rewrite <- Nat2Z.inj_mod. apply Nat2Z.id. }
  assert (t < c ∧ c <= t + 4 ∧ t <= n <= t + 3)%nat as (Ht1 & Ht2 & Ht3).
  { subst t. destruct (4 <=? c)%nat eqn:E1; [apply Nat.leb_le in E1|apply Nat.leb_gt in E1]; lia. }
  assert (∃ ot, nth_offset t = Some ot) as [ot Hot].
  { destruct (decide (t = n)) as [->|]; [eauto|].
    destruct (nth_offset_lt n t o ltac:(lia) Hn) as (ot & _ & Hot & _). eauto. }
  rewrite (Hring t ot) by (done || lia). exists t, ot. split; [|split; [done|lia]].
  apply (skip_spec fuel 0 0 t ot); [done|done|lia|lia].
Qed.

(** At most one instruction covers an address. *)
Lemma covers_unique n n' disas : covers n disas → covers n' disas → n = n'.
Proof.
  assert (∀ i j, (i < j)%nat → covers i disas → covers j disas → False) as H.
  { intros i j Hij (oi & ii & Hi & Hdi & Hri) (oj & ij & Hj & Hdj & Hrj).
    destruct (nth_offset_lt j i oj Hij Hj) as (o' & ins & Hi' & Hd' & Hle). simplify_eq. lia. }
  intros H1 H2. destruct (Nat.lt_total n n') as [?|[->|?]]; [|done|]; exfalso; eauto.
Qed.

(** *** Termination *)

Lemma scan_total fuel disas o ring c :
  0 <= o <= size e → size e - o < Z.of_nat fuel → no_loop (scan disassemble fuel e disas o ring c).
Proof.
  revert o ring c; induction fuel as [|fuel IH]; intros o ring c Ho Hf; [lia|]. cbn [scan].
  destruct (decode disassemble e o) as [insn|] eqn:Hd; [|done].
  destruct (decode_bounds o insn Ho Hd) as [??]. case_cond; [done|].
  rewrite (u64_id (o + _)) by (destruct He; lia). apply IH; lia.
Qed.

Lemma skip_total fuel start o :
  0 <= o <= size e → size e - o < Z.of_nat fuel → no_loop (skip disassemble fuel e start o).
Proof.
  revert o; induction fuel as [|fuel IH]; intros o Ho Hf; [lia|]. cbn [skip].
  case_cond; [|done]. destruct (decode disassemble e o) as [insn|] eqn:Hd; [|done].
  destruct (decode_bounds o insn Ho Hd) as [??].
  rewrite (u64_id (o + _)) by (destruct He; lia). apply IH; lia.
Qed.

Lemma window_total fuel disas : size e < Z.of_nat fuel → no_loop (window_start disassemble fuel e disas).
Proof.
  intros Hf. destruct He. unfold window_start. case_cond; [done|].
  apply no_loop_bind; [apply scan_total; lia|]. intros [ring c] _.
  destruct (ring !! _) as [[start|]|]; [|done..]. apply skip_total; lia.
Qed.

(** *** The lines *)

Section Lines.
Context (string_at : Z → list Z) (format_ptr : Z → list Z) (table : list symbol_entry) (rounds : nat).

Let show := lines string_at format_ptr disassemble table rounds.

Lemma lines_spec m k ok disas ls :
  nth_offset k = Some ok → show m e disas ok = Ok ls →
  (length ls <= m)%nat ∧
  (∀ j l, ls !! j = Some l → ∃ o insn, nth_offset (k + j) = Some o ∧ decode disassemble e o = Some insn ∧
     l_address l = address e + o ∧ l_marked l = bool_decide (address e + o <= disas < address e + o + i_length insn)) ∧
  (∀ j o insn, (j < m)%nat → nth_offset (k + j) = Some o → decode disassemble e o = Some insn → is_Some (ls !! j)).
Proof.
  subst show. revert k ok ls; induction m as [|m IH]; intros k ok ls Hk Hs; cbn [lines] in Hs.
  { simplify_eq. simpl. split_and!; [lia|done|intros; lia]. }
  pose proof (nth_offset_bounds _ _ Hk) as Hb. destruct (decode disassemble e ok) as [insn|] eqn:Hd.
  - destruct (decode_bounds ok insn ltac:(lia) Hd) as [Hlen Hnext].
    destruct (if i_follow insn then _ else _) as [target|]; [|done]. cbn [mbind result_bind] in Hs.
    rewrite (u64_id (ok + _)) in Hs by (destruct He; lia).
    destruct (lines _ _ _ _ _ m e disas _) as [rest|] eqn:Er; [|done]. cbn [mbind result_bind] in Hs.
    rewrite runtime_eq, u64_id in Hs by (destruct He; lia). simplify_eq.
    destruct (IH (S k) (ok + i_length insn) rest (nth_offset_S k ok insn Hk Hd) Er) as (L1 & L2 & L3).
    simpl length. split_and!; [lia| |].
    + intros [|j] l Hj.
      * simpl in Hj. injection Hj as <-. exists ok, insn. rewrite Nat.add_0_r. split_and!; [done|done|done|].
        cbn [l_marked]. rewrite Z.geb_leb. apply eq_true_iff_eq.
        rewrite andb_true_iff, Z.leb_le, Z.ltb_lt, bool_decide_eq_true. lia.
      * simpl in Hj. destruct (L2 j l Hj) as (o & ins & Ho & Hr). exists o, ins.
        by rewrite Nat.add_succ_r.
    + intros [|j] o ins Hj Ho Hdo; [by eexists|]. simpl. apply (L3 j o ins); [lia| |done].
      by rewrite Nat.add_succ_r in Ho.
  - simplify_eq. simpl. split_and!; [lia|done|]. intros j o insn Hj Ho Hdo. exfalso.
    destruct j as [|j]; [rewrite Nat.add_0_r in Ho; congruence|].
    destruct (nth_offset_lt (k + S j) k o ltac:(lia) Ho) as (o' & ins & Ho' & Hd' & _). congruence.
Qed.
End Lines.
End Decoding.

(** ** Names and lines terminate *)

(** The text handed to the demangler. *)
Definition symbol_text (string_at format_ptr : Z → list Z) (addr : Z) (e : symbol_entry) (exact : bool) : list Z :=
  if negb exact then string_at (name e) ++ str " + " ++ format_ptr (addr ⊖ address e) else string_at (name e).

Section Total.
Context (string_at format_ptr : Z → list Z) (disassemble : Z → Z → option instruction).
Context (table : list symbol_entry) (rounds : nat) (Hr : (128 <= rounds)%nat).
Context (Hend : ∀ e addr exact, e ∈ table →
  all_end (c_str (symbol_text string_at format_ptr addr e exact ++ [0]))).

Lemma c_str_snoc_length (l : list Z) : (length (c_str (l ++ [0%Z])) < length (l ++ [0%Z]))%nat.
Proof. induction l as [|c l IH]; simpl; [lia|]. case_match; simpl; lia. Qed.

Lemma search_repr_total addr e exact : e ∈ table →
  no_loop (search_repr string_at format_ptr rounds addr (Some e, exact)).
Proof.
  intros He. unfold search_repr. fold (symbol_text string_at format_ptr addr e exact).
  apply no_loop_bind; [apply no_loop_push|]. intros b Hb. apply push_some in Hb as [-> Hb]. simpl in *.
  apply demangle_no_loop; [|by apply Hend].
  pose proof (c_str_snoc_length (symbol_text string_at format_ptr addr e exact)). lia.
Qed.

Lemma target_total runtime insn ops :
  no_loop (target_loop string_at format_ptr table rounds runtime insn ops).
Proof.
  induction ops as [|op ops IH]; [done|]. cbn [target_loop].
  destruct (operand_target runtime insn op) as [t|]; [|done]. case_cond; [|done].
  destruct (resolve_address table t) as [[entry|] []] eqn:E; [|done..].
  apply no_loop_bind; [apply search_repr_total; by eapply resolve_in|]. intros repr _. done.
Qed.

Lemma lines_total n e disas o :
  no_loop (lines string_at format_ptr disassemble table rounds n e disas o).
Proof.
  revert o; induction n as [|n IH]; intros o; [done|]. cbn [lines].
  destruct (decode disassemble e o) as [insn|]; [|done].
  apply no_loop_bind; [destruct (i_follow insn); [apply target_total|done]|]. intros t _.
  apply no_loop_bind; [apply IH|]. intros rest _. done.
Qed.
End Total.

(** ** Properties *)

Section Claims.
Context (string_at format_ptr : Z → list Z) (addr2line : Z → option Z).
Context (disassemble : Z → Z → option instruction) (table : list symbol_entry) (rounds : nat).

Let dump := dump_at_addr string_at format_ptr addr2line disassemble table rounds.

(** The report terminates for every address when the names of the table are ones the
    demangler returns on ([Demangle.demangle_returns]): with one round per byte of the
    function, none of its loops runs out, whatever the stack and the disassembler
    (within its documented bounds) hold. *)
Theorem dump_total fuel m frame addr rbp disas :
  decoder_ok disassemble →
  (∀ e, e ∈ table → entry_ok e ∧ size e < Z.of_nat fuel) → (128 <= rounds)%nat →
  (∀ e a exact, e ∈ table → all_end (c_str (symbol_text string_at format_ptr a e exact ++ [0]))) →
  dump fuel m frame addr rbp disas ≠ Fault OutOfFuel.
Proof.
  intros Hdec Htab Hr Hend. change (no_loop (dump fuel m frame addr rbp disas)). subst dump. unfold dump_at_addr.
  destruct (resolve_address table addr) as [[e|] exact] eqn:Hres; [|done].
  destruct (Htab e) as [He Hf]; [by eapply resolve_in|].
  apply no_loop_bind; [apply (search_repr_total string_at format_ptr table rounds Hr Hend); by eapply resolve_in|].
  intros repr _. apply no_loop_bind; [by apply window_total|]. intros o _.
  apply no_loop_bind; [by apply lines_total|]. done.
Qed.

(** C22: a report shows at most seven instructions, and marks the faulting one
    exactly when it lies more than 96 bytes into its function (the window then
    starts at most three instructions before it) or is among the function's
    first seven: an instruction closer than that to the start, but after the
    seventh, is not shown at all. *)
Theorem dump_marks_fault fuel m frame addr rbp disas e exact n r :
  decoder_ok disassemble → resolve_address table addr = (Some e, exact) → entry_ok e →
  size e < Z.of_nat fuel →
  let at_ := if disas =? 0 then addr else disas in
  covers disassemble e n at_ →
  dump fuel m frame addr rbp disas = Ok (Some r) →
  (length (d_lines r) <= 7)%nat ∧
  ((∃ l, l ∈ d_lines r ∧ l_marked l = true) ↔ 96 < at_ - address e ∨ (n < 7)%nat).
Proof.
  intros Hdec Hres He Hf at_ Hcov Hdump. subst dump. unfold dump_at_addr in Hdump. rewrite Hres in Hdump.
  destruct (search_repr _ _ _ _ _) as [repr|]; [|done]. cbn [mbind result_bind] in Hdump. fold at_ in Hdump.
  assert (∀ k ok ls, nth_offset disassemble e k = Some ok →
    lines string_at format_ptr disassemble table rounds instructions_to_show e at_ ok = Ok ls →
    (length ls <= 7)%nat ∧ ((∃ l, l ∈ ls ∧ l_marked l = true) ↔ (k <= n < k + 7)%nat)) as Hlines.
  { intros k ok ls Hk Hl. destruct (lines_spec disassemble Hdec e He _ _ _ _ 7 k ok at_ ls Hk Hl) as (L1 & L2 & L3).
    split; [done|]. split.
    - intros (l & [j Hj]%list_elem_of_lookup & Hm). pose proof (lookup_lt_Some _ _ _ Hj).
      destruct (L2 j l Hj) as (o & ins & Ho & Hd & _ & E). rewrite Hm in E. symmetry in E.
      apply bool_decide_eq_true in E.
      assert (n = (k + j)%nat) as -> by (eapply covers_unique; [done|done|done|by exists o, ins]). lia.
    - intros Hkn. pose proof Hcov as (o & ins & Ho & Hd & Hr).
      destruct (L3 (n - k)%nat o ins) as [l Hl']; [lia|by replace (k + (n - k))%nat with n by lia|done|].
      exists l. split; [by eapply list_elem_of_lookup_2|].
      destruct (L2 _ _ Hl') as (o' & ins' & Ho' & Hd' & _ & ->). replace (k + (n - k))%nat with n in Ho' by lia.
      simplify_eq. by apply bool_decide_eq_true. }
  destruct (decide (96 < at_ - address e)) as [Hfar|Hnear].
  - destruct (window_far disassemble Hdec e He fuel n at_ Hcov Hfar Hf) as (k & ok & Hw & Hk & Hkn).
    rewrite Hw in Hdump. cbn [mbind result_bind] in Hdump.
    destruct (lines _ _ _ _ _ _ _ _ _) as [ls|] eqn:El; [|done]. simplify_eq/=.
    destruct (Hlines k ok ls Hk El) as [H7 Hiff]. split; [done|]. rewrite Hiff. split; [by left|intros _; lia].
  - pose proof Hcov as (o & ins & Ho & Hd & Hr). pose proof (nth_offset_bounds disassemble Hdec e He _ _ Ho).
    assert (window_start disassemble fuel e at_ = Ok 0) as Hw.
    { unfold window_start, SYMBOL_START_THRESHOLD. rewrite u64_id by (destruct He; lia).
      by replace (_ <=? 96) with true by (symmetry; apply Z.leb_le; lia). }
    rewrite Hw in Hdump. cbn [mbind result_bind] in Hdump.
    destruct (lines _ _ _ _ _ _ _ _ _) as [ls|] eqn:El; [|done]. simplify_eq/=.
    destruct (Hlines 0%nat 0 ls eq_refl El) as [H7 Hiff]. split; [done|]. rewrite Hiff. split; [right; lia|intros [?|?]; lia].
Qed.

(** The name printed for a function's own address is its readable name, and for
    an address inside it the readable name followed by the offset, when the text fits
    the buffers. *)
Theorem search_repr_readable s addr e exact :
  symbol_ok s → distinct s → (length (fn_path s) <= rounds)%nat → string_at (name e) = mangle s →
  (∀ v, Forall (λ c, c ≠ 0) (format_ptr v)) →
  let rest := if exact : bool then [] else str " + " ++ format_ptr (addr ⊖ address e) in
  (length (mangle s) + length rest < 128)%nat → (length (show s) + length rest <= 128)%nat →
  Forall (λ c, c ≠ 0) (mangle s) →
  search_repr string_at format_ptr rounds addr (Some e, exact) = Ok (show s ++ rest).
Proof.
  intros Hs Hd Hr Hname Hptr rest Hm Hsh Hnz. unfold search_repr. rewrite Hname.
  assert ((if negb exact then mangle s ++ str " + " ++ format_ptr (addr ⊖ address e) else mangle s)
    = mangle s ++ rest) as -> by (subst rest; destruct exact; simpl; by rewrite ?app_nil_r).
  rewrite push_ok by (rewrite !length_app; cbn [length]; lia). cbn [mbind result_bind]. rewrite app_nil_l.
  rewrite c_str_snoc by (apply Forall_app; split; [done|]; subst rest; destruct exact; [done|];
    apply Forall_app; split; [by repeat constructor|done]).
  rewrite <- flatten_codes, <- flatten_text in * by done.
  apply demangle_mangle_rest; [by apply flatten_ok|done|by subst rest; destruct exact|done].
Qed.

End Claims.

(** ** Witnesses: a function of one-byte instructions *)

Definition nops (a n : Z) : option instruction :=
  if 0 <? n then Some (mk_insn 1 (str "nop") false []) else None.
Definition fn_sample : symbol_entry := Symbols.mk_symbol 0xffffffff80001000 7 0x200.
Definition name_sample (p : Z) : list Z := mangle sample_symbol.

Lemma nops_ok : decoder_ok nops.
Proof. intros a n insn H. unfold nops in H. case_cond_in H; [|done]. simplify_eq. simpl. lia. Qed.

Lemma fn_sample_ok : entry_ok fn_sample.
Proof. split; simpl; lia. Qed.

Lemma nops_offset k : (k <= 0x200)%nat → nth_offset nops fn_sample k = Some (Z.of_nat k).
Proof.
  induction k as [|k IH]; intros Hk; [done|].
  rewrite (nth_offset_S nops fn_sample k (Z.of_nat k) (mk_insn 1 (str "nop") false [])).
  - simpl. f_equal. lia.
  - apply IH. lia.
  - unfold decode, nops. rewrite u64_id by (change (size fn_sample) with 512; lia).
    by replace (0 <? _) with true by (symmetry; apply Z.ltb_lt; change (size fn_sample) with 512; lia).
Qed.

Lemma nops_covers k : (k < 0x200)%nat → covers nops fn_sample k (0xffffffff80001000 + Z.of_nat k).
Proof.
  intros Hk. exists (Z.of_nat k), (mk_insn 1 (str "nop") false []). split; [apply nops_offset; lia|]. split.
  - unfold decode, nops. rewrite u64_id by (change (size fn_sample) with 512; lia).
    by replace (0 <? _) with true by (symmetry; apply Z.ltb_lt; change (size fn_sample) with 512; lia).
  - simpl. lia.
Qed.

Lemma dump_total_witness :
  dump_at_addr name_sample (λ _, str "0x8") (λ _, None) nops [fn_sample] 128 1000 (λ _, 0) 0 0xffffffff80001008 0 0
    ≠ Fault OutOfFuel.
Proof.
  apply dump_total; [apply nops_ok|intros e ->%list_elem_of_singleton; split; [apply fn_sample_ok|simpl; lia]|lia|].
  intros e a exact ->%list_elem_of_singleton i Hi. destruct exact;
    do 45 (destruct i as [|i]; [vm_compute in Hi |- *; done|]); done.
Defined.

(** The ninth byte of the function: seven lines, none of them marked. *)
Lemma dump_marks_fault_witness : ∃ r,
  dump_at_addr name_sample (λ _, str "0x8") (λ _, None) nops [fn_sample] 128 1000 (λ _, 0) 0 0xffffffff80001008 0 0 = Ok (Some r) ∧
  ¬ ∃ l, l ∈ d_lines r ∧ l_marked l = true.
Proof.
  eexists. split; [vm_compute; reflexivity|].
  match goal with |- ¬ ∃ l, l ∈ d_lines ?r ∧ _ => set (rep := r) end.
  destruct (dump_marks_fault name_sample (λ _, str "0x8") (λ _, None) nops [fn_sample] 128 1000 (λ _, 0) 0
    0xffffffff80001008 0 0 fn_sample false 8 rep) as [_ H].
  - apply nops_ok.
  - reflexivity.
  - apply fn_sample_ok.
  - simpl. lia.
  - apply (nops_covers 8). lia.
  - vm_compute. reflexivity.
  - rewrite H. simpl. lia.
Defined.

Lemma search_repr_readable_witness :
  search_repr name_sample (λ _, str "0x8") 3 0xffffffff80001008 (Some fn_sample, false) =
  Ok (str "Mem::Frame::map_range(u64, *const char, *char, u32, ...) + 0x8").
Proof.
  rewrite (search_repr_readable name_sample (λ _, str "0x8") 3 sample_symbol 0xffffffff80001008 fn_sample false);
    [by vm_compute|apply sample_symbol_ok|apply (bool_decide_unpack _); by vm_compute|simpl; lia|done|by repeat constructor|vm_compute; lia|vm_compute; lia|].
  by repeat constructor.
Defined.
