(* ===== verification/Acpi.v ===== *)
(** * Acpi: the services the kernel gives the ACPI library.

    [src/kernel/sys/acpi_kapi.cc] (its interrupt table is in [Interrupts]).  The
    heap is any allocator ([Allocator]); the port and configuration-space drivers and
    the spinlock are code outside the repository: classes of operations, or arguments.
    So is the ACPI library itself: [prog] is the type of what its functions do with
    the services, which [Uacpi] runs on the kernel's state. *)
From stdpp Require Import base numbers list gmap.
From S2P Require Import Prelude Mem Boot Frames Paging PageTables Mapper AddressSpace Heap.
From S2P Require Import HeapSpec HeapPages Allocator Timer Interrupts Log.
Import IRQ.
Local Open Scope Z_scope.

(** ** The drivers the services call

    [w] is the width of an access in bytes. *)

Class PortIO (D : Type) := {
  port_in : nat → Z → D → Z * D;
  port_out : nat → Z → Z → D → D;
}.

Class PciConfig (D : Type) := {
  config_read : nat → Z → Z → Z → Z → D → Z * D;
  config_write : nat → Z → Z → Z → Z → Z → D → D;
}.

(** [uacpi_pci_address], declared by the ACPI library: its size and the offsets
    of the one-byte fields. *)
Record pci_layout := mk_pci_layout { pci_size : Z; o_bus : Z; o_device : Z; o_function : Z }.

(** ** Memory *)

Definition uacpi_kernel_get_rsdp (boot : BootloaderCtx) : uacpi_status * Z :=
  (STATUS_OK, rsdp_addr boot).

Definition uacpi_kernel_map (hhdm : Z) (s : paging_state) (addr len : Z) : Z * paging_state :=
  let offset := addr ⊖ ROUND_DOWN addr in
  let total_len := ALIGN_UP (len ⊕ offset) 0x1000 in
  let virt := PHYS2VIRT hhdm addr in
  let '(_, s') := map_range hhdm s addr virt total_len (Z.lor PAGE_PRESENT PAGE_WRITE) in
  (virt, s').

Definition uacpi_kernel_unmap (s : paging_state) (_ _ : Z) : paging_state := s.

Section Services.
Context {A D : Type} `{Allocator A} `{PortIO D, PciConfig D} (lay : pci_layout).

Definition uacpi_kernel_alloc (fuel : nat) (h : A) (size : Z) : outcome (Z * A) :=
  a_malloc fuel h size.

Definition uacpi_kernel_free (fuel : nat) (h : A) (p : Z) : outcome A :=
  '(_, h) ← a_free fuel h p;
  Ret h.

(** ** PCI configuration space *)

(** [*p = v] for an object of the bytes [v]. *)
Definition store_bytes (m : mem) (p : Z) (v : list Z) : mem := λ i,
  if (p <=? i) && (i <? p + Z.of_nat (length v)) then v !!! Z.to_nat (i - p) else m i.

(** [address] is the object's representation, [pci_size] bytes. *)
Definition uacpi_kernel_pci_device_open (fuel : nat) (h : A) (address : list Z) :
    outcome (uacpi_status * Z * A) :=
  '(pci, h) ← a_malloc fuel h (pci_size lay);
  Ret (STATUS_OK, pci, a_set (store_bytes (a_mem h) pci address) h).

Definition uacpi_kernel_pci_device_close (fuel : nat) (h : A) (hnd : Z) : outcome A :=
  '(_, h) ← a_free fuel h hnd;
  Ret h.

(** [pci->bus], [pci->device] and [pci->function]. *)
Definition bus (h : A) (pci : Z) : Z := load8 (a_mem h) (pci + o_bus lay).
Definition device (h : A) (pci : Z) : Z := load8 (a_mem h) (pci + o_device lay).
Definition function (h : A) (pci : Z) : Z := load8 (a_mem h) (pci + o_function lay).

Definition uacpi_kernel_pci_read8 (h : A) (d : D) (pci offset : Z) : uacpi_status * Z * D :=
  let '(v, d) := config_read 1 (bus h pci) (device h pci) (function h pci) offset d in
  (STATUS_OK, u8 v, d).
Definition uacpi_kernel_pci_read16 (h : A) (d : D) (pci offset : Z) : uacpi_status * Z * D :=
  let '(v, d) := config_read 2 (bus h pci) (device h pci) (function h pci) offset d in
  (STATUS_OK, u16 v, d).
Definition uacpi_kernel_pci_read32 (h : A) (d : D) (pci offset : Z) : uacpi_status * Z * D :=
  let '(v, d) := config_read 4 (bus h pci) (device h pci) (function h pci) offset d in
  (STATUS_OK, u32 v, d).

Definition uacpi_kernel_pci_write8 (h : A) (d : D) (pci offset value : Z) : uacpi_status * D :=
  (STATUS_OK, config_write 1 (bus h pci) (device h pci) (function h pci) offset value d).
Definition uacpi_kernel_pci_write16 (h : A) (d : D) (pci offset value : Z) : uacpi_status * D :=
  (STATUS_OK, config_write 2 (bus h pci) (device h pci) (function h pci) offset value d).
Definition uacpi_kernel_pci_write32 (h : A) (d : D) (pci offset value : Z) : uacpi_status * D :=
  (STATUS_OK, config_write 4 (bus h pci) (device h pci) (function h pci) offset value d).

(** ** Port ranges *)

(** [struct uacpi_io]: [base] at 0, [len] at 8, packed. *)
Definition uacpi_io_size : Z := 16.

Definition uacpi_kernel_io_map (fuel : nat) (h : A) (base len : Z) :
    outcome (uacpi_status * Z * A) :=
  '(iomap, h) ← a_malloc fuel h uacpi_io_size;
  let h := a_set (store64 (a_mem h) iomap base) h in
  let h := a_set (store64 (a_mem h) (iomap + 8) len) h in
  Ret (STATUS_OK, iomap, h).

Definition uacpi_kernel_io_unmap (fuel : nat) (h : A) (handle : Z) : outcome A :=
  '(_, h) ← a_free fuel h handle;
  Ret h.

(** [*(u16 * )hnd + offset]. *)
Definition io_port (h : A) (hnd offset : Z) : Z := load 2 (a_mem h) hnd ⊕ offset.

Definition uacpi_kernel_io_read8 (h : A) (d : D) (hnd offset : Z) : uacpi_status * Z * D :=
  let '(v, d) := port_in 1 (io_port h hnd offset) d in (STATUS_OK, u8 v, d).
Definition uacpi_kernel_io_read16 (h : A) (d : D) (hnd offset : Z) : uacpi_status * Z * D :=
  let '(v, d) := port_in 2 (io_port h hnd offset) d in (STATUS_OK, u16 v, d).
Definition uacpi_kernel_io_read32 (h : A) (d : D) (hnd offset : Z) : uacpi_status * Z * D :=
  let '(v, d) := port_in 4 (io_port h hnd offset) d in (STATUS_OK, u32 v, d).

Definition uacpi_kernel_io_write8 (h : A) (d : D) (hnd offset in_value : Z) : uacpi_status * D :=
  (STATUS_OK, port_out 1 (io_port h hnd offset) in_value d).
Definition uacpi_kernel_io_write16 (h : A) (d : D) (hnd offset in_value : Z) : uacpi_status * D :=
  (STATUS_OK, port_out 2 (io_port h hnd offset) in_value d).
Definition uacpi_kernel_io_write32 (h : A) (d : D) (hnd offset in_value : Z) : uacpi_status * D :=
  (STATUS_OK, port_out 4 (io_port h hnd offset) in_value d).

(** ** Locks

    The spinlock class and [operator new] are the support library's: [new Spinlock] and
    the two operations are arguments; [lock] returns when the lock is taken. *)

Record spinlock_class := mk_spinlock {
  new_spinlock : nat → A → outcome (Z * A);
  lock : Z → mem → outcome mem;
  unlock : Z → mem → mem;
}.

Definition uacpi_kernel_create_mutex (cls : spinlock_class) (fuel : nat) (h : A) : outcome (Z * A) :=
  new_spinlock cls fuel h.

Definition uacpi_kernel_free_mutex (fuel : nat) (h : A) (hnd : Z) : outcome A :=
  '(_, h) ← a_free fuel h hnd;
  Ret h.

Definition uacpi_kernel_acquire_mutex (cls : spinlock_class) (h : A) (hnd : Z) :
    outcome (uacpi_status * A) :=
  m ← lock cls hnd (a_mem h);
  Ret (STATUS_OK, a_set m h).

Definition uacpi_kernel_release_mutex (cls : spinlock_class) (h : A) (hnd : Z) : A :=
  a_set (unlock cls hnd (a_mem h)) h.

Definition uacpi_kernel_create_spinlock (cls : spinlock_class) (fuel : nat) (h : A) : outcome (Z * A) :=
  new_spinlock cls fuel h.

Definition uacpi_kernel_free_spinlock (fuel : nat) (h : A) (hnd : Z) : outcome A :=
  '(_, h) ← a_free fuel h hnd;
  Ret h.

(** The flags returned are the status code. *)
Definition uacpi_kernel_lock_spinlock (cls : spinlock_class) (h : A) (hnd : Z) :
    outcome (uacpi_status * A) :=
  m ← lock cls hnd (a_mem h);
  Ret (STATUS_OK, a_set m h).

Definition uacpi_kernel_unlock_spinlock (cls : spinlock_class) (h : A) (hnd : Z) : A :=
  a_set (unlock cls hnd (a_mem h)) h.

End Services.

(** ** Time *)

Definition uacpi_kernel_get_nanoseconds_since_boot (t : Timer.timer_state) : Z :=
  Timer.get_uptime_ns t.
(** The argument is one byte. *)
Definition uacpi_kernel_stall (usec : Z) (evs : list wake) (t : Timer.timer_state) :
    option (Timer.timer_state * list wake) := Timer.sleep_us (u8 usec) evs t.
Definition uacpi_kernel_sleep (msec : Z) (evs : list wake) (t : Timer.timer_state) :
    option (Timer.timer_state * list wake) := Timer.sleep_ms msec evs t.

(** ** The log *)

Definition uacpi_kernel_log (msg : list Z) (s : Log.log_state) : Log.result := Log.print msg s.

(** ** Services that keep no state *)

Definition uacpi_kernel_create_event : Z := 1.
Definition uacpi_kernel_get_thread_id : Z := 0.
Definition uacpi_kernel_wait_for_event (_ _ : Z) : Z := 1.
Definition uacpi_kernel_handle_firmware_request (_ : Z) : uacpi_status := STATUS_OK.
Definition uacpi_kernel_schedule_work (_ _ _ : Z) : uacpi_status := STATUS_OK.
Definition uacpi_kernel_wait_for_work_completion : uacpi_status := STATUS_OK.

(** ** The library as a program

    The ACPI library is not part of the repository.  What it does while one of its
    functions runs is a program: it calls the services above and reads and writes
    memory, each time going on with what came back, until it returns.  Its own
    static variables are part of what it goes on with. *)

Inductive width := W8 | W16 | W32.

Inductive call :=
| GetRsdp
| Map (addr len : Z)
| Unmap (virt len : Z)
| LogLine (msg : list Z)
| PciOpen (address : list Z)
| PciClose (hnd : Z)
| PciRead (w : width) (hnd offset : Z)
| PciWrite (w : width) (hnd offset value : Z)
| IoMap (base len : Z)
| IoUnmap (hnd : Z)
| IoRead (w : width) (hnd offset : Z)
| IoWrite (w : width) (hnd offset value : Z)
| Alloc (size : Z)
| Free (p : Z)
| Nanoseconds
| Stall (usec : Z)
| Sleep (msec : Z)
| CreateMutex
| FreeMutex (hnd : Z)
| AcquireMutex (hnd timeout : Z)
| ReleaseMutex (hnd : Z)
| CreateEvent
| FreeEvent (hnd : Z)
| ThreadId
| WaitEvent (hnd timeout : Z)
| SignalEvent (hnd : Z)
| ResetEvent (hnd : Z)
| FirmwareRequest (request : Z)
| Install (irq handler ctx : Z) (out_ok : bool)
| Uninstall (handler : Z) (h : irq_handle)
| CreateSpinlock
| FreeSpinlock (hnd : Z)
| LockSpinlock (hnd : Z)
| UnlockSpinlock (hnd flags : Z)
| ScheduleWork (type handler ctx : Z)
| WaitWork
| ReadMem (bytes : nat) (a : Z)
| WriteMem (bytes : nat) (a value : Z).

(** What comes back: a status, a value or pointer, a handle of the interrupt table. *)
Record reply := mk_reply { rp_status : uacpi_status; rp_value : Z; rp_handle : irq_handle }.

(** A reply of the value alone, and of the status alone. *)
Definition returned (v : Z) : reply := mk_reply STATUS_OK v NullHandle.
Definition completed (s : uacpi_status) : reply := mk_reply s 0 NullHandle.

Inductive prog (R : Type) :=
| Done (r : R)
| Call (c : call) (k : reply → prog R).
Arguments Done {R} r.
Arguments Call {R} c k.

(** ** Mapping *)

(** A range at an address that need not be page aligned: the page base of [virt]
    starts the run, and the entries keep the low bits of [phys]. *)
Lemma range_effect_offset phys virt size flags v x :
  upper v → upper (virt `div` 4096 * 4096) → 0 <= phys → 0 <= size → size `mod` 4096 = 0 →
  virt + size <= 18446744073709551616 → phys + size <= 281474976710656 → present flags = true →
  effect (requests_of_range phys virt size flags) v x =
  if decide (virt `div` 4096 * 4096 <= v `div` 4096 * 4096 < virt `div` 4096 * 4096 + size)
  then Some (Z.lor (phys + (v `div` 4096 * 4096 - virt `div` 4096 * 4096)) flags) else x.
Proof.
  intros Hv Hu Hp Hs Hsa Hvt Hpt Hf. unfold upper in *.
  assert (∀ r, r ∈ requests_of_range phys virt size flags ↔ ∃ k, 0 <= k < size `div` 4096 ∧
    r = mk_request (phys + k * 4096) (virt + k * 4096) flags) as Hr.
  { intros r. unfold requests_of_range. rewrite elem_of_range_requests by dlia.
    split; intros (k & Hk & ->); exists k; (split; [dlia|f_equal; lia]). }
  assert (∀ k, 0 <= k < size `div` 4096 →
    (vpn (virt + k * 4096) = vpn v ↔ v `div` 4096 = virt `div` 4096 + k)) as Hvp.
  { intros k Hk. replace (virt + k * 4096) with ((virt `div` 4096 + k) * 4096 + virt `mod` 4096) by dlia.
    unfold vpn. rewrite Z.div_add_l, (Z.div_small (virt `mod` 4096)), Z.add_0_r by dlia. split; [|intros ->; done].
    intros E. dlia. }
  case_decide as Hin.
  - rewrite (effect_const _ v x (Z.lor (phys + (v `div` 4096 * 4096 - virt `div` 4096 * 4096)) flags)).
    + unfold visible. by rewrite present_lor, Hf, orb_true_r.
    + set (k := v `div` 4096 - virt `div` 4096).
      assert (0 <= k < size `div` 4096) by (subst k; dlia).
      exists (mk_request (phys + k * 4096) (virt + k * 4096) flags). split.
      * apply Hr. by exists k.
      * symmetry. apply Hvp; [done|subst k; lia].
    + intros r (k & Hk & ->)%Hr Hvk. symmetry in Hvk. apply Hvp in Hvk; [|done].
      unfold r_entry. simpl. f_equal. rewrite Hvk. lia.
  - apply effect_none. intros r (k & Hk & ->)%Hr Hvk. symmetry in Hvk. apply Hvp in Hvk; [|done].
    apply Hin. rewrite Hvk. dlia.
Qed.

(** The fields of an entry made of an unaligned physical address. *)
Lemma entry_fields pg o fl :
  pg `mod` 4096 = 0 → 0 <= pg < 281474976710656 → 0 <= o < 4096 → 0 <= fl < 4096 →
  let e := Z.lor (pg + o) fl in
  Z.land e PTE_MASK = pg ∧ e `mod` 4096 = Z.lor o fl ∧ e = pg + Z.lor o fl.
Proof.
  intros Ha Hr Ho Hfl e.
  assert (0 <= Z.lor o fl < 2 ^ 12) as Hlow.
  { split; [apply Z.lor_nonneg; lia|]. change (2 ^ 12) with 4096 in *.
    destruct (decide (Z.lor o fl = 0)) as [->|]; [lia|].
    apply (Z.log2_lt_pow2 _ 12); [pose proof (proj2 (Z.lor_nonneg o fl)); lia|].
    rewrite Z.log2_lor by lia. apply Z.max_lub_lt; (destruct (decide (0 < o)), (decide (0 < fl)));
      try (apply Z.log2_lt_pow2; lia); rewrite Z.log2_nonpos; lia. }
  assert (e = pg + Z.lor o fl) as ->.
  { subst e. replace pg with (pg `div` 4096 * 2 ^ 12) by (change (2 ^ 12) with 4096; dlia).
    rewrite <- (lor_disjoint_add _ o 12) by lia. rewrite <- Z.lor_assoc, lor_disjoint_add by lia. done. }
  change (2 ^ 12) with 4096 in Hlow. rewrite land_PTE_MASK. split_and!; [dlia|dlia|done].
Qed.

(** C25: a region given to [uacpi_kernel_map] is reachable through the returned
    pointer, byte by byte, at any alignment, and no page outside it changes; but
    the address is not rounded before it becomes page entries, so the low bits of the
    address, not only present and write, end up among the flags of every page
    of the region: its page offset is or-ed into them. *)
Theorem uacpi_map_correct hhdm s T addr len :
  tables_wf hhdm (p_fr s) (pml4 s) T → tlb_coherent hhdm s →
  enough (p_fr s) T (tables_for (requests_of_range addr (PHYS2VIRT hhdm addr)
    (ALIGN_UP (len + addr `mod` 4096) 4096) 3)) →
  upper hhdm → hhdm `mod` 4096 = 0 → 0 <= addr → 0 < len →
  hhdm + addr + len + 8192 <= 18446744073709551616 → addr + len + 8192 <= 281474976710656 →
  let '(p, s') := uacpi_kernel_map hhdm s addr len in
  p = hhdm + addr ∧ tlb_coherent hhdm s' ∧
  (∀ i, 0 <= i < len → ∃ e, translate hhdm s' (p + i) = Some e ∧
     Z.land e PTE_MASK = (addr + i) `div` 4096 * 4096 ∧
     e `mod` 4096 = Z.lor (addr `mod` 4096) (Z.lor PAGE_PRESENT PAGE_WRITE)) ∧
  (∀ v, upper v → v < p `div` 4096 * 4096 ∨ (p + len + 4095) `div` 4096 * 4096 <= v →
     translate hhdm s' v = translate hhdm s v).
Proof.
  intros Hwf Hc Hen Hu Ha Hp Hs Htop Hpt. unfold upper in Hu.
  assert (ROUND_DOWN addr = addr `div` 4096 * 4096) as Er by (apply ROUND_DOWN_eq; unfold is_u64; lia).
  assert (ALIGN_UP (len + addr `mod` 4096) 4096
          = (len + addr `mod` 4096 + 4095) `div` 4096 * 4096) as Es.
  { unfold ALIGN_UP, ROUND_UP. rewrite (u64_id (_ + (4096 - 1))) by dlia.
    rewrite u64_id by dlia. do 2 f_equal. }
  assert (PHYS2VIRT hhdm addr = hhdm + addr) as Ev by (unfold PHYS2VIRT; apply u64_id; lia).
  unfold uacpi_kernel_map.
  assert (u64 (len + u64 (addr - ROUND_DOWN addr)) = len + addr `mod` 4096) as ->.
  { rewrite Er. rewrite (u64_id (addr - _)) by dlia. rewrite u64_id by dlia. dlia. }
  change 0x1000 with 4096. rewrite Es, Ev in *.
  set (tot := (len + addr `mod` 4096 + 4095) `div` 4096 * 4096) in *.
  change (Z.lor PAGE_PRESENT PAGE_WRITE) with 3.
  destruct (map_all_spec hhdm s T (requests_of_range addr (hhdm + addr) tot 3)) as (T' & E & _ & _ & Ht);
    [done|exact Hen|..].
  { apply Forall_forall. intros r Hr. unfold requests_of_range, upper in *.
    apply elem_of_range_requests in Hr as (k & Hk & ->); [|subst tot; dlia..].
    apply lor_u64; [unfold is_u64; simpl; subst tot; dlia|unfold is_u64; simpl; lia]. }
  destruct (map_range _ _ _ _ _ _) as [n s'] eqn:Erg.
  assert (s' = map_all hhdm s (requests_of_range addr (hhdm + addr) tot 3)) as ->.
  { unfold map_range in Erg. rewrite map_range_all in Erg. injection Erg as _ <-. done. }
  split; [done|]. split; [by apply (ev_tlb _ _ _ _ _ E)|].
  assert ((hhdm + addr) `div` 4096 * 4096 = hhdm + addr `div` 4096 * 4096) as Hb by dlia.
  split.
  - intros i Hi. rewrite Ht by (unfold upper; lia).
    rewrite range_effect_offset; try done; try (unfold upper; subst tot; dlia).
    rewrite decide_True by (subst tot; dlia). eexists. split; [reflexivity|].
    replace (addr + ((hhdm + addr + i) `div` 4096 * 4096 - (hhdm + addr) `div` 4096 * 4096))
      with ((addr + i) `div` 4096 * 4096 + addr `mod` 4096) by dlia.
    destruct (entry_fields ((addr + i) `div` 4096 * 4096) (addr `mod` 4096) 3) as (F1 & F2 & _); [dlia..|].
    done.
  - intros v Hv Hout. rewrite Ht by done.
    rewrite range_effect_offset; try done; try (unfold upper; subst tot; dlia).
    rewrite decide_False; [done|]. subst tot. dlia.
Qed.

(** ** Handles *)

Section Handles.
Context {A D : Type} {Al : Allocator A} {Laws : AllocatorLaws A}.
Context {Io : PortIO D} {Pci : PciConfig D}.

(** Filling a fresh block keeps the invariant and every other block. *)
Lemma fill_block (h : A) L b n m :
  a_inv h ((b, n) :: L) → (∀ i, ¬ (b <= i < b + n) → m i = a_mem h i) →
  a_inv (a_set m h) ((b, n) :: L) ∧ keeps L (a_mem h) m.
Proof.
  intros Hi Hm. split; [by eapply a_write; [exact Hi|left|]|].
  intros x k Hx i Hr. apply Hm.
  apply elem_of_Permutation in Hx as [L' Hp].
  assert (a_inv h ((b, n) :: (x, k) :: L')) as Hi' by (eapply a_perm; [|exact Hi]; by rewrite Hp).
  destruct (a_apart _ _ _ _ _ _ Hi'); lia.
Qed.

(** Closing a handle returns and touches no other block. *)
Lemma close_block (h : A) L b n : a_inv h ((b, n) :: L) →
  ∃ k h', (∀ fuel, (k <= fuel)%nat → ('(_, h) ← a_free fuel h b; Ret h) = Ret h') ∧
    keeps L (a_mem h) (a_mem h') ∧ (a_inv h' L ∨ a_inv h' ((b, n) :: L)).
Proof.
  intros Hi. destruct (a_free_ok _ _ _ _ Hi) as (k & r & h' & Hf & Hk & Ho).
  exists k, h'. split; [|done]. intros fuel Hle. by rewrite Hf.
Qed.

(** C27: a port range stays bound to its base: after [uacpi_kernel_io_map] every
    read and write through the handle, in whatever later state keeps the handle's
    block, goes to the port at the offset from the base (its low 16 bits), at the
    width of the access; unmapping returns and keeps all other blocks. *)
Theorem io_map_ports (h : A) L base len :
  a_inv h L → a_ready h uacpi_io_size → is_u64 base →
  ∃ k hnd n h', (∀ fuel, (k <= fuel)%nat →
      uacpi_kernel_io_map fuel h base len = Ret (STATUS_OK, hnd, h')) ∧
    a_inv h' ((hnd, n) :: L) ∧ keeps L (a_mem h) (a_mem h') ∧
    (∀ (h2 : A) (d : D) offset v, keeps [(hnd, n)] (a_mem h') (a_mem h2) →
      let port := u16 base ⊕ offset in
      uacpi_kernel_io_read8 h2 d hnd offset =
        (STATUS_OK, u8 (port_in 1 port d).1, (port_in 1 port d).2) ∧
      uacpi_kernel_io_read16 h2 d hnd offset =
        (STATUS_OK, u16 (port_in 2 port d).1, (port_in 2 port d).2) ∧
      uacpi_kernel_io_read32 h2 d hnd offset =
        (STATUS_OK, u32 (port_in 4 port d).1, (port_in 4 port d).2) ∧
      uacpi_kernel_io_write8 h2 d hnd offset v = (STATUS_OK, port_out 1 port v d) ∧
      uacpi_kernel_io_write16 h2 d hnd offset v = (STATUS_OK, port_out 2 port v d) ∧
      uacpi_kernel_io_write32 h2 d hnd offset v = (STATUS_OK, port_out 4 port v d)) ∧
    (∃ k2 h2, (∀ fuel, (k2 <= fuel)%nat → uacpi_kernel_io_unmap fuel h' hnd = Ret h2) ∧
      keeps L (a_mem h') (a_mem h2)).
Proof.
  intros Hi Hr Hb.
  destruct (a_malloc_ok h L uacpi_io_size Hi ltac:(unfold uacpi_io_size; lia) Hr)
    as (k & hnd & n & h1 & Hm & Hnz & Hn & Hi1 & Hk1). unfold uacpi_io_size in Hn.
  set (m1 := store64 (a_mem h1) hnd base). set (m2 := store64 m1 (hnd + 8) len).
  destruct (fill_block h1 L hnd n m2 Hi1) as [Hi2 Hk2].
  { intros i Ho. unfold m2, m1, store64. rewrite !store_out; [done|simpl; lia..]. }
  exists k, hnd, n, (a_set m2 h1). split; [|split; [done|split; [|split]]].
  - intros fuel Hf. unfold uacpi_kernel_io_map. rewrite Hm by done.
    cbn [mbind outcome_bind]. rewrite a_mem_set, a_set_set. done.
  - rewrite a_mem_set. by eapply keeps_trans.
  - intros h2 d offset v Hkeep port.
    assert (load 2 (a_mem h2) hnd = u16 base) as Hport.
    { rewrite (load_ext 2 m2); [|intros i Ho; rewrite <- (a_mem_set m2 h1); apply (Hkeep hnd n); [left|simpl in Ho; lia]].
      unfold m2, m1, store64. rewrite load_store_ne by (unfold apart; simpl; lia).
      rewrite (load_bytes 2 base _ hnd 0); [by rewrite Z.div_1_r|lia|].
      intros i Ho. rewrite store_in by (simpl in *; lia). f_equal. lia. }
    unfold uacpi_kernel_io_read8, uacpi_kernel_io_read16, uacpi_kernel_io_read32,
      uacpi_kernel_io_write8, uacpi_kernel_io_write16, uacpi_kernel_io_write32, io_port.
    rewrite !Hport. fold port.
    split_and!; try done; by destruct (port_in _ port d).
  - destruct (close_block _ _ _ _ Hi2) as (k2 & h2 & Hc & Hk & _). by exists k2, h2.
Qed.

(** The layout the ACPI library documents: three distinct bytes of the object. *)
Record layout_fits (l : pci_layout) : Prop := {
  lf_bus : 0 <= o_bus l < pci_size l;
  lf_device : 0 <= o_device l < pci_size l;
  lf_function : 0 <= o_function l < pci_size l;
}.

(** The byte of an address object at an offset. *)
Definition address_byte (address : list Z) (o : Z) : Z := u8 (address !!! Z.to_nat o).

(** C26: a PCI device handle names the device it was opened for: every
    configuration read and write through it, while its block is kept, reaches the
    bus, device and function of the address at the given offset; closing it returns
    and keeps all other blocks. *)
Theorem pci_open_device lay (h : A) L address :
  layout_fits lay → Z.of_nat (length address) = pci_size lay →
  a_inv h L → a_ready h (pci_size lay) →
  ∃ k hnd n h', (∀ fuel, (k <= fuel)%nat →
      uacpi_kernel_pci_device_open lay fuel h address = Ret (STATUS_OK, hnd, h')) ∧
    a_inv h' ((hnd, n) :: L) ∧ keeps L (a_mem h) (a_mem h') ∧
    (∀ (h2 : A) (d : D) offset v, keeps [(hnd, n)] (a_mem h') (a_mem h2) →
      let b := address_byte address (o_bus lay) in
      let dv := address_byte address (o_device lay) in
      let f := address_byte address (o_function lay) in
      uacpi_kernel_pci_read8 lay h2 d hnd offset =
        (STATUS_OK, u8 (config_read 1 b dv f offset d).1, (config_read 1 b dv f offset d).2) ∧
      uacpi_kernel_pci_read16 lay h2 d hnd offset =
        (STATUS_OK, u16 (config_read 2 b dv f offset d).1, (config_read 2 b dv f offset d).2) ∧
      uacpi_kernel_pci_read32 lay h2 d hnd offset =
        (STATUS_OK, u32 (config_read 4 b dv f offset d).1, (config_read 4 b dv f offset d).2) ∧
      uacpi_kernel_pci_write8 lay h2 d hnd offset v = (STATUS_OK, config_write 1 b dv f offset v d) ∧
      uacpi_kernel_pci_write16 lay h2 d hnd offset v = (STATUS_OK, config_write 2 b dv f offset v d) ∧
      uacpi_kernel_pci_write32 lay h2 d hnd offset v = (STATUS_OK, config_write 4 b dv f offset v d)) ∧
    (∃ k2 h2, (∀ fuel, (k2 <= fuel)%nat → uacpi_kernel_pci_device_close fuel h' hnd = Ret h2) ∧
      keeps L (a_mem h') (a_mem h2)).
Proof.
  intros Hlay Hlen Hi Hr. pose proof Hlay as [L1 L2 L3].
  destruct (a_malloc_ok h L (pci_size lay) Hi ltac:(lia) Hr)
    as (k & hnd & n & h1 & Hm & Hnz & Hn & Hi1 & Hk1).
  set (m2 := store_bytes (a_mem h1) hnd address).
  destruct (fill_block h1 L hnd n m2 Hi1) as [Hi2 Hk2].
  { intros i Ho. unfold m2, store_bytes. case_cond; first [done|lia]. }
  exists k, hnd, n, (a_set m2 h1). split; [|split; [done|split; [|split]]].
  - intros fuel Hf. unfold uacpi_kernel_pci_device_open. by rewrite Hm by done.
  - rewrite a_mem_set. by eapply keeps_trans.
  - intros h2 d offset v Hkeep b dv f.
    assert (∀ o, 0 <= o < pci_size lay → load8 (a_mem h2) (hnd + o) = address_byte address o) as Hfield.
    { intros o Ho. rewrite load8_eq, (Hkeep hnd n) by (left || lia). rewrite a_mem_set.
      unfold m2, store_bytes. cond_true. unfold address_byte. do 3 f_equal. lia. }
    unfold uacpi_kernel_pci_read8, uacpi_kernel_pci_read16, uacpi_kernel_pci_read32,
      uacpi_kernel_pci_write8, uacpi_kernel_pci_write16, uacpi_kernel_pci_write32, bus, device, function.
    rewrite !Hfield by done. fold b dv f.
    split_and!; try done; by destruct (config_read _ b dv f offset d).
  - destruct (close_block _ _ _ _ Hi2) as (k2 & h2 & Hc & Hk & _). by exists k2, h2.
Qed.

End Handles.

(** ** Delays *)

(** The busy-wait service never waits: whatever the number of microseconds
    asked for, at the 1000 Hz tick [Timer::init] programs it returns at once,
    without a single timer interrupt. *)
Theorem stall_never_waits usec evs t :
  clock_ok t → uacpi_kernel_stall usec evs t = Some (t, evs).
Proof.
  intros Hok. pose proof (u8_range usec).
  apply (sleep_submillisecond (u8 usec) evs t Hok). lia.
Qed.

Lemma stall_never_waits_witness : uacpi_kernel_stall 200 [TimerIrq] timer5 = Some (timer5, [TimerIrq]).
Proof. apply (stall_never_waits 200 [TimerIrq] timer5 timer5_ok). Defined.

(** ** Witnesses *)

(** A device that holds the last value written, and a packed address object. *)
#[local] Instance latch_io : PortIO (gmap Z Z) := {
  port_in := λ _ p d, (default 255 (d !! p), d);
  port_out := λ _ p v d, <[p := v]> d;
}.
#[local] Instance latch_pci : PciConfig (gmap Z Z) := {
  config_read := λ _ b dv f o d, (default 255 (d !! (b * 65536 + dv * 2048 + f * 256 + o)), d);
  config_write := λ _ b dv f o v d, <[b * 65536 + dv * 2048 + f * 256 + o := v]> d;
}.
Definition packed_address : pci_layout := mk_pci_layout 6 2 3 4.

Lemma heap_sample_ready size : 0 <= size <= 4000 → a_ready heap_sample size.
Proof.
  intros Hs H _. right. split; [apply sample_fresh|]. unfold page_frames. cond_true. vm_compute. discriminate.
Qed.

Lemma heap_sample_inv : a_inv heap_sample [].
Proof. exists []. split; [apply heap_sample_wf|done]. Qed.

Lemma io_map_ports_witness : ∃ hnd (h' : heap_state),
  uacpi_kernel_io_write8 h' (∅ : gmap Z Z) hnd 2 7 = (STATUS_OK, <[0x62 := 7]> ∅).
Proof.
  destruct (io_map_ports (D := gmap Z Z) heap_sample [] 0x60 5 heap_sample_inv)
    as (k & hnd & n & h' & _ & _ & _ & Hp & _);
    [apply heap_sample_ready; unfold uacpi_io_size; lia|unfold is_u64; lia|].
  exists hnd, h'. destruct (Hp h' ∅ 2 7) as (_ & _ & _ & Hw & _); [by intros b k0 _|exact Hw].
Defined.

Lemma pci_open_device_witness : ∃ hnd (h' : heap_state),
  uacpi_kernel_pci_write32 packed_address h' (∅ : gmap Z Z) hnd 16 9 = (STATUS_OK, <[1 * 65536 + 2 * 2048 + 3 * 256 + 16 := 9]> ∅).
Proof.
  destruct (pci_open_device (D := gmap Z Z) packed_address heap_sample [] [0; 0; 1; 2; 3; 0])
    as (k & hnd & n & h' & _ & _ & _ & Hp & _);
    [split; simpl; lia|done|apply heap_sample_inv|apply heap_sample_ready; simpl; lia|].
  exists hnd, h'. destruct (Hp h' ∅ 16 9) as (_ & _ & _ & _ & _ & Hw); [by intros b k0 _|exact Hw].
Defined.

Lemma uacpi_map_correct_witness :
  ∃ e, translate 0xffff800000000000
    (uacpi_kernel_map 0xffff800000000000 ready_sample 0x7fe1014 0x24).2 0xffff800007fe1020 = Some e ∧
    Z.land e PTE_MASK = 0x7fe1000 ∧ e `mod` 4096 = 0x17.
Proof.
  pose proof (uacpi_map_correct 0xffff800000000000 ready_sample _ 0x7fe1014 0x24
    tables_sample coherent_sample) as H.
  destruct (uacpi_kernel_map _ _ _ _) as [p s'].
  destruct H as (-> & _ & H & _); [vm_compute; lia|unfold upper; lia|reflexivity|lia..|].
  destruct (H 12 ltac:(lia)) as (e & He & Hf & Hl). exists e. split; [exact He|]. split; [exact Hf|].
  rewrite Hl. reflexivity.
Defined.
