(* ===== verification/State.v ===== *)
(** * State: the kernel as a whole.

    What the code finds when it starts ([machine]), the static variables of all
    components in one record ([kernel]) and why the boot sequence may stop ([stop]). *)
From stdpp Require Import base numbers list gmap strings.
From S2P Require Import Prelude Mem Boot Frames Paging PageTables Mapper AddressSpace Heap.
From S2P Require Import HeapSpec HeapPages Allocator Sched Tss Timer IoApic Lapic Interrupts.
From S2P Require Import HeapTables Symbols SymbolHeap Arch Acpi.
Local Open Scope Z_scope.

(** An access to a port or to configuration space, [bytes] wide. *)
Inductive access :=
| PortIn (bytes : nat) (port : Z)
| PortOut (bytes : nat) (port value : Z)
| ConfigRead (bytes : nat) (bus device function offset : Z)
| ConfigWrite (bytes : nat) (bus device function offset value : Z).

(** What the code finds: the responses of the boot loader, addresses the linker
    gives, tables of the firmware and of the kernel's own file, the processor, what
    a device answers to an access after the accesses before it, and the ACPI library:
    its functions, from its static variables to their result and the variables' new
    values.  [m_uacpi_table_find] is the lookup of the MADT, whose result is the
    address of the entries, the header's length and the size of the fixed part. *)
Record machine := mk_machine {
  m_limine : limine;
  m_mem : mem;
  m_linker : linker_symbols;
  m_isr : Z → Z;
  m_gdt : Z;
  m_tss : Z;
  m_idt : Z;
  m_st_type : Z → Z;
  m_stt_func : Z;
  m_strtab : Z;
  m_symtab : list elf_sym;
  m_cpuid : Z → Z → registers;
  m_ecx : Z;
  m_madt_at : Z → IOAPIC.madt_entry * Z;
  m_pci : pci_layout;
  m_device : list access → access → Z;
  m_spinlock : spinlock_class (A := heap_state);
  m_unlikely_error : Z → bool;
  m_uacpi_initialize : list Z → prog (Z * list Z);
  m_uacpi_table_find : list Z → prog (option (Z * Z * Z) * list Z);
  m_uacpi_prepare : list Z → prog (Z * list Z);
  m_uacpi_enter : list Z → prog (Z * list Z);
}.

(** The log lines and splash percentages of the sequence, the lines the ACPI library
    prints, and the instruction that masks interrupts, in order. *)
Inductive event :=
| Splash (percent : Z)
| Print (text : list Z)
| Success (text : string)
| Critical (text : string)
| Elapsed (ms : Z)
| Uptime (ms us ns : Z)
| Cli.

(** The static variables of the components.  [k_acpi] is [acpi_initialized] and
    [k_uacpi] the ACPI library's variables; [k_devices] and [k_calls] are the journals
    of the accesses to devices and of the calls of the library. *)
Record kernel := mk_kernel {
  k_boot : BootloaderCtx;
  k_uart : UART.uart_state;
  k_gdt : GDT.gdt_state;
  k_tss : TSS.tss_state;
  k_irq : IRQ.irq_state;
  k_paging : paging_state;
  k_heap : Z;
  k_symbols : list symbol_entry;
  k_cs : Z;
  k_acpi : bool;
  k_apics : IOAPIC.tables;
  k_io : IOAPIC.io_space;
  k_timer : Timer.Type_;
  k_frequency : Z;
  k_ports : port_writes;
  k_uacpi : list Z;
  k_devices : list access;
  k_calls : list (call * reply);
  k_events : list event;
}.

Definition set_boot (v : BootloaderCtx) (k : kernel) : kernel :=
  mk_kernel v (k_uart k) (k_gdt k) (k_tss k) (k_irq k) (k_paging k) (k_heap k) (k_symbols k) (k_cs k)
    (k_acpi k) (k_apics k) (k_io k) (k_timer k) (k_frequency k) (k_ports k) (k_uacpi k) (k_devices k) (k_calls k) (k_events k).
Definition set_uart (v : UART.uart_state) (k : kernel) : kernel :=
  mk_kernel (k_boot k) v (k_gdt k) (k_tss k) (k_irq k) (k_paging k) (k_heap k) (k_symbols k) (k_cs k)
    (k_acpi k) (k_apics k) (k_io k) (k_timer k) (k_frequency k) (k_ports k) (k_uacpi k) (k_devices k) (k_calls k) (k_events k).
Definition set_gdt (g : GDT.gdt_state) (t : TSS.tss_state) (k : kernel) : kernel :=
  mk_kernel (k_boot k) (k_uart k) g t (k_irq k) (k_paging k) (k_heap k) (k_symbols k) (k_cs k)
    (k_acpi k) (k_apics k) (k_io k) (k_timer k) (k_frequency k) (k_ports k) (k_uacpi k) (k_devices k) (k_calls k) (k_events k).
Definition set_irq (v : IRQ.irq_state) (k : kernel) : kernel :=
  mk_kernel (k_boot k) (k_uart k) (k_gdt k) (k_tss k) v (k_paging k) (k_heap k) (k_symbols k) (k_cs k)
    (k_acpi k) (k_apics k) (k_io k) (k_timer k) (k_frequency k) (k_ports k) (k_uacpi k) (k_devices k) (k_calls k) (k_events k).
Definition set_paging (v : paging_state) (k : kernel) : kernel :=
  mk_kernel (k_boot k) (k_uart k) (k_gdt k) (k_tss k) (k_irq k) v (k_heap k) (k_symbols k) (k_cs k)
    (k_acpi k) (k_apics k) (k_io k) (k_timer k) (k_frequency k) (k_ports k) (k_uacpi k) (k_devices k) (k_calls k) (k_events k).
Definition set_symbols (heap : Z) (v : list symbol_entry) (k : kernel) : kernel :=
  mk_kernel (k_boot k) (k_uart k) (k_gdt k) (k_tss k) (k_irq k) (k_paging k) heap v (k_cs k)
    (k_acpi k) (k_apics k) (k_io k) (k_timer k) (k_frequency k) (k_ports k) (k_uacpi k) (k_devices k) (k_calls k) (k_events k).
Definition set_acpi (v : bool) (k : kernel) : kernel :=
  mk_kernel (k_boot k) (k_uart k) (k_gdt k) (k_tss k) (k_irq k) (k_paging k) (k_heap k) (k_symbols k) (k_cs k)
    v (k_apics k) (k_io k) (k_timer k) (k_frequency k) (k_ports k) (k_uacpi k) (k_devices k) (k_calls k) (k_events k).
Definition set_ioapic (t : IOAPIC.tables) (io : IOAPIC.io_space) (k : kernel) : kernel :=
  mk_kernel (k_boot k) (k_uart k) (k_gdt k) (k_tss k) (k_irq k) (k_paging k) (k_heap k) (k_symbols k) (k_cs k)
    (k_acpi k) t io (k_timer k) (k_frequency k) (k_ports k) (k_uacpi k) (k_devices k) (k_calls k) (k_events k).
Definition set_ports (v : port_writes) (k : kernel) : kernel :=
  mk_kernel (k_boot k) (k_uart k) (k_gdt k) (k_tss k) (k_irq k) (k_paging k) (k_heap k) (k_symbols k) (k_cs k)
    (k_acpi k) (k_apics k) (k_io k) (k_timer k) (k_frequency k) v (k_uacpi k) (k_devices k) (k_calls k) (k_events k).
Definition emit (es : list event) (k : kernel) : kernel :=
  mk_kernel (k_boot k) (k_uart k) (k_gdt k) (k_tss k) (k_irq k) (k_paging k) (k_heap k) (k_symbols k) (k_cs k)
    (k_acpi k) (k_apics k) (k_io k) (k_timer k) (k_frequency k) (k_ports k) (k_uacpi k) (k_devices k) (k_calls k) (k_events k ++ es).

Definition set_uacpi (v : list Z) (k : kernel) : kernel :=
  mk_kernel (k_boot k) (k_uart k) (k_gdt k) (k_tss k) (k_irq k) (k_paging k) (k_heap k) (k_symbols k) (k_cs k)
    (k_acpi k) (k_apics k) (k_io k) (k_timer k) (k_frequency k) (k_ports k) v (k_devices k) (k_calls k) (k_events k).
Definition set_devices (v : list access) (k : kernel) : kernel :=
  mk_kernel (k_boot k) (k_uart k) (k_gdt k) (k_tss k) (k_irq k) (k_paging k) (k_heap k) (k_symbols k) (k_cs k)
    (k_acpi k) (k_apics k) (k_io k) (k_timer k) (k_frequency k) (k_ports k) (k_uacpi k) v (k_calls k) (k_events k).
Definition note (c : call) (r : reply) (k : kernel) : kernel :=
  mk_kernel (k_boot k) (k_uart k) (k_gdt k) (k_tss k) (k_irq k) (k_paging k) (k_heap k) (k_symbols k) (k_cs k)
    (k_acpi k) (k_apics k) (k_io k) (k_timer k) (k_frequency k) (k_ports k) (k_uacpi k) (k_devices k)
    (k_calls k ++ [(c, r)]) (k_events k).

(** The heap, which shares the frames with the page tables. *)
Definition heap_of (k : kernel) : heap_state := mk_heap (p_fr (k_paging k)) (k_heap k).
Definition set_heap (h : heap_state) (k : kernel) : kernel :=
  set_symbols (heap h) (k_symbols k) (set_paging (set_fr (h_fr h) (k_paging k)) k).

Definition with_pit (p : PIT.pit_state) (s : IRQ.irq_state) : IRQ.irq_state :=
  IRQ.mk_irq (IRQ.irq_handlers s) (IRQ.timer_interrupt_count s) (IRQ.uacpi_handlers s) (IRQ.events s)
    (IRQ.idt_st s) p (IRQ.lapic s).
Definition with_lapic (l : LAPIC.lapic_state) (s : IRQ.irq_state) : IRQ.irq_state :=
  IRQ.mk_irq (IRQ.irq_handlers s) (IRQ.timer_interrupt_count s) (IRQ.uacpi_handlers s) (IRQ.events s)
    (IRQ.idt_st s) (IRQ.pit s) l.

(** The state of [Sys::Timer], whose counter is the PIT's. *)
Definition timer_of (k : kernel) : Timer.timer_state :=
  Timer.mk_timer (k_timer k) (k_frequency k) (IRQ.pit (k_irq k)).
Definition set_timer (t : Timer.timer_state) (k : kernel) : kernel :=
  mk_kernel (k_boot k) (k_uart k) (k_gdt k) (k_tss k) (with_pit (Timer.pit t) (k_irq k)) (k_paging k)
    (k_heap k) (k_symbols k) (k_cs k) (k_acpi k) (k_apics k) (k_io k)
    (Timer.active_timer t) (Timer.timer_frequency t) (k_ports k) (k_uacpi k) (k_devices k) (k_calls k) (k_events k).

(** Why the sequence goes no further. *)
Inductive stop :=
| SerialLoop | ShortMap | SymbolOverrun | HeapHalt | OutOfFuel
| LibraryHalt | NoMadt | MadtOverrun | TimerFault | Halted.

Definition step : Type := kernel + stop.
Definition then_ (r : step) (f : kernel → step) : step :=
  match r with inl k => f k | inr e => inr e end.
