(* ===== verification/Uacpi.v ===== *)
(** * Uacpi: the ACPI library at work in the kernel.

    [serve] answers a call of the library with the service of [Acpi] or [Interrupts]
    it names, on the kernel's state, and [run] runs a whole function of the library
    ([Acpi.prog]).  [ACPI] is [src/kernel/sys/acpi.cc] on top of it.  The second half
    says what the kernel relies on of the library ([lawful]) and shows that a lawful
    function returns, keeps the page tables and the heap well formed, every block that
    is not its own, and every translation but those of the regions it maps. *)
From stdpp Require Import base numbers list gmap strings.
From S2P Require Import Prelude Mem Boot Frames Paging PageTables Mapper AddressSpace Heap.
From S2P Require Import HeapSpec HeapPages Allocator Timer IoApic Interrupts.
Import IRQ.
From S2P Require Import HeapTables Symbols Acpi State.
Local Open Scope Z_scope.

(** ** Devices that answer by the accesses before *)

#[export] Instance device_ports (f : list access → access → Z) : PortIO (list access) := {
  port_in := λ w p d, (f d (PortIn w p), d ++ [PortIn w p]);
  port_out := λ w p v d, d ++ [PortOut w p v];
}.
#[export] Instance device_config (f : list access → access → Z) : PciConfig (list access) := {
  config_read := λ w b dv fn o d, (f d (ConfigRead w b dv fn o), d ++ [ConfigRead w b dv fn o]);
  config_write := λ w b dv fn o v d, d ++ [ConfigWrite w b dv fn o v];
}.

(** ** Running the library *)

Section Run.
Context (M : machine).
#[local] Instance ports : PortIO (list access) := device_ports (m_device M).
#[local] Instance config : PciConfig (list access) := device_config (m_device M).
Let pci := m_pci M.
Let cls := m_spinlock M.

(** A service that only reads or writes devices. *)
Definition reads (r : uacpi_status * Z * list access) (k : kernel) : outcome (reply * kernel) :=
  let '(s, v, d) := r in Ret (mk_reply s v NullHandle, set_devices d k).
Definition writes (r : uacpi_status * list access) (k : kernel) : outcome (reply * kernel) :=
  let '(s, d) := r in Ret (completed s, set_devices d k).

(** A service that changes the heap: it returns a pointer, with or without a status,
    or nothing. *)
Definition allocates (r : outcome (Z * heap_state)) (k : kernel) : outcome (reply * kernel) :=
  '(p, h) ← r; Ret (returned p, set_heap h k).
Definition opens (r : outcome (uacpi_status * Z * heap_state)) (k : kernel) : outcome (reply * kernel) :=
  '(s, p, h) ← r; Ret (mk_reply s p NullHandle, set_heap h k).
Definition frees (r : outcome heap_state) (k : kernel) : outcome (reply * kernel) :=
  h ← r; Ret (returned 0, set_heap h k).
Definition acquires (r : outcome (uacpi_status * heap_state)) (k : kernel) : outcome (reply * kernel) :=
  '(s, h) ← r; Ret (completed s, set_heap h k).

(** A delay; no interrupt arrives while the library runs, so one that waits for the
    clock does not return.  Before [Timer::init] there is no clock to wait for. *)
Definition delays (r : option (Timer.timer_state * list wake)) (k : kernel) : outcome (reply * kernel) :=
  match r with Some (t, _) => Ret (returned 0, set_timer t k) | None => Hlt end.

Definition serve (fuel : nat) (c : call) (k : kernel) : outcome (reply * kernel) :=
  let h := heap_of k in
  let d := k_devices k in
  let idle v := Ret (returned v, k) in
  match c with
  | GetRsdp => let '(s, v) := uacpi_kernel_get_rsdp (k_boot k) in Ret (mk_reply s v NullHandle, k)
  | Map addr len =>
      let '(p, ps) := uacpi_kernel_map (hhdm_addr (k_boot k)) (k_paging k) addr len in
      Ret (returned p, set_paging ps k)
  | Unmap virt len => Ret (returned 0, set_paging (uacpi_kernel_unmap (k_paging k) virt len) k)
  | LogLine msg => Ret (returned 0, emit [Print msg] k)
  | PciOpen address => opens (uacpi_kernel_pci_device_open pci fuel h address) k
  | PciClose hnd => frees (uacpi_kernel_pci_device_close fuel h hnd) k
  | PciRead W8 hnd offset => reads (uacpi_kernel_pci_read8 pci h d hnd offset) k
  | PciRead W16 hnd offset => reads (uacpi_kernel_pci_read16 pci h d hnd offset) k
  | PciRead W32 hnd offset => reads (uacpi_kernel_pci_read32 pci h d hnd offset) k
  | PciWrite W8 hnd offset v => writes (uacpi_kernel_pci_write8 pci h d hnd offset v) k
  | PciWrite W16 hnd offset v => writes (uacpi_kernel_pci_write16 pci h d hnd offset v) k
  | PciWrite W32 hnd offset v => writes (uacpi_kernel_pci_write32 pci h d hnd offset v) k
  | IoMap base len => opens (uacpi_kernel_io_map fuel h base len) k
  | IoUnmap hnd => frees (uacpi_kernel_io_unmap fuel h hnd) k
  | IoRead W8 hnd offset => reads (uacpi_kernel_io_read8 h d hnd offset) k
  | IoRead W16 hnd offset => reads (uacpi_kernel_io_read16 h d hnd offset) k
  | IoRead W32 hnd offset => reads (uacpi_kernel_io_read32 h d hnd offset) k
  | IoWrite W8 hnd offset v => writes (uacpi_kernel_io_write8 h d hnd offset v) k
  | IoWrite W16 hnd offset v => writes (uacpi_kernel_io_write16 h d hnd offset v) k
  | IoWrite W32 hnd offset v => writes (uacpi_kernel_io_write32 h d hnd offset v) k
  | Alloc size => allocates (uacpi_kernel_alloc fuel h size) k
  | Free p => frees (uacpi_kernel_free fuel h p) k
  | Nanoseconds => idle (uacpi_kernel_get_nanoseconds_since_boot (timer_of k))
  | Stall usec => delays (uacpi_kernel_stall usec [] (timer_of k)) k
  | Sleep msec => delays (uacpi_kernel_sleep msec [] (timer_of k)) k
  | CreateMutex => allocates (uacpi_kernel_create_mutex cls fuel h) k
  | FreeMutex hnd => frees (uacpi_kernel_free_mutex fuel h hnd) k
  | AcquireMutex hnd _ => acquires (uacpi_kernel_acquire_mutex cls h hnd) k
  | ReleaseMutex hnd => Ret (returned 0, set_heap (uacpi_kernel_release_mutex cls h hnd) k)
  | CreateEvent => idle uacpi_kernel_create_event
  | FreeEvent _ | SignalEvent _ | ResetEvent _ => idle 0
  | ThreadId => idle uacpi_kernel_get_thread_id
  | WaitEvent hnd timeout => idle (uacpi_kernel_wait_for_event hnd timeout)
  | FirmwareRequest r => Ret (completed (uacpi_kernel_handle_firmware_request r), k)
  | Install irq handler ctx out_ok =>
      let '(s, hnd, i) := install irq handler ctx out_ok (k_irq k) in
      Ret (mk_reply s 0 hnd, set_irq i k)
  | Uninstall handler hnd =>
      let '(s, i) := uninstall handler hnd (k_irq k) in Ret (completed s, set_irq i k)
  | CreateSpinlock => allocates (uacpi_kernel_create_spinlock cls fuel h) k
  | FreeSpinlock hnd => frees (uacpi_kernel_free_spinlock fuel h hnd) k
  | LockSpinlock hnd => acquires (uacpi_kernel_lock_spinlock cls h hnd) k
  | UnlockSpinlock hnd _ => Ret (returned 0, set_heap (uacpi_kernel_unlock_spinlock cls h hnd) k)
  | ScheduleWork t f c => Ret (completed (uacpi_kernel_schedule_work t f c), k)
  | WaitWork => Ret (completed uacpi_kernel_wait_for_work_completion, k)
  | ReadMem n a => idle (load n (h_mem h) a)
  | WriteMem n a v => Ret (returned 0, set_heap (set_h_mem (store n (h_mem h) a v) h) k)
  end.

(** A function of the library, each call noted with its reply. *)
Fixpoint run {R} (fuel : nat) (p : prog R) (k : kernel) : R * kernel + stop :=
  match p with
  | Done r => inl (r, k)
  | Call c f =>
      match serve fuel c k with
      | Ret (r, k) => run fuel (f r) (note c r k)
      | Hlt => inr LibraryHalt
      | NoFuel => inr OutOfFuel
      end
  end.

(** A function of the library on its static variables. *)
Definition call_library {R} (fuel : nat) (f : list Z → prog (R * list Z)) (k : kernel) : R * kernel + stop :=
  match run fuel (f (k_uacpi k)) k with
  | inl (r, v, k) => inl (r, set_uacpi v k)
  | inr e => inr e
  end.
End Run.

(** ** Start-up and shutdown ([acpi.cc]) *)

Module ACPI.
Section Functions.
Context (M : machine).

Definition init (fuel : nat) (k : kernel) : step :=
  match call_library M fuel (m_uacpi_initialize M) k with
  | inl (ret, k) =>
      if m_unlikely_error M ret then inl (emit [Critical "uacpi_initialize error: %s"] k)
      else inl (emit [Success "ACPI subsystem initialized"] (set_acpi true k))
  | inr e => inr e
  end.

Definition is_initialized (k : kernel) : bool := k_acpi k.

(** The calls in its body are commented out. *)
Definition load (k : kernel) : kernel := k.

Definition shutdown (fuel : nat) (k : kernel) : Z * kernel + stop :=
  match call_library M fuel (m_uacpi_prepare M) k with
  | inl (ret, k) =>
      if m_unlikely_error M ret then inl (-1, emit [Critical "failed to prepare for sleep: %s"] k)
      else
        match call_library M fuel (m_uacpi_enter M) (emit [Cli] k) with
        | inl (ret, k) =>
            if m_unlikely_error M ret then inl (-1, emit [Critical "failed to enter sleep: %s"] k)
            else inl (0, k)
        | inr e => inr e
        end
  | inr e => inr e
  end.
End Functions.
End ACPI.

(** ** What the kernel relies on *)

(** Memory changes only in the [n] bytes from [b]. *)
Definition only (b n : Z) (m m' : mem) : Prop := ∀ a, ¬ (b <= a < b + n) → m' a = m a.

(** The spinlock class of the support library: [new] is [kmalloc] and the constructor,
    a new or released lock is free, and taking a free lock returns; nothing but the
    bytes of the object is read or written. *)
Record spinlock_laws (cls : spinlock_class (A := heap_state)) := mk_laws {
  sl_size : Z;
  sl_free : Z → mem → Prop;
  sl_construct : Z → mem → mem;
  sl_size_ok : 0 < sl_size <= 4032;
  sl_new : ∀ fuel h, new_spinlock cls fuel h =
    ('(p, h) ← kmalloc fuel h sl_size; Ret (p, set_h_mem (sl_construct p (h_mem h)) h));
  sl_constructed : ∀ p m, sl_free p (sl_construct p m) ∧ only p sl_size m (sl_construct p m);
  sl_local : ∀ p m m', same_on p (p + sl_size) m m' → sl_free p m → sl_free p m';
  sl_lock : ∀ p m, sl_free p m → ∃ m', lock cls p m = Ret m' ∧ only p sl_size m m';
  sl_unlock : ∀ p m, sl_free p (unlock cls p m) ∧ only p sl_size m (unlock cls p m);
}.
Arguments sl_size {cls} _.
Arguments sl_free {cls} _.
Arguments sl_construct {cls} _.

(** The library's objects in the kernel's heap, by address. *)
Inductive object := Bytes (size : Z) | Lock (held : bool).
Abbreviation ledger := (gmap Z object).

(** The page requests of [uacpi_kernel_map]. *)
Definition region_requests (hhdm addr len : Z) : list request :=
  requests_of_range addr (PHYS2VIRT hhdm addr)
    (ALIGN_UP (len ⊕ (addr ⊖ ROUND_DOWN addr)) 0x1000) (Z.lor PAGE_PRESENT PAGE_WRITE).

(** The regions the library mapped, and the pointers it was given. *)
Definition mapped (hhdm : Z) (calls : list (call * reply)) : list request :=
  calls ≫= λ x, match x.1 with Map addr len => region_requests hhdm addr len | _ => [] end.
Definition allocating (c : call) : bool :=
  match c with Alloc _ | PciOpen _ | IoMap _ _ | CreateMutex | CreateSpinlock => true | _ => false end.
Definition given (calls : list (call * reply)) : list Z :=
  calls ≫= λ x, if allocating x.1 then [rp_value x.2] else [].

Section Contract.
Context (M : machine) (boot : BootloaderCtx) (f : frame_state).
Let hhdm := hhdm_addr boot.

(** Frames a call may take. *)
Definition cost (c : call) : Z :=
  match c with
  | Map addr len => Z.of_nat (base.size (tables_for (region_requests hhdm addr len)))
  | _ => if allocating c then 1 else 0
  end.

(** The bytes the library may read and write: those of its own objects, and memory
    outside the frame pool and its bitmap. *)
Definition accessible (own : ledger) (a : Z) : Prop :=
  outside f a ∨ ∃ b size, own !! b = Some (Bytes size) ∧ b <= a < b + size.

(** What the library may ask for when [own] are its objects. *)
Definition permitted (own : ledger) (c : call) : Prop :=
  match c with
  | Alloc size => 0 < size <= 4032
  | PciOpen address => Z.of_nat (length address) <= pci_size (m_pci M) ∧ 0 < pci_size (m_pci M) <= 4032
  | Free p | PciClose p | IoUnmap p | FreeMutex p | FreeSpinlock p => p = 0 ∨ is_Some (own !! p)
  | AcquireMutex p _ | LockSpinlock p => own !! p = Some (Lock false)
  | ReleaseMutex p | UnlockSpinlock p _ => own !! p = Some (Lock true)
  | WriteMem n a _ =>
      (∃ b size, own !! b = Some (Bytes size) ∧ b <= a ∧ a + Z.of_nat n <= b + size) ∨ off_pool f a (Z.of_nat n)
  | Install _ _ _ _ | Uninstall _ _ => False
  | _ => True
  end.

(** A new object at an address the library does not have, its bytes unknown. *)
Definition created (o : object) (own : ledger) (v : mem) (r : reply) (own' : ledger) (v' : mem) : Prop :=
  rp_status r = STATUS_OK ∧ rp_value r ≠ 0 ∧ own !! rp_value r = None ∧ own' = <[rp_value r := o]> own ∧
  ∀ a, accessible own a → v' a = v a.

(** What it may get: the reply, its objects afterwards, and the memory it can see,
    which was [v]. *)
Definition answers (c : call) (own : ledger) (v : mem) (r : reply) (own' : ledger) (v' : mem) : Prop :=
  match c with
  | GetRsdp => r = returned (rsdp_addr boot) ∧ own' = own ∧ v' = v
  | Map addr _ => r = returned (PHYS2VIRT hhdm addr) ∧ own' = own ∧ v' = v
  | Alloc size => created (Bytes size) own v r own' v'
  | PciOpen _ => created (Bytes (pci_size (m_pci M))) own v r own' v'
  | IoMap _ _ => created (Bytes uacpi_io_size) own v r own' v'
  | CreateMutex | CreateSpinlock => created (Lock false) own v r own' v'
  | Free p | PciClose p | IoUnmap p | FreeMutex p | FreeSpinlock p => own' = delete p own ∧ v' = v
  | AcquireMutex p _ | LockSpinlock p => rp_status r = STATUS_OK ∧ own' = <[p := Lock true]> own ∧ v' = v
  | ReleaseMutex p | UnlockSpinlock p _ => own' = <[p := Lock false]> own ∧ v' = v
  | ReadMem n a =>
      ((∀ i, a <= i < a + Z.of_nat n → accessible own i) → rp_value r = load n v a) ∧ own' = own ∧ v' = v
  | WriteMem n a x => own' = own ∧ v' = store n v a x
  | _ => own' = own ∧ v' = v
  end.

(** A function of the library that keeps to the rules whatever it gets, takes at most
    [n] frames, and ends in [Q]. *)
Fixpoint lawful {R} (Q : R → Z → ledger → mem → Prop) (n : Z) (own : ledger) (v : mem) (p : prog R) : Prop :=
  match p with
  | Done r => Q r n own v
  | Call c k => permitted own c ∧ cost c <= n ∧
      ∀ r own' v', answers c own v r own' v' → lawful Q (n - cost c) own' v' (k r)
  end.

(** One call, [x] its cost. *)
Lemma lawful_call {R} (Q : R → Z → ledger → mem → Prop) x n n' own v c k :
  permitted own c → cost c = x → 0 <= n' → n = x + n' →
  (∀ r own' v', answers c own v r own' v' → lawful Q n' own' v' (k r)) → lawful Q n own v (Call c k).
Proof.
  intros Hp Hc Hn -> Hk. split; [done|]. rewrite Hc. split; [lia|]. by replace (x + n' - x) with n' by lia.
Qed.
End Contract.

(** ** Lists of calls *)

Lemma coherent_ext hhdm s s' :
  tlb s' = tlb s → (∀ x, translate hhdm s' x = translate hhdm s x) →
  tlb_coherent hhdm s → tlb_coherent hhdm s'.
Proof. intros Et Ht Hc pg e. rewrite Et, Ht. apply Hc. Qed.

Lemma mapped_app hhdm l l' : mapped hhdm (l ++ l') = mapped hhdm l ++ mapped hhdm l'.
Proof. apply bind_app. Qed.
Lemma given_app l l' : given (l ++ l') = given l ++ given l'.
Proof. apply bind_app. Qed.

Lemma given_more (lib : list (Z * Z)) l x :
  Forall (λ y, y.1 ∈ given l) lib → Forall (λ y, y.1 ∈ given (l ++ [x])) lib.
Proof. intros Hf. eapply Forall_impl; [exact Hf|]. intros y Hy. rewrite given_app, elem_of_app. by left. Qed.

(** [uacpi_kernel_map] as a list of requests. *)
Lemma uacpi_kernel_map_all hhdm s addr len :
  uacpi_kernel_map hhdm s addr len = (PHYS2VIRT hhdm addr, map_all hhdm s (region_requests hhdm addr len)).
Proof. unfold uacpi_kernel_map, map_range. by rewrite map_range_all. Qed.

Lemma range_requests_u64 j phys virt i fl :
  is_u64 fl → Forall (λ r, is_u64 (r_entry r)) (range_requests j phys virt i fl).
Proof.
  intros Hfl. revert i; induction j as [|j IH]; intros i; constructor; [|apply IH].
  apply lor_u64; [apply u64_range|done].
Qed.

(** ** The kernel as host of the library *)

Section Host.
Context (M : machine) (L : spinlock_laws (m_spinlock M)) (k0 : kernel) (bs : list (Z * Z)).
Let boot := k_boot k0.
Let hhdm := hhdm_addr boot.
Let f := p_fr (k_paging k0).
Let memory (k : kernel) : mem := k_mem (p_fr (k_paging k)).

(** An object of the library in a block of [z] bytes. *)
Definition object_at (m : mem) (b z : Z) (o : object) : Prop :=
  match o with
  | Bytes size => 0 < size <= z
  | Lock held => sl_size L <= z ∧ (held = false → sl_free L b m)
  end.

(** What the library never touches. *)
Record aside (k : kernel) : Prop := {
  as_boot : k_boot k = boot;
  as_irq : k_irq k = k_irq k0;
  as_symbols : k_symbols k = k_symbols k0;
  as_io : k_io k = k_io k0;
  as_timer : k_timer k = k_timer k0;
}.

(** The kernel [k], reached from [k0] whose live blocks are [bs]: [n] frames are left
    for the library, [own] are its objects, in the blocks [lib], and [v] the memory it
    sees. *)
Record hosting (n : Z) (own : ledger) (v : mem) (k : kernel) (T : tree) (H : list hpage) (lib : list (Z * Z)) : Prop := {
  ho_tables : tables_wf hhdm (p_fr (k_paging k)) (pml4 (k_paging k)) T;
  ho_tlb : tlb_coherent hhdm (k_paging k);
  ho_space : ∀ x, translate hhdm (k_paging k) x =
    effect (mapped hhdm (k_calls k)) x (translate hhdm (k_paging k0) x);
  ho_heap : heap_wf (heap_of k) H;
  ho_off : tables_off T H;
  ho_frames : frames_for (heap_of k) n;
  ho_blocks : blocks H ≡ₚ bs ++ lib;
  ho_keeps : keeps bs (memory k0) (memory k);
  ho_given : Forall (λ x, x.1 ∈ given (k_calls k)) lib;
  ho_own : ∀ b o, own !! b = Some o → ∃ z, (b, z) ∈ lib ∧ object_at (memory k) b z o;
  ho_view : ∀ a, accessible f own a → memory k a = v a;
  ho_pool : same_pool f (p_fr (k_paging k));
  ho_aside : aside k;
}.

Lemma object_at_same m m' b z o : same_on b (b + z) m m' → object_at m b z o → object_at m' b z o.
Proof.
  destruct o as [size|held]; simpl; [done|]. intros Hs [Hz Hl]. split; [done|]. intros E.
  eapply (sl_local _ L); [|by apply Hl]. eapply same_on_weaken; [..|exact Hs]; lia.
Qed.

(** A page of the heap is in the pool. *)
Lemma page_inside h H i p a :
  heap_wf h H → same_pool f (h_fr h) → H !! i = Some p → hp_base p <= a < hp_end p → ¬ outside f a.
Proof.
  intros Hw (_ & Ea & Eb & _) Hi Ha [Hout _]. destruct (hw_owned _ _ Hw i p Hi) as (j & c & [O1 O2 O3 _]).
  unfold pool_frame in *. rewrite Ea, Eb in *. lia.
Qed.

Lemma block_in_pool h H b z a :
  heap_wf h H → same_pool f (h_fr h) → (b, z) ∈ blocks H → b <= a < b + z → ¬ outside f a.
Proof.
  intros Hw Hp (i & p & Hi & Hb)%elem_of_blocks Ha.
  destruct (page_block_bounds _ H Hw i p b z Hi Hb) as (B1 & B2 & _). eapply page_inside; [done..|]. lia.
Qed.

Lemma accessible_delete own p a : accessible f (delete p own) a → accessible f own a.
Proof. intros [?|(b & size & [_ Hb]%lookup_delete_Some & Ha)]; [by left|right; by exists b, size]. Qed.

Section Step.
Context (n : Z) (own : ledger) (v : mem) (k : kernel) (T : tree) (H : list hpage) (lib : list (Z * Z)).
Context (Ho : hosting n own v k T H lib).

(** A call that changes neither memory nor tables. *)
Lemma host_idle c r k' :
  mapped hhdm [(c, r)] = [] → k_paging k' = k_paging k → k_heap k' = k_heap k → k_calls k' = k_calls k → aside k' →
  hosting n own v (note c r k') T H lib.
Proof.
  intros Hc Ep Eh El Ha. destruct Ho. split; unfold memory, heap_of in *; cbn [note k_paging k_heap k_calls];
    rewrite ?Ep, ?Eh, ?El; try done.
  - intros x. rewrite mapped_app, Hc, app_nil_r. done.
  - by apply given_more.
  - destruct Ha; by split.
Qed.

(** A call that changes the heap. *)
Lemma host_heap c r h' H' n' own' v' lib' :
  mapped hhdm [(c, r)] = [] →
  heap_wf h' H' → spares (heap_of k) H h' H' → frames_for h' n' → keeps bs (memory k) (h_mem h') →
  blocks H' ≡ₚ bs ++ lib' → Forall (λ x, x.1 ∈ given (k_calls k ++ [(c, r)])) lib' →
  (∀ b o, own' !! b = Some o → ∃ z, (b, z) ∈ lib' ∧ object_at (h_mem h') b z o) →
  (∀ a, accessible f own' a → h_mem h' a = v' a) →
  hosting n' own' v' (note c r (set_heap h' k)) T H' lib'.
Proof.
  intros Hc Hw Hs Hn Hk Hb Hg Hown Hv. destruct Ho as [H1 H2 H3 H4 H5 H6 H7 H8 H9 H10 H11 H12 [H13 H14 H15 H16 H17]].
  change (p_fr (k_paging k)) with (h_fr (heap_of k)) in H1, H12.
  assert (tables_wf hhdm (h_fr h') (pml4 (k_paging k)) T) as HT by (eapply spared_wf; done || apply Hw).
  assert (∀ x, translate hhdm (k_paging (set_heap h' k)) x = translate hhdm (k_paging k) x) as Htr.
  { intros x. rewrite !(translate_tree _ _ T) by done. exact (spared_entry hhdm _ T (heap_of k) h' H H' H1 H5 Hs x). }
  split; try done.
  - by apply (coherent_ext hhdm (k_paging k)).
  - intros x. rewrite Htr. cbn [note k_calls set_heap set_symbols set_paging].
    rewrite mapped_app, Hc, app_nil_r. apply H3.
  - by destruct h'.
  - exact (spared_off hhdm _ T (heap_of k) h' H H' H1 H5 Hs).
  - by eapply (keeps_trans bs (memory k0) (memory k)).
  - eapply same_pool_trans; [exact H12|]. apply Hs.
Qed.

(** The blocks of the library's objects. *)
Lemma lib_block b z : (b, z) ∈ lib → (b, z) ∈ blocks H.
Proof. intros Hb. rewrite (ho_blocks _ _ _ _ _ _ _ Ho), elem_of_app. by right. Qed.

Lemma object_pos m b z o : object_at m b z o → 0 < z.
Proof. destruct o; simpl; [lia|]. pose proof (sl_size_ok _ L). lia. Qed.

Lemma block_inside b z a : (b, z) ∈ blocks H → b <= a < b + z → ¬ outside f a.
Proof. intros Hb. eapply block_in_pool; [apply Ho|apply Ho|done]. Qed.

Lemma lib_apart b z b' z' :
  (b, z) ∈ lib → (b', z') ∈ bs ++ lib → (b, z) ≠ (b', z') ∨ (b', z') ∈ bs → b + z <= b' ∨ b' + z' <= b.
Proof.
  intros Hb Hb' Hd. pose proof (blocks_pairwise _ H (ho_heap _ _ _ _ _ _ _ Ho)) as Hp.
  apply (pairwise_perm _ _ (ho_blocks _ _ _ _ _ _ _ Ho)) in Hp.
  destruct Hd as [Hd|Hd].
  - eapply (pairwise_elem _ (b, z) (b', z')); [exact Hp|apply elem_of_app; by right|done|done].
  - destruct (pairwise_between bs lib (b', z') (b, z) Hp Hd Hb); simpl in *; lia.
Qed.

(** A call that writes in one of the library's blocks. *)
Lemma host_write c r b z o o' m' v' :
  own !! b = Some o → (b, z) ∈ lib → mapped hhdm [(c, r)] = [] → only b z (memory k) m' → object_at m' b z o' →
  (∀ a, accessible f (<[b := o']> own) a → m' a = v' a) →
  hosting n (<[b := o']> own) v' (note c r (set_heap (set_h_mem m' (heap_of k)) k)) T H lib.
Proof.
  intros Hb Hz Hc Hm Hat Hv. pose proof (lib_block b z Hz) as Hbl. pose proof (ho_heap _ _ _ _ _ _ _ Ho) as Hw.
  eapply host_heap; try done.
  - by eapply heap_write.
  - by eapply write_spares.
  - eapply write_frames_for; [done..|]. apply (ho_frames _ _ _ _ _ _ _ Ho).
  - intros b' z' Hb' a Ha. apply Hm. destruct (lib_apart b z b' z' Hz); [apply elem_of_app; by left|by right|lia..].
  - apply (ho_blocks _ _ _ _ _ _ _ Ho).
  - apply given_more, (ho_given _ _ _ _ _ _ _ Ho).
  - intros b' o1 [[<- <-]|[Hne Hb']]%lookup_insert_Some; [by exists z|].
    destruct (ho_own _ _ _ _ _ _ _ Ho b' o1 Hb') as (z' & Hz' & Hat'). exists z'. split; [done|].
    eapply object_at_same; [|exact Hat']. intros a Ha. apply Hm.
    destruct (lib_apart b z b' z' Hz); [apply elem_of_app; by right|left; congruence|lia..].
Qed.

(** A lock taken or released. *)
Lemma host_lock c r b z o held m' :
  own !! b = Some o → (b, z) ∈ lib → mapped hhdm [(c, r)] = [] → only b z (memory k) m' →
  object_at m' b z (Lock held) →
  hosting n (<[b := Lock held]> own) v (note c r (set_heap (set_h_mem m' (heap_of k)) k)) T H lib.
Proof.
  intros Hb Hz Hc Hm Hat. eapply host_write; try done. intros a Ha.
  rewrite Hm.
  - apply (ho_view _ _ _ _ _ _ _ Ho). destruct Ha as [?|(b' & size & Hb' & Ha)]; [by left|right].
    apply lookup_insert_Some in Hb' as [[_ ?]|[_ Hb']]; [done|]. by exists b', size.
  - intros Hin. destruct Ha as [Ha|(b' & size & [[_ ?]|[Hne Hb']]%lookup_insert_Some & Ha)]; [|done|].
    + by destruct (block_inside b z a (lib_block b z Hz) Hin).
    + destruct (ho_own _ _ _ _ _ _ _ Ho b' _ Hb') as (z' & Hz' & Hat'). simpl in Hat'.
      destruct (lib_apart b z b' z' Hz); [apply elem_of_app; by right|left; congruence|lia..].
Qed.

(** A write of the library. *)
Lemma host_store c r j a x :
  mapped hhdm [(c, r)] = [] →
  (∃ b size, own !! b = Some (Bytes size) ∧ b <= a ∧ a + Z.of_nat j <= b + size) ∨ off_pool f a (Z.of_nat j) →
  hosting n own (store j v a x) (note c r (set_heap (set_h_mem (store j (memory k) a x) (heap_of k)) k)) T H lib.
Proof.
  intros Hc Hor.
  assert (∀ i, accessible f own i → store j (memory k) a x i = store j v a x i) as Hv.
  { intros i Hi. destruct (decide (a <= i < a + Z.of_nat j)); [by rewrite !store_in by lia|].
    rewrite !store_out by lia. by apply (ho_view _ _ _ _ _ _ _ Ho). }
  destruct Hor as [(b & size & Hb & H1 & H2)|Hoff].
  - destruct (ho_own _ _ _ _ _ _ _ Ho b _ Hb) as (z & Hz & Hat). rewrite <- (insert_id own b _ Hb). simpl in Hat.
    eapply host_write; try done; [|by rewrite (insert_id own b _ Hb)].
    intros i Hi. rewrite store_out by lia. done.
  - assert (off_pool (h_fr (heap_of k)) a (Z.of_nat j)) as Ho'.
    { destruct (ho_pool _ _ _ _ _ _ _ Ho) as (Ef & Ea & Eb & _). intros i Hi. specialize (Hoff i Hi).
      unfold outside, heap_of in *. cbn [h_fr]. by rewrite Ef, Ea, Eb. }
    assert (∀ i, ¬ (a <= i < a + Z.of_nat j) → store j (memory k) a x i = h_mem (heap_of k) i) as Hm
      by (intros i Hi; by rewrite store_out by lia).
    pose proof (ho_heap _ _ _ _ _ _ _ Ho) as Hw. pose proof (outside_keeps _ _ _ _ _ Hw Ho' Hm) as Hk.
    eapply host_heap; try done.
    + by eapply outside_wf.
    + by eapply outside_spares.
    + eapply quiet_frames_for; [done|by eapply outside_bitmap|]. apply (ho_frames _ _ _ _ _ _ _ Ho).
    + intros b z Hb. apply Hk. rewrite (ho_blocks _ _ _ _ _ _ _ Ho), elem_of_app. by left.
    + apply (ho_blocks _ _ _ _ _ _ _ Ho).
    + apply given_more, (ho_given _ _ _ _ _ _ _ Ho).
    + intros b o Hb. destruct (ho_own _ _ _ _ _ _ _ Ho b o Hb) as (z & Hz & Hat). exists z. split; [done|].
      eapply object_at_same; [|exact Hat]. apply Hk. by apply lib_block.
Qed.

(** A new object: [kmalloc], then [fill] in the new block. *)
Lemma host_new size fill o :
  1 <= n → 0 < size <= 4032 → (∀ b m, only b size m (fill b m)) →
  (∀ b z m, size <= z → object_at (fill b m) b z o) →
  ∃ K b h1, (∀ fuel, (K <= fuel)%nat → kmalloc fuel (heap_of k) size = Ret (b, h1)) ∧ b ≠ 0 ∧ own !! b = None ∧
    let h2 := set_h_mem (fill b (h_mem h1)) h1 in
    (∀ a, accessible f own a → h_mem h2 a = v a) ∧
    ∀ c r, allocating c = true → rp_value r = b →
      ∃ H' lib', hosting (n - 1) (<[b := o]> own) (h_mem h2) (note c r (set_heap h2 k)) T H' lib'.
Proof.
  intros Hn Hs Hfill Ho'. pose proof (ho_heap _ _ _ _ _ _ _ Ho) as Hw.
  destruct (kmalloc_small (heap_weight H + 5) (heap_of k) H size (n - 1)) as (b & h1 & H1 & E & Ha & Hf1);
    [done|lia|lia|replace (n - 1 + 1) with n by lia; apply (ho_frames _ _ _ _ _ _ _ Ho)|done|].
  destruct Ha as [A1 A2 (z & Hz & A3 & A3') A4 _ A6 _ A8].
  exists (heap_weight H + 5)%nat, b, h1.
  split; [intros fuel Hf; by eapply kmalloc_mono|]. split; [done|].
  assert (∀ b' o', own !! b' = Some o' → ∃ z', (b', z') ∈ lib ∧ object_at (memory k) b' z' o' ∧
    (b + z <= b' ∨ b' + z' <= b)) as Hold.
  { intros b' o' Hb'. destruct (ho_own _ _ _ _ _ _ _ Ho b' o' Hb') as (z' & Hl & Hat). exists z'.
    split; [done|]. split; [done|]. by apply A3', lib_block. }
  assert (own !! b = None) as Hnone.
  { destruct (own !! b) as [o'|] eqn:Eb; [|done]. destruct (Hold b o' Eb) as (z' & _ & Hat & ?).
    pose proof (object_pos _ _ _ _ Hat). lia. }
  split; [done|]. intros h2.
  assert ((b, z) ∈ blocks H1) as Hbl by (rewrite A3; left).
  assert (∀ a, ¬ (b <= a < b + z) → h_mem h2 a = h_mem h1 a) as Hm by (intros a Hna; apply Hfill; lia).
  pose proof (same_pool_trans _ _ _ (ho_pool _ _ _ _ _ _ _ Ho) (sp_pool _ _ _ _ A6)) as Hpool.
  destruct (ho_pool _ _ _ _ _ _ _ Ho) as (Ef & Ea & Eb & _).
  assert (∀ a, outside f a → h_mem h2 a = memory k a) as Hout.
  { intros a Hoa. assert (outside (h_fr (heap_of k)) a) as Hoa' by (unfold outside, heap_of in *; cbn [h_fr]; by rewrite Ef, Ea, Eb).
    rewrite Hm; [by apply A8|]. intros Hin. by apply (block_in_pool h1 H1 b z a A1 Hpool Hbl Hin). }
  assert (keeps (blocks H) (memory k) (h_mem h2)) as Hk.
  { intros b' z' Hb' a Hr. rewrite Hm by (destruct (A3' b' z' Hb'); lia). by apply (A4 b' z'). }
  split.
  - intros a Hacc. rewrite <- (ho_view _ _ _ _ _ _ _ Ho) by done.
    destruct Hacc as [?|(b' & size' & Hb' & Hr)]; [by apply Hout|].
    destruct (Hold b' _ Hb') as (z' & Hl & Hat & _). simpl in Hat. apply (Hk b' z'); [by apply lib_block|lia].
  - intros c r Hc Er. exists H1, ((b, z) :: lib).
    assert (mapped hhdm [(c, r)] = []) as Hmap by (by destruct c).
    eapply host_heap; try done.
    + by eapply heap_write.
    + eapply spares_trans; [exact A6|]. by eapply write_spares.
    + by eapply write_frames_for.
    + intros b' z' Hb'. apply Hk. rewrite (ho_blocks _ _ _ _ _ _ _ Ho), elem_of_app. by left.
    + rewrite A3, (ho_blocks _ _ _ _ _ _ _ Ho). by rewrite Permutation_middle.
    + constructor; [|apply given_more, (ho_given _ _ _ _ _ _ _ Ho)].
      rewrite given_app, elem_of_app. right. unfold given. simpl. rewrite Hc, Er. by left.
    + intros b' o1 [[<- <-]|[Hne Hb']]%lookup_insert_Some.
      * exists z. split; [left|]. by apply Ho'.
      * destruct (Hold b' o1 Hb') as (z' & Hl & Hat & _). exists z'. split; [by right|].
        eapply object_at_same; [|exact Hat]. apply Hk. by apply lib_block.
Qed.

(** [kfree] of an object, or of null: nothing changes, or a block of the first page is
    released. *)
Lemma kfree_cases p :
  p = 0 ∨ is_Some (own !! p) → let h := heap_of k in
  (∃ K b, ∀ fuel, (K <= fuel)%nat → kfree fuel h p = Ret (b, h)) ∨
  ∃ q H0 z h1 q', H = q :: H0 ∧ (p, z) ∈ lib ∧ released h q H0 p z h1 q' ∧
    ∃ K, ∀ fuel, (K <= fuel)%nat → kfree fuel h p = Ret (true, h1).
Proof.
  intros Hp h. pose proof (ho_heap _ _ _ _ _ _ _ Ho) as Hw. destruct Hp as [->|[o Hp]].
  { left. exists (S (heap_weight H + 2)), false. intros fuel Hf. apply (kfree_null fuel h H); [done|lia]. }
  destruct (ho_own _ _ _ _ _ _ _ Ho p o Hp) as (z & Hz & _). pose proof (lib_block p z Hz) as Hb.
  clear Ho Hp. destruct H as [|q H0]; [by apply elem_of_nil in Hb|]. unfold blocks in Hb. simpl in Hb.
  apply elem_of_app in Hb as [Hb|Hb].
  - right. destruct (kfree_first (S (heap_weight (q :: H0) + 2)) h q H0 p z Hw Hb) as (h1 & q' & E & R); [lia|].
    exists q, H0, z, h1, q'. do 3 (split; [done|]). eexists. intros fuel Hf. by eapply kfree_mono.
  - left. exists (S (heap_weight (q :: H0) + 2)), false. intros fuel Hf. eapply kfree_rest; [done|done|lia].
Qed.

(** An object given back: its block may stay. *)
Lemma host_free p :
  p = 0 ∨ is_Some (own !! p) →
  ∃ K b h1, (∀ fuel, (K <= fuel)%nat → kfree fuel (heap_of k) p = Ret (b, h1)) ∧
    ∀ c r, mapped hhdm [(c, r)] = [] →
      ∃ H' lib', hosting n (delete p own) v (note c r (set_heap h1 k)) T H' lib'.
Proof.
  intros Hp. pose proof (ho_heap _ _ _ _ _ _ _ Ho) as Hw. set (h := heap_of k) in *.
  destruct (kfree_cases p Hp) as [(K & b & E)|(q & H0 & z & h1 & q' & EH & Hz & R & K & E)].
  - exists K, b, h. split; [done|]. intros c r Hc. exists H, lib. eapply host_heap; try done.
    + apply (ho_frames _ _ _ _ _ _ _ Ho).
    + apply (ho_blocks _ _ _ _ _ _ _ Ho).
    + apply given_more, (ho_given _ _ _ _ _ _ _ Ho).
    + intros b' o [_ Hb']%lookup_delete_Some. by apply (ho_own _ _ _ _ _ _ _ Ho).
    + intros a Ha. apply (ho_view _ _ _ _ _ _ _ Ho). by eapply accessible_delete.
  - exists K, true, h1. split; [done|]. intros c r Hc. pose proof Hw as Hw'. rewrite EH in Hw'.
    apply elem_of_Permutation in Hz as [lib' Hlib].
    assert (blocks (q' :: H0) ≡ₚ bs ++ lib') as Hbl.
    { apply (Permutation_cons_inv (a := (p, z))). rewrite <- (rl_blocks _ _ _ _ _ _ _ R), <- EH, (ho_blocks _ _ _ _ _ _ _ Ho), Hlib.
      by rewrite Permutation_middle. }
    assert (∀ x, x ∈ lib' → x ∈ lib) as Hsub by (intros x Hx; rewrite Hlib; by right).
    pose proof (rl_keeps _ _ _ _ _ _ _ R) as Hk. rewrite <- EH in Hk.
    assert (∀ b' o, delete p own !! b' = Some o → ∃ z', (b', z') ∈ lib' ∧ object_at (memory k) b' z' o) as Hold.
    { intros b' o [Hne Hb']%lookup_delete_Some. destruct (ho_own _ _ _ _ _ _ _ Ho b' o Hb') as (z' & Hz' & Hat).
      exists z'. split; [|done]. rewrite Hlib in Hz'. apply elem_of_cons in Hz' as [?|?]; [congruence|done]. }
    exists (q' :: H0), lib'. eapply host_heap; try done.
    + apply R.
    + rewrite EH. by eapply released_spares.
    + eapply released_frames_for; [exact Hw'|exact R|]. apply (ho_frames _ _ _ _ _ _ _ Ho).
    + intros b' z' Hb'. apply Hk. rewrite (ho_blocks _ _ _ _ _ _ _ Ho), elem_of_app. by left.
    + apply given_more. pose proof (ho_given _ _ _ _ _ _ _ Ho) as Hg. rewrite Forall_forall in *. auto.
    + intros b' o Hb'. destruct (Hold b' o Hb') as (z' & Hz' & Hat). exists z'. split; [done|].
      eapply object_at_same; [|exact Hat]. apply Hk, lib_block. auto.
    + intros a Ha. rewrite <- (ho_view _ _ _ _ _ _ _ Ho) by (by eapply accessible_delete).
      destruct Ha as [Ha|(b' & size & Hb' & Ha)].
      * destruct (rl_mem _ _ _ _ _ _ _ R) as (m & -> & _ & Hm). apply Hm. intros Hin.
        by apply (page_inside h (q :: H0) 0 q a Hw' (ho_pool _ _ _ _ _ _ _ Ho) eq_refl Hin).
      * destruct (Hold b' _ Hb') as (z' & Hz' & Hat). simpl in Hat. apply (Hk b' z'); [apply lib_block; auto|lia].
Qed.

(** A region mapped. *)
Lemma host_map addr len r :
  cost boot (Map addr len) <= n →
  ∃ T', hosting (n - cost boot (Map addr len)) own v
    (note (Map addr len) r (set_paging (map_all hhdm (k_paging k) (region_requests hhdm addr len)) k)) T' H lib.
Proof.
  intros Hn. unfold cost in *. cbv zeta in *. change (hhdm_addr boot) with hhdm in Hn |- *. set (l := region_requests hhdm addr len) in *.
  destruct Ho as [H1 H2 H3 H4 H5 [Hft H6] H7 H8 H9 H10 H11 H12 [H13 H14 H15 H16 H17]].
  pose proof (tw_frames _ _ _ _ H1) as Hfw. unfold heap_of in *. cbn [h_fr] in *.
  pose proof (fresh_free_ahead _ Hfw Hft) as Hfa.
  destruct (map_all_spec hhdm (k_paging k) T l) as (T' & E & Hd & Hsz & Htr); [done| |by apply range_requests_u64|].
  { unfold enough. pose proof (size_union_le (tables_for l) (dom T)). rewrite size_dom in *. lia. }
  pose proof (ev_tail _ _ _ _ _ E Hft) as Hft'. destruct (ev_pool _ _ _ _ _ E) as (Ef & Ea & Eb & En).
  pose proof (fresh_free_ahead _ (tw_frames _ _ _ _ (ev_wf _ _ _ _ _ E)) Hft') as Hfa'.
  pose proof (size_union_le (tables_for l) (dom T)) as Hu. rewrite <- Hd, !size_dom in Hu.
  pose proof (evolved_keeps hhdm _ _ _ T T' H H4 H5 E) as Hk. exists T'. split.
  - apply E.
  - by apply (ev_tlb _ _ _ _ _ E).
  - intros x. cbn [note k_calls set_paging k_paging]. rewrite mapped_app, effect_app, <- H3.
    unfold mapped. cbn [mbind list_bind fst]. fold l. rewrite app_nil_r. apply Htr.
  - by eapply evolved_heap.
  - by eapply evolved_off.
  - unfold heap_of. cbn [note set_paging k_paging]. split; [done|]. cbn [h_fr]. lia.
  - done.
  - intros b z Hb. eapply same_on_trans; [by apply H8|]. apply Hk. rewrite H7, elem_of_app. by left.
  - by apply given_more.
  - intros b o Hb. destruct (H10 b o Hb) as (z & Hz & Hat). exists z. split; [done|].
    eapply object_at_same; [|exact Hat]. apply Hk. rewrite H7, elem_of_app. by right.
  - intros a Ha. rewrite <- H11 by done. destruct Ha as [[Ha1 Ha2]|(b & size & Hb & Ha)].
    + destruct H12 as (Ef0 & Ea0 & Eb0 & _). apply (ev_mem _ _ _ _ _ E); [by rewrite Ef0, Ea0|].
      intros q u Hq Hin. destruct (tw_pool _ _ _ _ (ev_wf _ _ _ _ _ E) q u Hq) as (j & Hj & -> & _).
      unfold pool_frame in Hin. rewrite Ea, Ea0 in Hj. rewrite Eb, Eb0 in Hin. lia.
    + destruct (H10 b _ Hb) as (z & Hz & Hat). simpl in Hat. apply (Hk b z); [|lia]. rewrite H7, elem_of_app. by right.
  - eapply same_pool_trans; [exact H12|apply E].
  - by split.
Qed.
End Step.

Context (Htimer : k_timer k0 = Timer.NONE).

(** The call [c] on [k] is answered, and the kernel is still the library's host. *)
Definition answered (c : call) (n : Z) (own : ledger) (v : mem) (k : kernel) : Prop :=
  ∃ K r k' own' v' T H lib, (∀ fuel, (K <= fuel)%nat → serve M fuel c k = Ret (r, k')) ∧
    answers M boot f c own v r own' v' ∧ hosting (n - cost boot c) own' v' (note c r k') T H lib.

Section Answers.
Context (n : Z) (own : ledger) (v : mem) (k : kernel) (T : tree) (H : list hpage) (lib : list (Z * Z)).
Context (Ho : hosting n own v k T H lib).

(** No memory is involved. *)
Lemma answered_idle c r k' :
  (∀ fuel, serve M fuel c k = Ret (r, k')) → cost boot c = 0 → mapped hhdm [(c, r)] = [] →
  answers M boot f c own v r own v →
  k_paging k' = k_paging k → k_heap k' = k_heap k → k_calls k' = k_calls k → aside k' →
  answered c n own v k.
Proof.
  intros Hs Hc Hm Ha Ep Eh El Has. exists 0%nat, r, k', own, v, T, H, lib.
  split; [by intros fuel _|]. split; [done|]. rewrite Hc, Z.sub_0_r. by eapply host_idle.
Qed.

(** A new object. *)
Lemma answered_new c size fill o :
  cost boot c = 1 → allocating c = true → 1 <= n → 0 < size <= 4032 → (∀ b m, only b size m (fill b m)) →
  (∀ b z m, size <= z → object_at (fill b m) b z o) →
  (∀ own' v' r, created f o own v r own' v' → answers M boot f c own v r own' v') →
  (∀ fuel b h1, kmalloc fuel (heap_of k) size = Ret (b, h1) →
     serve M fuel c k = Ret (mk_reply STATUS_OK b NullHandle, set_heap (set_h_mem (fill b (h_mem h1)) h1) k)) →
  answered c n own v k.
Proof.
  intros Hc Hal Hn Hs Hfill Hat Hans Hserve.
  destruct (host_new n own v k T H lib Ho size fill o Hn Hs Hfill Hat) as (K & b & h1 & E & Hb & Hnone & Hv & Hh).
  set (r := mk_reply STATUS_OK b NullHandle). destruct (Hh c r Hal eq_refl) as (H' & lib' & Hh').
  exists K, r, (set_heap (set_h_mem (fill b (h_mem h1)) h1) k), (<[b := o]> own), (h_mem (set_h_mem (fill b (h_mem h1)) h1)), T, H', lib'.
  split; [intros fuel Hf; by apply Hserve, E|]. split; [|by rewrite Hc]. apply Hans. by split_and!.
Qed.

(** An object given back. *)
Lemma answered_free c p :
  cost boot c = 0 → mapped hhdm [(c, returned 0)] = [] → p = 0 ∨ is_Some (own !! p) →
  (∀ r own' v', own' = delete p own ∧ v' = v → answers M boot f c own v r own' v') →
  (∀ fuel b h1, kfree fuel (heap_of k) p = Ret (b, h1) → serve M fuel c k = Ret (returned 0, set_heap h1 k)) →
  answered c n own v k.
Proof.
  intros Hc Hm Hp Hans Hserve. destruct (host_free n own v k T H lib Ho p Hp) as (K & b & h1 & E & Hh).
  destruct (Hh c (returned 0) Hm) as (H' & lib' & Hh').
  exists K, (returned 0), (set_heap h1 k), (delete p own), v, T, H', lib'.
  split; [intros fuel Hf; eapply Hserve, E; done|]. split; [by apply Hans|]. by rewrite Hc, Z.sub_0_r.
Qed.

(** A lock taken, and one released. *)
Lemma answered_acquire c p :
  cost boot c = 0 → mapped hhdm [(c, completed STATUS_OK)] = [] → own !! p = Some (Lock false) →
  (∀ own' v' r, rp_status r = STATUS_OK → own' = <[p := Lock true]> own ∧ v' = v → answers M boot f c own v r own' v') →
  (∀ fuel, serve M fuel c k = acquires (m ← lock (m_spinlock M) p (h_mem (heap_of k)); Ret (STATUS_OK, a_set m (heap_of k))) k) →
  answered c n own v k.
Proof.
  intros Hc Hm Hp Hans Hserve. destruct (ho_own _ _ _ _ _ _ _ Ho p _ Hp) as (z & Hz & Hsz & Hfree).
  destruct (sl_lock _ L p (memory k) (Hfree eq_refl)) as (m' & El & Hl).
  exists 0%nat, (completed STATUS_OK), (set_heap (set_h_mem m' (heap_of k)) k), (<[p := Lock true]> own), v, T, H, lib.
  split; [intros fuel _; rewrite Hserve; change (h_mem (heap_of k)) with (memory k); by rewrite El|].
  split; [by apply Hans|]. rewrite Hc, Z.sub_0_r. eapply host_lock; try done.
  intros a Ha. apply Hl. lia.
Qed.

Lemma answered_release c p :
  cost boot c = 0 → mapped hhdm [(c, returned 0)] = [] → own !! p = Some (Lock true) →
  (∀ own' v' r, own' = <[p := Lock false]> own ∧ v' = v → answers M boot f c own v r own' v') →
  (∀ fuel, serve M fuel c k = Ret (returned 0, set_heap (set_h_mem (unlock (m_spinlock M) p (h_mem (heap_of k))) (heap_of k)) k)) →
  answered c n own v k.
Proof.
  intros Hc Hm Hp Hans Hserve. destruct (ho_own _ _ _ _ _ _ _ Ho p _ Hp) as (z & Hz & Hsz & _).
  destruct (sl_unlock _ L p (memory k)) as [Hu Hl].
  eexists 0%nat, (returned 0), _, (<[p := Lock false]> own), v, T, H, lib.
  split; [intros fuel _; apply Hserve|].
  split; [by apply Hans|]. rewrite Hc, Z.sub_0_r. eapply host_lock; try done.
  intros a Ha. apply Hl. lia.
Qed.

(** With no clock a delay returns at once. *)
Lemma answered_delay c evs :
  cost boot c = 0 → mapped hhdm [(c, returned 0)] = [] → answers M boot f c own v (returned 0) own v →
  (∀ fuel, serve M fuel c k = delays (Some (timer_of k, evs)) k) → answered c n own v k.
Proof.
  intros Hc Hm Ha Hs. eapply answered_idle; [intros fuel; apply Hs|done..|].
  destruct (ho_aside _ _ _ _ _ _ _ Ho) as [A1 A2 A3 A4 A5]. split; try done.
  rewrite <- A2. cbn. by destruct (k_irq k).
Qed.

(** A new lock. *)
Lemma answered_lock c :
  cost boot c = 1 → allocating c = true → 1 <= n →
  (∀ own' v' r, created f (Lock false) own v r own' v' → answers M boot f c own v r own' v') →
  (∀ fuel, serve M fuel c k = allocates (new_spinlock (m_spinlock M) fuel (heap_of k)) k) → answered c n own v k.
Proof.
  intros Hc Hal Hn Hans Hs. apply (answered_new _ (sl_size L) (sl_construct L) (Lock false)); try done.
  - apply (sl_size_ok _ L).
  - intros b m. apply (sl_constructed _ L).
  - intros b z m Hz. split; [done|]. intros _. apply (sl_constructed _ L).
  - intros fuel b h1 E. by rewrite Hs, (sl_new _ L), E.
Qed.

(** A handle closed, a lock created, taken or released. *)
Ltac closes := match goal with H : ?p = 0 ∨ is_Some (_ !! ?p) |- _ =>
  apply (answered_free _ p); [done..|intros fuel b h1 E; cbn; by rewrite E] end.
Ltac locks := first [by apply answered_lock | match goal with
  | H : _ !! ?p = Some (Lock false) |- _ => by apply (answered_acquire _ p)
  | H : _ !! ?p = Some (Lock true) |- _ => by apply (answered_release _ p) end].

(** Every permitted call is answered. *)
Lemma serve_lawful c : permitted M f own c → cost boot c <= n → answered c n own v k.
Proof.
  pose proof (ho_aside _ _ _ _ _ _ _ Ho) as Has. pose proof Has as [A1 A2 A3 A4 A5].
  destruct c as [|addr len| | |address|hnd|[]|[]|base len|hnd|[]|[]|size|p| |usec|msec| |hnd|hnd|hnd| |hnd| |hnd|hnd|hnd|
    |irq h c o|h hd| |hnd|hnd|hnd|t h c| |j a|j a x]; intros Hp Hc; cbn [permitted] in Hp;
    try (eapply answered_idle; [intros fuel; reflexivity|done..]); try closes; try locks; try done.
  - apply (answered_idle _ (returned (rsdp_addr boot)) k); try done. intros fuel. cbn [serve]. by rewrite A1.
  - destruct (host_map n own v k T H lib Ho addr len (returned (PHYS2VIRT hhdm addr)) Hc) as (T' & Hh).
    eexists 0%nat, _, _, own, v, T', H, lib. split; [|split; [|exact Hh]]; [|done].
    intros fuel _. cbn [serve]. rewrite A1. by rewrite (uacpi_kernel_map_all hhdm (k_paging k)).
  - apply (answered_new _ (pci_size (m_pci M)) (λ b m, store_bytes m b address) (Bytes (pci_size (m_pci M)))); try done.
    + lia.
    + intros b m a Ha. unfold store_bytes. case_cond; first [lia|done].
    + simpl. lia.
    + intros fuel b h1 E. cbn [serve]. unfold uacpi_kernel_pci_device_open. cbn. by rewrite E.
  - apply (answered_new _ uacpi_io_size (λ b m, store64 (store64 m b base) (b + 8) len) (Bytes uacpi_io_size)); try done.
    + intros b m a Ha. unfold store64, uacpi_io_size in *. by rewrite !store_out by (simpl; lia).
    + intros fuel b h1 E. cbn [serve]. unfold uacpi_kernel_io_map. cbn. by rewrite E.
  - apply (answered_new _ size (λ _ m, m) (Bytes size)); try done.
    + simpl. lia.
    + intros fuel b h1 E. cbn. rewrite E. simpl. by destruct h1 as [[] ?].
  - apply (answered_delay _ []); try done. intros fuel. cbn [serve]. unfold uacpi_kernel_stall, Timer.sleep_us, timer_of.
    cbn [Timer.active_timer]. by rewrite A5, Htimer.
  - apply (answered_delay _ []); try done. intros fuel. cbn [serve]. unfold uacpi_kernel_sleep, Timer.sleep_ms, timer_of.
    cbn [Timer.active_timer]. by rewrite A5, Htimer.
  - eapply answered_idle; [intros fuel; reflexivity|done|done| |done..]. split; [|done]. intros Hacc.
    apply load_ext. intros i Hi. apply (ho_view _ _ _ _ _ _ _ Ho). by apply Hacc.
  - exists 0%nat, (returned 0), (set_heap (set_h_mem (store j (memory k) a x) (heap_of k)) k), own, (store j v a x), T, H, lib.
    split; [by intros fuel _|]. split; [done|]. cbn [cost allocating]. rewrite Z.sub_0_r. by eapply host_store.
Qed.
End Answers.

(** A lawful function returns, and the kernel is still the host. *)
Lemma run_lawful {R} (Q : R → Z → ledger → mem → Prop) n own v k T H lib p :
  hosting n own v k T H lib → lawful M boot f Q n own v p →
  ∃ K r k' n' own' v' T' H' lib', (∀ fuel, (K <= fuel)%nat → run M fuel p k = inl (r, k')) ∧
    hosting n' own' v' k' T' H' lib' ∧ Q r n' own' v'.
Proof.
  revert n own v k T H lib; induction p as [r|c g IH]; intros n own v k T H lib Ho Hl; simpl in Hl.
  - by exists 0%nat, r, k, n, own, v, T, H, lib.
  - destruct Hl as (Hp & Hc & Hg).
    destruct (serve_lawful n own v k T H lib Ho c Hp Hc) as (K1 & r & k1 & own1 & v1 & T1 & H1 & lib1 & Es & Ha & Ho1).
    destruct (IH r _ _ _ _ _ _ _ Ho1 (Hg r own1 v1 Ha)) as (K2 & r' & k' & n' & own' & v' & T' & H' & lib' & Er & Ho' & HQ).
    exists (Nat.max K1 K2), r', k', n', own', v', T', H', lib'. split; [|done].
    intros fuel Hf. cbn [run]. rewrite Es by lia. apply Er. lia.
Qed.

(** What the host does besides. *)
Lemma hosting_same n own v k k' T H lib :
  k_paging k' = k_paging k → k_heap k' = k_heap k → k_calls k' = k_calls k → aside k' →
  hosting n own v k T H lib → hosting n own v k' T H lib.
Proof. intros Ep Eh El Ha []. split; unfold memory, heap_of in *; rewrite ?Ep, ?Eh, ?El; done. Qed.

(** The start: no object and no call yet. *)
Lemma hosting_start n T H :
  tables_wf hhdm (p_fr (k_paging k0)) (pml4 (k_paging k0)) T → tlb_coherent hhdm (k_paging k0) →
  heap_wf (heap_of k0) H → tables_off T H → frames_for (heap_of k0) n → blocks H ≡ₚ bs → k_calls k0 = [] →
  hosting n ∅ (memory k0) k0 T H [].
Proof.
  intros. split; try done.
  - intros x. by replace (k_calls k0) with (@nil (call * reply)).
  - by rewrite app_nil_r.
Qed.
End Host.

(** Whatever the library does, it leaves these. *)
Lemma serve_aside M fuel c k r k' : serve M fuel c k = Ret (r, k') →
  k_boot k' = k_boot k ∧ k_io k' = k_io k ∧ k_ports k' = k_ports k.
Proof.
  destruct c; try (match goal with w : width |- _ => destruct w end); cbn [serve];
    unfold reads, writes, allocates, opens, frees, acquires, delays, mbind, outcome_bind;
    repeat (match goal with |- context [match ?x with _ => _ end] => destruct x end || simpl);
    intros [=]; subst; done.
Qed.

Lemma run_aside M {R} fuel (p : prog R) k r k' :
  run M fuel p k = inl (r, k') → k_boot k' = k_boot k ∧ k_io k' = k_io k ∧ k_ports k' = k_ports k.
Proof.
  revert k; induction p as [r0|c g IH]; intros k; simpl; [by intros [= <- <-]|].
  destruct (serve M fuel c k) as [[r1 k1]| |] eqn:E; [|done..]. intros Hr.
  destruct (serve_aside _ _ _ _ _ _ E) as (<- & <- & <-). by apply (IH r1) in Hr.
Qed.

Lemma call_library_aside M {R} fuel (g : list Z → prog (R * list Z)) k r k' :
  call_library M fuel g k = inl (r, k') → k_boot k' = k_boot k ∧ k_io k' = k_io k ∧ k_ports k' = k_ports k.
Proof.
  unfold call_library. destruct (run M fuel _ k) as [[[r1 w] k1]|] eqn:E; [|done].
  intros [= <- <-]. by apply run_aside in E.
Qed.
