(* ===== verification/Kernel.v ===== *)
(** * Kernel: the boot sequence.

    [src/kernel/kern.cc]: the operations of the components in the order [_start]
    calls them, on the state of [State].  Drawing the splash screen and the text of
    the log are recorded as events.  A call that cannot return stops the sequence with
    its reason. *)
From stdpp Require Import base numbers list gmap strings.
From S2P Require Import Prelude Mem Boot Frames Paging PageTables Mapper AddressSpace Heap.
From S2P Require Import HeapSpec HeapPages Allocator Sched Tss Timer IoApic Lapic Interrupts.
From S2P Require Import HeapTables Symbols SymbolHeap Arch Acpi State Uacpi.
Local Open Scope Z_scope.

#[local] Notation "r >> f" := (then_ r f) (at level 50, left associativity).

Section Boot.
Context (M : machine).

(** Lines 40-41: the serial port and the boot loader's answers. *)
Definition start_serial (k : kernel) : step :=
  match UART.init (k_uart k) with
  | Some u => inl (set_boot (gather (m_limine M)) (set_uart u k))
  | None => inr SerialLoop
  end.

(** Lines 47-57: descriptor tables, the frame pool, stacks, gates, page tables.
    A failed allocation of a stack does not stop the sequence. *)
Definition setup_memory (k : kernel) : step :=
  let '(g, t) := GDT.init (m_gdt M) (m_tss M) (k_gdt k) (k_tss k) in
  match Frames.init (k_boot k) (m_mem M) with
  | None => inr ShortMap
  | Some f =>
      let '(_, t, f) := TSS.init_stacks t f in
      let d := IDT.init (m_isr M) (m_idt M) (IRQ.idt_st (k_irq k)) in
      let ps := Mapper.init (k_boot k) (m_linker M) (Paging.set_fr f (k_paging k)) in
      inl (emit [Splash 0; Splash 5; Splash 8; Splash 14; Splash 20; Success "Memory mapped";
                 Success "Paging initialized"; Splash 25]
             (set_paging ps (set_irq (IRQ.set_idt d (k_irq k)) (set_gdt g t k))))
  end.

(** Lines 58-59. *)
Definition load_symbols (fuel : nat) (k : kernel) : step :=
  let entries := collect (m_st_type M) (m_stt_func M) (m_strtab M) (m_symtab M) [] in
  match init_symbols (m_st_type M) (m_stt_func M) (m_strtab M) (m_symtab M) with
  | None => inr SymbolOverrun
  | Some table =>
      match store_entries fuel (mk_heap (p_fr (k_paging k)) (k_heap k)) entries with
      | Ret h =>
          let k := set_symbols (heap h) table (set_paging (set_fr (h_fr h) (k_paging k)) k) in
          inl (emit [Success "Kernel symbols mapped"; Splash 30] k)
      | Hlt => inr HeapHalt
      | NoFuel => inr OutOfFuel
      end
  end.

(** Lines 61-67: the processor's extensions and the ACPI library. *)
Definition start_extensions (fuel : nat) (k : kernel) : step :=
  let ps := k_paging k in
  let '(ok, c) := SSE.enable (m_cpuid M) (m_ecx M) (SSE.mk_cpu (k_cs k) (Paging.cr0 ps) (Paging.cr4 ps)) in
  let ps := mk_paging (p_fr ps) (pml4 ps) (tlb ps) (SSE.cr0 c) (Paging.cr3 ps) (SSE.cr4 c) in
  let sse := if ok && SSE.test (m_cpuid M) (m_ecx M)
             then Success "SSE extensions enabled" else Critical "Failed to enable SSE" in
  ACPI.init M fuel (emit [sse; Splash 35] (set_paging ps k)) >> λ k, inl (emit [Splash 40] k).

(** Lines 69-70. *)
Definition mask_pics (k : kernel) : kernel := emit [Splash 45] (set_ports (PIC.disable (k_ports k)) k).

(** Lines 69-76: the interrupt controllers.  [IOAPIC::init] begins with the library's
    lookup of the MADT. *)
Definition start_controllers (fuel : nat) (k : kernel) : step :=
  let hhdm := hhdm_addr (k_boot k) in
  match call_library M fuel (m_uacpi_table_find M) (mask_pics k) with
  | inr e => inr e
  | inl (madt, k) =>
      match IOAPIC.init (m_madt_at M) hhdm madt (k_io k) (k_paging k) with
      | Ret (IOAPIC.Scanned (t, io, ps)) =>
          let '(l, ps) := LAPIC.init hhdm (IRQ.lapic (k_irq k)) ps in
          let '(s, io) := IRQ.init hhdm t io (with_lapic l (k_irq k)) in
          inl (emit [Splash 50; Splash 55; Splash 60] (set_ioapic t io (set_paging ps (set_irq s k))))
      | Ret IOAPIC.Overrun => inr MadtOverrun
      | Ret IOAPIC.Looping => inr OutOfFuel
      | Hlt => inr NoMadt
      | NoFuel => inr OutOfFuel
      end
  end.

(** What an interrupt that ends a [hlt] does: a timer interrupt is dispatched as the
    number its stub pushes; another one is not the clock's. *)
Definition service (hhdm : Z) (s : IRQ.irq_state) (w : wake) : IRQ.irq_state :=
  match w with TimerIrq => IRQ.irq_handler hhdm 0 s | OtherIrq => s end.

(** [Sys::Timer::sleep_ms] while the interrupts [evs] arrive. *)
Definition sleep (ms : Z) (k : kernel) (evs : list wake) : option (kernel * list wake) :=
  match Timer.sleep_ms ms evs (timer_of k) with
  | Some (_, rest) =>
      let served := firstn (length evs - length rest)%nat evs in
      Some (set_irq (foldl (service (hhdm_addr (k_boot k))) (k_irq k) served) k, rest)
  | None => None
  end.

(** Lines 78-102: the clock, with its 100 ms test and the two delays. *)
Definition start_clock (evs : list wake) (k : kernel) : step :=
  match Timer.init (timer_of k) with
  | None => inr TimerFault
  | Some t =>
      let k := set_timer t k in
      let start_ms := Timer.get_uptime_ms (timer_of k) in
      match sleep 100 k evs with
      | None => inr Halted
      | Some (k, evs) =>
          let t := timer_of k in
          let lines := [Elapsed (Timer.get_uptime_ms t ⊖ start_ms);
                        Uptime (Timer.get_uptime_ms t) (Timer.get_uptime_us t) (Timer.get_uptime_ns t)] in
          match sleep 200 (emit lines k) evs with
          | None => inr Halted
          | Some (k, evs) =>
              match sleep 300 (emit [Splash 75] k) evs with
              | None => inr Halted
              | Some (k, evs) =>
                  let k := ACPI.load (emit [Splash 90] k) in
                  inl (emit [Splash 100] k)
              end
          end
      end
  end.

(** [_kernel_pre_setup]. *)
Definition kernel_pre_setup (fuel : nat) (evs : list wake) (k : kernel) : step :=
  start_serial k >> setup_memory >> load_symbols fuel >> start_extensions fuel
    >> start_controllers fuel >> start_clock evs.

(** [_kernel_start]; the banner's texts are its format strings. *)
Definition kernel_start (fuel : nat) (evs : list wake) (k : kernel) : step :=
  kernel_pre_setup fuel evs k >> λ k,
    inl (emit [Success "Booted from %s %s"; Success "Running Slayer %s  [ %s ]"] k).

(** [_start]: the entry point the scheduler switches to, if there is a task; with
    none the processor halts for ever, serving interrupts. *)
Definition start (fuel : nat) (evs : list wake) (k : kernel) (s : sched heap_state) :
    kernel * option Z + stop :=
  match kernel_start fuel evs k with
  | inr e => inr e
  | inl k =>
      match start_scheduler fuel s with
      | Ret (entry, _) => inl (k, entry)
      | Hlt => inr HeapHalt
      | NoFuel => inr OutOfFuel
      end
  end.
End Boot.

(** ** The memory the sequence sets up *)

(** What the machine provides for lines 47-57: a pool entry and a bitmap entry at the
    head of the memory map, room for the stacks and the tables, stubs with
    addresses. *)
Record memory_ok (M : machine) (k : kernel) (ea eb : memmap_entry) : Prop := {
  mo_map : map_fits (k_boot k) ea eb;
  mo_layout : layout_ok (k_boot k) (m_linker M);
  mo_usable : mapped_kind (e_type ea) = true;
  mo_top : e_base ea + e_length ea <= 281474976710656;
  mo_room : Z.of_nat (base.size (tables_for (full_requests (k_boot k) (m_linker M)) ∪ {[ [] ]})) + 22 <
            e_length ea `div` 4096;
  mo_stacks : length (TSS.ist_stacks (k_tss k)) = 8%nat;
  mo_isr : ∀ v, 0 <= v < 256 → is_u64 (m_isr M v) ∧ m_isr M v ≠ 0;
  mo_idt : IRQ.idt_st (k_irq k) = IDT.initial (m_isr M);
}.

(** The pool's own memory is mapped writable in the kernel's address space. *)
Lemma pool_mapped boot ld ea a :
  layout_ok boot ld → memmap_entries boot !! 0%nat = Some ea → mapped_kind (e_type ea) = true →
  e_base ea + e_length ea <= 281474976710656 →
  hhdm_addr boot + e_base ea <= a < hhdm_addr boot + e_base ea + e_length ea `div` 4096 * 4096 →
  upper a ∧ ∃ e, address_space boot ld a = Some e ∧
    Z.land e PTE_MASK = (a - hhdm_addr boot) `div` 4096 * 4096 ∧ Z.testbit e 1 = true.
Proof.
  intros Hlo Hea Hk Htop Ha. pose proof (list_elem_of_lookup_2 _ _ _ Hea) as Hin.
  destruct (lo_hhdm _ _ Hlo) as [Hu Hal]. destruct (lo_entries _ _ Hlo ea Hin Hk) as (B0 & B1 & B2 & B3).
  pose proof (lo_order _ _ Hlo) as (O1 & O2 & O3). unfold upper in *.
  assert (a < text_lo ld) as Hlt by dlia. split; [lia|]. unfold address_space.
  replace (text_lo ld <=? a) with false by (symmetry; apply Z.leb_gt; lia).
  replace (rodata_lo ld <=? a) with false by (symmetry; apply Z.leb_gt; lia).
  replace (data_lo ld <=? a) with false by (symmetry; apply Z.leb_gt; lia). cbn [andb].
  assert (existsb (covers (hhdm_addr boot) a) (memmap_entries boot) = true) as ->.
  { apply existsb_exists. exists ea. split; [by apply list_elem_of_In|]. unfold covers. rewrite Hk.
    cbn [andb]. apply andb_true_iff. rewrite Z.leb_le, Z.ltb_lt. lia. }
  eexists. split; [reflexivity|]. change MEMORY_FLAGS with 7.
  set (pg := (a - hhdm_addr boot) `div` 4096 * 4096).
  assert (a `div` 4096 * 4096 - hhdm_addr boot = pg) as -> by (subst pg; dlia).
  split; [|rewrite Z.lor_spec; apply orb_true_r].
  rewrite <- (Z.add_0_r pg) at 1.
  destruct (entry_fields pg 0 7) as (E & _); [subst pg; dlia..|]. exact E.
Qed.

(** What [setup_memory] leaves, by component. *)
Lemma setup_memory_eq M k f g t ok t' f' :
  Frames.init (k_boot k) (m_mem M) = Some f →
  GDT.init (m_gdt M) (m_tss M) (k_gdt k) (k_tss k) = (g, t) →
  TSS.init_stacks t f = (ok, t', f') →
  ∃ k', setup_memory M k = inl k' ∧ k_tss k' = t' ∧ k_boot k' = k_boot k ∧
    k_paging k' = Mapper.init (k_boot k) (m_linker M) (Paging.set_fr f' (k_paging k)) ∧
    IRQ.idt_st (k_irq k') = IDT.init (m_isr M) (m_idt M) (IRQ.idt_st (k_irq k)) ∧
    (∃ d, k_irq k' = IRQ.set_idt d (k_irq k)) ∧
    k_heap k' = k_heap k ∧ k_io k' = k_io k ∧ k_timer k' = k_timer k ∧ k_calls k' = k_calls k.
Proof.
  intros Ef Eg Es. eexists. split; [unfold setup_memory; rewrite Eg, Ef, Es; reflexivity|].
  split_and!; try reflexivity. by eexists.
Qed.

Lemma gdt_init_stacks a b g k g' t :
  GDT.init a b g k = (g', t) → TSS.ist_stacks t = TSS.ist_stacks k.
Proof. unfold GDT.init, TSS.init. by intros [= _ <-]. Qed.

Section Memory.
Context (M : machine) (k : kernel) (ea eb : memmap_entry) (Hok : memory_ok M k ea eb).
Let boot := k_boot k.
Let hhdm := hhdm_addr boot.

(** Frames left once the stacks and the tables are taken. *)
Definition frames_left : Z :=
  e_length ea `div` 4096 - 22 - Z.of_nat (base.size (tables_for (full_requests boot (m_linker M)) ∪ {[ [] ]})).

(** The kernel whose memory is set up. *)
Record memory_up (k' : kernel) (T : tree) : Prop := {
  mu_tables : tables_wf hhdm (p_fr (k_paging k')) (pml4 (k_paging k')) T;
  mu_tlb : tlb_coherent hhdm (k_paging k');
  mu_cr3 : Paging.cr3 (k_paging k') = VIRT2PHYS hhdm (pml4 (k_paging k'));
  mu_space : ∀ v, upper v → translate hhdm (k_paging k') v = address_space boot (m_linker M) v;
  mu_idt : IRQ.idt_st (k_irq k') = IDT.init (m_isr M) (m_idt M) (IDT.initial (m_isr M));
  mu_irq : ∃ d, k_irq k' = IRQ.set_idt d (k_irq k);
  mu_stacks : ∀ i, 1 <= i <= 7 → let top := ist_slot (TSS.tss (k_tss k')) i in
    ∀ a, top - TSS.IST_STACK_SIZE <= a < top → ∃ e, address_space boot (m_linker M) a = Some e ∧ upper a ∧
      Z.land e PTE_MASK = (a - hhdm) `div` 4096 * 4096 ∧ Z.testbit e 1 = true;
  mu_fresh : fresh_tail (p_fr (k_paging k'));
  mu_left : latest_frame (p_fr (k_paging k')) + frames_left = available_frames (p_fr (k_paging k'));
  mu_top : base_addr (p_fr (k_paging k')) + available_frames (p_fr (k_paging k')) * 4096 < 18446744073709551616;
  mu_boot : k_boot k' = boot;
  mu_rest : k_heap k' = k_heap k ∧ k_io k' = k_io k ∧ k_timer k' = k_timer k ∧ k_calls k' = k_calls k;
}.

Lemma setup_memory_spec : ∃ k' T, setup_memory M k = inl k' ∧ memory_up k' T.
Proof.
  pose proof Hok as [Hmap Hlo Huse Htop Hroom Hst Hisr Hidt].
  destruct (Frames.init_wf _ (m_mem M) _ _ Hmap) as (f & Ef & Hfw & Hfresh & Hbase & Hav & Hlat).
  pose proof (mf_pool _ _ _ Hmap) as Hea. pose proof (mf_bases _ _ _ Hmap) as (Hb0 & _ & Hh0).
  pose proof (mf_lengths _ _ _ Hmap) as [[Hl0 _] _].
  pose proof (list_elem_of_lookup_2 _ _ _ Hea) as Hin.
  destruct (lo_entries _ _ Hlo ea Hin Huse) as (_ & Hbal & _ & _).
  destruct (GDT.init (m_gdt M) (m_tss M) (k_gdt k) (k_tss k)) as [g t] eqn:Eg.
  pose proof (gdt_init_stacks _ _ _ _ _ _ Eg) as Ht. rewrite <- Ht in Hst.
  pose proof (init_stacks_spec t f Hfw Hfresh Hst ltac:(lia)) as Hs. cbv zeta in Hs.
  destruct (TSS.init_stacks t f) as [[ok t'] f'] eqn:Est.
  destruct Hs as (_ & Hfw' & (Ef1 & Ef2 & Ef3 & _) & Hslots & _ & _ & _ & _ & Hlat' & Hmk).
  destruct (setup_memory_eq M k f g t ok t' f' Ef Eg Est) as (k' & Ek & Etss & Ebt & Eps & Eidt & Hirq & Hrest).
  fold boot in Eps. set (s := Paging.set_fr f' (k_paging k)) in *.
  assert (p_fr s = f') as Es by done.
  assert (hhdm_ok hhdm (p_fr s)) as Hhh.
  { rewrite Es. split; rewrite ?Ef2, ?Ef3, ?Hbase, ?Hav; unfold hhdm, boot; [lia| |dlia].
    by replace (_ + e_base ea - _) with (e_base ea) by lia. }
  assert (base.size (tables_for (full_requests boot (m_linker M)) ∪ {[ [] ]}) <= free_ahead (p_fr s))%nat as Hen.
  { rewrite Es. pose proof (marked_free_ahead f' (latest_frame f + 22) Hmk ltac:(rewrite Ef2, Hav; fold boot in Hroom; lia)) as Hfa.
    rewrite Ef2, Hav, Hlat in Hfa. fold boot in Hroom. lia. }
  destruct (paging_init_frames boot (m_linker M) s Hlo ltac:(by rewrite Es) Hhh Hen)
    as (s1 & T & _ & _ & Ei & HT & [(_ & Bav & Bba & _) _ Btail] & Htr).
  destruct (Btail (latest_frame f + 22)) as [Hft Hl1]; [done|rewrite Es, Ef2, Hav; fold boot in Hroom; lia|].
  rewrite Es, Ef2, Hav in Bav. rewrite Es, Ef3, Hbase in Bba.
  exists k', T. split; [done|]. assert (p_fr (k_paging k') = p_fr s1) as Ef1' by (by rewrite Eps, Ei).
  split; rewrite ?Ef1'; try done.
  - by rewrite Eps, Ei.
  - rewrite Eps, Ei. intros pg e. simpl. by rewrite lookup_empty.
  - by rewrite Eps, Ei.
  - intros v Hv. rewrite Eps. by apply Htr.
  - by rewrite Eidt, Hidt.
  - intros i Hi top a Ha. destruct (Hslots i Hi) as [_ Etop]. subst top. rewrite Etss, Etop in Ha.
    unfold pool_frame in Ha. rewrite Hlat, Hbase in Ha. unfold TSS.IST_STACK_SIZE in Ha. fold boot in Ha.
    destruct (pool_mapped boot (m_linker M) ea a Hlo Hea Huse Htop) as (Hup & e & He & Hf & Hw); [lia|].
    by exists e.
  - unfold frames_left. rewrite Hl1, Bav, Hlat. lia.
  - rewrite Bav, Bba. pose proof (mf_top _ _ _ Hmap) as [? _]. unfold boot. dlia.
Qed.

(** C6: the memory half of the boot sequence, as a whole: on a memory map that
    fits, it ends with the specified address space installed over well-formed
    tables; every exception vector has a kernel gate to its stub on the
    exception stack; and every interrupt stack allocated before paging was
    rebuilt is still there: each of its bytes is mapped, writable, to its own frame. *)
Theorem boot_memory :
  ∃ k', setup_memory M k = inl k' ∧
    (∃ T, tables_wf hhdm (p_fr (k_paging k')) (pml4 (k_paging k')) T) ∧
    tlb_coherent hhdm (k_paging k') ∧
    Paging.cr3 (k_paging k') = VIRT2PHYS hhdm (pml4 (k_paging k')) ∧
    (∀ v, upper v → translate hhdm (k_paging k') v = address_space boot (m_linker M) v) ∧
    (∀ v, 0 <= v < 256 → exception_vector v = true →
       ∃ g, IDT.idt (IRQ.idt_st (k_irq k')) !! Z.to_nat v = Some g ∧
         kernel_gate g (m_isr M v) (TSS.ist_index TSS.IST_EXCEPTION)) ∧
    (∀ i, 1 <= i <= 7 → let top := ist_slot (TSS.tss (k_tss k')) i in
       ∀ a, top - TSS.IST_STACK_SIZE <= a < top → ∃ e, translate hhdm (k_paging k') a = Some e ∧
         Z.land e PTE_MASK = (a - hhdm) `div` 4096 * 4096 ∧ Z.testbit e 1 = true).
Proof.
  destruct setup_memory_spec as (k' & T & E & U). exists k'. split; [done|].
  split; [exists T; apply U|]. split; [apply U|]. split; [apply U|]. split; [apply U|]. split.
  - intros v Hv Hex. destruct (idt_init_spec (m_isr M) (m_idt M) (mo_isr _ _ _ _ Hok)) as (_ & _ & _ & _ & Hg).
    eexists. rewrite (mu_idt _ _ U), Hg, Hex by done.
    split; [reflexivity|]. apply int_gate_spec. by apply (mo_isr _ _ _ _ Hok).
  - intros i Hi top a Ha. destruct (mu_stacks _ _ U i Hi a Ha) as (e & He & Hu & Hf & Hw).
    exists e. by rewrite (mu_space _ _ U).
Qed.
End Memory.

(** ** The clock the sequence starts *)

(** What serving interrupts, [n] of them the timer's, leaves. *)
Record served (n : nat) (s s' : IRQ.irq_state) : Prop := {
  sv_handlers : IRQ.irq_handlers s' = IRQ.irq_handlers s;
  sv_pit : IRQ.pit s' = at_ticks (PIT.ticks_since_boot (IRQ.pit s) + Z.of_nat n) (IRQ.pit s);
  sv_count : IRQ.timer_interrupt_count s' = IRQ.timer_interrupt_count s + Z.of_nat n;
  sv_writes : LAPIC.writes (IRQ.lapic s') = LAPIC.writes (IRQ.lapic s) ++ replicate n (0xB0, 0);
  sv_idt : IRQ.idt_st s' = IRQ.idt_st s;
}.

Lemma served_trans n m s1 s2 s3 : served n s1 s2 → served m s2 s3 → served (n + m) s1 s3.
Proof.
  intros [A1 A2 A3 A4 A5] [B1 B2 B3 B4 B5]. split; [congruence| |lia| |congruence].
  - rewrite B2, A2. unfold at_ticks. cbn [PIT.ticks_since_boot PIT.timer_frequency PIT.out]. f_equal. lia.
  - by rewrite B4, A4, replicate_add, app_assoc.
Qed.

Lemma service_served hhdm s w :
  IRQ.irq_handlers s !! 0%nat = Some (Some IRQ.Timer_Handle) →
  0 <= PIT.ticks_since_boot (IRQ.pit s) < 18446744073709551615 →
  0 <= IRQ.timer_interrupt_count s < 18446744073709551615 →
  served (tick_count [w]) s (service hhdm s w).
Proof.
  intros Hh Ht Hc. destruct w.
  - change (tick_count [TimerIrq]) with 1%nat. unfold service, IRQ.irq_handler.
    change (Z.to_nat 0) with 0%nat. rewrite Hh. split; simpl; try done.
    + unfold PIT.tick, at_ticks. f_equal. apply u64_id. lia.
    + apply u64_id. lia.
  - change (tick_count [OtherIrq]) with 0%nat. split; simpl; rewrite ?Z.add_0_r, ?app_nil_r; try done.
    by destruct s as [? ? ? ? ? [] ?].
Qed.

Lemma tick_count_app l l' : tick_count (l ++ l') = (tick_count l + tick_count l')%nat.
Proof. unfold tick_count. by rewrite filter_app, length_app. Qed.

Lemma fold_served hhdm evs s :
  IRQ.irq_handlers s !! 0%nat = Some (Some IRQ.Timer_Handle) →
  0 <= PIT.ticks_since_boot (IRQ.pit s) →
  PIT.ticks_since_boot (IRQ.pit s) + Z.of_nat (tick_count evs) < 18446744073709551615 →
  0 <= IRQ.timer_interrupt_count s →
  IRQ.timer_interrupt_count s + Z.of_nat (tick_count evs) < 18446744073709551615 →
  served (tick_count evs) s (foldl (service hhdm) s evs).
Proof.
  revert s; induction evs as [|w evs IH]; intros s Hh H0 Ht H1 Hc.
  - simpl. split; simpl; rewrite ?Z.add_0_r, ?app_nil_r; try done. by destruct s as [? ? ? ? ? [] ?].
  - change (w :: evs) with ([w] ++ evs) in *. rewrite tick_count_app in *. simpl foldl.
    pose proof (service_served hhdm s w Hh ltac:(lia) ltac:(lia)) as Hw.
    eapply served_trans; [exact Hw|]. destruct Hw as [W1 W2 W3 W4 W5].
    apply IH; [by rewrite W1|rewrite W2; simpl; lia|rewrite W2; simpl; lia|lia|lia].
Qed.

(** A kernel whose clock runs: the timer handler is installed and the PIT active. *)
Record clock_runs (k : kernel) : Prop := {
  cr_clock : clock_ok (timer_of k);
  cr_handler : IRQ.irq_handlers (k_irq k) !! 0%nat = Some (Some IRQ.Timer_Handle);
  cr_count : 0 <= IRQ.timer_interrupt_count (k_irq k) < 18446744073709;
}.

(** A sleep serves interrupts up to the tick it waits for. *)
Lemma sleep_served ms k evs :
  clock_runs k → 0 <= ms → ms * 1000 < 4294967296 →
  PIT.ticks_since_boot (IRQ.pit (k_irq k)) + ms < 18446744073709 →
  IRQ.timer_interrupt_count (k_irq k) + ms < 18446744073709 →
  if decide (ms <= Z.of_nat (tick_count evs)) then
    ∃ k' rest, sleep ms k evs = Some (k', rest) ∧ clock_runs k' ∧
      served (Z.to_nat ms) (k_irq k) (k_irq k') ∧ k' = set_irq (k_irq k') k ∧
      Z.of_nat (tick_count rest) = Z.of_nat (tick_count evs) - ms
  else sleep ms k evs = None.
Proof.
  intros [Hck Hh Hc] H0 Hms Ht Hn. pose proof (sleep_ms_spec ms evs (timer_of k) Hck H0 Hms) as H.
  unfold sleep. destruct (decide (ms <= _)); [|by rewrite H].
  destruct H as (pre & post & -> & Hpre & _ & ->). pose proof Hck as [Ha Hf Hb].
  cbn [timer_of Timer.active_timer Timer.pit] in Ha, Hf, Hb.
  rewrite length_app. replace (length pre + length post - length post)%nat with (length pre) by lia.
  rewrite firstn_app, firstn_all, Nat.sub_diag, firstn_O, app_nil_r.
  pose proof (fold_served (hhdm_addr (k_boot k)) pre (k_irq k) Hh ltac:(lia) ltac:(lia) ltac:(lia) ltac:(lia)) as Hs.
  set (s' := foldl _ _ pre) in *. clearbody s'.
  exists (set_irq s' k), post. split; [done|]. assert (tick_count pre = Z.to_nat ms) as Ep by lia.
  rewrite Ep in Hs. destruct Hs as [S1 S2 S3 S4 S5]. split; [|split; [|split; [done|]]].
  - split; simpl; [|by rewrite S1|lia]. split; cbn; [done|by rewrite S2|rewrite S2; simpl; lia].
  - by split.
  - rewrite tick_count_app. lia.
Qed.

Lemma clock_runs_emit es k : clock_runs k → clock_runs (emit es k).
Proof. by intros [H1 H2 H3]. Qed.

(** The lines of [start_clock] after the first sleep report what it lasted. *)
Lemma elapsed_uptime k k' ms :
  clock_runs k → clock_runs k' →
  PIT.ticks_since_boot (IRQ.pit (k_irq k')) = PIT.ticks_since_boot (IRQ.pit (k_irq k)) + ms →
  0 <= ms → Timer.get_uptime_ms (timer_of k') ⊖ Timer.get_uptime_ms (timer_of k) = ms.
Proof.
  intros [[A1 A2 A3] _ _] [[B1 B2 B3] _ _] E H0.
  rewrite !uptime_ms_eq by (done || lia). unfold Timer.get_counter. rewrite A1, B1.
  unfold PIT.get_ticks, timer_of in *. cbn [Timer.pit] in *. rewrite E, u64_id by lia. lia.
Qed.

(** The three sleeps of [start_clock] need 600 timer interrupts. *)
Lemma start_clock_spec k evs :
  IRQ.irq_handlers (k_irq k) !! 0%nat = Some (Some IRQ.Timer_Handle) →
  0 <= PIT.ticks_since_boot (IRQ.pit (k_irq k)) < 1000000000000 →
  0 <= IRQ.timer_interrupt_count (k_irq k) < 1000000000000 →
  if decide (600 <= Z.of_nat (tick_count evs)) then
    ∃ k' p, start_clock evs k = inl k' ∧ clock_runs k' ∧
      PIT.ticks_since_boot p = PIT.ticks_since_boot (IRQ.pit (k_irq k)) ∧
      served 600 (with_pit p (k_irq k)) (k_irq k') ∧
      k_apics k' = k_apics k ∧ k_io k' = k_io k ∧ k_paging k' = k_paging k ∧
      k_heap k' = k_heap k ∧ k_symbols k' = k_symbols k ∧ k_calls k' = k_calls k ∧ Elapsed 100 ∈ k_events k'
  else start_clock evs k = inr Halted.
Proof.
  intros Hh Ht Hc. unfold start_clock.
  destruct (Timer.init (timer_of k)) as [t|] eqn:Et; [|discriminate Et].
  injection Et as <-. cbv zeta. set (k0 := set_timer _ k).
  assert (clock_runs k0) as H0 by (split; cbn; [split; cbn; done || lia|done|lia]).
  assert (∃ p, k_irq k0 = with_pit p (k_irq k) ∧
    PIT.ticks_since_boot p = PIT.ticks_since_boot (IRQ.pit (k_irq k)) ∧
    k_apics k0 = k_apics k ∧ k_io k0 = k_io k ∧ k_paging k0 = k_paging k ∧
    k_heap k0 = k_heap k ∧ k_symbols k0 = k_symbols k ∧ k_calls k0 = k_calls k) as (p & Eq & Ep & Ea & Ei & Eg & Eh & Es & El)
    by (eexists; split; [reflexivity|done]).
  clearbody k0.
  pose proof (sleep_served 100 k0 evs H0 ltac:(lia) ltac:(lia)) as H1.
  rewrite Eq in H1. cbn [with_pit IRQ.pit IRQ.timer_interrupt_count] in H1.
  specialize (H1 ltac:(lia) ltac:(lia)).
  destruct (decide (100 <= _)); [|by rewrite H1, decide_False by lia].
  destruct H1 as (k1 & r1 & -> & R1 & S1 & E1 & T1). 
  pose proof S1 as [_ P1 C1 _ _]. cbn in P1, C1.
  rewrite (elapsed_uptime k0 k1 100) by (done || rewrite ?P1, ?Eq; cbn; lia).
  set (es := [_; _]). pose proof (clock_runs_emit es k1 R1) as R1'.
  pose proof (sleep_served 200 _ r1 R1' ltac:(lia) ltac:(lia)) as H2. cbn [emit k_irq] in H2.
  rewrite P1, C1 in H2. cbn in H2. specialize (H2 ltac:(lia) ltac:(lia)).
  destruct (decide (200 <= _)); [|by rewrite H2, decide_False by lia].
  destruct H2 as (k2 & r2 & -> & R2 & S2 & E2 & T2). pose proof S2 as [_ P2 C2 _ _].
  rewrite P1 in P2. rewrite C1 in C2. cbn in P2, C2.
  pose proof (clock_runs_emit [Splash 75] k2 R2) as R2'.
  pose proof (sleep_served 300 _ r2 R2' ltac:(lia) ltac:(lia)) as H3. cbn [emit k_irq] in H3.
  rewrite P2, C2 in H3. cbn in H3. specialize (H3 ltac:(lia) ltac:(lia)).
  destruct (decide (300 <= _)); [|by rewrite H3, decide_False by lia].
  destruct H3 as (k3 & r3 & -> & R3 & S3 & E3 & T3). rewrite decide_True by lia.
  eexists _, p. split; [reflexivity|]. split; [by destruct R3|]. split; [done|]. split.
  { exact (served_trans _ _ _ _ _ S1 (served_trans _ _ _ _ _ S2 S3)). }
  rewrite E3, E2, E1. cbn. do 6 (split; [done|]).
  do 3 (apply elem_of_app; left). apply elem_of_app; right. constructor.
Qed.

(** What the firmware provides for lines 69-76: a MADT of well-formed entries that
    fit the static tables. *)
Record madt_ok (M : machine) (entries len sizeof_madt : Z) (l : list IOAPIC.madt_entry) : Prop := {
  md_laid : laid_out (m_madt_at M) entries l (entries + len - sizeof_madt);
  md_range : 0 <= entries ∧ entries + len < 18446744073709551616 ∧ 0 <= sizeof_madt <= len;
  md_tables : (length (ioapics_of l) <= 24)%nat ∧ (length (isos_of l) <= 24)%nat;
}.

(** The library's lookup returns with the MADT it found, installs no handler and leaves
    the kernel [k1]. *)
Definition finds (M : machine) (fuel : nat) (k : kernel) (entries len sizeof_madt : Z) (k1 : kernel) : Prop :=
  call_library M fuel (m_uacpi_table_find M) (mask_pics k) = inl (Some (entries, len, sizeof_madt), k1) ∧
  k_irq k1 = k_irq k.

(** Enabling the local APIC does not change its number. *)
Lemma lapic_init_id hhdm s ps :
  is_u64 (LAPIC.msr_1B s) → LAPIC.id hhdm (LAPIC.init hhdm s ps).1 = LAPIC.id hhdm s.
Proof.
  intros Hm. unfold LAPIC.id, LAPIC.init. cbn [fst]. rewrite read_write by lia. simpl Z.eqb. cbv iota.
  unfold LAPIC.read. by rewrite base_enable.
Qed.

(** The pages the controllers' registers are mapped to, in order. *)
Definition register_page (hhdm phys : Z) : request :=
  mk_request phys (PHYS2VIRT hhdm phys) (Z.lor PAGE_PRESENT PAGE_WRITE).
Definition device_requests (hhdm msr : Z) (l : list IOAPIC.madt_entry) : list request :=
  (register_page hhdm ∘ IOAPIC.address <$> ioapics_of l) ++ [register_page hhdm (Z.land msr 0xFFFFF000)].

Lemma controllers_requests hhdm ps l :
  foldl (map_controller hhdm) ps l = map_all hhdm ps (register_page hhdm ∘ IOAPIC.address <$> l).
Proof. revert ps; induction l as [|a l IH]; intros ps; [done|]. simpl. apply IH. Qed.

Lemma map_all_snoc hhdm ps l r :
  map_all hhdm ps (l ++ [r]) = map hhdm (map_all hhdm ps l) (r_phys r) (r_virt r) (r_flags r).
Proof. unfold map_all. by rewrite foldl_app. Qed.

(** The controllers start: the tables hold the MADT's entries, the two PICs are
    masked, and line 0 reaches the timer handler through vector 0x20. *)
Lemma start_controllers_spec M fuel k k1 isr entries len sizeof_madt l :
  madt_ok M entries len sizeof_madt l → finds M fuel k entries len sizeof_madt k1 → idt_ready isr (k_irq k) →
  is_u64 (LAPIC.msr_1B (IRQ.lapic (k_irq k))) →
  ∃ k' io, start_controllers M fuel k = inl k' ∧ same_regs (k_io k) io ∧
    k_apics k' = IOAPIC.mk_tables (ioapics_of l) (isos_of l) ∧
    k_ports k' = k_ports k ++ [(0x21, 0xFF); (0xA1, 0xFF)] ∧
    k_boot k' = k_boot k ∧ (k_heap k' = k_heap k1 ∧ k_symbols k' = k_symbols k1 ∧ k_calls k' = k_calls k1) ∧
    k_paging k' = map_all (hhdm_addr (k_boot k)) (k_paging k1)
      (device_requests (hhdm_addr (k_boot k)) (LAPIC.msr_1B (IRQ.lapic (k_irq k))) l) ∧
    k_io k' = (IOAPIC.set (k_apics k') 0x20 0 0
                 (LAPIC.id (hhdm_addr (k_boot k)) (IRQ.lapic (k_irq k))) io).2 ∧
    IRQ.irq_handlers (k_irq k') !! 0%nat = Some (Some IRQ.Timer_Handle) ∧
    IRQ.pit (k_irq k') = IRQ.pit (k_irq k) ∧
    IRQ.timer_interrupt_count (k_irq k') = IRQ.timer_interrupt_count (k_irq k) ∧
    LAPIC.writes (IRQ.lapic (k_irq k')) = LAPIC.writes (IRQ.lapic (k_irq k)) ++ [(0xf0, 0x1ff)] ∧
    IDT.idt (IRQ.idt_st (k_irq k')) = <[32%nat := int_gate (isr 32) 2]> (IDT.idt (IRQ.idt_st (k_irq k))).
Proof.
  intros [Hl (H0 & Hr & Hs) [Ha Hi]] [Hf Eirq] [Hidt Hh Hq _] Hmsr.
  pose proof (laid_out_le _ _ _ _ Hl) as Hle. destruct (call_library_aside _ _ _ _ _ _ Hf) as (Eb & Eio & Epo).
  cbn [mask_pics emit set_ports k_boot k_io k_ports] in Eb, Eio, Epo.
  unfold start_controllers. rewrite Hf, Eio, Eirq. unfold IOAPIC.init.
  rewrite (u64_id (entries + len)), (u64_id (entries + len - sizeof_madt)) by lia.
  rewrite (walk_spec _ _ entries l) by (done || lia).
  pose proof (λ ps, lapic_init_id (hhdm_addr (k_boot k)) _ ps Hmsr) as Hid.
  destruct (LAPIC.init _ _ _) as [la ps] eqn:El. specialize (Hid (foldl (map_controller (hhdm_addr (k_boot k))) (k_paging k1) (ioapics_of l))).
  cbn [app] in El. rewrite El in Hid. cbn [fst] in Hid. rewrite <- Hid. clear Hid.
  unfold LAPIC.init in El. injection El as <- <-.
  cbn [app IOAPIC.apics IOAPIC.iso].
  eexists _, _. split; [reflexivity|]. split; [apply probe_same|]. split; [reflexivity|].
  split; [exact Epo|]. split; [exact Eb|]. split; [by split_and!|]. split.
  { cbn [k_paging set_ports set_ioapic set_paging set_irq emit]. unfold device_requests.
    by rewrite controllers_requests, map_all_snoc. }
  split; [reflexivity|]. split.
  { apply list_lookup_insert_eq. cbn. rewrite length_insert. lia. }
  split; [reflexivity|]. split; [reflexivity|]. split; [reflexivity|].
  etransitivity; [exact (register_entry_idt 32 IRQ.Timer_Handle (with_lapic _ (k_irq k)))|].
  cbn [with_lapic IRQ.idt_st].
  by rewrite Hh by lia.
Qed.

(** The pin line 0 of the timer arrives at. *)
Record timer_pin (t : IOAPIC.tables) (io : IOAPIC.io_space) (a : IOAPIC.madt_ioapic) (pin : Z) : Prop := {
  tp_first : ∃ l1 l2, IOAPIC.apics t = l1 ++ a :: l2 ∧
    Forall (λ b, accepts io (actual_line t 0) b = false) l1;
  tp_accepts : accepts io (actual_line t 0) a = true;
  tp_base : 0 <= IOAPIC.gsi_base a;
  tp_pin : pin = actual_line t 0 - IOAPIC.gsi_base a;
}.

Section Clock.
Context (M : machine) (fuel : nat) (k k1 : kernel) (isr : Z → Z).
Context (entries len sizeof_madt : Z) (l : list IOAPIC.madt_entry).
Let hhdm := hhdm_addr (k_boot k).
Let t := IOAPIC.mk_tables (ioapics_of l) (isos_of l).

(** The kernel whose clock runs, from [k]. *)
Record clock_up (a : IOAPIC.madt_ioapic) (pin : Z) (k' : kernel) : Prop := {
  cu_clock : clock_runs k';
  cu_pin : IOAPIC.decode_entry (IOAPIC.ioregs (k_io k' (IOAPIC.address a)) (0x10 + 2 * pin))
             (IOAPIC.ioregs (k_io k' (IOAPIC.address a)) (0x11 + 2 * pin)) =
    IOAPIC.mk_fields 0x20 0 0 (active_low (IOAPIC.find_iso (isos_of l) 0))
      (level (IOAPIC.find_iso (isos_of l) 0)) 0 (LAPIC.id hhdm (IRQ.lapic (k_irq k)));
  cu_gate : ∃ g, IDT.idt (IRQ.idt_st (k_irq k')) !! 32%nat = Some g ∧
    kernel_gate g (isr 32) (TSS.ist_index TSS.IST_IRQ);
  cu_gates : ∀ v, v ≠ 32%nat → IDT.idt (IRQ.idt_st (k_irq k')) !! v = IDT.idt (IRQ.idt_st (k_irq k)) !! v;
  cu_handler : IRQ.irq_handlers (k_irq k') !! 0%nat = Some (Some IRQ.Timer_Handle);
  cu_ticks : PIT.ticks_since_boot (IRQ.pit (k_irq k')) = PIT.ticks_since_boot (IRQ.pit (k_irq k)) + 600;
  cu_count : IRQ.timer_interrupt_count (k_irq k') = IRQ.timer_interrupt_count (k_irq k) + 600;
  cu_writes : LAPIC.writes (IRQ.lapic (k_irq k')) =
    LAPIC.writes (IRQ.lapic (k_irq k)) ++ (0xf0, 0x1ff) :: replicate 600 (0xB0, 0);
  cu_elapsed : Elapsed 100 ∈ k_events k';
  cu_paging : k_paging k' = map_all hhdm (k_paging k1)
    (device_requests hhdm (LAPIC.msr_1B (IRQ.lapic (k_irq k))) l);
  cu_symbols : k_heap k' = k_heap k1 ∧ k_symbols k' = k_symbols k1 ∧ k_calls k' = k_calls k1;
}.

Lemma clock_spec evs a pin :
  madt_ok M entries len sizeof_madt l → finds M fuel k entries len sizeof_madt k1 →
  idt_ready isr (k_irq k) → is_u64 (isr 32) →
  timer_pin t (k_io k) a pin → is_u64 (LAPIC.msr_1B (IRQ.lapic (k_irq k))) →
  0 <= LAPIC.id hhdm (IRQ.lapic (k_irq k)) < 256 →
  0 <= PIT.ticks_since_boot (IRQ.pit (k_irq k)) < 1000000000000 →
  0 <= IRQ.timer_interrupt_count (k_irq k) < 1000000000000 →
  let r := then_ (start_controllers M fuel k) (start_clock evs) in
  if decide (600 <= Z.of_nat (tick_count evs)) then ∃ k', r = inl k' ∧ clock_up a pin k'
  else r = inr Halted.
Proof.
  intros Hm Hfd Hi Hu [(l1 & l2 & E1 & F1) Hacc Hb ->] Hmsr Hid Ht Hc. cbv zeta.
  destruct (start_controllers_spec M fuel k k1 isr _ _ _ _ Hm Hfd Hi Hmsr)
    as (k2 & io & -> & Hio & Et & _ & Ebt & (Ehp & Esy & Ecl) & Epg & Eio & Hh & Ep & Ec & Ew & Eg). cbn [then_].
  pose proof (start_clock_spec k2 evs Hh ltac:(rewrite Ep; lia) ltac:(rewrite Ec; lia)) as H.
  case_decide; [|exact H]. destruct H as (k' & p & -> & Hr & Eq & [S1 S2 S3 S4 S5] & Ea & Ei & Epg' & Ehp' & Esy' & Ecl' & Hel).
  exists k'. split; [done|]. split; rewrite ?S2, ?S3, ?S4, ?S5; cbn;
    rewrite ?S1; cbn; rewrite ?Eq, ?Ep, ?Ec, ?Ew, ?Eg, <- ?app_assoc; try done.
  - pose proof (set_entry t 0x20 0 0 (LAPIC.id hhdm (IRQ.lapic (k_irq k))) io l1 a l2 E1) as Hs.
    cbv zeta in Hs. rewrite (accepts_same (k_io k) io) in Hs by done.
    rewrite Ei, Eio, Et. fold hhdm t.
    destruct (IOAPIC.set t 0x20 0 0 _ io) as [ok io']. destruct Hs as [_ Hw];
      [|done|lia|done|].
    { eapply Forall_impl; [exact F1|]. intros b Hb'. by rewrite (accepts_same (k_io k) io). }
    cbn [snd]. set (pin := actual_line t 0 - _) in *. rewrite !Hw, Z.eqb_refl.
    replace (0x10 + 2 * pin =? 0x11 + 2 * pin) with false by lia. rewrite !Z.eqb_refl.
    apply decode_redirection; lia || done.
  - eexists. split; [apply list_lookup_insert_eq; rewrite (ir_idt _ _ Hi); lia|]. by apply int_gate_spec.
  - intros v Hv. by rewrite list_lookup_insert_ne by done.
  - by rewrite Epg', Epg.
  - by rewrite Ehp', Ehp, Esy', Esy, Ecl', Ecl.
Qed.
(** C7: the interrupt half of the boot sequence, as a whole: from a filled
    descriptor table and a well-formed MADT that the ACPI library
    finds, installing no handler, the timer's pin is routed to vector
    0x20 of this processor, whose gate leads to its stub on the interrupt stack,
    whose handler is the clock; when at least 600 timer interrupts arrive, the
    sequence returns with the clock 600 ms further, each interrupt counted and
    acknowledged, and reports its test sleep of 100 ms as 100 ms; with fewer it
    is still halted in one of the three sleeps. *)
Theorem boot_clock evs a pin :
  madt_ok M entries len sizeof_madt l → finds M fuel k entries len sizeof_madt k1 →
  idt_ready isr (k_irq k) → is_u64 (isr 32) →
  timer_pin t (k_io k) a pin → is_u64 (LAPIC.msr_1B (IRQ.lapic (k_irq k))) →
  0 <= LAPIC.id hhdm (IRQ.lapic (k_irq k)) < 256 →
  0 <= PIT.ticks_since_boot (IRQ.pit (k_irq k)) < 1000000000000 →
  0 <= IRQ.timer_interrupt_count (k_irq k) < 1000000000000 →
  let r := then_ (start_controllers M fuel k) (start_clock evs) in
  if decide (600 <= Z.of_nat (tick_count evs)) then
    ∃ k', r = inl k' ∧ clock_runs k' ∧
      IOAPIC.decode_entry (IOAPIC.ioregs (k_io k' (IOAPIC.address a)) (0x10 + 2 * pin))
                   (IOAPIC.ioregs (k_io k' (IOAPIC.address a)) (0x11 + 2 * pin)) =
        IOAPIC.mk_fields 0x20 0 0 (active_low (IOAPIC.find_iso (isos_of l) 0)) (level (IOAPIC.find_iso (isos_of l) 0)) 0
          (LAPIC.id hhdm (IRQ.lapic (k_irq k))) ∧
      (∃ g, IDT.idt (IRQ.idt_st (k_irq k')) !! 32%nat = Some g ∧
         kernel_gate g (isr 32) (TSS.ist_index TSS.IST_IRQ)) ∧
      IRQ.irq_handlers (k_irq k') !! 0%nat = Some (Some IRQ.Timer_Handle) ∧
      PIT.ticks_since_boot (IRQ.pit (k_irq k')) = PIT.ticks_since_boot (IRQ.pit (k_irq k)) + 600 ∧
      IRQ.timer_interrupt_count (k_irq k') = IRQ.timer_interrupt_count (k_irq k) + 600 ∧
      LAPIC.writes (IRQ.lapic (k_irq k')) =
        LAPIC.writes (IRQ.lapic (k_irq k)) ++ (0xf0, 0x1ff) :: replicate 600 (0xB0, 0) ∧
      Elapsed 100 ∈ k_events k'
  else r = inr Halted.
Proof.
  intros. cbv zeta. pose proof (clock_spec evs a pin) as Hc. cbv zeta in Hc.
  case_decide; [|by apply Hc]. destruct Hc as (k' & E & []); [done..|]. exists k'. by split_and!.
Qed.
End Clock.

(** ** Samples *)

Definition boot_small : BootloaderCtx :=
  mk_ctx 0 0 [mk_entry 0x100000 0x30000 LIMINE_MEMMAP_USABLE; mk_entry 0x280000 0x30000 LIMINE_MEMMAP_USABLE]
    0xffff800000000000 0xffffffff80000000 0x200000 0 0 0.

(** A spinlock of one byte, and a library that reads the root pointer, keeps an object
    and a mutex, and finds the MADT. *)
Definition byte_lock : spinlock_class (A := heap_state) := {|
  new_spinlock := λ fuel h, '(p, h) ← kmalloc fuel h 8; Ret (p, set_h_mem (store8 (h_mem h) p 0) h);
  lock := λ p m, if load8 m p =? 0 then Ret (store8 m p 1) else Hlt;
  unlock := λ p m, store8 m p 0;
|}.

Definition small_initialize (_ : list Z) : prog (Z * list Z) :=
  Call GetRsdp (λ rsdp, Call (Map (rp_value rsdp) 36) (λ p, Call (ReadMem 4 (rp_value p)) (λ sum,
  Call CreateMutex (λ m, Call (AcquireMutex (rp_value m) 0xFFFF) (λ _, Call (Alloc 100) (λ b,
  Call (WriteMem 8 (rp_value b) (rp_value sum)) (λ _, Call (ReleaseMutex (rp_value m)) (λ _,
  Call (LogLine [0x6f; 0x6b]) (λ _, Done (0, [rp_value m])))))))))).

Definition small_find (lib : list Z) : prog (option (Z * Z * Z) * list Z) :=
  let found := Call (Map 0x1000 74) (λ _, Done (Some (0x1000, 74, 44), lib)) in
  match lib with
  | m :: _ => Call (AcquireMutex m 0xFFFF) (λ _, Call (ReleaseMutex m) (λ _, found))
  | [] => found
  end.

Definition machine_small : machine :=
  mk_machine (mk_limine 0 0 (memmap_entries boot_small) 0xffff800000000000 0xffffffff80000000 0x200000 0 0 0)
    (λ _, 0) ld_sample stub_at 0x5000 0x5800 0x6000 (λ i, i) 2 0 [] (λ _ _, (0, 0, 0, 0)) 0
    sample_madt (mk_pci_layout 6 2 3 4) (λ _ _, 0) byte_lock (λ ret, negb (ret =? 0)) small_initialize small_find
    (λ lib, Done (0, lib)) (λ lib, Done (0, lib)).

Definition kernel_small : kernel :=
  mk_kernel boot_small (UART.mk_uart [] []) GDT.initial
    (TSS.mk_tss_state (TSS.mk_tss 0 0 0 0 0 0 0 0 0 0 0 0 0 0 0) (replicate 8 0))
    (IRQ.mk_irq (replicate 256 None) 0 (replicate 256 (IRQ.mk_uh 0 0 0 false)) [] (IDT.initial stub_at)
       (PIT.mk_pit 0 0 []) (LAPIC.mk_lapic 0xFEE00900 (λ _, 0) [] 0 0))
    (mk_paging (sample_frames (λ _, 0) 0) 0 ∅ 1 0 0) 0 [] 0 false (IOAPIC.mk_tables [] [])
    idle_io Timer.NONE 0 [] [] [] [] [].

Lemma small_memory_ok :
  memory_ok machine_small kernel_small (mk_entry 0x100000 0x30000 LIMINE_MEMMAP_USABLE)
    (mk_entry 0x280000 0x30000 LIMINE_MEMMAP_USABLE).
Proof.
  split; try reflexivity.
  - split; simpl; unfold apart; split_and?; reflexivity || lia.
  - destruct layout_sample as [].
    split; try assumption. intros e He _. change (text_lo _) with 0xffffffff80000000. cbn in He. rewrite !elem_of_cons in He.
    destruct He as [->|[->|?%elem_of_nil]]; [| |done]; simpl; split_and!; lia || reflexivity.
  - simpl; lia.
  - exact stub_at_ok.
Qed.

Lemma boot_memory_witness :
  ∃ k', setup_memory machine_small kernel_small = inl k' ∧
    translate 0xffff800000000000 (k_paging k') 0xffffffff80001004 = Some (Z.lor 0x201000 RODATA_FLAGS).
Proof.
  destruct (boot_memory machine_small kernel_small _ _ small_memory_ok)
    as (k' & E & _ & _ & _ & Ht & _).
  exists k'. split; [exact E|]. etransitivity; [apply Ht; unfold upper; lia|reflexivity].
Defined.

(** The same machine after [setup_memory]'s gates, when [start_controllers] runs. *)
Definition kernel_gated : kernel := set_irq booted kernel_small.

Lemma small_madt_ok :
  madt_ok machine_small 0x1000 74 44
    [IOAPIC.OtherEntry; IOAPIC.IoApicEntry (IOAPIC.mk_ioapic 0 0xFEC00000 0);
     IOAPIC.IsoEntry (IOAPIC.mk_iso 0 2 0)].
Proof.
  split; [|lia|simpl; lia].
  do 3 (eapply laid_cons; [reflexivity|lia|]). constructor.
Qed.

Lemma small_finds fuel : ∃ k1, finds machine_small fuel kernel_gated 0x1000 74 44 k1.
Proof. by eexists. Qed.

Lemma boot_clock_witness :
  ∃ k', then_ (start_controllers machine_small 0 kernel_gated)
      (start_clock (replicate 601 TimerIrq)) = inl k' ∧
    PIT.ticks_since_boot (IRQ.pit (k_irq k')) = 641 ∧
    IOAPIC.ioregs (k_io k' 0xFEC00000) 0x14 `mod` 256 = 0x20.
Proof.
  destruct (small_finds 0) as [k1 Hf].
  pose proof (boot_clock machine_small 0 kernel_gated k1 stub_at _ _ _ _ (replicate 601 TimerIrq)
    (IOAPIC.mk_ioapic 0 0xFEC00000 0) 2 small_madt_ok Hf booted_ready (proj1 (stub_at_ok 32 ltac:(lia)))) as H.
  cbv zeta in H. rewrite decide_True in H by (vm_compute; discriminate).
  destruct H as (k' & E & _ & Hd & _ & _ & Ht & _).
  - split; [exists [], []; split; [reflexivity|constructor]|reflexivity|simpl; lia|reflexivity].
  - unfold is_u64; simpl; lia.
  - vm_compute; split; [discriminate|reflexivity].
  - simpl; lia.
  - simpl; lia.
  - exists k'. split; [exact E|]. split; [exact Ht|].
    apply (f_equal IOAPIC.vector) in Hd. simpl in Hd.
    change 0xFF with (Z.ones 8) in Hd. rewrite Z.land_ones in Hd by lia. exact Hd.
Defined.
