(* ===== verification/BootSeq.v ===== *)
(** * BootSeq: the whole boot sequence.

    The stages of [Kernel] put together: from what the machine and the boot loader
    provide ([boot_ok]), [kernel_start] returns with every component ready at once.
    Nothing of the source is modelled here. *)
From stdpp Require Import base numbers list gmap strings.
From S2P Require Import Prelude Mem Boot Frames Paging PageTables Mapper AddressSpace Heap HeapSpec HeapPages.
From S2P Require Import Allocator HeapTables Tss Timer IoApic Lapic Interrupts IrqState Symbols SymbolHeap Arch Acpi.
From S2P Require Import State Uacpi Kernel.
Local Open Scope Z_scope.

Section Sequence.
Context (M : machine) (L : spinlock_laws (m_spinlock M)).
Context (ea eb : memmap_entry) (entries len sizeof_madt : Z) (l : list IOAPIC.madt_entry).
Context (a : IOAPIC.madt_ioapic) (pin : Z).
Let boot := gather (m_limine M).
Let hhdm := hhdm_offset (m_limine M).

(** The entries [load_symbols] makes, in the file's order. *)
Definition functions : list symbol_entry :=
  functions_of (m_st_type M) (m_stt_func M) (m_strtab M) (m_symtab M).

(** The pages of the controllers' registers. *)
Definition devices (k0 : kernel) : list request :=
  device_requests hhdm (LAPIC.msr_1B (IRQ.lapic (k_irq k0))) l.

(** Frames for the ACPI library and the controllers' tables. *)
Definition reserve (k0 : kernel) : Z := frames_left M (set_boot boot k0) ea - Z.of_nat (length functions).

(** What the ACPI library does with the kernel whose symbols are loaded: its
    initialisation keeps to the rules, whatever status it returns, and so does the
    lookup after it, which finds the MADT and leaves the frames the controllers need. *)
Definition library_ok (k0 : kernel) (f : frame_state) (static : list Z) : Prop :=
  lawful M boot f
    (λ x n own v, lawful M boot f
       (λ y n own v, y.1 = Some (entries, len, sizeof_madt) ∧ Z.of_nat (base.size (tables_for (devices k0))) <= n)
       n own v (m_uacpi_table_find M x.2))
    (reserve k0) ∅ (k_mem f) (m_uacpi_initialize M static).

(** What the sequence finds when it starts in [k0]. *)
Record boot_ok (k0 : kernel) : Prop := {
  bo_echo : ∃ rest, UART.input (k_uart k0) = 0xAE :: rest;
  bo_memory : memory_ok M (set_boot boot k0) ea eb;
  bo_heap : k_heap k0 = 0;
  bo_symbols : Z.of_nat (length functions) <= MAX_SYMBOLS ∧ Forall entry_typed functions;
  bo_room : 0 <= reserve k0;
  bo_library : ∀ fuel k, then_ (then_ (start_serial M k0) (setup_memory M)) (load_symbols M fuel) = inl k →
    library_ok k0 (p_fr (k_paging k)) (k_uacpi k);
  bo_calls : k_calls k0 = [] ∧ k_timer k0 = Timer.NONE;
  bo_madt : madt_ok M entries len sizeof_madt l;
  bo_tables : length (IRQ.irq_handlers (k_irq k0)) = 256%nat ∧ length (IRQ.uacpi_handlers (k_irq k0)) = 256%nat;
  bo_pin : timer_pin (IOAPIC.mk_tables (ioapics_of l) (isos_of l)) (k_io k0) a pin;
  bo_msr : is_u64 (LAPIC.msr_1B (IRQ.lapic (k_irq k0)));
  bo_id : 0 <= LAPIC.id hhdm (IRQ.lapic (k_irq k0)) < 256;
  bo_ticks : 0 <= PIT.ticks_since_boot (IRQ.pit (k_irq k0)) < 1000000000000;
  bo_count : 0 <= IRQ.timer_interrupt_count (k_irq k0) < 1000000000000;
  bo_devices : Forall (λ b, is_u64 (IOAPIC.address b)) (ioapics_of l);
}.

Lemma start_serial_spec k0 : boot_ok k0 →
  ∃ u, start_serial M k0 = inl (set_boot boot (set_uart u k0)).
Proof.
  intros Hok. destruct (bo_echo _ Hok) as [rest E]. unfold start_serial, UART.init.
  unfold UART.inb, UART.outb. cbn [UART.input UART.accesses mbind option_bind]. rewrite E. simpl. by eexists.
Qed.

(** The kernel whose symbols are loaded, from [k]: the heap has its first objects, the
    tables and every translation are as they were. *)
Record symbols_up (T : tree) (n : Z) (k k' : kernel) (H : list hpage) (bs : list (Z * Z)) : Prop := {
  su_tables : tables_wf hhdm (p_fr (k_paging k')) (pml4 (k_paging k')) T;
  su_space : ∀ v, translate hhdm (k_paging k') v = translate hhdm (k_paging k) v;
  su_regs : tlb (k_paging k') = tlb (k_paging k);
  su_heap : heap_wf (heap_of k') H;
  su_off : tables_off T H;
  su_frames : frames_for (heap_of k') n;
  su_blocks : blocks H ≡ₚ bs;
  su_objects : Forall2 (holds (k_mem (p_fr (k_paging k')))) bs functions;
  su_table : k_symbols k' = sort_symbol_table functions;
  su_rest : k_boot k' = k_boot k ∧ k_irq k' = k_irq k ∧ k_io k' = k_io k ∧
    k_timer k' = k_timer k ∧ k_calls k' = k_calls k;
}.

Lemma load_symbols_spec T n k :
  Z.of_nat (length functions) <= MAX_SYMBOLS → Forall entry_typed functions →
  tables_wf hhdm (p_fr (k_paging k)) (pml4 (k_paging k)) T → tlb_coherent hhdm (k_paging k) →
  base_addr (p_fr (k_paging k)) + available_frames (p_fr (k_paging k)) * 4096 < 18446744073709551616 →
  k_heap k = 0 → 0 <= n → frames_for (mk_heap (p_fr (k_paging k)) 0) (n + Z.of_nat (length functions)) →
  ∃ K k' H bs, (∀ fuel, (K <= fuel)%nat → load_symbols M fuel k = inl k') ∧ symbols_up T n k k' H bs.
Proof.
  intros Hlen Hty HT _ Htop Hh Hn Hfr. set (s := mk_heap (p_fr (k_paging k)) 0).
  assert (heap_wf s []) as Hwf by (split; try done; apply HT).
  destruct (store_entries_spec functions s [] n Hwf Hn Hfr Hty)
    as (K & h & H & bs & Hst & W & Hf & Hsp & _ & Hb & Ho).
  rewrite app_nil_r in Hb. pose proof (tables_off_nil T) as Hoff.
  eexists K, _, H, bs. split.
  - intros fuel Hfuel. unfold load_symbols, init_symbols. rewrite !collect_functions. fold functions.
    rewrite (proj2 (Z.leb_le _ _) Hlen), Hh. fold s. rewrite Hst by done. reflexivity.
  - assert (tables_wf hhdm (h_fr h) (pml4 (k_paging k)) T) as HT'
      by exact (spared_wf hhdm _ T s h [] H HT Hoff Hsp (hw_frames _ _ W)).
    destruct h as [f hd]. split; try done.
    + intros v. rewrite !(translate_tree _ _ T) by done.
      exact (spared_entry hhdm _ T s (mk_heap f hd) [] H HT Hoff Hsp v).
    + exact (spared_off hhdm _ T s (mk_heap f hd) [] H HT Hoff Hsp).
Qed.

(** The kernel the ACPI library starts from. *)
Record settled (k0 : kernel) (T : tree) (k : kernel) (H : list hpage) (bs : list (Z * Z)) : Prop := {
  st_tables : tables_wf hhdm (p_fr (k_paging k)) (pml4 (k_paging k)) T;
  st_tlb : tlb_coherent hhdm (k_paging k);
  st_space : ∀ v, upper v → translate hhdm (k_paging k) v = address_space boot (m_linker M) v;
  st_heap : heap_wf (heap_of k) H;
  st_off : tables_off T H;
  st_frames : frames_for (heap_of k) (reserve k0);
  st_blocks : blocks H ≡ₚ bs;
  st_objects : Forall2 (holds (k_mem (p_fr (k_paging k)))) bs functions;
  st_table : k_symbols k = sort_symbol_table functions;
  st_idt : IRQ.idt_st (k_irq k) = IDT.init (m_isr M) (m_idt M) (IDT.initial (m_isr M));
  st_irq : ∃ d, k_irq k = IRQ.set_idt d (k_irq k0);
  st_library : library_ok k0 (p_fr (k_paging k)) (k_uacpi k);
  st_rest : k_boot k = boot ∧ k_io k = k_io k0 ∧ k_timer k = Timer.NONE ∧ k_calls k = [];
}.

(** The first three stages. *)
Lemma settled_spec k0 : boot_ok k0 →
  ∃ K T k H bs, (∀ fuel, (K <= fuel)%nat →
    then_ (then_ (start_serial M k0) (setup_memory M)) (load_symbols M fuel) = inl k) ∧ settled k0 T k H bs.
Proof.
  intros Hok. pose proof (bo_library _ Hok) as Hlib.
  destruct (start_serial_spec k0 Hok) as [u Eu]. rewrite Eu in *. cbn [then_] in *.
  set (k1 := set_boot _ _) in *. destruct Hok as [_ Hm Hh [Hlen Hty] Hroom _ [Hc0 Ht0] _ _ _ _ _ _ _ _].
  assert (memory_ok M k1 ea eb) as Hm1 by (destruct Hm; by split).
  destruct (setup_memory_spec M k1 ea eb Hm1) as (k2 & T & E2 & [U1 U2 _ U4 U5 U6 _ U8 U9 U10 U11 (U12 & U13 & U14 & U15)]).
  rewrite E2 in *. cbn [then_] in *. change (frames_left M k1 ea) with (frames_left M (set_boot boot k0) ea) in U9.
  unfold reserve in *.
  destruct (load_symbols_spec T (reserve k0) k2)
    as (K & k3 & H & bs & E3 & [S1 S2 S3 S4 S5 S6 S7 S8 S9 (S10 & S11 & S12 & S13 & S14)]); unfold reserve in *; try done;
    [by rewrite U12|split; [done|cbn [h_fr]; lia]|].
  exists K, T, k3, H, bs. split; [exact E3|]. split; try done.
  - eapply coherent_ext; [exact S3|exact S2|exact U2].
  - intros v Hv. rewrite S2. by apply U4.
  - by rewrite S11.
  - by rewrite S11.
  - apply (Hlib K). by apply E3.
  - rewrite S10, S12, S13, S14, U11, U13, U14, U15. done.
Qed.

(** The kernels when the controllers start, [k], and when the MADT is found, [k1];
    the ACPI library started from [ks]. *)
Record ready (k0 ks k k1 : kernel) (T : tree) (H : list hpage) (bs lib : list (Z * Z)) : Prop := {
  rd_host : ∃ n own v, hosting M L ks bs n own v k1 T H lib ∧ Z.of_nat (base.size (tables_for (devices k0))) <= n;
  rd_irq : k_irq k = k_irq ks ∧ ∃ d, k_irq ks = IRQ.set_idt d (k_irq k0);
  rd_idt : IRQ.idt_st (k_irq ks) = IDT.init (m_isr M) (m_idt M) (IDT.initial (m_isr M));
  rd_space : ∀ v, upper v → translate hhdm (k_paging ks) v = address_space boot (m_linker M) v;
  rd_objects : Forall2 (holds (k_mem (p_fr (k_paging ks)))) bs functions;
  rd_table : k_symbols ks = sort_symbol_table functions;
  rd_rest : k_boot ks = boot ∧ k_boot k = boot ∧ k_io k = k_io k0;
}.

(** The ACPI library initialises and finds the MADT. *)
Lemma ready_spec k0 : boot_ok k0 →
  ∃ K ks k k1 T H bs lib, (∀ fuel, (K <= fuel)%nat →
    then_ (then_ (then_ (start_serial M k0) (setup_memory M)) (load_symbols M fuel)) (start_extensions M fuel) = inl k ∧
    finds M fuel k entries len sizeof_madt k1) ∧ ready k0 ks k k1 T H bs lib.
Proof.
  intros Hok. destruct (settled_spec k0 Hok) as (K0 & T & k3 & H & bs & E3 & S).
  destruct S as [S1 S2 S3 S4 S5 S6 S7 S8 S9 S10 S11 S12 (S13 & S14 & S15 & S16)].
  set (c := SSE.enable (m_cpuid M) (m_ecx M) (SSE.mk_cpu (k_cs k3) (Paging.cr0 (k_paging k3)) (Paging.cr4 (k_paging k3)))).
  set (ps := mk_paging (p_fr (k_paging k3)) (pml4 (k_paging k3)) (tlb (k_paging k3)) (SSE.cr0 c.2)
    (Paging.cr3 (k_paging k3)) (SSE.cr4 c.2)).
  set (ks := emit [if c.1 && SSE.test (m_cpuid M) (m_ecx M) then Success "SSE extensions enabled"
    else Critical "Failed to enable SSE"; Splash 35] (set_paging ps k3)).
  assert (∀ v, translate hhdm ps v = translate hhdm (k_paging k3) v) as Htr by (intros v; by apply translate_ext).
  assert (hosting M L ks bs (reserve k0) ∅ (k_mem (p_fr (k_paging ks))) ks T H []) as Hs.
  { apply hosting_start; try done; cbn; rewrite S13; [done|]. by apply (coherent_ext hhdm (k_paging k3)). }
  pose proof S12 as Hl. unfold library_ok in Hl. rewrite <- S13 in Hl.
  destruct (run_lawful M L ks bs S15 _ _ _ _ _ _ _ _ _ Hs Hl)
    as (K1 & [ret st1] & k4 & n1 & own1 & v1 & T1 & H1 & lib1 & E4 & Hh1 & Hl1).
  set (k5 := emit [Splash 40] (if m_unlikely_error M ret
    then emit [Critical "uacpi_initialize error: %s"] (set_uacpi st1 k4)
    else emit [Success "ACPI subsystem initialized"] (set_acpi true (set_uacpi st1 k4)))).
  assert (k_paging k5 = k_paging k4 ∧ k_heap k5 = k_heap k4 ∧ k_calls k5 = k_calls k4 ∧ k_boot k5 = k_boot k4 ∧
    k_irq k5 = k_irq k4 ∧ k_symbols k5 = k_symbols k4 ∧ k_io k5 = k_io k4 ∧ k_timer k5 = k_timer k4 ∧
    k_uacpi k5 = st1) as (P1 & P2 & P3 & P4 & P5 & P6 & P7 & P8 & P9)
    by (unfold k5; destruct (m_unlikely_error M ret); split_and!; reflexivity).
  assert (∀ fuel, (K1 <= fuel)%nat → start_extensions M fuel k3 = inl k5) as E5.
  { intros fuel Hf. unfold start_extensions. fold c. destruct c as [ok c'] eqn:Ec. cbn [fst snd] in *.
    unfold ACPI.init, call_library. fold ps ks. change (k_uacpi ks) with (k_uacpi k3). rewrite E4 by lia.
    unfold k5. by destruct (m_unlikely_error M ret). }
  clearbody k5.
  pose proof (ho_aside _ _ _ _ _ _ _ _ _ _ _ Hh1) as [A1 A2 A3 A4 A5]. cbn in A1, A2, A3, A4, A5.
  assert (hosting M L ks bs n1 own1 v1 (mask_pics k5) T1 H1 lib1) as Hm.
  { eapply hosting_same; [..|exact Hh1]; try done. split; cbn; congruence. }
  simpl in Hl1. rewrite <- P9 in Hl1.
  destruct (run_lawful M L ks bs S15 _ _ _ _ _ _ _ _ _ Hm Hl1)
    as (K2 & [madt st2] & k6 & n2 & own2 & v2 & T2 & H2 & lib2 & E6 & Hh2 & Hmadt & Hn2).
  simpl in Hmadt. subst madt.
  pose proof (ho_aside _ _ _ _ _ _ _ _ _ _ _ Hh2) as [B1 B2 B3 B4 B5]. cbn in B1, B2, B3, B4, B5.
  exists (Nat.max K0 (Nat.max K1 K2)), ks, k5, (set_uacpi st2 k6), T2, H2, bs, lib2. split.
  - intros fuel Hf. rewrite E3 by lia. cbn [then_]. split; [apply E5; lia|].
    split; [|cbn; congruence]. unfold call_library. change (k_uacpi (mask_pics k5)) with (k_uacpi k5).
      by rewrite E6 by lia.
  - split; try done.
    + exists n2, own2, v2. split; [|done]. eapply hosting_same; [..|exact Hh2]; done.
    + split; [cbn; congruence|done].
    + split_and!; cbn; congruence.
Qed.

Lemma ready_idt k0 ks k k1 T H bs lib : boot_ok k0 → ready k0 ks k k1 T H bs lib → idt_ready (m_isr M) (k_irq k).
Proof.
  intros Hok R. destruct (bo_tables _ Hok) as [H1 H2]. destruct (rd_irq _ _ _ _ _ _ _ _ R) as [-> [d Ed]].
  destruct (idt_init_spec (m_isr M) (m_idt M) (mo_isr _ _ _ _ (bo_memory _ Hok))) as (I1 & _ & _ & I4 & _).
  split; rewrite ?(rd_idt _ _ _ _ _ _ _ _ R); try done; by rewrite Ed.
Qed.

Lemma ready_gate k0 ks k k1 T H bs lib v :
  boot_ok k0 → ready k0 ks k k1 T H bs lib → 0 <= v < 256 → exception_vector v = true →
  ∃ g, IDT.idt (IRQ.idt_st (k_irq k)) !! Z.to_nat v = Some g ∧
    kernel_gate g (m_isr M v) (TSS.ist_index TSS.IST_EXCEPTION).
Proof.
  intros Hok R Hv Hex. pose proof (mo_isr _ _ _ _ (bo_memory _ Hok)) as Hisr.
  destruct (idt_init_spec (m_isr M) (m_idt M) Hisr) as (_ & _ & _ & _ & Hg).
  destruct (rd_irq _ _ _ _ _ _ _ _ R) as [-> _].
  eexists. rewrite (rd_idt _ _ _ _ _ _ _ _ R), Hg, Hex by done. split; [reflexivity|].
  apply int_gate_spec. by apply Hisr.
Qed.

Lemma devices_u64 k0 : boot_ok k0 → Forall (λ r, is_u64 (r_entry r)) (devices k0).
Proof.
  intros Hok. assert (∀ x, is_u64 x → is_u64 (r_entry (register_page hhdm x))) as Hr
    by (intros x Hx; apply lor_u64; [done|by vm_compute]).
  apply Forall_app; split.
  - apply Forall_fmap. eapply Forall_impl; [apply (bo_devices _ Hok)|]. intros b. apply Hr.
  - constructor; [|constructor]. apply Hr. unfold is_u64. rewrite land_base. dlia.
Qed.

(** The controllers' pages are mapped next to the heap. *)
Lemma devices_mapped k0 ks k k1 T H bs lib ps :
  boot_ok k0 → ready k0 ks k k1 T H bs lib → ps = map_all hhdm (k_paging k1) (devices k0) →
  ∃ T', tables_wf hhdm (p_fr ps) (pml4 ps) T' ∧ tlb_coherent hhdm ps ∧
    (∀ v, upper v → translate hhdm ps v =
       effect (devices k0) v (effect (mapped hhdm (k_calls k1)) v (address_space boot (m_linker M) v))) ∧
    heap_wf (mk_heap (p_fr ps) (k_heap k1)) H ∧ tables_off T' H ∧ blocks H ≡ₚ bs ++ lib ∧
    Forall (λ x, x.1 ∈ given (k_calls k1)) lib ∧ Forall2 (holds (k_mem (p_fr ps))) bs functions.
Proof.
  intros Hok [(n & own & v & Hh & Hn) _ _ Hsp Hob _ (Hb & _)] ->.
  destruct Hh as [R1 R2 R3 R4 R5 [R6 R7] R8 R9 R10 _ _ _ _]. rewrite Hb in *.
  change (hhdm_addr boot) with hhdm in *. unfold heap_of in *. cbn [h_fr] in *.
  pose proof (fresh_free_ahead _ (tw_frames _ _ _ _ R1) R6) as Hfa.
  destruct (map_all_spec hhdm (k_paging k1) T (devices k0)) as (T' & E & _ & _ & Ht); [done| |by apply devices_u64|].
  { unfold enough. pose proof (size_union_le (tables_for (devices k0)) (dom T)). rewrite size_dom in *. lia. }
  exists T'. split; [apply E|]. split; [by apply (ev_tlb _ _ _ _ _ E)|].
  split; [intros x Hx; by rewrite Ht, R3, Hsp|]. split; [by eapply evolved_heap|].
  split; [by eapply evolved_off|]. split; [done|]. split; [done|].
  eapply (objects_keep bs); [|done|exact Hob]. eapply keeps_trans; [exact R9|].
  intros b z Hbz. eapply evolved_keeps; [exact R4|exact R5|exact E|]. rewrite R8, elem_of_app. by left.
Qed.

(** C1: the whole boot sequence, from reset to the scheduler, the ACPI library running in
    it.  On a machine that provides what [boot_ok] says (of the library: that it keeps to
    the rules of [Uacpi.lawful] with the frames that are left, installs no handler and
    finds the MADT), for every large enough fuel: when fewer than 600 timer interrupts
    arrive the kernel is still halted in one of its three sleeps; otherwise
    [_kernel_start] returns with, all at once,
    - well-formed page tables, right cached translations, and the specified address
      space, on top of it the regions the library mapped through [uacpi_kernel_map], and
      on top of these the controllers' register pages;
    - a well-formed heap, apart from every table, whose blocks are one per function
      symbol of the kernel's file, each still holding its entry (neither the library nor
      the tables built after it touched it), and blocks at addresses the library was
      given; and the symbol table sorted;
    - a kernel gate on the exception stack for every exception, and for the timer a
      gate on the interrupt stack that leads to its stub;
    - the timer's line routed to that vector of this processor, its handler the clock,
      600 ms counted, and the test sleep of 100 ms reported as 100 ms. *)
Theorem boot_complete k0 evs :
  boot_ok k0 →
  ∃ K, ∀ fuel, (K <= fuel)%nat →
    if decide (600 <= Z.of_nat (tick_count evs)) then
      ∃ k T H bs lib, kernel_start M fuel evs k0 = inl k ∧
        tables_wf hhdm (p_fr (k_paging k)) (pml4 (k_paging k)) T ∧
        tlb_coherent hhdm (k_paging k) ∧
        (∀ v, upper v → translate hhdm (k_paging k) v =
           effect (devices k0) v (effect (mapped hhdm (k_calls k)) v (address_space boot (m_linker M) v))) ∧
        heap_wf (heap_of k) H ∧ tables_off T H ∧ blocks H ≡ₚ bs ++ lib ∧
        Forall (λ x, x.1 ∈ given (k_calls k)) lib ∧
        Forall2 (holds (k_mem (p_fr (k_paging k)))) bs functions ∧
        k_symbols k = sort_symbol_table functions ∧
        (∀ v, 0 <= v < 256 → exception_vector v = true →
           ∃ g, IDT.idt (IRQ.idt_st (k_irq k)) !! Z.to_nat v = Some g ∧
             kernel_gate g (m_isr M v) (TSS.ist_index TSS.IST_EXCEPTION)) ∧
        (∃ g, IDT.idt (IRQ.idt_st (k_irq k)) !! 32%nat = Some g ∧
           kernel_gate g (m_isr M 32) (TSS.ist_index TSS.IST_IRQ)) ∧
        (let f := IOAPIC.decode_entry (IOAPIC.ioregs (k_io k (IOAPIC.address a)) (0x10 + 2 * pin))
                    (IOAPIC.ioregs (k_io k (IOAPIC.address a)) (0x11 + 2 * pin)) in
         IOAPIC.vector f = 0x20 ∧ IOAPIC.mask f = 0 ∧ IOAPIC.dest f = LAPIC.id hhdm (IRQ.lapic (k_irq k0))) ∧
        clock_runs k ∧
        PIT.ticks_since_boot (IRQ.pit (k_irq k)) = PIT.ticks_since_boot (IRQ.pit (k_irq k0)) + 600 ∧
        Elapsed 100 ∈ k_events k
    else kernel_start M fuel evs k0 = inr Halted.
Proof.
  intros Hok. destruct (ready_spec k0 Hok) as (K & ks & k & k1 & T & H & bs & lib & E & R). exists K. intros fuel Hf.
  destruct (E fuel Hf) as [Ek Hfd]. unfold kernel_start, kernel_pre_setup. rewrite Ek.
  change (then_ (inl k) (start_controllers M fuel)) with (start_controllers M fuel k).
  destruct (rd_irq _ _ _ _ _ _ _ _ R) as [Eks [d Ed]]. rewrite <- Eks in Ed.
  destruct (rd_rest _ _ _ _ _ _ _ _ R) as (_ & Ebt & Eio).
  pose proof (clock_spec M fuel k k1 (m_isr M) entries len sizeof_madt l evs a pin (bo_madt _ Hok) Hfd
    (ready_idt _ _ _ _ _ _ _ _ Hok R)) as Hc. cbv zeta in Hc. rewrite Ebt, Eio, Ed in Hc.
  change (hhdm_addr boot) with hhdm in Hc.
  specialize (Hc (proj1 (mo_isr _ _ _ _ (bo_memory _ Hok) 32 ltac:(lia))) (bo_pin _ Hok) (bo_msr _ Hok)
    (bo_id _ Hok) (bo_ticks _ Hok) (bo_count _ Hok)).
  case_decide; [|by rewrite Hc].
  destruct Hc as (k' & -> & [C1 C2 C3 C4 _ C6 _ _ C9 C10 (C11 & C12 & C13)]). cbn [then_].
  rewrite Ed in C2, C6, C10. rewrite Ebt in C2. rewrite Ebt in C10.
  destruct (devices_mapped k0 ks k k1 T H bs lib (k_paging k') Hok R C10) as (T' & D1 & D2 & D3 & D4 & D5 & D6 & D7 & D8).
  destruct (rd_host _ _ _ _ _ _ _ _ R) as (n & own & w & Hh & _). pose proof (as_symbols _ _ (ho_aside _ _ _ _ _ _ _ _ _ _ _ Hh)) as Esy.
  eexists _, T', H, bs, lib. split; [reflexivity|]. unfold heap_of. cbn [emit k_paging k_heap k_symbols k_irq k_io k_events k_calls].
  rewrite C11, C12, C13, Esy, (rd_table _ _ _ _ _ _ _ _ R). split_and!; try done.
  - intros v Hv Hex. rewrite C4 by (intros Ev; assert (v = 32) as -> by lia; discriminate Hex).
    by apply (ready_gate k0 ks k k1 T H bs lib).
  - by rewrite C2.
  - by rewrite C2.
  - by rewrite C2.
  - by apply clock_runs_emit.
  - apply elem_of_app. by left.
Qed.
End Sequence.

(** ** Witness: the sample machine, with one function and an object in its symbol table *)

Definition machine_cold : machine :=
  mk_machine (mk_limine 0 0 (memmap_entries boot_small) 0xffff800000000000 0xffffffff80000000 0x200000 0 0
      0xffff800000000000)
    (m_mem machine_small) (m_linker machine_small) (m_isr machine_small)
    (m_gdt machine_small) (m_tss machine_small) (m_idt machine_small) (λ i, Z.land i 0xf) 2 0x9000
    [mk_elf_sym 1 0x12 0xffffffff80000040 0x10; mk_elf_sym 9 0x11 0xffffffff80002000 8]
    (m_cpuid machine_small) (m_ecx machine_small) (m_madt_at machine_small)
    (m_pci machine_small) (m_device machine_small) byte_lock (m_unlikely_error machine_small)
    small_initialize small_find (m_uacpi_prepare machine_small) (m_uacpi_enter machine_small).

(** The serial port echoes its test byte. *)
Definition kernel_cold : kernel := set_uart (UART.mk_uart [] [0xAE]) kernel_small.

(** The byte is a spinlock. *)
Program Definition byte_lock_laws : spinlock_laws byte_lock := {|
  sl_size := 8;
  sl_free := λ p m, load8 m p = 0;
  sl_construct := λ p m, store8 m p 0;
|}.
Next Obligation. lia. Qed.
Next Obligation. done. Qed.
Next Obligation. intros p m. split; [by rewrite load8_store8|]. intros a Ha. unfold store8. by rewrite store_out by (simpl; lia). Qed.
Next Obligation. intros p m m' Hs Hl. rewrite <- Hl, !load8_eq, (Hs p) by lia. done. Qed.
Next Obligation.
  intros p m Hl. exists (store8 m p 1). split; [simpl; by rewrite Hl|].
  intros a Ha. unfold store8. by rewrite store_out by (simpl; lia).
Qed.
Next Obligation. intros p m. split; [simpl; by rewrite load8_store8|]. intros a Ha. simpl. unfold store8. by rewrite store_out by (simpl; lia). Qed.

Definition small_entries : list IOAPIC.madt_entry :=
  [IOAPIC.OtherEntry; IOAPIC.IoApicEntry (IOAPIC.mk_ioapic 0 0xFEC00000 0); IOAPIC.IsoEntry (IOAPIC.mk_iso 0 2 0)].
Definition small_pool : memmap_entry := mk_entry 0x100000 0x30000 LIMINE_MEMMAP_USABLE.

(** The sample library keeps to the rules with the frames that are left. *)
Lemma small_library f static :
  library_ok machine_cold small_pool 0x1000 74 44 small_entries kernel_cold f static.
Proof.
  unfold library_ok. replace (reserve machine_cold small_pool kernel_cold) with 17 by (by vm_compute).
  set (boot := gather (m_limine machine_cold)).
  assert (cost boot (Map (rsdp_addr boot) 36) = 3 ∧ cost boot (Map 0x1000 74) = 3) as [C1 C2] by (by vm_compute).
  assert (Z.of_nat (base.size (tables_for (devices machine_cold small_entries kernel_cold))) = 4) as Cd by (by vm_compute).
  clearbody boot. change (m_uacpi_initialize machine_cold static) with (small_initialize static). unfold small_initialize.
  apply (lawful_call _ _ _ _ 0 _ 17); [done|done|done|done|]. intros r ? ? (-> & -> & ->).
  apply (lawful_call _ _ _ _ 3 _ 14); [done|exact C1|done|done|]. intros p ? ? (_ & -> & ->).
  apply (lawful_call _ _ _ _ 0 _ 14); [done|done|done|done|]. intros sum ? ? (_ & -> & ->).
  apply (lawful_call _ _ _ _ 1 _ 13); [done|done|done|done|]. intros m ? v1 (_ & Hm & _ & -> & _).
  apply (lawful_call _ _ _ _ 0 _ 13); [apply lookup_insert_eq|done|done|done|]. intros ? ? ? (_ & -> & ->).
  apply (lawful_call _ _ _ _ 1 _ 12); [cbn; lia|done|done|done|]. intros b ? v2 (_ & Hb & Hnb & -> & _).
  rewrite insert_insert_eq. rewrite insert_insert_eq in Hnb. apply lookup_insert_None in Hnb as [_ Hnb].
  apply (lawful_call _ _ _ _ 0 _ 12); [|done|done|done|].
  { left. exists (rp_value b), 100. rewrite lookup_insert_eq. split; [done|simpl; lia]. }
  intros ? ? ? (-> & ->).
  apply (lawful_call _ _ _ _ 0 _ 12); [by simpl; rewrite lookup_insert_ne, lookup_insert_eq|done|done|done|].
  intros ? ? ? (-> & ->). apply (lawful_call _ _ _ _ 0 _ 12); [done|done|done|done|]. intros ? ? ? (-> & ->).
  cbn [lawful]. change (m_uacpi_table_find machine_cold) with small_find. cbn [snd small_find].
  apply (lawful_call _ _ _ _ 0 _ 12); [apply lookup_insert_eq|done|done|done|]. intros ? ? ? (_ & -> & ->).
  apply (lawful_call _ _ _ _ 0 _ 12); [apply lookup_insert_eq|done|done|done|]. intros ? ? ? (-> & ->).
  apply (lawful_call _ _ _ _ 3 _ 9); [done|exact C2|done|done|]. intros ? ? ? (_ & -> & ->).
  split; [done|]. rewrite Cd. done.
Qed.

Lemma cold_ok :
  boot_ok machine_cold small_pool
    (mk_entry 0x280000 0x30000 LIMINE_MEMMAP_USABLE) 0x1000 74 44 small_entries
    (IOAPIC.mk_ioapic 0 0xFEC00000 0) 2 kernel_cold.
Proof.
  split.
  - by exists [].
  - assert (gather (m_limine machine_cold) = boot_small) as -> by (vm_compute; reflexivity). destruct small_memory_ok. by split.
  - reflexivity.
  - split; [vm_compute; discriminate|]. repeat constructor; vm_compute; done.
  - vm_compute. discriminate.
  - intros fuel k _. apply small_library.
  - by split.
  - destruct small_madt_ok. by split.
  - by split.
  - split; [exists [], []; split; [reflexivity|constructor]|reflexivity|simpl; lia|reflexivity].
  - vm_compute. done.
  - vm_compute. done.
  - simpl; lia.
  - simpl; lia.
  - repeat constructor; vm_compute; done.
Qed.

Lemma boot_complete_witness :
  ∃ K k, kernel_start machine_cold K (replicate 601 TimerIrq) kernel_cold = inl k ∧
    k_symbols k = [mk_symbol 0xffffffff80000040 0x9001 0x10] ∧
    translate 0xffff800000000000 (k_paging k) 0xffff8000FEC00010 = Some 0xFEC00003 ∧
    PIT.ticks_since_boot (IRQ.pit (k_irq k)) = 600.
Proof.
  destruct (boot_complete machine_cold byte_lock_laws _ _ _ _ _ _ _ _ kernel_cold (replicate 601 TimerIrq) cold_ok) as [K HK].
  specialize (HK K (le_n K)). rewrite decide_True in HK by (vm_compute; discriminate).
  destruct HK as (k & T & H & bs & lib & E & _ & _ & Ht & _ & _ & _ & _ & _ & Es & _ & _ & _ & _ & Hk & _).
  exists K, k. split; [exact E|]. split; [rewrite Es; vm_compute; reflexivity|]. split; [|exact Hk].
  etransitivity; [apply Ht; unfold upper; lia|]. reflexivity.
Defined.
